(* ===== verification/_CoqProject ===== *)
-Q . S2P
Prelude.v
Param.v
Bytes.v
Kalloc.v
Ualloc.v
Bio.v
Virtio.v
Log.v
Blocks.v
Bmap.v
Fs.v
Inodes.v
FsFile.v
Trunc.v
Dirs.v
Mkfs.v
Boot.v
Mbuf.v
Pages.v
PageTable.v
UserMem.v
Pipe.v
Console.v
Net.v
E1000.v
SleepLock.v
Process.v
