(* ===== verification/Prelude.v ===== *)
(** * xv6rs: a verification development

    xv6rs is a port of the teaching kernel xv6 to Rust for RISC-V.  This
    library models its storage stack, its memory management, its network stack, its
    processes, console, pipes and sleep locks as Rocq functions, and proves what makes them correct.  It also
    models [mkfs], which builds the disk image, and the allocator of user
    programs.  All paths below are relative to [src/].

    ** Method

    Every function of the code is a definition of the same name.  Stateful code
    is a function in the monad [M S A] of this file: a state in, an [outcome]
    out.  An outcome is a result with a new state, a panic (the build aborts on
    panic, so nothing runs afterwards), a call that went to sleep, a loop that
    ran out of fuel, or undefined behaviour ([Undef]: an access outside of the object a raw pointer was
    made for, an enum without a valid value).  [wp m s Q] is total correctness: [m] returns from [s]
    without panic, sleep, lack of fuel or undefined behaviour, and the result satisfies [Q].
    Machine integers are [Z] with their wrap-around written out ([wrap], [⊞],
    [⊟], [⊠] for [usize], [u32_add] and the like for [u32]), as in the release
    build, whose overflow checks are off.  Components that call each other are
    joined by type classes: the client is proved against the class, and the
    implementation's theorems give its instance.

    ** The files

    - [Prelude.v]: outcomes, the monad, [wp] and its rules, machine integers,
      generic lemmas on lists and [step_by] ranges.  [Param.v]: the constants
      of [kernel/src/param.rs].  [Bytes.v]: little-endian encodings of
      [repr(C)] data.
    - [Kalloc.v]: the kernel heap, [kernel/src/kalloc/linked_list.rs].  A state
      is the chain of free regions.  Blocks handed out are disjoint, aligned and
      inside the heap from every reachable state; [alloc] is first fit; and the
      gap left by an over-aligned allocation is lost.
    - [Ualloc.v]: the user allocator, [user/src/allocator.rs], over the class
      [Sbrk] (the system call).  The same safety holds as long as [sbrk]
      succeeds; two theorems show a request that takes all memory although it fits in a few pages, and the
      corruption after a failed [sbrk].
    - [Bio.v]: the buffer cache, [kernel/src/bio.rs].  The LRU list with its
      pointers and the buffers with their locks refine an abstract cache
      ([cabs]) in which a block is its contents and a lock.
    - [Virtio.v]: the disk driver, [kernel/src/virtio.rs], over the class
      [VirtioDevice] (the device).  An invariant over all interleavings of
      requests, the device and interrupts; a request has the effect on the disk
      that [Bio.v] assumes.  The device is assumed to serve requests in order and without
      error, which the virtio specification does not promise.
    - [Log.v]: the write-ahead log, [kernel/src/log.rs], on [Bio.v].  A crash
      after any prefix of the device writes recovers a committed state.
    - [Blocks.v]: the class [BlockOps] through which file-system code reaches
      blocks inside a transaction, its laws, and the instance by the cache and
      the log; and three operations that are admitted together and overrun the log.
    - [Bmap.v]: the super block and the free-block bitmap,
      [kernel/src/superblock.rs] and [kernel/src/bmap.rs], against [BlockLaws].
    - [Fs.v], [FsFile.v]: [kernel/src/fs.rs].  [Fs.v] holds the operations
      (inode table, inodes on disk, block map, contents, directories, paths,
      [create], [unlink]) and the theorems on inodes and path elements;
      [FsFile.v] proves that [readi] and [writei] read and update the contents
      of a file through direct, indirect and double-indirect blocks.
    - [Mkfs.v], [Boot.v]: [mkfs/src/main.rs].  The image has the layout the
      kernel expects (every read of a program file is taken to fill the buffer up to the
      end of the file), and the kernel's log recovers it, locks the root inode
      and reads the directory entries that [mkfs] wrote.
    - [Pages.v]: the class [PageAlloc] and its instance by [Kalloc.v].
      [PageTable.v], [UserMem.v]: [kernel/src/page_table.rs] and [kvm_map] of
      [kernel/src/kvm.rs].  Physical memory is typed into tables and data
      frames.  The theorems describe mapping, growing, shrinking and cloning
      address spaces and the copies between kernel and user memory as changes of
      the memory a program sees ([umem]).
    - [Pipe.v]: pipes, the [Pipe] branches of [kernel/src/file.rs], over the
      class [ProcMem], with the instance by page tables.  In every interleaving of
      readers and writers the bytes come out first in first out.
    - [SleepLock.v]: [kernel/src/sleeplock.rs] with [Proc::sleep]
      ([kernel/src/proc.rs]), [wakeup] and [find_runnable]
      ([kernel/src/process.rs]) and the switch of [kernel/src/cpu.rs], as a step
      relation over any number of processes.  Mutual exclusion and no lost
      wakeup hold in every reachable state; a deadlock between [sleep] and
      [wakeup] is reachable.
    - [Inodes.v], [Trunc.v], [Dirs.v]: more of [kernel/src/fs.rs].  The inode table counts
      exactly the references handed out by [iget] and [idup] and returned by
      [iput], and the last [iput] of an inode without links frees it and its blocks on disk;
      [dirlink] enters a name where [dirlookup] then finds it.
    - [Mbuf.v]: packet buffers, [kernel/src/mbuf.rs], over the class [BoxHeap]
      with the instance by [Kalloc.v].  [Net.v]: [kernel/src/net], over the
      classes [Nic] (the card) and [ProcMem].  A datagram written to a socket is
      what the peer's socket reads; for every frame that arrives it is decided whether the
      kernel handles it, panics or has undefined behaviour; [connect] always finds a
      port; the byte swaps reverse bytes.
    - [E1000.v]: the driver of the network card, [kernel/src/e1000.rs], over the class
      [Regs] (the registers); it gives the instance of [Nic].  In every
      interleaving with the card frames are sent in order and uncorrupted, the
      interrupt delivers what has arrived, and a full ring stalls for good.  The card takes no step
      while the interrupt handler runs, and its last wake-up, on the address of the
      driver, on which no process sleeps, is left out.
    - [Console.v]: the console and its UART, [kernel/src/console.rs] and [kernel/src/uart.rs], over
      the class [Uart] (the registers).  The interrupt handler edits and commits lines as a
      reference line editor does, [read] takes from the committed characters,
      and a writer that sleeps on a full transmit buffer is not woken.
    - [Process.v]: the life of a process, [kernel/src/process.rs] and parts of
      [kernel/src/proc.rs], over the class [ProcRes] (pages, files, inodes, the log).  The state is
      the table of processes, the parents and the next process id; [step]
      interleaves the calls of all processes.  The tree of processes stays
      sound, [exit] gets through and hands its children to the init process, [wait] and [fork]
      are described on every branch.

    ** Fuel and bounds

    Loops over a list or a range are structural.  Fuel is used where the code
    loops on a condition.  The copies between kernel and user memory get the
    number of bytes and a string copy one more than its buffer, each round
    moving at least one byte; [readi], [writei] and [iappend] get [n / BSIZE + 2]
    rounds, since every round but the first and the last moves a whole block; a
    pipe write gets the bytes left; walks of the LRU list get one more than its
    length; a chain of descriptors gets the size of the table; [recv] gets one round
    more than the ring has descriptors; folding the sum of the IP checksum gets
    three rounds, of which two can be needed; [start] gets one round more than the
    transmit buffer holds, [drain] one more than the sixteen characters of the chip, and
    the wait for the transmit register the patience that the class [Uart] promises.  The theorems on
    these loops are stated with [wp] or with the resulting [Done], which exclude
    running out of fuel, so the bounds are proved to be enough.  [Virtio.intr] and
    [Ualloc.alloc] take their fuel as an argument: the theorems on them ask for
    as many rounds as there are served requests, or prove for a given fuel that
    it does not suffice ([used_index_wraps] below [2^32 - 65535] rounds,
    [unlucky_alloc_drains_memory] as long as [sbrk] has the memory).

    ** Modelled without a theorem

    These operations are executable definitions; nothing is proved of them alone:
    - in [Fs.v] [ialloc], the path walk [namex] (fuel: one round per
      byte of the path), [create] and [unlink];
    - in [PageTable.v] [drop_table] (fuel: the three levels),
      [alloc_user_page_table], [uvm_init], [uvm_clear] and [kvm_init];
    - in [Console.v] [write] and [uart_init]; in [Process.v] [exit], of which the two
      halves are proved apart.

    ** Not modelled

    - Of [kernel/src/proc.rs] and [process.rs] the mapping of kernel stacks, contexts, [mmap], the
      dispatch of system calls and the decoding of their arguments; [proc/syscall.rs] and
      [proc/elf.rs], which call the operations of the other components.
      [Process.v] covers their effect on the table: a system call may change all that its
      process owns, but leaves it a page table, a trap frame and a directory.
    - The inode, device and socket branches of [kernel/src/file.rs], which pass
      calls on to [fs.rs], [console.rs] and [net/].
    - Interrupt masking ([push_off], [pop_off]) and the memory orderings of
      spin locks: [SleepLock.v] assumes sequentially consistent memory.
    - [net/tcp.rs], which only declares a header, and [pci.rs], which writes the
      configuration space of the card.
    - Traps, boot code, control registers and assembly ([trap.rs], [start.rs],
      [register/], the [.S] files): their meaning is that of the hardware, which
      is not part of the sources.
    - The user library and sample programs other than the allocator: thin
      wrappers over system calls. *)

From Stdlib Require Export ZArith Lia.
From stdpp Require Export base tactics numbers option gmap strings list list_numbers.

#[global] Open Scope Z_scope.

(** ** Notations of the development *)

Declare Scope xv6_scope.
Delimit Scope xv6_scope with xv6.
#[global] Open Scope xv6_scope.

(** ** Outcomes

    A call of kernel code either returns, aborts (the workspace sets
    [panic = "abort"] in both profiles, so no state survives a panic), or
    goes to sleep waiting for another process.  A [while] loop over a pointer
    chain is modelled with fuel, and [OutOfFuel] records that the fuel ran
    out.  [Undef] is undefined behaviour: an access outside of an object, or an enum that
    holds none of its values; the source does not say what follows.  Total
    correctness ([wp] below) excludes all but a return. *)

Inductive outcome (A : Type) : Type :=
| Done (a : A)
| Panic (msg : string)
| Sleep
| OutOfFuel
| Undef.
Arguments Done {A} _.
Arguments Panic {A} _.
Arguments Sleep {A}.
Arguments OutOfFuel {A}.
Arguments Undef {A}.

(** Rust's [Result<T, &'static str>]. *)
Inductive result (A : Type) : Type :=
| Ok (a : A)
| Err (msg : string).
Arguments Ok {A} _.
Arguments Err {A} _.

(** ** The state monad with panics *)

Definition M (S A : Type) : Type := S -> outcome (A * S).

Definition ret {S A} (a : A) : M S A := fun s => Done (a, s).
Definition bind {S A B} (m : M S A) (k : A -> M S B) : M S B :=
  fun s => match m s with
           | Done (a, s') => k a s'
           | Panic msg => Panic msg
           | Sleep => Sleep
           | OutOfFuel => OutOfFuel
           | Undef => Undef
           end.
Definition panic {S A} (msg : string) : M S A := fun _ => Panic msg.
Definition sleep {S A} : M S A := fun _ => Sleep.
Definition out_of_fuel {S A} : M S A := fun _ => OutOfFuel.
Definition undefined {S A} : M S A := fun _ => Undef.
Definition get {S} : M S S := fun s => Done (s, s).
Definition put {S} (s : S) : M S unit := fun _ => Done (tt, s).
Definition modify {S} (f : S -> S) : M S unit := fun s => Done (tt, f s).
Definition assert {S} (b : bool) (msg : string) : M S unit :=
  if b then ret tt else panic msg.
(** [o.unwrap()] / [o.expect(msg)] *)
Definition unwrap {S A} (o : option A) (msg : string) : M S A :=
  match o with Some a => ret a | None => panic msg end.

(** Following a raw pointer to an object that may not be there. *)
Definition deref {S A} (o : option A) : M S A :=
  match o with Some a => ret a | None => undefined end.

(** [l[i]], which panics out of bounds. *)
Definition get_at {S A} (l : list A) (i : nat) : M S A := unwrap (l !! i) "index out of bounds".

Notation "'let!' x := m 'in' k" := (bind m (fun x => k))
  (at level 10, x name, m at level 100, k at level 200) : xv6_scope.
Notation "'let!' ' p := m 'in' k" := (bind m (fun x => match x with p => k end))
  (at level 10, p pattern, m at level 100, k at level 200) : xv6_scope.
Notation "m ;; k" := (bind m (fun _ => k))
  (at level 100, k at level 200, right associativity) : xv6_scope.

Lemma bind_Done {S A B} (m : M S A) (k : A -> M S B) s a s' :
  m s = Done (a, s') -> bind m k s = k a s'.
Proof. unfold bind. by intros ->. Qed.

Lemma bind_Sleep {S A B} (m : M S A) (k : A -> M S B) s : m s = Sleep -> bind m k s = Sleep.
Proof. unfold bind. by intros ->. Qed.

Lemma bind_Panic {S A B} (m : M S A) (k : A -> M S B) s msg :
  m s = Panic msg -> bind m k s = Panic msg.
Proof. unfold bind. by intros ->. Qed.

(** [for x in l { body }], the body reading and changing the state. *)
Fixpoint mfor {S X} (l : list X) (body : X -> M S unit) : M S unit :=
  match l with
  | [] => ret tt
  | x :: l => body x ;; mfor l body
  end.

(** Total correctness: the call returns and its result satisfies [Q]. *)
Definition wp {S A} (m : M S A) (s : S) (Q : A -> S -> Prop) : Prop :=
  match m s with
  | Done (a, s') => Q a s'
  | Panic _ | Sleep | OutOfFuel | Undef => False
  end.

Section wp_rules.
Context {S : Type}.

Lemma wp_ret {A} (a : A) (s : S) (Q : A -> S -> Prop) : Q a s -> wp (ret a) s Q.
Proof. done. Qed.

Lemma wp_bind {A B} (m : M S A) (k : A -> M S B) s Q :
  wp m s (fun a s' => wp (k a) s' Q) -> wp (bind m k) s Q.
Proof. unfold wp, bind. destruct (m s) as [[a s']| | | |]; done. Qed.

Lemma wp_mono {A} (m : M S A) s (P Q : A -> S -> Prop) :
  wp m s P -> (forall a s', P a s' -> Q a s') -> wp m s Q.
Proof. unfold wp. destruct (m s) as [[a s']| | | |]; naive_solver. Qed.

Lemma wp_Done {A} (m : M S A) s a s' (Q : A -> S -> Prop) :
  m s = Done (a, s') -> Q a s' -> wp m s Q.
Proof. unfold wp. by intros ->. Qed.

Lemma wp_elim {A} (m : M S A) s (Q : A -> S -> Prop) :
  wp m s Q -> exists a s', m s = Done (a, s') /\ Q a s'.
Proof. unfold wp. destruct (m s) as [[a s']| | | |]; naive_solver. Qed.

Lemma wp_get s (Q : S -> S -> Prop) : Q s s -> wp get s Q.
Proof. done. Qed.

Lemma wp_put s s' (Q : unit -> S -> Prop) : Q tt s' -> wp (put s') s Q.
Proof. done. Qed.

Lemma wp_modify f s (Q : unit -> S -> Prop) : Q tt (f s) -> wp (modify f) s Q.
Proof. done. Qed.

Lemma wp_assert b msg s (Q : unit -> S -> Prop) :
  b = true -> Q tt s -> wp (assert b msg) s Q.
Proof. by intros ->. Qed.

Lemma wp_unwrap {A} (o : option A) a msg s (Q : A -> S -> Prop) :
  o = Some a -> Q a s -> wp (unwrap o msg) s Q.
Proof. by intros ->. Qed.

Lemma wp_deref {A} (o : option A) a s (Q : A -> S -> Prop) : o = Some a -> Q a s -> wp (deref o) s Q.
Proof. by intros ->. Qed.

Lemma wp_get_at {A} (l : list A) i a s (Q : A -> S -> Prop) :
  l !! i = Some a -> Q a s -> wp (get_at l i) s Q.
Proof. apply wp_unwrap. Qed.

(** A call that returns, followed by code that panics. *)
Lemma bind_panics {A B} (m : M S A) (k : A -> M S B) s Q msg :
  wp m s Q -> (forall a s', Q a s' -> k a s' = Panic msg) -> bind m k s = Panic msg.
Proof. unfold wp, bind. destruct (m s) as [[a s']| | | |]; naive_solver. Qed.

Lemma mfor_app_Done {X} (l l' : list X) (body : X -> M S unit) s s' :
  mfor l body s = Done (tt, s') -> mfor (l ++ l') body s = mfor l' body s'.
Proof.
  revert s. induction l as [|x l IH]; intros s; [by intros [= <-]|]. cbn [app mfor]. unfold bind.
  destruct (body x s) as [[[] s1]| | | |]; try done. apply IH.
Qed.

(** The loop rule: an invariant indexed by the elements already visited. *)
Lemma wp_mfor {X} (l : list X) (body : X -> M S unit) (I : list X -> S -> Prop) s
    (Q : unit -> S -> Prop) :
  I [] s ->
  (forall seen x todo s, l = seen ++ x :: todo -> I seen s ->
     wp (body x) s (fun _ s' => I (seen ++ [x]) s')) ->
  (forall s, I l s -> Q tt s) ->
  wp (mfor l body) s Q.
Proof.
  intros H0 Hstep HQ.
  enough (forall todo seen s, l = seen ++ todo -> I seen s ->
            wp (mfor todo body) s Q) as H by by apply (H l [] s).
  clear H0 s. induction todo as [|x todo IH]; intros seen s Hl HI; simpl.
  - apply wp_ret, HQ. rewrite app_nil_r in Hl. by subst.
  - apply wp_bind. eapply wp_mono; [by eapply Hstep|].
    intros [] s' HI'. apply (IH (seen ++ [x])); [|done].
    by rewrite <-app_assoc.
Qed.

(** [for i in 0..k], with an invariant indexed by [i]. *)
Lemma wp_for_range (k : nat) (body : Z -> M S unit) (I : nat -> S -> Prop) s
    (Q : unit -> S -> Prop) :
  I O s ->
  (forall i s, (i < k)%nat -> I i s -> wp (body (Z.of_nat i)) s (fun _ s' => I (Datatypes.S i) s')) ->
  (forall s, I k s -> Q tt s) ->
  wp (mfor (seqZ 0 (Z.of_nat k)) body) s Q.
Proof.
  intros H0 Hstep HQ. apply (wp_mfor _ _ (fun seen => I (length seen))); [done| |].
  - intros seen x todo s' Hl HI.
    assert (Hx : seqZ 0 (Z.of_nat k) !! length seen = Some x)
      by (rewrite Hl; apply list_lookup_middle; done).
    apply lookup_seqZ in Hx as [-> Hlt]. rewrite Z.add_0_l, length_app. simpl.
    rewrite Nat.add_1_r. apply Hstep; [lia|done].
  - intros s'. rewrite length_seqZ, Nat2Z.id. apply HQ.
Qed.

End wp_rules.

(** ** Machine integers

    [usize], [u64] on the 64-bit target, [u32], [u16], [u8] are [Z] in range.
    The Makefile builds with [--release], where integer arithmetic wraps. *)

Definition wrap (w z : Z) : Z := z `mod` 2 ^ w.

Definition usize_add (a b : Z) : Z := wrap 64 (a + b).
Definition usize_sub (a b : Z) : Z := wrap 64 (a - b).
Definition usize_mul (a b : Z) : Z := wrap 64 (a * b).
Definition u32_add (a b : Z) : Z := wrap 32 (a + b).
Definition u32_sub (a b : Z) : Z := wrap 32 (a - b).
(** [!x] on [usize] *)
Definition usize_not (a : Z) : Z := 2 ^ 64 - 1 - a.
Definition checked_add (a b : Z) : option Z :=
  if a + b <? 2 ^ 64 then Some (a + b) else None.

Notation "a ⊞ b" := (usize_add a b) (at level 50, left associativity) : xv6_scope.
Notation "a ⊟ b" := (usize_sub a b) (at level 50, left associativity) : xv6_scope.
Notation "a ⊠ b" := (usize_mul a b) (at level 40, left associativity) : xv6_scope.

Definition is_usize (z : Z) : Prop := 0 <= z < 2 ^ 64.
Definition is_u32 (z : Z) : Prop := 0 <= z < 2 ^ 32.
Definition is_u16 (z : Z) : Prop := 0 <= z < 2 ^ 16.
Definition is_u8 (z : Z) : Prop := 0 <= z < 2 ^ 8.

(** [z as i32] of a [usize]: the low 32 bits, in two's complement. *)
Definition as_i32 (z : Z) : Z :=
  let l := wrap 32 z in if l <? 2 ^ 31 then l else l - 2 ^ 32.
(** [n as usize] of an [i32]: sign extension. *)
Definition i32_as_usize (n : Z) : Z := wrap 64 n.

(** The values of [for x in (a..b).step_by(k)]. *)
Definition step_by (a b k : Z) : list Z :=
  (fun i => a + k * i) <$> seqZ 0 ((b - a + k - 1) / k).

Create HintDb xv6 discriminated.

Lemma wrap_small w z : 0 <= z < 2 ^ w -> wrap w z = z.
Proof. apply Z.mod_small. Qed.

Lemma wrap_bound w z : 0 <= w -> 0 <= wrap w z < 2 ^ w.
Proof. intros. apply Z.mod_pos_bound. lia. Qed.

Lemma usize_add_small a b : 0 <= a -> 0 <= b -> a + b < 2 ^ 64 -> a ⊞ b = a + b.
Proof. intros. apply wrap_small. lia. Qed.

Lemma usize_sub_small a b : 0 <= b <= a -> a < 2 ^ 64 -> a ⊟ b = a - b.
Proof. intros. apply wrap_small. lia. Qed.

Lemma usize_mul_small a b : 0 <= a * b < 2 ^ 64 -> a ⊠ b = a * b.
Proof. intros. by apply wrap_small. Qed.

Lemma u32_add_small a b : 0 <= a -> 0 <= b -> a + b < 2 ^ 32 -> u32_add a b = a + b.
Proof. intros. apply wrap_small. lia. Qed.

Lemma u32_sub_small a b : 0 <= b <= a -> a < 2 ^ 32 -> u32_sub a b = a - b.
Proof. intros. apply wrap_small. lia. Qed.

Lemma usize_add_bound a b : 0 <= a ⊞ b < 2 ^ 64.
Proof. by apply wrap_bound. Qed.

Lemma usize_sub_bound a b : 0 <= a ⊟ b < 2 ^ 64.
Proof. by apply wrap_bound. Qed.

Lemma checked_add_Some a b c : checked_add a b = Some c <-> c = a + b /\ a + b < 2 ^ 64.
Proof.
  unfold checked_add. destruct (Z.ltb_spec (a + b) (2 ^ 64)); (split; [intros ?|intros [-> ?]]);
    simplify_eq; lia || done.
Qed.

Lemma checked_add_None a b : checked_add a b = None <-> 2 ^ 64 <= a + b.
Proof. unfold checked_add. destruct (Z.ltb_spec (a + b) (2 ^ 64)); naive_solver lia. Qed.

(** [x & !(2^k - 1)] clears the low [k] bits. *)
Lemma land_usize_not a k :
  0 <= k <= 64 -> 0 <= a < 2 ^ 64 ->
  Z.land a (usize_not (2 ^ k - 1)) = a - a `mod` 2 ^ k.
Proof.
  intros Hk Ha.
  assert (Hn : usize_not (2 ^ k - 1) = Z.land (Z.lnot (Z.ones k)) (Z.ones 64)).
  { rewrite Z.land_ones by lia. unfold usize_not, Z.lnot.
    rewrite Z.ones_equiv, <-Z.sub_1_r.
    assert (1 <= 2 ^ k <= 2 ^ 64).
    { split; [apply (Z.pow_le_mono_r 2 0 k)|apply (Z.pow_le_mono_r 2 k 64)]; lia. }
    apply (Z.mod_unique _ _ (-1)); lia. }
  rewrite Hn, (Z.land_comm (Z.lnot _)), Z.land_assoc, (Z.land_ones a 64) by lia.
  rewrite (Z.mod_small a) by lia.
  rewrite <-Z.ldiff_land, Z.ldiff_ones_r, Z.shiftl_mul_pow2, Z.shiftr_div_pow2 by lia.
  rewrite (Z.mod_eq a (2 ^ k)); lia.
Qed.

Lemma sub_mod_le a m : 0 < m -> 0 <= a -> 0 <= a - a `mod` m <= a.
Proof. intros. pose proof (Z.mod_pos_bound a m). pose proof (Z.mod_le a m). lia. Qed.

Lemma sub_mod_mod a m : (a - a `mod` m) `mod` m = 0.
Proof. by rewrite Zminus_mod_idemp_r, Z.sub_diag, Zmod_0_l. Qed.

(** Rounding up to a multiple of [m]. *)
Definition round_up (a m : Z) : Z := (a + m - 1) - (a + m - 1) `mod` m.

Lemma round_up_spec a m :
  0 < m -> a <= round_up a m < a + m /\ round_up a m `mod` m = 0.
Proof.
  intros Hm. unfold round_up. rewrite sub_mod_mod.
  pose proof (Z.mod_pos_bound (a + m - 1) m Hm). lia.
Qed.

Lemma round_up_aligned a m : 0 < m -> a `mod` m = 0 -> round_up a m = a.
Proof.
  intros Hm Ha. unfold round_up.
  replace (a + m - 1) with ((m - 1) + (a / m) * m)
    by (rewrite (Z.div_mod a m) at 2; lia).
  rewrite Z.mod_add, Z.mod_small by lia.
  rewrite (Z.div_mod a m) at 2; lia.
Qed.

(** Simplify wrapping operations whose operands are in range. *)
Ltac unwrap_arith :=
  repeat first
    [ rewrite usize_add_small by lia
    | rewrite usize_sub_small by lia
    | rewrite usize_mul_small by lia
    | rewrite u32_add_small by lia
    | rewrite u32_sub_small by lia ].

(** Case analysis on the boolean comparisons of the code. *)
Ltac case_bool :=
  match goal with
  | |- context [?a <? ?b] => destruct (Z.ltb_spec a b)
  | |- context [?a <=? ?b] => destruct (Z.leb_spec a b)
  | |- context [?a =? ?b] => destruct (Z.eqb_spec a b)
  | |- context [(?a >? ?b)%Z] => rewrite (Z.gtb_ltb a b)
  | |- context [(?a >=? ?b)%Z] => rewrite (Z.geb_leb a b)
  end.
Ltac case_bools := repeat (case_bool; simpl).

#[export] Hint Resolve wrap_bound usize_add_bound usize_sub_bound : xv6.

(** ** Lists *)

Lemma elem_of_take_elem {A} (x : A) k l : x ∈ take k l -> x ∈ l.
Proof. intros (i & Hi & _)%elem_of_take. by eapply list_elem_of_lookup_2. Qed.

Lemma filter_ext_in {A} (P P' : A -> Prop) `{!forall x, Decision (P x), !forall x, Decision (P' x)} (l : list A) :
  (forall x, x ∈ l -> (P x <-> P' x)) -> filter P l = filter P' l.
Proof.
  induction l as [|x l IH]; intros HP; [done|]. rewrite !filter_cons, IH by (intros y Hy; apply HP; by right).
  by rewrite (decide_ext (P x) (P' x)) by (apply HP; by left).
Qed.

Lemma elem_of_step_by x a b k :
  0 < k -> x ∈ step_by a b k <-> a <= x < b /\ (x - a) `mod` k = 0.
Proof.
  intros Hk. unfold step_by. rewrite list_elem_of_fmap. split.
  - intros (i & -> & Hi%elem_of_seqZ).
    assert (k * i < b - a).
    { assert (i + 1 <= (b - a + k - 1) / k) by lia.
      assert (k * (i + 1) <= b - a + k - 1).
      { etransitivity; [apply Z.mul_le_mono_nonneg_l; [lia|eassumption]|].
        apply Z.mul_div_le. lia. } lia. }
    split; [lia|]. replace (a + k * i - a) with (i * k) by lia. apply Z.mod_mul. lia.
  - intros [Hx Hm]. exists ((x - a) / k). split.
    + rewrite <-Z_div_exact_2 by lia. lia.
    + apply elem_of_seqZ. split; [apply Z.div_pos; lia|].
      rewrite Z.add_0_l. apply Z.div_lt_upper_bound; [lia|].
      assert ((x - a) = k * ((x - a) / k)) by (rewrite <-Z_div_exact_2; lia).
      pose proof (Z.mod_pos_bound (b - a + k - 1) k Hk).
      pose proof (Z.div_mod (b - a + k - 1) k). lia.
Qed.

Lemma NoDup_step_by a b k : 0 < k -> NoDup (step_by a b k).
Proof.
  intros Hk. unfold step_by. apply NoDup_fmap_2_strong; [|apply NoDup_seqZ].
  intros x y _ _ E. nia.
Qed.

Lemma length_step_by a b k : length (step_by a b k) = Z.to_nat ((b - a + k - 1) / k).
Proof. unfold step_by. by rewrite length_fmap, length_seqZ. Qed.

(** ** Address ranges

    A range is its first address and its length. *)

Definition range : Type := Z * Z.
Definition range_end (r : range) : Z := r.1 + r.2.
Definition range_disjoint (r r' : range) : Prop :=
  range_end r <= r'.1 \/ range_end r' <= r.1.
Definition range_within (r r' : range) : Prop :=
  r'.1 <= r.1 /\ range_end r <= range_end r'.

#[export] Instance range_disjoint_sym : Symmetric range_disjoint.
Proof. intros r r' [?|?]; [right|left]; done. Qed.

Lemma range_disjoint_within r1 r2 r :
  range_within r1 r2 -> range_disjoint r2 r -> range_disjoint r1 r.
Proof. unfold range_within, range_disjoint, range_end. lia. Qed.

Lemma range_within_trans r1 r2 r3 :
  range_within r1 r2 -> range_within r2 r3 -> range_within r1 r3.
Proof. unfold range_within. lia. Qed.

(** Pairwise [R]-related elements of a list. *)
Fixpoint pairwise {A} (R : A -> A -> Prop) (l : list A) : Prop :=
  match l with
  | [] => True
  | x :: l => Forall (R x) l /\ pairwise R l
  end.

Section pairwise.
Context {A : Type} (R : A -> A -> Prop) `{!Symmetric R}.

Lemma pairwise_perm l l' : l ≡ₚ l' -> pairwise R l -> pairwise R l'.
Proof.
  induction 1 as [|x l l' Hp IH|x y l|l1 l2 l3 _ IH1 _ IH2]; simpl; auto.
  - intros [Hx Hl]. split; [by rewrite <-Hp|auto].
  - intros [Hy [Hx Hl]]. inversion_clear Hy. repeat split; auto.
Qed.

#[global] Instance pairwise_proper : Proper ((≡ₚ) ==> iff) (pairwise R).
Proof. intros l l' Hp. split; apply pairwise_perm; [done|by symmetry]. Qed.

Lemma pairwise_app l l' :
  pairwise R (l ++ l') <->
  pairwise R l /\ pairwise R l' /\ Forall (fun x => Forall (R x) l') l.
Proof.
  induction l as [|x l IH]; simpl; [intuition auto|].
  rewrite IH, Forall_app, Forall_cons_iff. tauto.
Qed.

End pairwise.
