(* ===== verification/Param.v ===== *)
(** * Parameters of the kernel

    The constants of [kernel/src/param.rs], and the on-disk geometry of
    [kernel/src/bio.rs], [kernel/src/log.rs], [kernel/src/bmap.rs] and
    [kernel/src/fs.rs]. *)

From S2P Require Import Prelude.

Definition NCPU : nat := 8.
Definition NOFILE : nat := 16.
Definition UART0 : Z := 0x10000000.
Definition UART0_IRQ : Z := 10.
Definition ECAM0 : Z := 0x30000000.
Definition E1000_REGS_ADDR : Z := 0x40000000.
Definition E1000_IRQ : Z := 33.
Definition KERNBASE : Z := 0x80000000.
Definition PHYSTOP : Z := KERNBASE + 1 * 1024 * 1024 * 1024.
Definition PAGESIZE : Z := 4096.
Definition MAXVA : Z := Z.shiftl 1 (9 + 9 + 9 + 12 - 1).
Definition KSTACK_SIZE : Z := PAGESIZE * 4.
Definition TRAMPOLINE : Z := MAXVA - PAGESIZE.
Definition TRAPFRAME : Z := TRAMPOLINE - PAGESIZE.
Definition VIRTIO0 : Z := 0x10001000.
Definition VIRTIO0_IRQ : Z := 1.
Definition CLINT : Z := 0x2000000.
Definition CLINT_MAP_SIZE : Z := 0x10000.
Definition PLIC : Z := 0x0c000000.
Definition PLIC_MAP_SIZE : Z := 0x400000.
Definition ROOTDEV : Z := 1.
Definition MAXOPBLOCKS : nat := 10.

(** Size of the disk block cache, of a disk block, and of the on-disk log. *)
Definition NBUF : nat := MAXOPBLOCKS * 3.
Definition BSIZE : Z := 4096.
Definition LOGSIZE : nat := MAXOPBLOCKS * 3.
Definition BPB : Z := BSIZE * 8.

(** A disk block: [BSIZE] bytes. *)
Definition block : Type := list Z.
Definition zero_block : block := replicate (Z.to_nat BSIZE) 0.
#[global] Opaque zero_block.
