(* ===== verification/Bytes.v ===== *)
(** * Bytes of [repr(C)] data

    The kernel moves structures to and from disk blocks with
    [ptr::copy_nonoverlapping]; on the little-endian target a sequence of
    [u32] words is the concatenation of its 4-byte encodings. *)

From S2P Require Import Prelude Param.

Definition u32_bytes (z : Z) : list Z := Z_to_little_endian 4 8 z.
#[global] Arguments u32_bytes _ : simpl never.
Definition bytes_u32 (bs : list Z) : Z := little_endian_to_Z 8 bs.
#[global] Arguments bytes_u32 _ : simpl never.

Definition u16_bytes (z : Z) : list Z := Z_to_little_endian 2 8 z.
Definition bytes_u16 (bs : list Z) : Z := little_endian_to_Z 8 bs.

(** A sequence of words as bytes, and the first [k] words of a block. *)
Definition words_bytes (ws : list Z) : list Z := concat (u32_bytes <$> ws).
Fixpoint bytes_words (k : nat) (d : list Z) : list Z :=
  match k with
  | O => []
  | S k => bytes_u32 (take 4 d) :: bytes_words k (drop 4 d)
  end.

(** [copy_nonoverlapping(src, dst + off, len(src))] into a block. *)
Definition splice (off : nat) (src : list Z) (d : list Z) : list Z :=
  take off d ++ src ++ drop (off + length src) d.

Lemma length_u32_bytes z : length (u32_bytes z) = 4%nat.
Proof. pose proof (length_Z_to_little_endian 4 8 z). unfold u32_bytes. lia. Qed.

Lemma bytes_u32_bytes z : is_u32 z -> bytes_u32 (u32_bytes z) = z.
Proof.
  intros Hz. unfold bytes_u32, u32_bytes. rewrite little_endian_to_Z_to_little_endian by lia.
  apply Z.mod_small. exact Hz.
Qed.

Lemma length_u16_bytes z : length (u16_bytes z) = 2%nat.
Proof. pose proof (length_Z_to_little_endian 2 8 z). unfold u16_bytes. lia. Qed.

Lemma bytes_u16_bytes z : is_u16 z -> bytes_u16 (u16_bytes z) = z.
Proof.
  intros Hz. unfold bytes_u16, u16_bytes. rewrite little_endian_to_Z_to_little_endian by lia.
  apply Z.mod_small. exact Hz.
Qed.

Lemma u16_bytes_two z : exists a b, u16_bytes z = [a; b].
Proof.
  pose proof (length_u16_bytes z). destruct (u16_bytes z) as [|a [|b [|]]]; try done. by exists a, b.
Qed.

Lemma length_words_bytes ws : length (words_bytes ws) = (4 * length ws)%nat.
Proof.
  induction ws as [|w ws IH]; [done|]. unfold words_bytes in *.
  rewrite fmap_cons. cbn [concat length bytes_words].
  rewrite length_app, length_u32_bytes, IH. lia.
Qed.

Lemma bytes_words_bytes ws rest :
  Forall is_u32 ws -> bytes_words (length ws) (words_bytes ws ++ rest) = ws.
Proof.
  induction 1 as [|w ws Hw _ IH]; [done|]. unfold words_bytes in *.
  rewrite fmap_cons. cbn [concat length bytes_words].
  rewrite <-app_assoc, take_app_length', drop_app_length' by by rewrite length_u32_bytes.
  by rewrite bytes_u32_bytes, IH.
Qed.

Lemma length_bytes_words k d : length (bytes_words k d) = k.
Proof. revert d. induction k; intros; simpl; [done|]. by rewrite IHk. Qed.

Lemma length_splice off src d :
  (off + length src <= length d)%nat -> length (splice off src d) = length d.
Proof. intros. unfold splice. rewrite !length_app, length_take, length_drop. lia. Qed.

Lemma splice_lookup_out off src d (i : nat) :
  (off + length src <= length d)%nat -> (i < off \/ off + length src <= i)%nat ->
  splice off src d !! i = d !! i.
Proof.
  intros Hl [Hi|Hi]; unfold splice.
  - rewrite lookup_app_l by (rewrite length_take; lia). by apply lookup_take_lt.
  - rewrite lookup_app_r by (rewrite length_take; lia). rewrite length_take, Nat.min_l by lia.
    rewrite lookup_app_r by lia. rewrite lookup_drop. f_equal. lia.
Qed.

Lemma splice_read off src d :
  (off <= length d)%nat -> take (length src) (drop off (splice off src d)) = src.
Proof.
  intros Hl. unfold splice. rewrite drop_app_length' by (rewrite length_take; lia).
  by rewrite take_app_length.
Qed.

Lemma splice_lookup_in off src d (i : nat) :
  (off <= length d)%nat -> (off <= i < off + length src)%nat ->
  splice off src d !! i = src !! (i - off)%nat.
Proof.
  intros Hl Hi. unfold splice. rewrite lookup_app_r by (rewrite length_take; lia).
  rewrite length_take, Nat.min_l by lia. by rewrite lookup_app_l by lia.
Qed.

Lemma splice_app off src src' d :
  (off + length src + length src' <= length d)%nat ->
  splice (off + length src) src' (splice off src d) = splice off (src ++ src') d.
Proof.
  intros Hl. apply list_eq. intros i.
  destruct (decide (off + length src <= i < off + length src + length src')%nat) as [H1|H1].
  - rewrite !splice_lookup_in by (rewrite ?length_splice, ?length_app; lia).
    rewrite lookup_app_r by lia. f_equal. lia.
  - rewrite splice_lookup_out by (rewrite ?length_splice; lia).
    destruct (decide (off <= i < off + length src)%nat) as [H2|H2].
    + rewrite !splice_lookup_in by (rewrite ?length_app; lia). by rewrite lookup_app_l by lia.
    + rewrite !splice_lookup_out by (rewrite ?length_app; lia). done.
Qed.
