(* ===== verification/Kalloc.v ===== *)
(** * The kernel heap allocator

    Models [kernel/src/kalloc/linked_list.rs] and [kernel/src/kalloc.rs]: a
    first-fit allocator over a singly linked list of free regions.  A node
    lives at the first address of the region it describes, and the chain of
    [Option<&'static mut ListNode>] starting at [head.next] is a list of
    (address, size) pairs.  The spin lock around the allocator makes each
    operation atomic, so an operation is one state transformer. *)

From S2P Require Import Prelude.

Module Kalloc.

(** ** Constants and layouts *)

(** [mem::size_of::<ListNode>()] and [mem::align_of::<ListNode>()]: a [usize]
    and an optional reference. *)
Definition NODE_SIZE : Z := 16.
Definition NODE_ALIGN : Z := 8.

(** [core::alloc::Layout] *)
Record Layout := mkLayout { lsize : Z; lalign : Z }.

(** What [Layout] guarantees: the alignment is a power of two and the size
    rounded up to it does not exceed [isize::MAX]. *)
Definition layout_ok (l : Layout) : Prop :=
  (exists k, 0 <= k <= 63 /\ lalign l = 2 ^ k) /\
  0 <= lsize l /\ round_up (lsize l) (lalign l) <= 2 ^ 63 - 1.

(** [Layout::align_to]: raises the alignment; an error when the padded size
    would exceed [isize::MAX]. *)
Definition align_to (l : Layout) (a : Z) : option Layout :=
  let al := Z.max (lalign l) a in
  if round_up (lsize l) al <=? 2 ^ 63 - 1 then Some (mkLayout (lsize l) al) else None.

(** [Layout::pad_to_align] *)
Definition pad_to_align (l : Layout) : Layout :=
  mkLayout (round_up (lsize l) (lalign l)) (lalign l).

(** ** The allocator *)

(** A [ListNode]: its address and its [size] field. *)
Definition ListNode : Type := range.
Definition start_addr (n : ListNode) : Z := n.1.
Definition size (n : ListNode) : Z := n.2.
Definition end_addr (n : ListNode) : Z := start_addr n ⊞ size n.

(** [LinkedListAllocator]: the regions reachable from [head.next]. *)
Record LinkedListAllocator := mkAllocator { head : list ListNode }.

Definition new : LinkedListAllocator := mkAllocator [].

Definition align_up (addr align : Z) : Z :=
  Z.land (addr ⊞ align ⊟ 1) (usize_not (align ⊟ 1)).

Definition add_free_region (addr size : Z) : M LinkedListAllocator unit :=
  let aligned_addr := align_up addr NODE_ALIGN in
  let size_reduction := aligned_addr ⊟ addr in
  assert (size_reduction <? size) "size > size_reduction" ;;
  assert (NODE_SIZE <=? size ⊟ size_reduction) "size - size_reduction >= size_of ListNode" ;;
  let adjusted_size := size ⊟ size_reduction in
  modify (fun a => mkAllocator ((aligned_addr, adjusted_size) :: head a)).

Definition init (heap_start heap_size : Z) : M LinkedListAllocator unit :=
  add_free_region heap_start heap_size.

Definition alloc_from_region (region : ListNode) (size align : Z) : option Z :=
  let alloc_start := align_up (start_addr region) align in
  match checked_add alloc_start size with
  | None => None
  | Some alloc_end =>
      if end_addr region <? alloc_end then None
      else
        let excess_size := end_addr region ⊟ alloc_end in
        if (0 <? excess_size) && (excess_size <? NODE_SIZE) then None
        else Some alloc_start
  end.

(** The walk of [find_region] along the chain: the first region that fits is
    unlinked and returned with the start of the allocation. *)
Fixpoint find_from (l : list ListNode) (size align : Z)
    : option (ListNode * Z * list ListNode) :=
  match l with
  | [] => None
  | region :: next =>
      match alloc_from_region region size align with
      | Some alloc_start => Some (region, alloc_start, next)
      | None =>
          match find_from next size align with
          | Some (r, s, rest) => Some (r, s, region :: rest)
          | None => None
          end
      end
  end.

Definition find_region (size align : Z) : M LinkedListAllocator (option (ListNode * Z)) :=
  fun a => match find_from (head a) size align with
           | Some (r, s, rest) => Done (Some (r, s), mkAllocator rest)
           | None => Done (None, a)
           end.

Definition size_align (layout : Layout) : option (Z * Z) :=
  match align_to layout NODE_ALIGN with
  | None => None
  | Some l => let l := pad_to_align l in Some (Z.max (lsize l) NODE_SIZE, lalign l)
  end.

(** [GlobalAlloc::alloc]; the null pointer is [0]. *)
Definition alloc (layout : Layout) : M LinkedListAllocator Z :=
  let! sa := unwrap (size_align layout) "adjusting alignment failed" in
  let '(size, align) := sa in
  let! r := find_region size align in
  match r with
  | Some (region, alloc_start) =>
      let! alloc_end := unwrap (checked_add alloc_start size) "overflow" in
      let excess_size := end_addr region ⊟ alloc_end in
      (if 0 <? excess_size then add_free_region alloc_end excess_size else ret tt) ;;
      ret alloc_start
  | None => ret 0
  end.

Definition dealloc (ptr : Z) (layout : Layout) : M LinkedListAllocator unit :=
  let! sa := unwrap (size_align layout) "adjusting alignment failed" in
  add_free_region ptr sa.1.


(** ** Arithmetic of alignment *)

Lemma usize_add_sub a b c : a ⊞ b ⊟ c = wrap 64 (a + b - c).
Proof. unfold usize_add, usize_sub, wrap. by rewrite Zminus_mod_idemp_l. Qed.

Lemma pow2_pos k : 0 <= k -> 0 < 2 ^ k.
Proof. intros. lia. Qed.

Lemma pow2_le_63 k : 0 <= k <= 63 -> 2 ^ k <= 2 ^ 63.
Proof. intros. apply Z.pow_le_mono_r; lia. Qed.

Lemma align_up_round_up a k :
  0 <= k <= 63 -> 0 <= a -> a + 2 ^ k - 1 < 2 ^ 64 ->
  align_up a (2 ^ k) = round_up a (2 ^ k).
Proof.
  intros Hk Ha Hlt. unfold align_up. rewrite usize_add_sub.
  pose proof (pow2_pos k). pose proof (pow2_le_63 k Hk).
  rewrite wrap_small, usize_sub_small by lia.
  by rewrite land_usize_not by lia.
Qed.

(** Alignments of at least a node preserve node alignment. *)
Lemma pow2_mod_8 a k : 3 <= k -> a `mod` 2 ^ k = 0 -> a `mod` 8 = 0.
Proof.
  intros Hk Ha. apply Z.mod_divide in Ha; [|lia]. apply Z.mod_divide; [lia|].
  etransitivity; [|exact Ha]. exists (2 ^ (k - 3)).
  change 8 with (2 ^ 3). rewrite <-Z.pow_add_r by lia. f_equal. lia.
Qed.

Lemma size_align_spec l :
  layout_ok l -> lsize l <= 2 ^ 63 - 8 ->
  exists size k, size_align l = Some (size, 2 ^ k) /\ 3 <= k <= 63 /\
    16 <= size < 2 ^ 63 /\ size `mod` 8 = 0 /\ lsize l <= size /\
    (forall p, p `mod` 2 ^ k = 0 -> p `mod` lalign l = 0).
Proof.
  intros [(j & Hj & Ej) [Hs Hr]] Hmax. unfold size_align, align_to, NODE_ALIGN.
  set (k := Z.max j 3).
  assert (Hk : Z.max (lalign l) 8 = 2 ^ k).
  { unfold k. rewrite Ej. destruct (Z.le_ge_cases j 3).
    - pose proof (Z.pow_le_mono_r 2 j 3). rewrite (Z.max_r j) by lia. lia.
    - pose proof (Z.pow_le_mono_r 2 3 j). rewrite (Z.max_l j) by lia. lia. }
  rewrite Hk.
  assert (Hru : round_up (lsize l) (2 ^ k) <= 2 ^ 63 - 1).
  { unfold k. destruct (Z.le_ge_cases j 3).
    - rewrite Z.max_r by lia. change (2 ^ 3) with 8.
      pose proof (round_up_spec (lsize l) 8). lia.
    - rewrite Z.max_l by lia. by rewrite <-Ej. }
  destruct (Z.leb_spec (round_up (lsize l) (2 ^ k)) (2 ^ 63 - 1)); [|lia].
  destruct (round_up_spec (lsize l) (2 ^ k)) as [Hb Hm]; [lia|].
  exists (Z.max (round_up (lsize l) (2 ^ k)) 16), k. unfold NODE_SIZE; simpl.
  assert (round_up (lsize l) (2 ^ k) `mod` 8 = 0) by (apply (pow2_mod_8 _ k); lia).
  repeat split; try lia.
  - destruct (Z.max_spec (round_up (lsize l) (2 ^ k)) 16) as [[_ ->]|[_ ->]]; done.
  - intros p Hp. rewrite Ej. apply Z.mod_divide; [lia|].
    apply Z.mod_divide in Hp; [|lia]. etransitivity; [|exact Hp].
    exists (2 ^ (k - j)). rewrite <-Z.pow_add_r by lia. f_equal. lia.
Qed.

(** ** The invariant of the free list *)

Definition region_ok (lo hi : Z) (r : ListNode) : Prop :=
  r.1 `mod` 8 = 0 /\ 16 <= r.2 /\ lo <= r.1 /\ range_end r <= hi.

Definition free_inv (lo hi : Z) (a : LinkedListAllocator) : Prop :=
  Forall (region_ok lo hi) (head a) /\ pairwise range_disjoint (head a).

(** The request sizes that [size_align] produces. *)
Definition request_ok (size align : Z) : Prop :=
  (exists k, 3 <= k <= 63 /\ align = 2 ^ k) /\ 16 <= size < 2 ^ 63 /\ size `mod` 8 = 0.

Section bounds.
Context (lo hi : Z) (Hlo : 0 < lo) (Hhi : hi <= 2 ^ 63).

Lemma end_addr_ok r : region_ok lo hi r -> end_addr r = range_end r.
Proof.
  intros (_ & ? & ? & ?). unfold end_addr, start_addr, size, range_end in *.
  rewrite usize_add_small; lia.
Qed.

(** The test of [alloc_from_region], without wrap-around. *)
Lemma alloc_from_region_iff r size align s :
  region_ok lo hi r -> request_ok size align ->
  alloc_from_region r size align = Some s <->
  s = round_up r.1 align /\
  (s + size = range_end r \/ s + size + 16 <= range_end r).
Proof.
  intros Hr ((k & Hk & ->) & Hs & _). pose proof Hr as (_ & ? & ? & ?).
  unfold alloc_from_region, start_addr, NODE_SIZE. rewrite end_addr_ok by done.
  pose proof (pow2_le_63 k). pose proof (pow2_pos k).
  unfold range_end in *. rewrite align_up_round_up by lia.
  destruct (round_up_spec r.1 (2 ^ k)) as [Hb _]; [lia|].
  destruct (checked_add _ _) as [e|] eqn:He.
  - apply checked_add_Some in He as [-> ?].
    destruct (Z.ltb_spec (r.1 + r.2) (round_up r.1 (2 ^ k) + size)).
    { split; [done|]. intros [-> ?]. lia. }
    rewrite usize_sub_small by lia.
    destruct (Z.ltb_spec 0 (r.1 + r.2 - (round_up r.1 (2 ^ k) + size)));
    destruct (Z.ltb_spec (r.1 + r.2 - (round_up r.1 (2 ^ k) + size)) 16); simpl;
      (split; [intros ?; simplify_eq; try lia|intros [-> ?]; done || lia]).
  - apply checked_add_None in He. split; [done|]. intros [-> ?]. lia.
Qed.

Lemma find_from_Some l size align r s rest :
  find_from l size align = Some (r, s, rest) ->
  exists l1 l2, l = l1 ++ r :: l2 /\ rest = l1 ++ l2 /\
    alloc_from_region r size align = Some s /\
    Forall (fun r' => alloc_from_region r' size align = None) l1.
Proof.
  revert rest. induction l as [|x l IH]; simpl; intros rest H; [done|].
  destruct (alloc_from_region x size align) eqn:Hx.
  - simplify_eq. exists [], rest. eauto.
  - destruct (find_from l size align) as [[[r' s'] rest']|]; simplify_eq.
    destruct (IH _ eq_refl) as (l1 & l2 & -> & -> & ? & ?).
    exists (x :: l1), l2. eauto.
Qed.

Lemma find_from_None l size align :
  find_from l size align = None <->
  Forall (fun r => alloc_from_region r size align = None) l.
Proof.
  induction l as [|x l IH]; simpl; [by split|]. rewrite Forall_cons_iff, <-IH.
  destruct (alloc_from_region x size align); [naive_solver|].
  destruct (find_from l size align) as [[[??]?]|]; naive_solver.
Qed.

(** A region that is already node-aligned and large enough is pushed as it is. *)
Lemma add_free_region_ok addr size a :
  0 <= addr -> addr `mod` 8 = 0 -> 16 <= size -> addr + size <= 2 ^ 63 ->
  add_free_region addr size a = Done (tt, mkAllocator ((addr, size) :: head a)).
Proof.
  intros. unfold add_free_region, NODE_ALIGN, NODE_SIZE. cbv zeta.
  assert (align_up addr 8 = addr) as ->.
  { change 8 with (2 ^ 3). rewrite align_up_round_up by lia. by apply round_up_aligned. }
  rewrite usize_sub_small, Z.sub_diag, usize_sub_small by lia.
  unfold bind, assert, modify. destruct (Z.ltb_spec 0 size); [|lia].
  rewrite Z.sub_0_r. destruct (Z.leb_spec 16 size); [done|lia].
Qed.

Lemma alloc_unfold layout size align a :
  size_align layout = Some (size, align) ->
  alloc layout a =
  match find_from (head a) size align with
  | Some (r, p, rest) =>
      (let! e := unwrap (checked_add p size) "overflow" in
       (if 0 <? end_addr r ⊟ e then add_free_region e (end_addr r ⊟ e) else ret tt) ;;
       ret p) (mkAllocator rest)
  | None => Done (0, a)
  end.
Proof.
  intros Hsa. unfold alloc. rewrite Hsa.
  rewrite (bind_Done _ _ _ (size, align) a) by done. unfold find_region, bind at 1.
  by destruct (find_from (head a) size align) as [[[r s] rest]|].
Qed.

(** Every way [alloc] can end: no region fits, or the first region that fits
    is cut into the returned block and a remainder that goes back to the list. *)
Lemma alloc_cases a layout size align :
  Forall (region_ok lo hi) (head a) ->
  size_align layout = Some (size, align) -> request_ok size align ->
  (alloc layout a = Done (0, a) /\
   Forall (fun r => alloc_from_region r size align = None) (head a)) \/
  (exists l1 r l2, head a = l1 ++ r :: l2 /\
     Forall (fun r' => alloc_from_region r' size align = None) l1 /\
     let p := round_up r.1 align in
     p + size <= range_end r /\
     alloc layout a =
       Done (p, mkAllocator
         (if p + size =? range_end r then l1 ++ l2
          else (p + size, range_end r - (p + size)) :: l1 ++ l2)) /\
     (p + size <> range_end r -> 16 <= range_end r - (p + size))).
Proof.
  intros Hok Hsa Hreq. rewrite (alloc_unfold _ _ _ _ Hsa).
  destruct (find_from (head a) size align) as [[[r s] rest]|] eqn:Hf.
  2:{ left. by apply find_from_None in Hf. }
  right. apply find_from_Some in Hf as (l1 & l2 & Ha & -> & Hs & Hl1).
  assert (Hr : region_ok lo hi r).
  { rewrite Ha in Hok. by apply Forall_app in Hok as [_ [? _]%Forall_cons_iff]. }
  exists l1, r, l2. apply alloc_from_region_iff in Hs as [-> Hfit]; [|done..].
  pose proof Hr as (Hr8 & ? & ? & ?). destruct Hreq as ((k & Hk & ->) & Hsz & Hsz8).
  pose proof (pow2_pos k). destruct (round_up_spec r.1 (2 ^ k)) as [Hb Hm]; [lia|].
  assert (Hp8 := pow2_mod_8 _ k (proj1 Hk) Hm).
  unfold range_end in *. split_and!; try done; try lia.
  rewrite (proj2 (checked_add_Some _ _ _)) by (split; [done|lia]).
  erewrite bind_Done by done. rewrite end_addr_ok by done. unfold range_end.
  rewrite usize_sub_small by lia.
  destruct (Z.eqb_spec (round_up r.1 (2 ^ k) + size) (r.1 + r.2)) as [Heq|Hne].
  - rewrite Heq, Z.sub_diag. done.
  - destruct (Z.ltb_spec 0 (r.1 + r.2 - (round_up r.1 (2 ^ k) + size))); [|lia].
    erewrite bind_Done; [done|]. apply add_free_region_ok; [lia| |lia|lia].
    by rewrite Z.add_mod, Hp8, Hsz8.
Qed.

Lemma layout_request l :
  layout_ok l -> lsize l <= 2 ^ 63 - 8 ->
  exists size align, size_align l = Some (size, align) /\ request_ok size align /\
    lsize l <= size /\ (forall p, p `mod` align = 0 -> p `mod` lalign l = 0).
Proof.
  intros Hl Hmax. destruct (size_align_spec l Hl Hmax) as (size & k & ? & ? & ? & ? & ? & ?).
  exists size, (2 ^ k). unfold request_ok. naive_solver.
Qed.

(** Cutting a region out of a disjoint family and putting pieces of it back. *)
Lemma pairwise_cut l1 r l2 ps :
  pairwise range_disjoint (l1 ++ r :: l2) ->
  Forall (fun p => range_within p r) ps -> pairwise range_disjoint ps ->
  pairwise range_disjoint (ps ++ l1 ++ l2).
Proof.
  intros Hd Hps Hpw. rewrite <-Permutation_middle in Hd. destruct Hd as [Hr Hd].
  apply pairwise_app. split_and!; [done..|].
  eapply Forall_impl; [exact Hps|]. intros p Hp.
  eapply Forall_impl; [exact Hr|]. intros r'. by apply range_disjoint_within.
Qed.

End bounds.

(** The free bytes of the list. *)
Definition free_bytes (l : list ListNode) : Z := foldr (fun r n => r.2 + n) 0 l.

Lemma free_bytes_app l l' : free_bytes (l ++ l') = free_bytes l + free_bytes l'.
Proof. induction l; simpl; lia. Qed.

(** ** Live blocks

    The clients of the allocator: a step allocates a block, or returns a live
    block with the layout it was allocated with, as [GlobalAlloc] requires. *)

Record heap := mkHeap { allocator : LinkedListAllocator; live : list (Z * Layout) }.

Definition request_size (l : Layout) : Z :=
  match size_align l with Some (size, _) => size | None => 0 end.

(** The range a live block occupies. *)
Definition block_range (b : Z * Layout) : range := (b.1, request_size b.2).

Inductive heap_step : heap -> heap -> Prop :=
| step_alloc a lv l p a' :
    layout_ok l -> lsize l <= 2 ^ 63 - 8 ->
    alloc l a = Done (p, a') -> p <> 0 ->
    heap_step (mkHeap a lv) (mkHeap a' ((p, l) :: lv))
| step_alloc_null a lv l a' :
    layout_ok l -> lsize l <= 2 ^ 63 - 8 ->
    alloc l a = Done (0, a') ->
    heap_step (mkHeap a lv) (mkHeap a' lv)
| step_dealloc a lv1 lv2 p l a' :
    dealloc p l a = Done (tt, a') ->
    heap_step (mkHeap a (lv1 ++ (p, l) :: lv2)) (mkHeap a' (lv1 ++ lv2)).

(** Free regions and live blocks tile disjoint parts of [[lo, hi)]. *)
Definition heap_inv (lo hi : Z) (h : heap) : Prop :=
  Forall (region_ok lo hi) (head (allocator h)) /\
  Forall (fun b => (layout_ok b.2 /\ lsize b.2 <= 2 ^ 63 - 8) /\
                   region_ok lo hi (block_range b) /\ b.1 `mod` lalign b.2 = 0) (live h) /\
  pairwise range_disjoint (head (allocator h) ++ (block_range <$> live h)).

(** A request served from [r]: the block and the remainder lie inside [r]. *)
Lemma cut_pieces r size align :
  request_ok size align ->
  let p := round_up r.1 align in
  p + size <= range_end r ->
  (p + size <> range_end r -> 16 <= range_end r - (p + size)) ->
  exists rem, rem = (if p + size =? range_end r then []
                     else [(p + size, range_end r - (p + size))]) /\
    range_within (p, size) r /\
    Forall (fun x => range_within x r) rem /\
    pairwise range_disjoint ((p, size) :: rem) /\
    forall lo hi, region_ok lo hi r -> hi <= 2 ^ 63 ->
      region_ok lo hi (p, size) /\ Forall (region_ok lo hi) rem.
Proof.
  intros ((k & Hk & ->) & Hsz & Hsz8) p Hp Hrem. eexists; split; [done|].
  destruct (round_up_spec r.1 (2 ^ k)) as [Hb Hm]; [lia|].
  assert (Hp8 := pow2_mod_8 _ k (proj1 Hk) Hm). fold p in Hb, Hp8.
  assert (Hps8 : (p + size) `mod` 8 = 0) by (by rewrite Z.add_mod, Hp8, Hsz8).
  unfold region_ok, range_within, range_end in *; simpl.
  destruct (Z.eqb_spec (p + size) (r.1 + r.2)); simpl;
    (split_and!; [lia|lia|..|intros; split]);
    rewrite ?Forall_cons_iff; unfold range_disjoint, range_end; simpl;
    split_and?; try apply Forall_nil_2; done || lia.
Qed.

Section reachable.
Context (lo hi : Z) (Hlo : 0 < lo) (Hhi : hi <= 2 ^ 63).

Lemma heap_inv_alloc a lv l :
  heap_inv lo hi (mkHeap a lv) -> layout_ok l -> lsize l <= 2 ^ 63 - 8 ->
  exists p a', alloc l a = Done (p, a') /\
    ((p = 0 /\ a' = a) \/
     (p <> 0 /\ heap_inv lo hi (mkHeap a' ((p, l) :: lv)))).
Proof.
  intros (Hfree & Hlive & Hd) Hl Hmax. simpl in *.
  destruct (layout_request l Hl Hmax) as (size & align & Hsa & Hreq & Hsize & Hal).
  destruct (alloc_cases lo hi Hlo Hhi a l size align Hfree Hsa Hreq)
    as [[Heq _]|(l1 & r & l2 & Ha & _ & Hp & Heq & Hrem)]; [by eauto 10|].
  do 2 eexists; split; [exact Heq|]. right.
  destruct (cut_pieces r size align Hreq Hp Hrem) as (rem & Erem & Hin & Hwi & Hpw & Hok).
  rewrite Ha in Hfree, Hd. apply Forall_app in Hfree as [Hf1 [Hr Hf2]%Forall_cons_iff].
  destruct (Hok lo hi Hr Hhi) as [Hpok Hremok].
  assert (Hrs : request_size l = size) by (unfold request_size; by rewrite Hsa).
  split; [destruct Hpok; simpl in *; lia|].
  replace (if _ =? _ then _ else _) with (rem ++ l1 ++ l2)
    by (rewrite Erem; by destruct (_ =? _)).
  unfold heap_inv, block_range; simpl. rewrite Hrs. split_and!.
  - by rewrite !Forall_app.
  - constructor; simpl; [|done]. rewrite Hrs. split_and!; try done.
    apply Hal. destruct Hreq as ((k & ? & ->) & _). apply round_up_spec; lia.
  - rewrite <-app_assoc in Hd. simpl in Hd.
    rewrite <-!app_assoc, !app_assoc, <-Permutation_middle, <-!app_assoc.
    change (pairwise range_disjoint
      (((round_up r.1 align, size) :: rem) ++ l1 ++ l2 ++ (block_range <$> lv))).
    eapply pairwise_cut; [exact Hd| |done]. by constructor.
Qed.

Lemma heap_inv_dealloc a lv1 p l lv2 :
  heap_inv lo hi (mkHeap a (lv1 ++ (p, l) :: lv2)) ->
  exists a', dealloc p l a = Done (tt, a') /\ heap_inv lo hi (mkHeap a' (lv1 ++ lv2)).
Proof.
  intros (Hfree & Hlive & Hd). simpl in *.
  apply Forall_app in Hlive as [Hl1 [((Hl & Hmax) & Hr & _) Hl2]%Forall_cons_iff].
  destruct (layout_request l Hl Hmax) as (size & align & Hsa & _).
  unfold block_range, request_size in *. simpl in *. rewrite Hsa in *.
  destruct Hr as (? & ? & ? & ?). unfold range_end in *; simpl in *.
  exists (mkAllocator ((p, size) :: head a)). split.
  - unfold dealloc. rewrite Hsa. erewrite bind_Done by done.
    apply add_free_region_ok; simpl; lia.
  - split_and!; simpl.
    + constructor; [done|done].
    + by apply Forall_app.
    + rewrite fmap_app, fmap_cons in Hd. simpl in Hd. rewrite Hsa in Hd.
      rewrite fmap_app. rewrite app_assoc, <-Permutation_middle, <-app_assoc in Hd. done.
Qed.

End reachable.

(** [heap_init] hands the whole range to the list, less the bytes before the
    first node-aligned address. *)
Lemma init_ok lo hi :
  0 < lo -> hi <= 2 ^ 63 -> lo + 24 <= hi ->
  exists a, init lo (hi - lo) new = Done (tt, a) /\ heap_inv lo hi (mkHeap a []).
Proof.
  intros Hlo Hhi Hsz. unfold init, add_free_region, NODE_ALIGN, NODE_SIZE. cbv zeta.
  assert (align_up lo 8 = round_up lo 8) as ->
    by (change 8 with (2 ^ 3); apply align_up_round_up; lia).
  destruct (round_up_spec lo 8) as [Hb Hm]; [lia|].
  rewrite usize_sub_small, usize_sub_small by lia.
  destruct (Z.ltb_spec (round_up lo 8 - lo) (hi - lo)); [|lia].
  destruct (Z.leb_spec 16 (hi - lo - (round_up lo 8 - lo))); [|lia].
  eexists; split; [done|]. unfold heap_inv, region_ok, range_end; simpl.
  repeat constructor; simpl; lia.
Qed.

Lemma heap_inv_steps lo hi h h' :
  0 < lo -> hi <= 2 ^ 63 -> rtc heap_step h h' -> heap_inv lo hi h -> heap_inv lo hi h'.
Proof.
  intros Hlo Hhi. induction 1 as [|h1 h2 h3 Hstep _ IH]; [done|]. intros Hinv. apply IH.
  destruct Hstep as [a lv l p a' Hl Hmax Heq Hp|a lv l a' Hl Hmax Heq|a lv1 lv2 p l a' Heq].
  - destruct (heap_inv_alloc lo hi Hlo Hhi a lv l Hinv Hl Hmax)
      as (p' & a'' & Heq' & [[-> ->]|[_ ?]]); rewrite Heq in Heq'; by simplify_eq.
  - destruct (heap_inv_alloc lo hi Hlo Hhi a lv l Hinv Hl Hmax)
      as (p' & a'' & Heq' & [[-> ->]|[? _]]); rewrite Heq in Heq'; by simplify_eq.
  - destruct (heap_inv_dealloc lo hi Hlo Hhi a lv1 p l lv2 Hinv) as (a'' & Heq' & ?).
    rewrite Heq in Heq'. by simplify_eq.
Qed.

(** ** Properties *)

(** C3: memory safety of the kernel heap.  After [heap_init] over
    [[lo, hi)] and any sequence of allocations and of deallocations of live
    blocks, every live block lies inside the heap, has the alignment its
    layout asks for and room for its size, and no two live blocks overlap. *)
Theorem live_blocks_disjoint lo hi a h :
  0 < lo -> hi <= 2 ^ 63 -> lo + 24 <= hi ->
  init lo (hi - lo) new = Done (tt, a) ->
  rtc heap_step (mkHeap a []) h ->
  Forall (fun b => lo <= b.1 /\ b.1 + lsize b.2 <= hi /\ b.1 `mod` lalign b.2 = 0) (live h) /\
  pairwise (fun b b' => range_disjoint (block_range b) (block_range b')) (live h) /\
  Forall (fun b => lsize b.2 <= (block_range b).2) (live h).
Proof.
  intros Hlo Hhi Hsz Hinit Hsteps.
  destruct (init_ok lo hi Hlo Hhi Hsz) as (a' & Hinit' & Hinv).
  rewrite Hinit in Hinit'. simplify_eq.
  destruct (heap_inv_steps lo hi _ _ Hlo Hhi Hsteps Hinv) as (_ & Hlive & Hd).
  assert (Hsize : Forall (fun b => lsize b.2 <= (block_range b).2) (live h)).
  { eapply Forall_impl; [exact Hlive|]. intros [p l] ((Hl & Hmax) & _). simpl in *.
    destruct (layout_request l Hl Hmax) as (? & ? & Hsa & _ & ? & _).
    unfold request_size. by rewrite Hsa. }
  split_and!; [|apply pairwise_app in Hd as (_ & Hd & _)|done].
  - apply Forall_forall. intros b Hb. rewrite Forall_forall in Hlive, Hsize.
    specialize (Hlive b Hb) as (_ & (_ & _ & ? & ?) & ?). specialize (Hsize b Hb).
    unfold block_range, range_end in *. simpl in *. lia.
  - clear -Hd. induction (live h) as [|b lv IH]; simpl in *; [done|].
    destruct Hd as [Hb Hd]. split; [by rewrite Forall_fmap in Hb|auto].
Qed.

(** The allocator never aborts.  In every reachable state, a request with
    a valid layout (up to [isize::MAX - 7] bytes) returns, with a block or
    with null, and returning any live block succeeds. *)
Theorem heap_never_panics lo hi a h :
  0 < lo -> hi <= 2 ^ 63 -> lo + 24 <= hi ->
  init lo (hi - lo) new = Done (tt, a) ->
  rtc heap_step (mkHeap a []) h ->
  (forall l, layout_ok l -> lsize l <= 2 ^ 63 - 8 ->
     exists p a', alloc l (allocator h) = Done (p, a')) /\
  (forall p l, (p, l) ∈ live h -> exists a', dealloc p l (allocator h) = Done (tt, a')).
Proof.
  intros Hlo Hhi Hsz Hinit Hsteps.
  destruct (init_ok lo hi Hlo Hhi Hsz) as (a' & Hinit' & Hinv).
  rewrite Hinit in Hinit'. simplify_eq.
  assert (Hinv' := heap_inv_steps lo hi _ _ Hlo Hhi Hsteps Hinv).
  destruct h as [ah lv]. simpl. split.
  - intros l Hl Hmax. destruct (heap_inv_alloc lo hi Hlo Hhi ah lv l Hinv' Hl Hmax)
      as (p & a'' & ? & _). eauto.
  - intros p l (lv1 & lv2 & ->)%list_elem_of_split.
    destruct (heap_inv_dealloc lo hi Hlo Hhi ah lv1 p l lv2 Hinv') as (a'' & ? & _). eauto.
Qed.

(** Whether a request fits in a region: the block, and either nothing or at
    least a node behind it. *)
Definition fits (size align : Z) (r : ListNode) : Prop :=
  let p := round_up r.1 align in
  p + size = range_end r \/ p + size + NODE_SIZE <= range_end r.

(** First fit, and accounting.  On a well-formed free list [alloc]
    returns null exactly when no region fits; otherwise it serves the request
    at the first aligned address of the first region that fits, and the free
    list loses the block and the bytes in front of it. *)
Theorem alloc_first_fit lo hi a l size align :
  0 < lo -> hi <= 2 ^ 63 -> Forall (region_ok lo hi) (head a) ->
  size_align l = Some (size, align) -> request_ok size align ->
  (alloc l a = Done (0, a) /\ Forall (fun r => ~ fits size align r) (head a)) \/
  (exists l1 r l2 a', head a = l1 ++ r :: l2 /\
     Forall (fun r => ~ fits size align r) l1 /\ fits size align r /\
     alloc l a = Done (round_up r.1 align, a') /\
     free_bytes (head a') = free_bytes (head a) - size - (round_up r.1 align - r.1)).
Proof.
  intros Hlo Hhi Hok Hsa Hreq.
  assert (Hfit : forall r, region_ok lo hi r ->
            alloc_from_region r size align = None <-> ~ fits size align r).
  { intros r Hr. destruct (alloc_from_region r size align) as [s|] eqn:Hs.
    - apply (alloc_from_region_iff lo hi) in Hs as [-> ?]; [|done..].
      split; [done|]. by intros [].
    - split; [intros _ Hf|done].
      assert (alloc_from_region r size align = Some (round_up r.1 align)) as Hs'
        by (by apply (alloc_from_region_iff lo hi)). congruence. }
  assert (HF : forall rs, Forall (region_ok lo hi) rs ->
            Forall (fun r => alloc_from_region r size align = None) rs ->
            Forall (fun r => ~ fits size align r) rs).
  { intros rs H1 H2. rewrite Forall_forall in *. intros r Hr. apply Hfit; auto. }
  destruct (alloc_cases lo hi Hlo Hhi a l size align Hok Hsa Hreq)
    as [[Heq Hn]|(l1 & r & l2 & Ha & Hn & Hp & Heq & Hrem)]; [left; auto|right].
  rewrite Ha in Hok |- *. apply Forall_app in Hok as [Hok1 Hok2].
  do 4 eexists. split_and!; [done|by apply HF| |exact Heq|].
  - unfold fits, NODE_SIZE. lia.
  - simpl. destruct (Z.eqb_spec (round_up r.1 align + size) (range_end r));
      simpl; rewrite !free_bytes_app; simpl; unfold range_end in *; lia.
Qed.

(** The alignment gap is lost.  Allocating a block and returning it at
    once costs the free list the bytes between the start of the region and
    the aligned block: nothing puts them back. *)
Theorem alloc_dealloc_leaks_gap lo hi a l p a' a'' :
  0 < lo -> hi <= 2 ^ 63 -> Forall (region_ok lo hi) (head a) ->
  layout_ok l -> lsize l <= 2 ^ 63 - 8 ->
  alloc l a = Done (p, a') -> p <> 0 -> dealloc p l a' = Done (tt, a'') ->
  exists r, r ∈ head a /\ r.1 <= p /\
    free_bytes (head a'') = free_bytes (head a) - (p - r.1).
Proof.
  intros Hlo Hhi Hok Hl Hmax Ha Hp Hd.
  destruct (layout_request l Hl Hmax) as (size & align & Hsa & Hreq & _).
  destruct (alloc_cases lo hi Hlo Hhi a l size align Hok Hsa Hreq)
    as [[Heq _]|(l1 & r & l2 & Hh & _ & Hpe & Heq & Hrem)]; rewrite Ha in Heq; simplify_eq.
  rewrite Hh in Hok |- *. apply Forall_app in Hok as [_ [Hr _]%Forall_cons_iff].
  destruct (cut_pieces r size align Hreq Hpe Hrem) as (rem & Erem & Hin & _ & _ & Hpok).
  destruct (proj1 (Hpok lo hi Hr Hhi)) as (? & ? & ? & ?). unfold range_end in *. simpl in *.
  exists r. split; [set_solver|]. split; [apply Hin|].
  unfold dealloc in Hd. rewrite Hsa in Hd. erewrite bind_Done in Hd by done.
  rewrite add_free_region_ok in Hd by (simpl; lia). simplify_eq/=.
  destruct (Z.eqb_spec (round_up r.1 align + size) (r.1 + r.2));
    simpl; rewrite !free_bytes_app; simpl; lia.
Qed.

(** ** Witnesses *)

Definition page_layout : Layout := mkLayout 4096 4096.
Definition box_layout : Layout := mkLayout 4 4.

Lemma page_layout_ok : layout_ok page_layout.
Proof. split; [by exists 12|by vm_compute]. Qed.

Lemma box_layout_ok : layout_ok box_layout.
Proof. split; [by exists 2|by vm_compute]. Qed.

(** A kernel image that ends at 0x80010004, followed by one page of heap. *)
Definition heap0 : LinkedListAllocator := mkAllocator [(2147549192, 8184)].

Lemma heap0_init : init 2147549188 (2147557376 - 2147549188) new = Done (tt, heap0).
Proof. reflexivity. Qed.

Lemma heap0_step : exists h, rtc heap_step (mkHeap heap0 []) h /\
  live h = [(2147553280, page_layout); (2147549192, box_layout)].
Proof.
  eexists. split.
  - eapply rtc_l; [eapply (step_alloc _ _ box_layout); [apply box_layout_ok|done|
      vm_compute; reflexivity|done]|].
    eapply rtc_l; [eapply (step_alloc _ _ page_layout); [apply page_layout_ok|done|
      vm_compute; reflexivity|done]|].
    apply rtc_refl.
  - reflexivity.
Qed.

Lemma live_blocks_disjoint_witness :
  exists h, length (live h) = 2%nat /\
    pairwise (fun b b' => range_disjoint (block_range b) (block_range b')) (live h).
Proof.
  destruct heap0_step as (h & Hs & Hl). exists h. split; [by rewrite Hl|].
  apply (live_blocks_disjoint 2147549188 2147557376 heap0 h); try exact Hs; done.
Defined.

Lemma heap_never_panics_witness :
  exists h, rtc heap_step (mkHeap heap0 []) h /\
    exists a', dealloc 2147553280 page_layout (allocator h) = Done (tt, a').
Proof.
  destruct heap0_step as (h & Hs & Hl). exists h. split; [exact Hs|].
  apply (heap_never_panics 2147549188 2147557376 heap0 h); try exact Hs; try done.
  rewrite Hl. left.
Defined.

Lemma alloc_first_fit_witness :
  exists a', alloc box_layout heap0 = Done (2147549192, a') /\ free_bytes (head a') = 8168.
Proof.
  destruct (alloc_first_fit 2147549188 2147557376 heap0 box_layout 16 8)
    as [[H _]|(l1 & r & l2 & a' & Hh & _ & _ & Ha & Hf)]; try done.
  - repeat constructor; done.
  - split; [by exists 3|done].
  - exists (mkAllocator [(2147549208, 8168)]). split; reflexivity.
Defined.

Lemma alloc_dealloc_leaks_gap_witness :
  exists r, r ∈ head heap0 /\ r.1 <= 2147553280 /\ 4096 = 8184 - (2147553280 - r.1).
Proof.
  apply (alloc_dealloc_leaks_gap 2147549188 2147557376 heap0 page_layout 2147553280
           (mkAllocator []) (mkAllocator [(2147553280, 4096)])); try done.
  - repeat constructor; done.
  - apply page_layout_ok.
Defined.

End Kalloc.
