(* ===== verification/Ualloc.v ===== *)
(** * The user-space allocator

    Models [user/src/allocator.rs]: the same first-fit free list as the
    kernel's, which starts empty and takes memory from the kernel with
    [sbrk].  [sbrk] is the interface [Sbrk]; the free list is the chain from
    [head.next] as in [Kalloc.v], whose arithmetic the proofs share. *)

From S2P Require Import Prelude Kalloc.

Module Ualloc.
Import Kalloc(Layout, lsize, lalign, ListNode, NODE_SIZE, NODE_ALIGN, align_to, pad_to_align).

(** ** The system call *)

(** [sys_sbrk]: the argument is an [i32], the result a pointer. *)
Class Sbrk (K : Type) := sbrk : Z -> M K Z.

(** What [sbrk] promises: below the limit it returns the old break and moves
    it, otherwise it returns -1 and changes nothing. *)
Class SbrkLaws (K : Type) `{!Sbrk K} := {
  brk : K -> Z;
  limit : K -> Z;
  sbrk_ok k n : 0 < n -> brk k + n <= limit k ->
    exists k', sbrk n k = Done (brk k, k') /\ brk k' = brk k + n /\ limit k' = limit k;
  sbrk_fail k n : limit k < brk k + n -> sbrk n k = Done (2 ^ 64 - 1, k)
}.

(** ** The allocator *)

Definition PAGE : Z := 4096.

Section ops.
Context {K : Type} `{!Sbrk K}.

Record UserAllocator := mkUser { head : list ListNode; initialized : bool; kern : K }.

Definition start_addr (n : ListNode) : Z := n.1.
Definition end_addr (n : ListNode) : Z := start_addr n ⊞ n.2.

Definition align_up (addr align : Z) : Z :=
  Z.land (addr ⊞ align ⊟ 1) (usize_not (align ⊟ 1)).

Definition set_head (l : list ListNode) : M UserAllocator unit :=
  modify (fun a => mkUser l (initialized a) (kern a)).

Definition call_sbrk (n : Z) : M UserAllocator Z := fun a =>
  match sbrk (as_i32 n) (kern a) with
  | Done (r, k) => Done (r, mkUser (head a) (initialized a) k)
  | Panic msg => Panic msg
  | Sleep => Sleep
  | OutOfFuel => OutOfFuel
  | Undef => Undef
  end.

(** [add_free_region], with its assertions. *)
Definition add_free_region (addr size : Z) : M UserAllocator unit :=
  let aligned_addr := align_up addr NODE_ALIGN in
  let size_reduction := aligned_addr ⊟ addr in
  assert (size_reduction <? size) "size > size_reduction" ;;
  assert (NODE_SIZE <=? size ⊟ size_reduction) "size - size_reduction >= size_of ListNode" ;;
  let adjusted_size := size ⊟ size_reduction in
  modify (fun a => mkUser ((aligned_addr, adjusted_size) :: head a) (initialized a) (kern a)).

(** The copies of it in [alloc] and [dealloc], which skip what is too small. *)
Definition add_region (addr size : Z) : M UserAllocator unit :=
  let aligned_addr := align_up addr NODE_ALIGN in
  let size_reduction := aligned_addr ⊟ addr in
  if (size_reduction <? size) && (NODE_SIZE <=? size ⊟ size_reduction) then
    let adjusted_size := size ⊟ size_reduction in
    modify (fun a => mkUser ((aligned_addr, adjusted_size) :: head a) (initialized a) (kern a))
  else ret tt.

Definition set_initialized : M UserAllocator unit := modify (fun a => mkUser (head a) true (kern a)).

Definition init : M UserAllocator unit :=
  let! a := get in
  if initialized a then ret tt
  else
    let! heap_start := call_sbrk PAGE in
    add_free_region heap_start PAGE ;;
    set_initialized.

Definition alloc_from_region (region : ListNode) (size align : Z) : option Z :=
  let alloc_start := align_up (start_addr region) align in
  match checked_add alloc_start size with
  | None => None
  | Some alloc_end =>
      if end_addr region <? alloc_end then None
      else
        let excess_size := end_addr region ⊟ alloc_end in
        if (0 <? excess_size) && (excess_size <? NODE_SIZE) then None
        else Some alloc_start
  end.

(** The walk of [find_region] and of [alloc]. *)
Fixpoint find_from (l : list ListNode) (size align : Z) : option (ListNode * Z * list ListNode) :=
  match l with
  | [] => None
  | region :: next =>
      match alloc_from_region region size align with
      | Some alloc_start => Some (region, alloc_start, next)
      | None =>
          match find_from next size align with
          | Some (r, s, rest) => Some (r, s, region :: rest)
          | None => None
          end
      end
  end.

Definition find_region (size align : Z) : M UserAllocator (option (ListNode * Z)) :=
  let! a := get in
  match find_from (head a) size align with
  | Some (r, s, rest) => set_head rest ;; ret (Some (r, s))
  | None => ret None
  end.

Definition size_align (layout : Layout) : option (Z * Z) :=
  match align_to layout NODE_ALIGN with
  | None => None
  | Some l => let l := pad_to_align l in Some (Z.max (lsize l) NODE_SIZE, lalign l)
  end.

(** What the heap grows by for a request. *)
Definition grow_size (size : Z) : Z := (size ⊞ PAGE ⊟ 1) / PAGE ⊠ PAGE.

Definition grow_heap (size : Z) : M UserAllocator (result unit) :=
  let alloc_size := grow_size size in
  let! addr := call_sbrk alloc_size in
  if addr =? 0 then ret (Err "")
  else add_free_region addr alloc_size ;; ret (Ok tt).

(** [GlobalAlloc::alloc], which calls itself after it has grown the heap. *)
Fixpoint alloc (fuel : nat) (layout : Layout) : M UserAllocator Z :=
  match fuel with
  | O => out_of_fuel
  | S fuel =>
      let! a := get in
      (if negb (initialized a) then
         let! heap_start := call_sbrk PAGE in
         add_region heap_start PAGE ;;
         set_initialized
       else ret tt) ;;
      let! '(size, align) := unwrap (size_align layout) "adjusting alignment failed" in
      let! r := find_region size align in
      match r with
      | Some (region, alloc_start) =>
          let! alloc_end := unwrap (checked_add alloc_start size) "overflow" in
          let excess_size := end_addr region ⊟ alloc_end in
          (if 0 <? excess_size then add_region alloc_end excess_size else ret tt) ;;
          ret alloc_start
      | None =>
          let alloc_size := grow_size size in
          let! addr := call_sbrk alloc_size in
          if addr =? 0 then ret 0
          else
            add_region addr alloc_size ;;
            alloc fuel layout
      end
  end.

Definition dealloc (ptr : Z) (layout : Layout) : M UserAllocator unit :=
  let! '(size, _) := unwrap (size_align layout) "adjusting alignment failed" in
  add_region ptr size.

End ops.

(** ** The kernel's allocator and this one *)

Lemma align_up_same addr align : align_up addr align = Kalloc.align_up addr align.
Proof. done. Qed.

Lemma find_from_same l size align : find_from l size align = Kalloc.find_from l size align.
Proof. induction l as [|r l IH]; [done|]. simpl. by rewrite IH. Qed.

Lemma size_align_same l : size_align l = Kalloc.size_align l.
Proof. done. Qed.

Section theory.
Context {K : Type} `{!Sbrk K, !SbrkLaws K}.
Implicit Types (k : K) (l : list ListNode).

Lemma add_region_same addr size l a' (i : bool) k :
  Kalloc.add_free_region addr size (Kalloc.mkAllocator l) = Done (tt, a') ->
  add_region addr size (mkUser l i k) = Done (tt, mkUser (Kalloc.head a') i k).
Proof using Type.
  unfold Kalloc.add_free_region, add_region, bind, assert. cbv zeta. rewrite <-!align_up_same.
  destruct (_ <? size); [|done]. cbn [andb]. destruct (NODE_SIZE <=? _); [|done].
  cbn. intros [= <-]. done.
Qed.

Lemma user_alloc_unfold fuel layout size align l k :
  size_align layout = Some (size, align) ->
  alloc (S fuel) layout (mkUser l true k) =
  match find_from l size align with
  | Some (region, p, rest) =>
      (let! e := unwrap (checked_add p size) "overflow" in
       (if 0 <? end_addr region ⊟ e then add_region e (end_addr region ⊟ e) else ret tt) ;;
       ret p) (mkUser rest true k)
  | None =>
      (let! addr := call_sbrk (grow_size size) in
       if addr =? 0 then ret 0 else add_region addr (grow_size size) ;; alloc fuel layout) (mkUser l true k)
  end.
Proof using Type.
  intros Hsa. cbn [alloc]. unfold bind at 1 2. cbn [get initialized negb ret]. rewrite Hsa.
  unfold bind at 1. cbn [unwrap ret]. unfold bind at 1. unfold find_region, bind at 1. cbn [get head].
  by destruct (find_from l size align) as [[[r p] rest]|].
Qed.

(** A request that the list can serve is served as the kernel's allocator does. *)
Lemma alloc_served fuel layout size align l k p a' :
  size_align layout = Some (size, align) -> find_from l size align <> None ->
  Kalloc.alloc layout (Kalloc.mkAllocator l) = Done (p, a') ->
  alloc (S fuel) layout (mkUser l true k) = Done (p, mkUser (Kalloc.head a') true k).
Proof using Type.
  intros Hsa Hf. rewrite (user_alloc_unfold _ _ size align) by done.
  rewrite (Kalloc.alloc_unfold _ size align) by done. cbn [Kalloc.head]. rewrite <-find_from_same.
  destruct (find_from l size align) as [[[r s] rest]|]; [|done]. unfold bind.
  change (Kalloc.end_addr r) with (end_addr r).
  destruct (unwrap _ _ _) as [[e a1]| | | |] eqn:Eu; [|done..].
  unfold unwrap in Eu. destruct (checked_add s size) as [e'|] eqn:Ec; [|done]. cbn in Eu |- *. injection Eu as -> <-.
  destruct (0 <? _).
  - destruct (Kalloc.add_free_region _ _ _) as [[[] a2]| | | |] eqn:E; [|done..]. cbn.
    intros [= <- <-]. by rewrite (add_region_same _ _ _ _ _ _ E).
  - cbn. by intros [= <- <-].
Qed.

(** ** Growing the heap *)

Lemma grow_size_spec size :
  16 <= size <= 2 ^ 31 - PAGE ->
  size <= grow_size size < size + PAGE /\ grow_size size `mod` PAGE = 0 /\ as_i32 (grow_size size) = grow_size size.
Proof using Type.
  unfold grow_size, PAGE. intros Hs. rewrite Kalloc.usize_add_sub, wrap_small by lia.
  pose proof (Z.div_mod (size + 4096 - 1) 4096 ltac:(lia)).
  pose proof (Z.mod_pos_bound (size + 4096 - 1) 4096 ltac:(lia)).
  rewrite usize_mul_small by lia. split; [lia|]. split; [apply Z_mod_mult|].
  unfold as_i32. rewrite wrap_small by lia. case_bool; lia.
Qed.

Lemma page_mod_8 x : x `mod` PAGE = 0 -> x `mod` 8 = 0.
Proof using Type. apply (Kalloc.pow2_mod_8 x 12). lia. Qed.

(** [sbrk] and the region it yields. *)
Lemma extend_spec {A} n l i k (c : Z -> M UserAllocator A) :
  16 <= n < 2 ^ 31 -> 0 < brk k -> brk k `mod` PAGE = 0 -> brk k + n <= limit k -> limit k <= 2 ^ 63 ->
  exists k', brk k' = brk k + n /\ limit k' = limit k /\
    (let! addr := call_sbrk n in c addr) (mkUser l i k) = c (brk k) (mkUser l i k') /\
    add_region (brk k) n (mkUser l i k') = Done (tt, mkUser ((brk k, n) :: l) i k').
Proof using Type.
  intros Hn Hb Hm Hl H63. destruct (sbrk_ok k n) as (k' & E & Eb & El); [lia|done|].
  exists k'. split_and!; [done|done| |].
  - unfold bind, call_sbrk. cbn [kern head initialized].
    assert (as_i32 n = n) as -> by (unfold as_i32; rewrite wrap_small by lia; case_bool; lia).
    by rewrite E.
  - rewrite (add_region_same _ _ _ (Kalloc.mkAllocator ((brk k, n) :: l))); [done|].
    apply Kalloc.add_free_region_ok; [lia|by apply page_mod_8|lia|lia].
Qed.

Lemma alloc_grows fuel layout size align l k :
  size_align layout = Some (size, align) -> 16 <= size <= 2 ^ 31 - PAGE -> find_from l size align = None ->
  0 < brk k -> brk k `mod` PAGE = 0 -> brk k + grow_size size <= limit k -> limit k <= 2 ^ 63 ->
  exists k', brk k' = brk k + grow_size size /\ limit k' = limit k /\
    alloc (S fuel) layout (mkUser l true k) =
      alloc fuel layout (mkUser ((brk k, grow_size size) :: l) true k').
Proof using Type.
  intros Hsa Hs Hf Hb Hm Hl H63. destruct (grow_size_spec size Hs) as (Hg & _ & _). unfold PAGE in *.
  destruct (extend_spec (grow_size size) l true k
    (fun addr => if addr =? 0 then ret 0 else add_region addr (grow_size size) ;; alloc fuel layout))
    as (k' & Eb & El & E1 & E2); [lia|done..|].
  exists k'. split_and!; [done|done|]. rewrite (user_alloc_unfold _ _ size align), Hf, E1 by done.
  rewrite (proj2 (Z.eqb_neq _ _)) by lia. by erewrite bind_Done by exact E2.
Qed.

(** The first call takes a page. *)
Lemma alloc_starts fuel layout l k :
  0 < brk k -> brk k `mod` PAGE = 0 -> brk k + PAGE <= limit k -> limit k <= 2 ^ 63 ->
  exists k', brk k' = brk k + PAGE /\ limit k' = limit k /\
    alloc (S fuel) layout (mkUser l false k) = alloc (S fuel) layout (mkUser ((brk k, PAGE) :: l) true k').
Proof using Type.
  intros Hb Hm Hl H63.
  destruct (extend_spec PAGE l false k (fun a => add_region a PAGE ;; set_initialized))
    as (k' & Eb & El & E1 & E2); [unfold PAGE; lia|done..|].
  exists k'. split_and!; [done|done|]. cbn [alloc]. unfold bind at 1 2. cbn [get initialized negb].
  rewrite E1. erewrite bind_Done by exact E2. done.
Qed.

(** ** The invariant *)

(** Free regions and live blocks tile disjoint parts of the memory between
    the first break and the current one, which is a whole number of pages. *)
Record user_inv (lo : Z) (a : UserAllocator) (lv : list (Z * Layout)) : Prop := {
  ui_lo : 0 < lo <= brk (kern a);
  ui_page : brk (kern a) `mod` PAGE = 0;
  ui_limit : limit (kern a) <= 2 ^ 63;
  ui_brk : brk (kern a) <= limit (kern a);
  ui_heap : Kalloc.heap_inv lo (brk (kern a)) (Kalloc.mkHeap (Kalloc.mkAllocator (head a)) lv)
}.

Lemma region_ok_mono lo hi hi' r : hi <= hi' -> Kalloc.region_ok lo hi r -> Kalloc.region_ok lo hi' r.
Proof using Type. intros H (? & ? & ? & ?). split_and!; try done. lia. Qed.

Lemma heap_inv_grow lo hi n l lv :
  lo <= hi -> hi `mod` 8 = 0 -> 16 <= n ->
  Kalloc.heap_inv lo hi (Kalloc.mkHeap (Kalloc.mkAllocator l) lv) ->
  Kalloc.heap_inv lo (hi + n) (Kalloc.mkHeap (Kalloc.mkAllocator ((hi, n) :: l)) lv).
Proof using Type.
  intros Hlo H8 Hn (H1 & H2 & H3). cbn in *. split_and!; cbn.
  - constructor; [split_and!; unfold range_end; cbn; lia|]. eapply Forall_impl; [exact H1|].
    intros r. apply region_ok_mono. lia.
  - eapply Forall_impl; [exact H2|]. intros b (Hb & Hr & Ha). split_and!; [apply Hb|apply Hb| |done].
    eapply region_ok_mono; [|done]. lia.
  - split; [|done]. apply Forall_app. split.
    + eapply Forall_impl; [exact H1|]. intros r (_ & ? & _ & ?). right. cbn. lia.
    + apply Forall_fmap. eapply Forall_impl; [exact H2|]. intros b (_ & (_ & ? & _ & ?) & _).
      right. unfold range_end in *. cbn in *. lia.
Qed.

Lemma user_inv_grow lo l i k k' n lv i' :
  user_inv lo (mkUser l i k) lv -> 16 <= n -> n `mod` PAGE = 0 -> brk k' = brk k + n -> limit k' = limit k ->
  brk k + n <= limit k -> user_inv lo (mkUser ((brk k, n) :: l) i' k') lv.
Proof using Type.
  intros [H1 H2 H3 H4 H5] Hn Hm Eb El Hl. cbn in *. split; cbn; rewrite ?Eb, ?El; try lia.
  - rewrite Z.add_mod, H2, Hm by done. done.
  - apply heap_inv_grow; [lia|by apply page_mod_8|lia|done].
Qed.

(** The list can serve the request. *)
Lemma served fuel lo layout size align l k lv :
  user_inv lo (mkUser l true k) lv -> Kalloc.layout_ok layout -> lsize layout <= 2 ^ 63 - 8 ->
  size_align layout = Some (size, align) -> find_from l size align <> None ->
  exists p l', alloc (S fuel) layout (mkUser l true k) = Done (p, mkUser l' true k) /\ p <> 0 /\
    user_inv lo (mkUser l' true k) ((p, layout) :: lv).
Proof using Type.
  intros [H1 H2 H3 H4 H5] Hl Hmax Hsa Hf. cbn [kern head] in *.
  assert (Hlo : 0 < lo) by lia. assert (Hhi : brk k <= 2 ^ 63) by lia.
  destruct (Kalloc.heap_inv_alloc lo (brk k) Hlo Hhi _ _ layout H5 Hl Hmax)
    as (p & a' & E & [[-> ->]|[Hp Hinv]]).
  - exfalso. destruct (Kalloc.layout_request layout Hl Hmax) as (sz & al & Hsa' & Hreq & _).
    rewrite <-size_align_same, Hsa in Hsa'. simplify_eq.
    destruct (Kalloc.alloc_cases lo (brk k) Hlo Hhi (Kalloc.mkAllocator l) layout sz al (proj1 H5) Hsa Hreq)
      as [[_ HF]|(l1 & r & l2 & Ha & _ & _ & E' & _)].
    + apply Hf. rewrite find_from_same. by apply Kalloc.find_from_None.
    + rewrite E in E'. injection E' as E' _. cbn in Ha. destruct H5 as (Hok & _). cbn in Hok.
      rewrite Ha in Hok. apply Forall_app in Hok as [_ [(_ & _ & Hr & _) _]%Forall_cons_iff].
      destruct Hreq as ((j & Hj & ->) & _). pose proof (round_up_spec r.1 (2 ^ j)). lia.
  - exists p, (Kalloc.head a'). split; [by eapply alloc_served|]. split; [done|].
    by split.
Qed.

(** ** Fresh pages *)

(** What is left of the fresh pages is nothing, or room for a node. *)
Definition page_fit (size : Z) : Prop := grow_size size = size \/ size + NODE_SIZE <= grow_size size.

Lemma pow2_page j : 0 <= j -> 2 ^ j <= PAGE -> forall x, x `mod` PAGE = 0 -> x `mod` 2 ^ j = 0.
Proof using Type.
  intros Hj Hle x Hx. assert (Hj' : j <= 12).
  { destruct (Z.le_gt_cases j 12) as [|H]; [done|]. pose proof (Z.pow_lt_mono_r 2 12 j).
    change (2 ^ 12) with PAGE in *. lia. }
  apply Z.mod_divide in Hx; [|done]. apply Z.mod_divide; [lia|]. etransitivity; [|exact Hx].
  exists (2 ^ (12 - j)). rewrite <-Z.pow_add_r by lia. change PAGE with (2 ^ 12). f_equal. lia.
Qed.

Lemma fresh_region layout size align (b lim : Z) :
  Kalloc.layout_ok layout -> lsize layout <= 2 ^ 63 - 8 -> size_align layout = Some (size, align) ->
  align <= PAGE -> size <= 2 ^ 31 - PAGE -> 0 < b -> b `mod` PAGE = 0 -> b + grow_size size <= 2 ^ 63 ->
  16 <= size /\
  (page_fit size -> alloc_from_region (b, grow_size size) size align = Some b) /\
  (~ page_fit size -> alloc_from_region (b, grow_size size) size align = None).
Proof using Type.
  intros Hl Hmax Hsa Hal Hs Hb Hm H63.
  destruct (Kalloc.layout_request layout Hl Hmax) as (sz & al & Hsa' & Hreq & _).
  rewrite <-size_align_same, Hsa in Hsa'. injection Hsa' as <- <-.
  pose proof Hreq as ((j & Hj & ->) & Hsz & _). split; [lia|]. assert (Hs16 : 16 <= size <= 2 ^ 31 - PAGE) by lia.
  destruct (grow_size_spec size Hs16) as (Hg & _ & _).
  assert (Hr : Kalloc.region_ok b (b + grow_size size) (b, grow_size size)).
  { split_and!; unfold range_end; cbn; try lia. by apply page_mod_8. }
  assert (Hru : round_up b (2 ^ j) = b) by (apply round_up_aligned; [lia|]; apply pow2_page; lia || done).
  pose proof (fun s => Kalloc.alloc_from_region_iff b (b + grow_size size) Hb H63 _ size (2 ^ j) s Hr Hreq) as Hiff.
  cbn [fst] in Hiff. unfold range_end in Hiff. cbn in Hiff. rewrite Hru in Hiff. unfold page_fit, NODE_SIZE. split.
  - intros Hfit. apply Hiff. split; [done|]. lia.
  - intros Hno. destruct (alloc_from_region _ _ _) as [s|] eqn:E; [|done]. apply Hiff in E. lia.
Qed.

Lemma size_align_le layout size align :
  Kalloc.layout_ok layout -> size_align layout = Some (size, align) -> lsize layout <= size.
Proof using Type.
  intros [(j & Hj & Ej) [Hs _]]. unfold size_align, align_to. case_bool; [|done]. cbn. intros [= <- _].
  pose proof (round_up_spec (lsize layout) (Z.max (lalign layout) NODE_ALIGN) ltac:(unfold NODE_ALIGN; lia)). lia.
Qed.

Lemma size_align_16 layout size align : size_align layout = Some (size, align) -> 16 <= size.
Proof using Type.
  unfold size_align, align_to. case_bool; [|done]. cbn. intros [= <- _]. unfold NODE_SIZE. lia.
Qed.

Lemma alloc_two lo l k lv layout size align :
  user_inv lo (mkUser l true k) lv -> Kalloc.layout_ok layout -> size_align layout = Some (size, align) ->
  align <= PAGE -> size <= 2 ^ 31 - PAGE -> page_fit size -> brk k + grow_size size <= limit k ->
  exists p a', alloc 2 layout (mkUser l true k) = Done (p, a') /\ user_inv lo a' ((p, layout) :: lv).
Proof using Type.
  intros Hinv Hl Hsa Hal Hs Hfit Hlim. pose proof (size_align_le _ _ _ Hl Hsa). pose proof Hinv as [H1 H2 H3 H4 _].
  cbn [kern] in *. assert (Hmax : lsize layout <= 2 ^ 63 - 8) by (unfold PAGE in *; lia).
  destruct (fresh_region layout size align (brk k) (limit k)) as (Hs16 & Hsome & _); try done; [lia|lia|].
  destruct (find_from l size align) as [q|] eqn:Ef.
  - destruct (served 1 lo layout size align l k lv) as (p & l' & E & _ & Hi); try done; [by rewrite Ef|].
    by exists p, (mkUser l' true k).
  - destruct (grow_size_spec size ltac:(lia)) as (Hg & Hgm & _).
    destruct (alloc_grows 1 layout size align l k) as (k' & Eb & El & ->); [done|lia|done|lia|done|done|done|].
    destruct (served 0 lo layout size align ((brk k, grow_size size) :: l) k' lv) as (p & l' & E & _ & Hi); try done.
    + eapply user_inv_grow; try done. lia.
    + cbn. by rewrite Hsome.
    + by exists p, (mkUser l' true k').
Qed.

(** What the invariant says about the block allocated last. *)
Lemma inv_block lo a p layout lv :
  user_inv lo a ((p, layout) :: lv) ->
  p `mod` lalign layout = 0 /\ lo <= p /\ p + lsize layout <= brk (kern a) /\
  Forall (fun b => range_disjoint (p, lsize layout) (b.1, lsize b.2)) lv.
Proof using Type.
  intros [_ _ _ _ (_ & Hlive & Hd)]. cbn in *.
  assert (Hsz : forall b, Kalloc.layout_ok b.2 /\ lsize b.2 <= 2 ^ 63 - 8 -> lsize b.2 <= (Kalloc.block_range b).2).
  { intros [q l] [Hl Hm]. cbn in *. destruct (Kalloc.layout_request l Hl Hm) as (? & ? & Hsa & _ & ? & _).
    unfold Kalloc.request_size. by rewrite Hsa. }
  apply Forall_cons_iff in Hlive as [(Hl & (_ & _ & Hlo & Hhi) & Ha) Hlive].
  pose proof (Hsz _ Hl). unfold Kalloc.block_range, range_end in *. cbn in *. split_and!; [done|done|lia|].
  apply pairwise_app in Hd as (_ & [Hd _] & _). rewrite Forall_fmap in Hd.
  rewrite Forall_forall in *. intros b Hb. specialize (Hd b Hb). specialize (Hlive b Hb) as (Hlb & _).
  specialize (Hsz b Hlb). unfold range_disjoint, range_end in *. cbn in *. lia.
Qed.

(** C15: the user allocator is safe and serves requests.  From any state in
    which the free regions and the live blocks are disjoint, a request is served with at
    most two rounds under these conditions: its alignment is at most a page, its rounded
    size is at most 2^31 less a page and leaves of whole pages either nothing or at least
    16 bytes, and [sbrk] has a page more than the pages for it.  The block is aligned, lies between the first break
    and the current one and overlaps no live block, and the invariant holds
    with it.  Returning any live block succeeds and keeps the invariant. *)
Theorem user_heap_safe lo a lv :
  user_inv lo a lv ->
  (forall layout size align, Kalloc.layout_ok layout -> size_align layout = Some (size, align) ->
     align <= PAGE -> size <= 2 ^ 31 - PAGE -> page_fit size ->
     brk (kern a) + PAGE + grow_size size <= limit (kern a) ->
     exists p a', alloc 2 layout a = Done (p, a') /\ p `mod` lalign layout = 0 /\
       lo <= p /\ p + lsize layout <= brk (kern a') /\
       Forall (fun b => range_disjoint (p, lsize layout) (b.1, lsize b.2)) lv /\
       user_inv lo a' ((p, layout) :: lv)) /\
  (forall lv1 p layout lv2, lv = lv1 ++ (p, layout) :: lv2 ->
     exists a', dealloc p layout a = Done (tt, a') /\ user_inv lo a' (lv1 ++ lv2)).
Proof using Type.
  intros Hinv. destruct a as [l i k]. cbn [kern]. split.
  - intros layout size align Hl Hsa Hal Hs Hfit Hlim.
    assert (Hserve : exists p a', alloc 2 layout (mkUser l i k) = Done (p, a') /\ user_inv lo a' ((p, layout) :: lv)).
    { destruct i; [eapply alloc_two; try done; unfold PAGE in *; lia|]. pose proof Hinv as [H1 H2 H3 H4 _].
      cbn [kern] in *. pose proof (size_align_le _ _ _ Hl Hsa).
      destruct (fresh_region layout size align (brk k) (limit k)) as (Hs16 & _ & _); try done; [unfold PAGE in *; lia..|].
      destruct (grow_size_spec size ltac:(lia)) as (Hg & _ & _).
      destruct (alloc_starts 1 layout l k) as (k' & Eb & El & ->); [lia|done|lia|done|].
      eapply alloc_two; try done; [|lia]. eapply user_inv_grow; try done; unfold PAGE in *; lia. }
    destruct Hserve as (p & a' & E & Hi). exists p, a'. destruct (inv_block _ _ _ _ _ Hi) as (? & ? & ? & ?).
    by split_and!.
  - intros lv1 p layout lv2 ->. destruct Hinv as [H1 H2 H3 H4 H5]. cbn [kern head] in *.
    assert (Hlo : 0 < lo) by lia. assert (Hhi : brk k <= 2 ^ 63) by lia.
    destruct (Kalloc.heap_inv_dealloc lo (brk k) Hlo Hhi _ _ _ _ _ H5) as (a' & E & Hi).
    exists (mkUser (Kalloc.head a') i k). split.
    + unfold Kalloc.dealloc, dealloc in *. rewrite <-size_align_same in E.
      destruct (size_align layout) as [[sz al]|]; [|done]. cbn in E |- *. by apply add_region_same.
    + split; cbn; try done.
Qed.

(** C16: a request of an unlucky size takes all memory.  When the rounded size of a request
    leaves between 1 and 15 bytes of whole pages, a region of exactly the pages
    that [alloc] asks for is rejected as too small for a node behind the block.
    If no older region fits either, every round takes the same number of
    pages from the kernel and recurs: for every number of rounds for which the memory that
    [sbrk] has left is enough, [alloc] has not returned after that many rounds, although the
    first one obtained enough pages for the request. *)
Theorem unlucky_alloc_drains_memory fuel lo l k lv layout size align :
  user_inv lo (mkUser l true k) lv -> Kalloc.layout_ok layout -> size_align layout = Some (size, align) ->
  align <= PAGE -> size <= 2 ^ 31 - PAGE -> ~ page_fit size -> find_from l size align = None ->
  brk k + Z.of_nat fuel * grow_size size <= limit k ->
  alloc fuel layout (mkUser l true k) = OutOfFuel.
Proof using Type.
  intros Hinv Hl Hsa Hal Hs Hfit. pose proof (size_align_le _ _ _ Hl Hsa).
  revert l k Hinv. induction fuel as [|fuel IH]; intros l k Hinv Hf Hlim; [done|].
  pose proof Hinv as [H1 H2 H3 H4 _]. cbn [kern] in *.
  pose proof (size_align_16 _ _ _ Hsa).
  destruct (grow_size_spec size ltac:(lia)) as (Hg & Hgm & _).
  assert (Hnext : brk k + grow_size size <= limit k) by nia.
  destruct (fresh_region layout size align (brk k) (limit k)) as (_ & _ & Hnone); try done;
    [unfold PAGE in *; lia|lia|lia|].
  destruct (alloc_grows fuel layout size align l k) as (k' & Eb & El & ->); [done|lia|done|lia|done|done|done|].
  apply IH.
  - eapply user_inv_grow; try done. lia.
  - cbn. by rewrite Hnone, Hf.
  - rewrite Eb, El. lia.
Qed.

Lemma add_region_wrapped l (i : bool) k :
  add_region (2 ^ 64 - 1) PAGE (mkUser l i k) = Done (tt, mkUser ((0, 4095) :: l) i k).
Proof using Type.
  unfold add_region. assert (align_up (2 ^ 64 - 1) NODE_ALIGN = 0) as -> by (vm_compute; reflexivity).
  assert (0 ⊟ (2 ^ 64 - 1) = 1) as -> by (vm_compute; reflexivity). reflexivity.
Qed.

(** A failed [sbrk] is taken for memory.  The kernel reports failure with
    -1, [alloc] tests for 0: on an empty free list, a request that [sbrk]
    refuses makes the allocator enter a region that starts at address 0.  The
    request itself gets the null pointer, but the free list now holds the
    addresses behind it, which the process never obtained: the next request is
    served from there. *)
Theorem failed_sbrk_corrupts k layout size :
  size_align layout = Some (size, NODE_ALIGN) -> 16 <= size <= 4079 -> size `mod` 8 = 0 ->
  limit k < brk k + PAGE ->
  alloc 2 layout (mkUser [] true k) = Done (0, mkUser [(size, 4095 - size)] true k).
Proof using Type.
  intros Hsa Hs H8 Hlim. rewrite (user_alloc_unfold _ _ size NODE_ALIGN) by done. cbn [find_from].
  assert (Hg : grow_size size = PAGE).
  { unfold grow_size, PAGE in *. rewrite Kalloc.usize_add_sub, wrap_small by lia.
    replace ((size + 4096 - 1) / 4096) with 1; [done|]. apply (Z.div_unique _ _ _ (size - 1)); lia. }
  rewrite Hg. unfold bind at 1, call_sbrk. cbn [kern head initialized].
  change (as_i32 PAGE) with PAGE. rewrite sbrk_fail by lia.
  change (2 ^ 64 - 1 =? 0) with false. cbn iota.
  erewrite bind_Done by apply add_region_wrapped.
  rewrite (user_alloc_unfold _ _ size NODE_ALIGN) by done. cbn [find_from].
  assert (E : alloc_from_region (0, 4095) size NODE_ALIGN = Some 0).
  { unfold alloc_from_region. change (align_up _ _) with 0. rewrite (proj2 (checked_add_Some 0 size size)) by lia.
    change (end_addr _) with 4095. rewrite (proj2 (Z.ltb_ge _ _)), usize_sub_small by lia.
    rewrite (proj2 (Z.ltb_ge _ NODE_SIZE)) by (unfold NODE_SIZE; lia). by rewrite andb_false_r. }
  rewrite E, (proj2 (checked_add_Some 0 size size)) by lia. change (end_addr _) with 4095.
  cbn [unwrap]. erewrite bind_Done by done. rewrite usize_sub_small, (proj2 (Z.ltb_lt _ _)) by lia.
  erewrite bind_Done; [done|]. apply (add_region_same _ _ [] (Kalloc.mkAllocator [(size, 4095 - size)])).
  apply Kalloc.add_free_region_ok; lia.
Qed.

End theory.

(** ** Witnesses *)

(** A kernel that knows the break and its limit. *)
#[local] Instance sample_sbrk : Sbrk (Z * Z) := fun n k =>
  if k.1 + n <=? k.2 then Done (k.1, (k.1 + n, k.2)) else Done (2 ^ 64 - 1, k).

#[local] Instance sample_laws : SbrkLaws (Z * Z).
Proof.
  refine {| brk := fst; limit := snd |}.
  - intros [b l] n Hn Hl. cbn in *. exists (b + n, l). unfold sbrk, sample_sbrk. cbn.
    by rewrite (proj2 (Z.leb_le _ _)).
  - intros [b l] n Hl. cbn in *. unfold sbrk, sample_sbrk. cbn. by rewrite (proj2 (Z.leb_gt _ _)).
Defined.

Definition sample_user : UserAllocator := mkUser [] false (8192, 1048576).

Lemma sample_user_inv : user_inv 8192 sample_user [].
Proof. split; [by vm_compute..|]. split_and!; cbn; try done; constructor. Qed.

Definition odd_layout : Layout := Kalloc.mkLayout 4085 8.

Lemma user_heap_safe_witness :
  exists p a', alloc 2 Kalloc.box_layout sample_user = Done (p, a') /\ user_inv 8192 a' [(p, Kalloc.box_layout)].
Proof.
  destruct (user_heap_safe 8192 sample_user [] sample_user_inv) as [H _].
  destruct (H Kalloc.box_layout 16 8) as (p & a' & E & _ & _ & _ & _ & Hi).
  - apply Kalloc.box_layout_ok.
  - reflexivity.
  - by vm_compute.
  - by vm_compute.
  - right. by vm_compute.
  - by vm_compute.
  - exists p, a'. split; [exact E|exact Hi].
Defined.

Lemma unlucky_alloc_drains_memory_witness :
  alloc 100 odd_layout (mkUser [] true (8192, 1048576)) = OutOfFuel.
Proof.
  apply (unlucky_alloc_drains_memory 100 8192 [] (8192, 1048576) [] odd_layout 4088 8).
  - split; [by vm_compute..|]. split_and!; cbn; try done; constructor.
  - split; [by exists 3|by vm_compute].
  - reflexivity.
  - by vm_compute.
  - by vm_compute.
  - intros [H|H]; vm_compute in H; congruence.
  - reflexivity.
  - by vm_compute.
Defined.

Lemma failed_sbrk_corrupts_witness :
  alloc 2 Kalloc.box_layout (mkUser [] true (8192, 8192)) = Done (0, mkUser [(16, 4079)] true (8192, 8192)).
Proof.
  apply (failed_sbrk_corrupts (8192, 8192) Kalloc.box_layout 16).
  - reflexivity.
  - lia.
  - reflexivity.
  - by vm_compute.
Defined.

End Ualloc.
