(* ===== verification/Bio.v ===== *)
(** * The buffer cache

    Models [kernel/src/bio.rs]: the doubly linked LRU list of buffer
    descriptors ([BufMetaLru]), the array of buffers and the guard protocol
    ([bread], [bwrite], [bpin], [bunpin], drop).  A [*mut BufMeta] is the
    index of the descriptor it points to, null is [None].  [DISK.read] and
    [DISK.write] move one whole block; [writes] records the blocks written to
    the device in order, so that a crash is a prefix of it.

    The second half defines the abstract cache ([cabs]) and proves that the
    concrete cache implements it ([rep]). *)

From S2P Require Import Prelude Param.

Module Bio.

(** ** Buffer descriptors and the LRU list *)

Record BufMeta := mkMeta {
  index : nat;
  dev : Z;
  blockno : Z;
  refcnt : Z;
  prev : option nat;
  next : option nat
}.

Definition set_id (d b : Z) (m : BufMeta) : BufMeta :=
  mkMeta (index m) d b (refcnt m) (prev m) (next m).
Definition set_refcnt (r : Z) (m : BufMeta) : BufMeta :=
  mkMeta (index m) (dev m) (blockno m) r (prev m) (next m).
Definition set_prev (p : option nat) (m : BufMeta) : BufMeta :=
  mkMeta (index m) (dev m) (blockno m) (refcnt m) p (next m).
Definition set_next (n : option nat) (m : BufMeta) : BufMeta :=
  mkMeta (index m) (dev m) (blockno m) (refcnt m) (prev m) n.

Record BufMetaLru := mkLru {
  inner : list BufMeta;
  head : option nat;   (* most recently used *)
  tail : option nat    (* least recently used *)
}.

Definition meta_new (i : nat) : BufMeta := mkMeta i 0 0 0 None None.
Definition lru_new : BufMetaLru := mkLru (meta_new <$> seq 0 NBUF) None None.

(** [BufMetaLru::init]: links the descriptors in index order. *)
Definition lru_init (l : BufMetaLru) : BufMetaLru :=
  let n := length (inner l) in
  let set i p q inn := alter (fun m => set_next q (set_prev p m)) i inn in
  let inn := set 0%nat None (Some 1%nat) (inner l) in
  let inn := set (n - 1)%nat (Some (n - 2)%nat) None inn in
  let inn := fold_left (fun inn i => set i (Some (i - 1)%nat) (Some (i + 1)%nat) inn)
               (seq 1 (n - 2)) inn in
  mkLru inn (Some 0%nat) (Some (n - 1)%nat).

(** The [while !b.is_null()] walks of [find] (along [next]) and [recycle]
    (along [prev]): the first descriptor that satisfies [hit]. *)
Fixpoint walk (fuel : nat) (inn : list BufMeta) (step : BufMeta -> option nat)
    (hit : BufMeta -> bool) (b : option nat) : outcome (option nat) :=
  match b with
  | None => Done None
  | Some i =>
      match fuel with
      | O => OutOfFuel
      | S fuel =>
          match inn !! i with
          | None => Panic "dangling pointer"
          | Some buf => if hit buf then Done (Some i) else walk fuel inn step hit (step buf)
          end
      end
  end.

(** Fuel: one more than the descriptors a walk can visit. *)
Definition walk_fuel (l : BufMetaLru) : nat := S (length (inner l)).

(** Change the descriptor [p] points to; the result is [(buf.index, &mut buf.refcnt)]. *)
Definition take_ref (p : nat) (f : BufMeta -> BufMeta) (l : BufMetaLru)
    : outcome (option (nat * nat) * BufMetaLru) :=
  match inner l !! p with
  | None => Panic "dangling pointer"
  | Some buf => Done (Some (index buf, p), mkLru (alter f p (inner l)) (head l) (tail l))
  end.

Definition find (d b : Z) (l : BufMetaLru) : outcome (option (nat * nat) * BufMetaLru) :=
  match walk (walk_fuel l) (inner l) next
          (fun m => (dev m =? d) && (blockno m =? b)) (head l) with
  | Done (Some p) => take_ref p (fun m => set_refcnt (refcnt m ⊞ 1) m) l
  | Done None => Done (None, l)
  | Panic msg => Panic msg
  | Sleep => Sleep
  | OutOfFuel => OutOfFuel
  | Undef => Undef
  end.

Definition recycle (d b : Z) (l : BufMetaLru) : outcome (option (nat * nat) * BufMetaLru) :=
  match walk (walk_fuel l) (inner l) prev (fun m => refcnt m =? 0) (tail l) with
  | Done (Some p) => take_ref p (fun m => set_refcnt (refcnt m ⊞ 1) (set_id d b m)) l
  | Done None => Done (None, l)
  | Panic msg => Panic msg
  | Sleep => Sleep
  | OutOfFuel => OutOfFuel
  | Undef => Undef
  end.

(** [p.as_mut().map(|m| f m)] on a descriptor pointer. *)
Definition update_ptr (p : option nat) (f : BufMeta -> BufMeta) (inn : list BufMeta) :=
  match p with Some i => alter f i inn | None => inn end.

(** [BufMetaLru::brelse] *)
Definition lru_brelse (i : nat) : M BufMetaLru unit := fun l =>
  match inner l !! i with
  | None => Panic "index out of bounds"
  | Some buf0 =>
      let buf := set_refcnt (refcnt buf0 ⊟ 1) buf0 in
      let inn := <[i := buf]> (inner l) in
      if (refcnt buf =? 0) && negb (bool_decide (head l = Some i)) then
        let tl := if bool_decide (tail l = Some i) && bool_decide (is_Some (prev buf))
                  then prev buf else tail l in
        let inn := update_ptr (next buf) (set_prev (prev buf)) inn in
        let inn := update_ptr (prev buf) (set_next (next buf)) inn in
        let inn := alter (set_prev None) i inn in
        let inn := alter (set_next (head l)) i inn in
        let inn := update_ptr (head l) (set_prev (Some i)) inn in
        Done (tt, mkLru inn (Some i) tl)
      else Done (tt, mkLru inn (head l) (tail l))
  end.

(** ** Buffers, the device and guards *)

Record Buf := mkBuf { valid : bool; locked : bool; data : block }.

Record io := mkIo {
  lru : BufMetaLru;
  bufs : list Buf;
  disk : gmap Z block;
  writes : list (Z * block)
}.

Definition io_init (d : gmap Z block) : io :=
  mkIo (lru_init lru_new) (replicate NBUF (mkBuf false false zero_block)) d [].

Definition disk_get (d : gmap Z block) (b : Z) : block := default zero_block (d !! b).

Definition set_lru (l : BufMetaLru) (s : io) : io := mkIo l (bufs s) (disk s) (writes s).
Definition set_bufs (bs : list Buf) (s : io) : io := mkIo (lru s) bs (disk s) (writes s).

(** A [BufGuard]; [rc_ptr] names the descriptor whose reference count it points to. *)
Record BufGuard := mkGuard { gindex : nat; gblockno : Z; rc_ptr : nat }.

Definition lift_lru {A} (f : BufMetaLru -> outcome (A * BufMetaLru)) : M io A := fun s =>
  match f (lru s) with
  | Done (a, l) => Done (a, set_lru l s)
  | Panic msg => Panic msg
  | Sleep => Sleep
  | OutOfFuel => OutOfFuel
  | Undef => Undef
  end.

Definition get_buf (i : nat) : M io Buf := fun s =>
  match bufs s !! i with Some bf => Done (bf, s) | None => Panic "index out of bounds" end.
Definition put_buf (i : nat) (bf : Buf) : M io unit :=
  modify (fun s => set_bufs (<[i := bf]> (bufs s)) s).

(** [self.bufs[index].data.lock()]: the sleep lock of a buffer. *)
Definition lock_buf (i : nat) : M io unit :=
  let! bf := get_buf i in
  if locked bf then sleep else put_buf i (mkBuf (valid bf) true (data bf)).
Definition unlock_buf (i : nat) : M io unit :=
  let! bf := get_buf i in put_buf i (mkBuf (valid bf) false (data bf)).

Definition set_valid (i : nat) (v : bool) : M io unit :=
  let! bf := get_buf i in put_buf i (mkBuf v (locked bf) (data bf)).

Definition bget (d b : Z) : M io BufGuard :=
  let! r := lift_lru (find d b) in
  match r with
  | Some (i, rc) => lock_buf i ;; ret (mkGuard i b rc)
  | None =>
      let! r := lift_lru (recycle d b) in
      match r with
      | Some (i, rc) => set_valid i false ;; lock_buf i ;; ret (mkGuard i b rc)
      | None => panic "bcache: no buffers"
      end
  end.

(** [data_ptr] and writes through [data_ptr_mut] *)
Definition data_of (g : BufGuard) : M io block :=
  let! bf := get_buf (gindex g) in ret (data bf).
Definition set_data (g : BufGuard) (d : block) : M io unit :=
  let! bf := get_buf (gindex g) in put_buf (gindex g) (mkBuf (valid bf) (locked bf) d).

(** [DISK.read] and [DISK.write]: the block number alone addresses the disk. *)
Definition disk_read (g : BufGuard) : M io unit :=
  let! s := get in set_data g (disk_get (disk s) (gblockno g)).
Definition disk_write (g : BufGuard) : M io unit :=
  let! d := data_of g in
  modify (fun s => mkIo (lru s) (bufs s) (<[gblockno g := d]> (disk s))
                     (writes s ++ [(gblockno g, d)])).

Definition bread (d b : Z) : M io BufGuard :=
  let! g := bget d b in
  let! bf := get_buf (gindex g) in
  (if valid bf then ret tt else disk_read g ;; set_valid (gindex g) true) ;;
  ret g.

Definition bwrite (g : BufGuard) : M io unit := disk_write g.

Definition bpin (g : BufGuard) : M io unit :=
  modify (fun s => set_lru (mkLru (alter (fun m => set_refcnt (refcnt m ⊞ 1) m) (rc_ptr g)
                                     (inner (lru s))) (head (lru s)) (tail (lru s))) s).
Definition bunpin (g : BufGuard) : M io unit :=
  modify (fun s => set_lru (mkLru (alter (fun m => set_refcnt (refcnt m ⊟ 1) m) (rc_ptr g)
                                     (inner (lru s))) (head (lru s)) (tail (lru s))) s).

Definition brelse (i : nat) : M io unit := lift_lru (lru_brelse i).

(** Dropping a [BufGuard]: release the sleep lock, then the reference. *)
Definition guard_drop (g : BufGuard) : M io unit :=
  unlock_buf (gindex g) ;; brelse (gindex g).

(** ** The LRU list as a list of indices

    [seg inn p l q]: the descriptors [l] are linked in this order, the first
    one points back to [p] and the last one points on to [q]. *)

Definition first (l : list nat) (q : option nat) : option nat :=
  match l with [] => q | j :: _ => Some j end.
Fixpoint final (p : option nat) (l : list nat) : option nat :=
  match l with [] => p | i :: l => final (Some i) l end.

Fixpoint seg (inn : list BufMeta) (p : option nat) (l : list nat) (q : option nat) : Prop :=
  match l with
  | [] => True
  | i :: l' =>
      (exists m, inn !! i = Some m /\ prev m = p /\ next m = first l' q) /\
      seg inn (Some i) l' q
  end.

(** [order] lists every descriptor from most to least recently used. *)
Definition lru_wf (l : BufMetaLru) (order : list nat) : Prop :=
  NoDup order /\ length order = length (inner l) /\
  seg (inner l) None order None /\
  head l = first order None /\ tail l = final None order.

Definition links (m : BufMeta) : option nat * option nat := (prev m, next m).

(** Only the links of the listed descriptors matter. *)
Lemma seg_links inn inn' p l q :
  (forall i, i ∈ l -> links <$> inn !! i = links <$> inn' !! i) ->
  seg inn p l q -> seg inn' p l q.
Proof.
  revert p. induction l as [|i l IH]; intros p Hl; [done|]. simpl.
  intros [(m & Hm & Hp & Hn) Hs]. split; [|apply IH; set_solver].
  specialize (Hl i ltac:(set_solver)). rewrite Hm in Hl. simpl in Hl.
  destruct (inn' !! i) as [m'|]; [|done]. unfold links in Hl. simplify_eq/=.
  exists m'. naive_solver congruence.
Qed.

Lemma seg_alter_other inn f j p l q :
  j ∉ l -> seg inn p l q -> seg (alter f j inn) p l q.
Proof.
  intros Hj. apply seg_links. intros i Hi. rewrite list_lookup_alter_ne; [done|].
  by intros ->.
Qed.

Lemma seg_lookup inn p l q i : seg inn p l q -> i ∈ l -> exists m, inn !! i = Some m.
Proof.
  revert p. induction l as [|j l IH]; intros p; [by rewrite elem_of_nil|].
  intros [(m & Hm & _) Hs]. rewrite elem_of_cons. intros [->|Hi]; eauto.
Qed.

Lemma first_app l1 l2 q : first (l1 ++ l2) q = first l1 (first l2 q).
Proof. by destruct l1. Qed.

Lemma final_app p l1 l2 : final p (l1 ++ l2) = final (final p l1) l2.
Proof. revert p. induction l1; intros; simpl; auto. Qed.

Lemma seg_app inn p l1 l2 q :
  seg inn p (l1 ++ l2) q <-> seg inn p l1 (first l2 q) /\ seg inn (final p l1) l2 q.
Proof.
  revert p. induction l1 as [|i l1 IH]; intros p; simpl; [tauto|].
  rewrite IH, first_app. tauto.
Qed.

(** Redirecting the first and the last link of a segment. *)
Lemma seg_set_prev inn p l q p' :
  NoDup l -> seg inn p l q ->
  seg (update_ptr (first l None) (set_prev p') inn) p' l q.
Proof.
  destruct l as [|i l]; [done|]. intros [Hi _]%NoDup_cons [(m & Hm & Hp & Hn) Hs]. simpl.
  split; [|by apply seg_alter_other].
  exists (set_prev p' m). by rewrite list_lookup_alter_eq, Hm.
Qed.

Lemma seg_set_next inn p l q q' :
  NoDup l -> seg inn p l q ->
  seg (update_ptr (final None l) (set_next q') inn) p l q'.
Proof.
  destruct (last l) as [i|] eqn:E; [|by apply last_None in E as ->].
  apply last_Some in E as [l' ->]. rewrite final_app. simpl.
  intros (_ & Hi & _)%NoDup_app. rewrite !seg_app. simpl.
  intros [Hl [(m & Hm & Hp & Hn) _]].
  split; [apply seg_alter_other; [set_solver|done]|]. split; [|done].
  exists (set_next q' m). by rewrite list_lookup_alter_eq, Hm.
Qed.

Lemma seg_update_other inn f j p l q :
  (forall i, j = Some i -> i ∉ l) -> seg inn p l q -> seg (update_ptr j f inn) p l q.
Proof. intros Hj. destruct j; simpl; [|done]. apply seg_alter_other. auto. Qed.

Lemma final_elem p l i : final p l = Some i -> p = Some i \/ i ∈ l.
Proof.
  revert p. induction l as [|j l IH]; simpl; [auto|]. intros p [[= ->]|?]%IH; set_solver.
Qed.

Lemma final_is_Some p i l : is_Some (final p (i :: l)).
Proof. revert p i. induction l as [|j l IH]; intros p i; [by eexists|]. apply (IH (Some i) j). Qed.

Lemma first_elem l q i : first l q = Some i -> q = Some i \/ i ∈ l.
Proof. destruct l; simpl; [auto|]. intros [= ->]. set_solver. Qed.

Definition payload (m : BufMeta) : nat * Z * Z * Z := (index m, dev m, blockno m, refcnt m).

Lemma payload_alter (inn : list BufMeta) f (j i : nat) :
  (forall m, payload (f m) = payload m) ->
  payload <$> alter f j inn !! i = payload <$> inn !! i.
Proof.
  intros Hf. destruct (decide (i = j)) as [->|Hne].
  - rewrite list_lookup_alter_eq. destruct (inn !! j); simpl; [by rewrite Hf|done].
  - by rewrite list_lookup_alter_ne.
Qed.

Lemma payload_update (inn : list BufMeta) f j (i : nat) :
  (forall m, payload (f m) = payload m) ->
  payload <$> update_ptr j f inn !! i = payload <$> inn !! i.
Proof. destruct j; [apply payload_alter|done]. Qed.

Lemma length_update inn f j : length (update_ptr j f inn) = length inn.
Proof. destruct j; simpl; [apply length_alter|done]. Qed.

Lemma seg_insert_links (inn : list BufMeta) i m p l q :
  (forall m', inn !! i = Some m' -> links m' = links m) ->
  seg inn p l q -> seg (<[i := m]> inn) p l q.
Proof.
  intros Hm. apply seg_links. intros j _. destruct (decide (i = j)) as [<-|Hne].
  - destruct (inn !! i) as [m'|] eqn:E.
    + rewrite list_lookup_insert_eq by (by eapply lookup_lt_Some). simpl.
      f_equal. by apply Hm.
    + rewrite list_insert_ge; [by rewrite E|]. by apply lookup_ge_None.
  - by rewrite list_lookup_insert_ne.
Qed.

Lemma seg_alter_links inn f i p l q :
  (forall m, links (f m) = links m) -> seg inn p l q -> seg (alter f i inn) p l q.
Proof.
  intros Hf. apply seg_links. intros j _. destruct (decide (i = j)) as [<-|Hne].
  - rewrite list_lookup_alter_eq. destruct (inn !! i); simpl; [by rewrite Hf|done].
  - by rewrite list_lookup_alter_ne.
Qed.

(** Unlinking [i] from between [l1] and [l2] and putting it in front. *)
Lemma move_to_front (inn : list BufMeta) l1 i l2 m :
  NoDup (l1 ++ i :: l2) -> l1 <> [] ->
  seg inn None (l1 ++ i :: l2) None -> inn !! i = Some m ->
  prev m = final None l1 /\ next m = first l2 None /\
  seg (update_ptr (first l1 None) (set_prev (Some i))
        (alter (set_next (first l1 None)) i
          (alter (set_prev None) i
            (update_ptr (prev m) (set_next (next m))
              (update_ptr (next m) (set_prev (prev m)) inn)))))
      None (i :: l1 ++ l2) None.
Proof.
  intros Hnd Hne Hs Hi. apply seg_app in Hs as [Hs1 [(m' & Hm' & Hp & Hn) Hs2]].
  rewrite Hi in Hm'. injection Hm' as <-.
  apply NoDup_app in Hnd as (Hnd1 & Hdis & [Hi2 Hnd2]%NoDup_cons).
  assert (Hi1 : i ∉ l1) by (intros H; apply (Hdis i H); set_solver).
  split; [done|]. split; [done|]. rewrite Hp, Hn.
  assert (Hfirst : forall q, first l1 q = first l1 None) by (by destruct l1).
  assert (H1 : forall j, final None l1 = Some j -> j ∈ l1).
  { intros j [?|?]%final_elem; done. }
  assert (H2 : forall j, first l2 None = Some j -> j ∈ l2).
  { intros j [?|?]%first_elem; done. }
  assert (H3 : forall j, first l1 None = Some j -> j ∈ l1).
  { intros j [?|?]%first_elem; done. }
  (* what the two unlinking updates do to the segments *)
  set (inn1 := update_ptr (first l2 None) (set_prev (final None l1)) inn).
  set (inn2 := update_ptr (final None l1) (set_next (first l2 None)) inn1).
  assert (Ha1 : seg inn2 None l1 (first l2 None)).
  { apply seg_set_next with (Some i); [done|]. apply seg_update_other; [|done].
    intros j Hj Hj1. apply (Hdis j Hj1). set_solver. }
  assert (Ha2 : seg inn2 (final None l1) l2 None).
  { apply seg_update_other; [|by apply seg_set_prev with (Some i)].
    intros j Hj Hj2. apply (Hdis j (H1 j Hj)). set_solver. }
  assert (Hi2' : exists mi, inn2 !! i = Some mi).
  { destruct (inn2 !! i) eqn:E; [eauto|]. apply lookup_ge_None in E.
    unfold inn2, inn1 in E. rewrite !length_update in E.
    apply lookup_lt_Some in Hi. lia. }
  destruct Hi2' as [mi Hmi].
  split.
  - exists (set_next (first l1 None) (set_prev None mi)). split_and!; [|done|].
    + destruct (first l1 None) as [h|] eqn:Eh; simpl.
      * rewrite list_lookup_alter_ne by (intros ->; auto).
        by rewrite !list_lookup_alter_eq, Hmi.
      * by rewrite !list_lookup_alter_eq, Hmi.
    + simpl. by rewrite first_app.
  - apply seg_app. split.
    + apply seg_set_prev with None; [done|]. do 2 (apply seg_alter_other; [done|]). done.
    + assert (final (Some i) l1 = final None l1) as -> by (by destruct l1).
      apply seg_update_other; [intros j Hj Hj2; apply (Hdis j (H3 j Hj)); set_solver|].
      do 2 (apply seg_alter_other; [done|]). done.
Qed.

(** ** [brelse] on the list of indices *)

Lemma lru_brelse_spec l l1 i l2 m :
  lru_wf l (l1 ++ i :: l2) -> inner l !! i = Some m ->
  exists l', lru_brelse i l = Done (tt, l') /\
    lru_wf l' (if refcnt m ⊟ 1 =? 0 then i :: l1 ++ l2 else l1 ++ i :: l2) /\
    (forall j, payload <$> inner l' !! j =
               payload <$> <[i := set_refcnt (refcnt m ⊟ 1) m]> (inner l) !! j).
Proof.
  intros (Hnd & Hlen & Hs & Hhd & Htl) Hm. unfold lru_brelse. rewrite Hm.
  set (buf := set_refcnt (refcnt m ⊟ 1) m). cbv zeta. change (refcnt buf) with (refcnt m ⊟ 1).
  assert (Hs' : seg (<[i := buf]> (inner l)) None (l1 ++ i :: l2) None).
  { apply seg_insert_links; [|done]. intros m' Hm'. rewrite Hm in Hm'. by simplify_eq. }
  assert (Hbuf : <[i := buf]> (inner l) !! i = Some buf).
  { apply list_lookup_insert_eq. by eapply lookup_lt_Some. }
  destruct (Z.eqb_spec (refcnt m ⊟ 1) 0) as [Hz|Hz]; simpl.
  2:{ eexists. split; [done|]. split; [|done]. split_and!; try done.
      cbn [inner]. by rewrite length_insert. }
  destruct l1 as [|h l1].
  { simpl in *. rewrite Hhd. rewrite bool_decide_eq_true_2 by done. simpl.
    eexists. split; [done|]. split; [|done]. split_and!; try done.
    cbn [inner]. by rewrite length_insert. }
  rewrite bool_decide_eq_false_2.
  2:{ rewrite Hhd. simpl. intros [= ->]. apply NoDup_cons in Hnd as [Hnd _].
      apply Hnd. set_solver. }
  simpl negb. cbv iota.
  destruct (move_to_front _ (h :: l1) i l2 buf Hnd ltac:(done) Hs' Hbuf) as (Hp & Hn & Hseg).
  eexists. split; [done|]. split.
  - split_and!; simpl.
    + rewrite <-Permutation_middle in Hnd. done.
    + rewrite !length_update, !length_alter, !length_update, length_insert, <-Hlen.
      rewrite !length_app. simpl. lia.
    + simpl in Hhd. rewrite Hhd. exact Hseg.
    + done.
    + destruct (final None l2) as [t|] eqn:El2.
      * rewrite bool_decide_eq_false_2; simpl.
        -- rewrite Htl, final_app. simpl.
           destruct l2; [done|]. by rewrite !final_app.
        -- rewrite Htl, final_app. simpl. destruct l2; [done|]. simpl in El2 |- *.
           rewrite El2. intros [= ->]. apply final_elem in El2.
           apply NoDup_app in Hnd as (_ & _ & [Hi _]%NoDup_cons). set_solver.
      * destruct l2 as [|x l2]; [|by destruct (final_is_Some None x l2) as [? ?]; simplify_eq].
        rewrite bool_decide_eq_true_2 by (by rewrite Htl, final_app).
        rewrite bool_decide_eq_true_2.
        -- rewrite app_nil_r. exact Hp.
        -- change (prev m) with (prev buf). rewrite Hp. apply final_is_Some.
  - intros j. simpl.
    by rewrite payload_update, !payload_alter, !payload_update by done.
Qed.

(** ** The walks on the list of indices *)

Definition hits (inn : list BufMeta) (hit : BufMeta -> bool) (i : nat) : bool :=
  match inn !! i with Some m => hit m | None => false end.

Lemma walk_next_spec fuel inn hit p l :
  seg inn p l None -> (length l <= fuel)%nat ->
  walk fuel inn next hit (first l None) = Done (List.find (hits inn hit) l).
Proof.
  revert fuel p. induction l as [|i l IH]; intros fuel p Hs Hf; [by destruct fuel|].
  destruct fuel as [|fuel]; simpl in *; [lia|]. destruct Hs as [(m & Hm & _ & Hn) Hs].
  rewrite Hm. unfold hits at 1. rewrite Hm. destruct (hit m); [done|].
  rewrite Hn. eapply IH; [done|lia].
Qed.

Lemma walk_prev_spec fuel inn hit l q :
  seg inn None l q -> (length l <= fuel)%nat ->
  walk fuel inn prev hit (final None l) = Done (List.find (hits inn hit) (rev l)).
Proof.
  revert fuel q. induction l as [|i l IH] using rev_ind; intros fuel q Hs Hf; [by destruct fuel|].
  rewrite length_app in Hf. simpl in Hf. destruct fuel as [|fuel]; [lia|].
  rewrite final_app, rev_app_distr. apply seg_app in Hs as [Hs [(m & Hm & Hp & _) _]].
  simpl. rewrite Hm. unfold hits at 1. rewrite Hm. destruct (hit m); [done|].
  rewrite Hp. eapply IH; [done|lia].
Qed.

Lemma lru_wf_elem l order i : lru_wf l order -> (i < length (inner l))%nat -> i ∈ order.
Proof.
  intros (Hnd & Hlen & Hs & _) Hi.
  assert (Hsub : order ⊆+ seq 0 (length (inner l))).
  { apply NoDup_submseteq; [done|]. intros j Hj.
    destruct (seg_lookup _ _ _ _ _ Hs Hj) as [m Hm]. apply elem_of_seq.
    apply lookup_lt_Some in Hm. lia. }
  apply submseteq_length_Permutation in Hsub; [|rewrite length_seq; lia].
  rewrite Hsub. apply elem_of_seq. lia.
Qed.

Lemma lru_wf_alter l order f i :
  (forall m, links (f m) = links m) -> lru_wf l order ->
  lru_wf (mkLru (alter f i (inner l)) (head l) (tail l)) order.
Proof.
  intros Hf (? & Hlen & ? & ? & ?). split_and!; simpl; try done.
  - by rewrite length_alter.
  - by apply seg_alter_links.
Qed.

Lemma find_Some_iff (P : nat -> bool) l i :
  List.find P l = Some i -> i ∈ l /\ P i = true.
Proof. intros [H1 H2]%find_some. by rewrite list_elem_of_In. Qed.

Lemma find_None_iff (P : nat -> bool) l i :
  List.find P l = None -> i ∈ l -> P i = false.
Proof. intros Hn Hi%list_elem_of_In. by eapply find_none. Qed.

Lemma find_app_skip (P : nat -> bool) l1 i l2 :
  P i = true -> (forall j, j ∈ l1 -> P j = false) -> List.find P (l1 ++ i :: l2) = Some i.
Proof.
  intros Hi. induction l1 as [|j l1 IH]; intros Hl; simpl; [by rewrite Hi|].
  rewrite Hl by set_solver. apply IH. set_solver.
Qed.

(** ** The abstract cache

    The referenced blocks with their reference count, lock and contents; the
    contents of every other block are those on the disk. *)

Record entry := mkEntry { e_index : nat; e_rc : Z; e_locked : bool; e_data : block }.
Record cabs := mkAbs {
  a_bufs : gmap Z entry;
  a_disk : gmap Z block;
  a_writes : list (Z * block)
}.

Definition abs_set (b : Z) (e : entry) (a : cabs) : cabs :=
  mkAbs (<[b := e]> (a_bufs a)) (a_disk a) (a_writes a).
Definition abs_del (b : Z) (a : cabs) : cabs :=
  mkAbs (delete b (a_bufs a)) (a_disk a) (a_writes a).
Definition abs_write (b : Z) (d : block) (a : cabs) : cabs :=
  mkAbs (a_bufs a) (<[b := d]> (a_disk a)) (a_writes a ++ [(b, d)]).

(** The contents of a block as its readers see them. *)
Definition abs_view (a : cabs) (b : Z) : block :=
  match a_bufs a !! b with Some e => e_data e | None => disk_get (a_disk a) b end.

(** What a cache slot holds. *)
Record slot := mkSlot { s_dev : Z; s_bno : Z; s_rc : Z; s_buf : Buf }.

Definition slot_at (s : io) (i : nat) : option slot :=
  match inner (lru s) !! i, bufs s !! i with
  | Some m, Some bf => Some (mkSlot (dev m) (blockno m) (refcnt m) bf)
  | _, _ => None
  end.

Record slots_ok (f : nat -> option slot) (a : cabs) : Prop := {
  so_entry b e : a_bufs a !! b = Some e ->
    f (e_index e) = Some (mkSlot ROOTDEV b (e_rc e) (mkBuf true (e_locked e) (e_data e))) /\
    0 < e_rc e < 2 ^ 64;
  so_ref i sl : f i = Some sl -> s_rc sl <> 0 ->
    exists e, a_bufs a !! s_bno sl = Some e /\ e_index e = i;
  so_free i sl : f i = Some sl -> s_rc sl = 0 ->
    locked (s_buf sl) = false /\
    (s_dev sl = 0 \/ s_dev sl = ROOTDEV /\
       (valid (s_buf sl) = true -> data (s_buf sl) = disk_get (a_disk a) (s_bno sl)));
  so_unique i j si sj : f i = Some si -> f j = Some sj ->
    s_dev si = ROOTDEV -> s_dev sj = ROOTDEV -> s_bno si = s_bno sj -> i = j
}.

Record rep (s : io) (a : cabs) : Prop := {
  rep_lru : exists order, lru_wf (lru s) order;
  rep_len : length (inner (lru s)) = NBUF;
  rep_index i m : inner (lru s) !! i = Some m -> index m = i;
  rep_blen : length (bufs s) = NBUF;
  rep_disk : disk s = a_disk a;
  rep_writes : writes s = a_writes a;
  rep_slots : slots_ok (slot_at s) a
}.

(** ** How a change of one slot changes the abstract cache *)

Definition slot_update (f f' : nat -> option slot) (i : nat) (sl : slot) : Prop :=
  forall j, f' j = if decide (j = i) then Some sl else f j.

Lemma slot_update_eq f f' i sl : slot_update f f' i sl -> f' i = Some sl.
Proof. intros H. rewrite H. by destruct (decide (i = i)). Qed.

Lemma slot_update_ne f f' i sl j : slot_update f f' i sl -> j <> i -> f' j = f j.
Proof. intros H Hne. rewrite H. by destruct (decide (j = i)). Qed.

Definition slot_of (b : Z) (e : entry) : slot :=
  mkSlot ROOTDEV b (e_rc e) (mkBuf true (e_locked e) (e_data e)).

(** Slot [e_index e] is (or becomes) a referenced buffer of block [b]. *)
Lemma slots_ref f f' a b e sl :
  slots_ok f a -> slot_update f f' (e_index e) (slot_of b e) -> 0 < e_rc e < 2 ^ 64 ->
  f (e_index e) = Some sl -> (s_rc sl = 0 \/ s_bno sl = b) ->
  (forall j slj, j <> e_index e -> f j = Some slj -> s_dev slj = ROOTDEV -> s_bno slj <> b) ->
  slots_ok f' (abs_set b e a).
Proof.
  intros [He Hr Hf Hu] Hup Hrc Hi Hsl Hno. split; simpl.
  - intros b' e' Hb'. destruct (decide (b' = b)) as [->|Hne].
    + rewrite lookup_insert_eq in Hb'. injection Hb' as <-.
      by rewrite (slot_update_eq _ _ _ _ Hup).
    + rewrite lookup_insert_ne in Hb' by done. destruct (He _ _ Hb') as [Hs ?].
      rewrite (slot_update_ne _ _ _ _ _ Hup); [done|]. intros E. rewrite E, Hi in Hs.
      simplify_eq. simpl in Hsl. destruct Hsl; lia || done.
  - intros j slj Hj Hne. destruct (decide (j = e_index e)) as [->|E].
    + rewrite (slot_update_eq _ _ _ _ Hup) in Hj. injection Hj as <-. simpl.
      exists e. by rewrite lookup_insert_eq.
    + rewrite (slot_update_ne _ _ _ _ _ Hup E) in Hj.
      destruct (Hr _ _ Hj Hne) as (e' & He' & Hx). exists e'. split; [|done].
      rewrite lookup_insert_ne; [done|]. intros ->.
      destruct (He _ _ He') as [Hs _]. rewrite Hx, Hj in Hs. injection Hs as Hs.
      eapply (Hno j); [done|done| |done]. by rewrite Hs.
  - intros j slj Hj Hz. destruct (decide (j = e_index e)) as [->|E].
    + rewrite (slot_update_eq _ _ _ _ Hup) in Hj. injection Hj as <-. simpl in Hz. lia.
    + rewrite (slot_update_ne _ _ _ _ _ Hup E) in Hj. eauto.
  - intros j k sj sk Hj Hk Hdj Hdk Hb.
    rewrite Hup in Hj, Hk. repeat case_decide; subst; simplify_eq; simpl in *; eauto.
    + exfalso. by eapply (Hno j).
    + exfalso. by eapply (Hno k).
Qed.

(** Slot [i] drops its last reference; its contents are those on the disk. *)
Lemma slots_unref f f' a b e :
  slots_ok f a -> a_bufs a !! b = Some e ->
  slot_update f f' (e_index e) (mkSlot ROOTDEV b 0 (mkBuf true false (disk_get (a_disk a) b))) ->
  slots_ok f' (abs_del b a).
Proof.
  intros [He Hr Hf Hu] Hb Hup. destruct (He _ _ Hb) as [Hi _]. split; simpl.
  - intros b' e' [Hne Hb']%lookup_delete_Some. destruct (He _ _ Hb') as [Hs ?].
    rewrite (slot_update_ne _ _ _ _ _ Hup); [done|]. intros E. rewrite E, Hi in Hs. by simplify_eq.
  - intros j slj Hj Hne. rewrite Hup in Hj. case_decide; [by simplify_eq|].
    destruct (Hr _ _ Hj Hne) as (e' & He' & Hx). exists e'. split; [|done].
    apply lookup_delete_Some. split; [|done]. intros ->. rewrite Hb in He'. by simplify_eq.
  - intros j slj Hj Hz. rewrite Hup in Hj. case_decide; [|by eauto].
    simplify_eq. simpl. auto.
  - intros j k sj sk Hj Hk Hdj Hdk Hbb.
    rewrite Hup in Hj, Hk. repeat case_decide; subst; simplify_eq; simpl in *; eauto.
Qed.

(** The block of a referenced slot is written to the disk. *)
Lemma slots_write f a b e d :
  slots_ok f a -> a_bufs a !! b = Some e -> slots_ok f (abs_write b d a).
Proof.
  intros [He Hr Hf Hu] Hb. destruct (He _ _ Hb) as [Hi ?]. split; simpl; eauto.
  intros j slj Hj Hz. destruct (Hf _ _ Hj Hz) as [Hl [Hd|[Hd Hv]]]; [auto|].
  split; [done|]. right. split; [done|]. intros Hva. rewrite (Hv Hva).
  unfold disk_get. rewrite lookup_insert_ne; [done|]. intros ->.
  assert (j = e_index e) as -> by (eapply (Hu _ _ _ _ Hj Hi); done).
  rewrite Hi in Hj. injection Hj as Hj. rewrite <-Hj in Hz. simpl in Hz. lia.
Qed.

(** ** The operations on the represented cache *)

Lemma alter_insert {A} (f : A -> A) (l : list A) i x :
  l !! i = Some x -> alter f i l = <[i := f x]> l.
Proof.
  intros Hx. apply list_eq. intros j. destruct (decide (j = i)) as [->|Hne].
  - by rewrite list_lookup_alter_eq, Hx, list_lookup_insert_eq by by eapply lookup_lt_Some.
  - by rewrite list_lookup_alter_ne, list_lookup_insert_ne.
Qed.

Lemma slot_at_inv s i sl :
  slot_at s i = Some sl ->
  exists m, inner (lru s) !! i = Some m /\ bufs s !! i = Some (s_buf sl) /\
    dev m = s_dev sl /\ blockno m = s_bno sl /\ refcnt m = s_rc sl.
Proof.
  unfold slot_at. intros. repeat case_match; simplify_eq. eauto 10.
Qed.

Lemma rep_slot_at s a i : rep s a -> (i < NBUF)%nat -> exists sl, slot_at s i = Some sl.
Proof.
  intros [? Hl ? Hb] Hi. unfold slot_at.
  destruct (lookup_lt_is_Some_2 (inner (lru s)) i) as [m ->]; [lia|].
  destruct (lookup_lt_is_Some_2 (bufs s) i) as [bf ->]; [lia|]. eauto.
Qed.

(** The concrete change behind [slot_update]: descriptor and buffer [i] only,
    up to the links of the descriptors. *)
Definition changed (s s' : io) (i : nat) (m' : BufMeta) (bf' : Buf) : Prop :=
  (forall j, payload <$> inner (lru s') !! j = payload <$> <[i := m']> (inner (lru s)) !! j) /\
  bufs s' = <[i := bf']> (bufs s).

Lemma changed_slot s s' i m' bf' sl :
  changed s s' i m' bf' -> slot_at s i = Some sl ->
  slot_update (slot_at s) (slot_at s') i (mkSlot (dev m') (blockno m') (refcnt m') bf').
Proof.
  intros [Hm Hb] (m & Hi & Hbi & _)%slot_at_inv j. unfold slot_at. rewrite Hb.
  specialize (Hm j). case_decide as E.
  - subst j. rewrite list_lookup_insert_eq in Hm by by eapply lookup_lt_Some.
    rewrite list_lookup_insert_eq by by eapply lookup_lt_Some.
    destruct (inner (lru s') !! i) as [mi|]; simpl in Hm; [|done].
    unfold payload in Hm. injection Hm as _ -> -> ->. done.
  - rewrite list_lookup_insert_ne in Hm by done. rewrite list_lookup_insert_ne by done.
    destruct (inner (lru s') !! j) as [m1|], (inner (lru s) !! j) as [m2|];
      simpl in Hm; try done.
    unfold payload in Hm. injection Hm as _ -> -> ->. done.
Qed.

Lemma rep_changed s s' i m' bf' a a' :
  rep s a -> changed s s' i m' bf' -> (exists order, lru_wf (lru s') order) -> index m' = i ->
  disk s' = a_disk a' -> writes s' = a_writes a' -> slots_ok (slot_at s') a' -> rep s' a'.
Proof.
  intros [? Hl Hx Hbl ? ? ?] [Hm Hb] Hwf Hi Hd Hw Hs. split; try done.
  - assert (payload <$> inner (lru s') = payload <$> <[i := m']> (inner (lru s))) as E.
    { apply list_eq. intros j. by rewrite !list_lookup_fmap. }
    apply (f_equal length) in E. rewrite !length_fmap, length_insert in E. lia.
  - intros j m Hj. specialize (Hm j). rewrite Hj in Hm.
    destruct (decide (j = i)) as [->|Hne].
    + destruct (decide (i < length (inner (lru s)))%nat).
      * rewrite list_lookup_insert_eq in Hm by done. unfold payload in Hm. by simplify_eq/=.
      * rewrite list_insert_ge in Hm by lia. rewrite lookup_ge_None_2 in Hm by lia. done.
    + rewrite list_lookup_insert_ne in Hm by done.
      destruct (inner (lru s) !! j) as [mj|] eqn:E; simpl in Hm; [|done].
      unfold payload in Hm. rewrite <-(Hx _ _ E). by simplify_eq.
  - by rewrite Hb, length_insert.
Qed.

Lemma find_hit l order i m d b :
  lru_wf l order -> inner l !! i = Some m -> dev m = d -> blockno m = b ->
  (forall j mj, inner l !! j = Some mj -> dev mj = d -> blockno mj = b -> j = i) ->
  find d b l = take_ref i (fun m => set_refcnt (refcnt m ⊞ 1) m) l.
Proof.
  intros Hwf Hi Hd Hb Huq. pose proof (lru_wf_elem _ _ i Hwf (lookup_lt_Some _ _ _ Hi)) as Hin.
  destruct Hwf as (_ & Hlen & Hs & Hh & _). unfold find. rewrite Hh.
  erewrite walk_next_spec by (eauto; unfold walk_fuel; lia).
  destruct (List.find _ _) as [j|] eqn:E.
  - apply find_Some_iff in E as [_ Hj]. unfold hits in Hj.
    destruct (inner l !! j) as [mj|] eqn:Ej; [|done]. apply andb_true_iff in Hj as [H1 H2].
    rewrite (Huq j mj); [done|done|lia|lia].
  - eapply find_None_iff in E; [|exact Hin]. unfold hits in E. rewrite Hi in E.
    apply andb_false_iff in E as [E|E]; lia.
Qed.

Lemma find_miss l order d b :
  lru_wf l order ->
  (forall j mj, inner l !! j = Some mj -> dev mj = d -> blockno mj <> b) ->
  find d b l = Done (None, l).
Proof.
  intros Hwf Hno. destruct Hwf as (_ & Hlen & Hs & Hh & _). unfold find. rewrite Hh.
  erewrite walk_next_spec by (eauto; unfold walk_fuel; lia).
  destruct (List.find _ _) as [j|] eqn:E; [|done].
  apply find_Some_iff in E as [_ Hj]. unfold hits in Hj.
  destruct (inner l !! j) as [mj|] eqn:Ej; [|done]. apply andb_true_iff in Hj as [H1 H2].
  exfalso. apply (Hno _ _ Ej); lia.
Qed.

Lemma recycle_some l order i m :
  lru_wf l order -> inner l !! i = Some m -> refcnt m = 0 ->
  exists j mj, inner l !! j = Some mj /\ refcnt mj = 0 /\
    forall d b, recycle d b l = take_ref j (fun m => set_refcnt (refcnt m ⊞ 1) (set_id d b m)) l.
Proof.
  intros Hwf Hi Hr. pose proof (lru_wf_elem _ _ i Hwf (lookup_lt_Some _ _ _ Hi)) as Hin.
  destruct Hwf as (_ & Hlen & Hs & _ & Ht).
  assert (Hw := walk_prev_spec (walk_fuel l) _ (fun m => refcnt m =? 0) _ _ Hs
                  ltac:(unfold walk_fuel; lia)).
  destruct (List.find _ (rev order)) as [j|] eqn:E.
  - apply find_Some_iff in E as [_ Hj]. unfold hits in Hj.
    destruct (inner l !! j) as [mj|] eqn:Ej; [|done].
    exists j, mj. split_and!; [done|lia|]. intros d b. unfold recycle. by rewrite Ht, Hw.
  - eapply find_None_iff in E; [|rewrite list_elem_of_In, <-in_rev, <-list_elem_of_In; exact Hin].
    unfold hits in E. rewrite Hi in E. lia.
Qed.

Lemma recycle_none l order d b :
  lru_wf l order -> (forall i m, inner l !! i = Some m -> refcnt m <> 0) ->
  recycle d b l = Done (None, l).
Proof.
  intros (_ & Hlen & Hs & _ & Ht) Hno. unfold recycle. rewrite Ht.
  erewrite walk_prev_spec by (eauto; unfold walk_fuel; lia).
  destruct (List.find _ (rev order)) as [j|] eqn:E; [|done].
  apply find_Some_iff in E as [_ Hj]. unfold hits in Hj.
  destruct (inner l !! j) as [mj|] eqn:Ej; [|done]. exfalso. apply (Hno _ _ Ej). lia.
Qed.

Lemma lock_buf_unlocked s i bf :
  bufs s !! i = Some bf -> locked bf = false ->
  lock_buf i s = Done (tt, set_bufs (<[i := mkBuf (valid bf) true (data bf)]> (bufs s)) s).
Proof. intros Hb Hl. unfold lock_buf, bind, get_buf. by rewrite Hb, Hl. Qed.

(** The part of [bread] after [bget]. *)
Definition fill (g : BufGuard) : M io BufGuard :=
  let! bf := get_buf (gindex g) in
  (if valid bf then ret tt else disk_read g ;; set_valid (gindex g) true) ;;
  ret g.

Lemma bread_fill d b s : bread d b s = bind (bget d b) fill s.
Proof. done. Qed.

Lemma fill_spec g s bf :
  bufs s !! gindex g = Some bf ->
  fill g s = Done (g, set_bufs (<[gindex g := mkBuf true (locked bf)
      (if valid bf then data bf else disk_get (disk s) (gblockno g))]> (bufs s)) s).
Proof.
  intros Hb. pose proof (lookup_lt_Some _ _ _ Hb). unfold fill.
  erewrite bind_Done by (unfold get_buf; by rewrite Hb).
  destruct bf as [[] lk d]; simpl.
  - unfold bind, ret. simpl. unfold set_bufs. rewrite list_insert_id by done. by destruct s.
  - unfold bind, disk_read, set_data, get, set_valid, get_buf, put_buf, bind, modify, ret. simpl.
    rewrite Hb. simpl. rewrite list_lookup_insert_eq by done. simpl.
    unfold set_bufs. simpl. by rewrite list_insert_insert_eq.
Qed.

Definition incr_ref (m : BufMeta) : BufMeta := set_refcnt (refcnt m ⊞ 1) m.

(** [bread] of a cached, unlocked block. *)
Lemma bread_cached s order i m bf b :
  lru_wf (lru s) order -> inner (lru s) !! i = Some m -> index m = i -> bufs s !! i = Some bf ->
  dev m = ROOTDEV -> blockno m = b -> locked bf = false ->
  (forall j mj, inner (lru s) !! j = Some mj -> dev mj = ROOTDEV -> blockno mj = b -> j = i) ->
  exists s', bread ROOTDEV b s = Done (mkGuard i b i, s') /\
    changed s s' i (incr_ref m)
      (mkBuf true true (if valid bf then data bf else disk_get (disk s) b)) /\
    (exists order, lru_wf (lru s') order) /\ disk s' = disk s /\ writes s' = writes s.
Proof.
  intros Hwf Hm Hx Hb Hd Hbn Hl Huq. pose proof (lookup_lt_Some _ _ _ Hb).
  rewrite bread_fill. unfold bind at 1, bget, bind at 1, lift_lru.
  erewrite find_hit by eauto. unfold take_ref. rewrite Hm, Hx.
  erewrite bind_Done by (by apply lock_buf_unlocked). unfold ret at 1.
  erewrite fill_spec by (simpl; by rewrite list_lookup_insert_eq). simpl.
  eexists. split; [reflexivity|]. split_and!; simpl; try done.
  - split; simpl.
    + intros j. by erewrite alter_insert by done.
    + by rewrite list_insert_insert_eq.
  - exists order. by apply lru_wf_alter.
Qed.

(** [bread] of a block that is not cached, with an unreferenced buffer [i] to recycle. *)
Lemma bread_recycled s order i m bf b :
  lru_wf (lru s) order -> inner (lru s) !! i = Some m -> index m = i -> bufs s !! i = Some bf ->
  locked bf = false -> refcnt m = 0 ->
  (forall j mj, inner (lru s) !! j = Some mj -> dev mj = ROOTDEV -> blockno mj <> b) ->
  recycle ROOTDEV b (lru s) =
    take_ref i (fun m => set_refcnt (refcnt m ⊞ 1) (set_id ROOTDEV b m)) (lru s) ->
  exists s', bread ROOTDEV b s = Done (mkGuard i b i, s') /\
    changed s s' i (incr_ref (set_id ROOTDEV b m)) (mkBuf true true (disk_get (disk s) b)) /\
    (exists order, lru_wf (lru s') order) /\ disk s' = disk s /\ writes s' = writes s.
Proof.
  intros Hwf Hm Hx Hb Hl Hr Hno Hrec. pose proof (lookup_lt_Some _ _ _ Hb).
  rewrite bread_fill. unfold bind at 1, bget, bind at 1, lift_lru at 1.
  erewrite find_miss by eauto. unfold bind at 1, lift_lru. simpl. rewrite Hrec.
  unfold take_ref. rewrite Hm, Hx.
  erewrite bind_Done by (unfold set_valid, get_buf, bind, put_buf, modify; simpl; by rewrite Hb).
  erewrite bind_Done
    by (apply lock_buf_unlocked; simpl; [by rewrite list_lookup_insert_eq|done]).
  unfold ret at 1. erewrite fill_spec by (simpl; by rewrite list_lookup_insert_eq by
    (rewrite length_insert; done)). simpl.
  eexists. split; [reflexivity|]. split_and!; simpl; try done.
  - split; simpl.
    + intros j. by erewrite alter_insert by done.
    + by rewrite !list_insert_insert_eq.
  - exists order. by apply lru_wf_alter.
Qed.

Section represented.
Context (s : io) (a : cabs) (Hrep : rep s a).

Lemma rep_meta_slot i m :
  inner (lru s) !! i = Some m ->
  exists bf, bufs s !! i = Some bf /\
    slot_at s i = Some (mkSlot (dev m) (blockno m) (refcnt m) bf).
Proof using Hrep.
  intros Hi. destruct Hrep as [? Hl _ Hb _ _ _]. unfold slot_at. rewrite Hi.
  destruct (lookup_lt_is_Some_2 (bufs s) i) as [bf ->]; [|by eauto].
  apply lookup_lt_Some in Hi. lia.
Qed.

Lemma rep_entry b e :
  a_bufs a !! b = Some e ->
  slot_at s (e_index e) = Some (slot_of b e) /\ 0 < e_rc e < 2 ^ 64 /\
  exists m, inner (lru s) !! e_index e = Some m /\ index m = e_index e /\
    bufs s !! e_index e = Some (mkBuf true (e_locked e) (e_data e)) /\
    dev m = ROOTDEV /\ blockno m = b /\ refcnt m = e_rc e.
Proof using Hrep.
  intros He. destruct (so_entry _ _ (rep_slots _ _ Hrep) _ _ He) as [Hs Hrc].
  split_and!; try done; try lia. destruct (slot_at_inv _ _ _ Hs) as (m & Hm & ?).
  exists m. split_and!; try naive_solver. by eapply rep_index.
Qed.

Lemma rep_unique_meta i m j mj :
  inner (lru s) !! i = Some m -> inner (lru s) !! j = Some mj ->
  dev m = ROOTDEV -> dev mj = ROOTDEV -> blockno mj = blockno m -> j = i.
Proof using Hrep.
  intros Hi Hj Hd Hdj Hb. destruct (rep_meta_slot _ _ Hi) as (bf & _ & Hsi).
  destruct (rep_meta_slot _ _ Hj) as (bfj & _ & Hsj).
  by eapply (so_unique _ _ (rep_slots _ _ Hrep) _ _ _ _ Hsj Hsi).
Qed.

(** Fewer than [NBUF] referenced blocks leave a buffer to recycle, and conversely. *)
Lemma rep_free_slot :
  (size (a_bufs a) < NBUF)%nat -> exists i m, inner (lru s) !! i = Some m /\ refcnt m = 0.
Proof using Hrep.
  intros Hsz. destruct (decide (Exists (fun m => refcnt m = 0) (inner (lru s)))) as [HE|HE].
  { apply Exists_exists in HE as (m & [i Hi]%list_elem_of_lookup & Hr). eauto. }
  exfalso. assert (Href : forall i m, inner (lru s) !! i = Some m ->
    exists e, a_bufs a !! blockno m = Some e /\ e_index e = i).
  { intros i m Hi. destruct (rep_meta_slot _ _ Hi) as (bf & _ & Hs).
    apply (so_ref _ _ (rep_slots _ _ Hrep) _ _ Hs). simpl. intros Hz. apply HE.
    apply Exists_exists. exists m. split; [by eapply list_elem_of_lookup_2|done]. }
  assert (NoDup (blockno <$> inner (lru s))) as Hnd.
  { apply NoDup_alt. intros i j x. rewrite !list_lookup_fmap.
    intros (mi & Hi & ->)%fmap_Some (mj & Hj & Hx)%fmap_Some.
    destruct (Href _ _ Hi) as (e & He & <-), (Href _ _ Hj) as (e' & He' & <-).
    rewrite <-Hx in He'. by simplify_eq. }
  apply (Nat.lt_irrefl NBUF). eapply Nat.le_lt_trans; [|exact Hsz].
  rewrite <-size_dom, <-(rep_len _ _ Hrep), <-(length_fmap blockno), <-(size_list_to_set (C:=gset Z))
    by done.
  apply subseteq_size. intros x [m [-> [i Hi]%list_elem_of_lookup]]%elem_of_list_to_set%list_elem_of_fmap.
  apply elem_of_dom. destruct (Href _ _ Hi) as (e & He & _). eauto.
Qed.

Lemma rep_index_nodup : NoDup ((e_index ∘ snd) <$> map_to_list (a_bufs a)).
Proof using Hrep.
  apply NoDup_fmap_2_strong; [|apply NoDup_map_to_list].
  intros [b e] [b' e'] He%elem_of_map_to_list He'%elem_of_map_to_list Hx. simpl in Hx.
  destruct (rep_entry _ _ He) as [Hs _], (rep_entry _ _ He') as [Hs' _].
  rewrite Hx, Hs' in Hs. unfold slot_of in Hs. by simplify_eq.
Qed.

Lemma rep_index_lt j : j ∈ (e_index ∘ snd) <$> map_to_list (a_bufs a) -> j ∈ seq 0 NBUF.
Proof using Hrep.
  intros ([b e] & -> & He%elem_of_map_to_list)%list_elem_of_fmap.
  destruct (rep_entry _ _ He) as (_ & _ & mm & Hmm%lookup_lt_Some & _).
  change ((e_index ∘ snd) (b, e)) with (e_index e).
  rewrite elem_of_seq, <-(rep_len _ _ Hrep). lia.
Qed.

Lemma rep_size : (size (a_bufs a) <= NBUF)%nat.
Proof using Hrep.
  rewrite <-length_map_to_list, <-(length_fmap (e_index ∘ snd)).
  transitivity (length (seq 0 NBUF)); [|by rewrite length_seq].
  apply submseteq_length, NoDup_submseteq; [apply rep_index_nodup|apply rep_index_lt].
Qed.

Lemma rep_full i m :
  size (a_bufs a) = NBUF -> inner (lru s) !! i = Some m -> refcnt m <> 0.
Proof using Hrep.
  intros Hsz Hi Hz. destruct (rep_meta_slot _ _ Hi) as (bf & _ & Hsi).
  assert (i :: ((e_index ∘ snd) <$> map_to_list (a_bufs a)) ⊆+ seq 0 NBUF) as Hsub.
  { apply NoDup_submseteq.
    - apply NoDup_cons. split; [|apply rep_index_nodup].
      intros ([b e] & -> & He%elem_of_map_to_list)%list_elem_of_fmap. simpl in *.
      destruct (rep_entry _ _ He) as (Hs & ? & _). rewrite Hsi in Hs. unfold slot_of in Hs.
      simplify_eq. lia.
    - intros j [->|Hj]%elem_of_cons; [|by apply rep_index_lt].
      rewrite elem_of_seq, <-(rep_len _ _ Hrep). apply lookup_lt_Some in Hi. lia. }
  apply submseteq_length in Hsub.
  rewrite length_cons, length_fmap, length_map_to_list, length_seq, Hsz in Hsub. lia.
Qed.

End represented.

(** The abstract cache is a function of the concrete one. *)
Lemma rep_det s a a' : rep s a -> rep s a' -> a = a'.
Proof.
  intros Hr Hr'.
  assert (Hsub : forall a a', rep s a -> rep s a' -> a_bufs a ⊆ a_bufs a').
  { clear. intros a a' Hr Hr'. apply map_subseteq_spec. intros b e He.
    destruct (rep_entry _ _ Hr _ _ He) as (Hs & ? & _).
    destruct (so_ref _ _ (rep_slots _ _ Hr') _ _ Hs) as (e' & He' & Hx); [simpl; lia|].
    simpl in He'. destruct (rep_entry _ _ Hr' _ _ He') as (Hs' & _).
    rewrite Hx, Hs in Hs'. rewrite He'. unfold slot_of in Hs'. destruct e, e'. simpl in *.
    by simplify_eq. }
  assert (Hb : a_bufs a = a_bufs a') by (apply (anti_symm (⊆)); auto).
  assert (Hd : a_disk a = a_disk a') by by rewrite <-(rep_disk _ _ Hr), <-(rep_disk _ _ Hr').
  assert (Hw : a_writes a = a_writes a') by by rewrite <-(rep_writes _ _ Hr), <-(rep_writes _ _ Hr').
  destruct a, a'. simpl in *. by subst.
Qed.

(** *** The specifications of the cache operations *)

(** A change of the slot of a referenced block that keeps a reference. *)
Lemma rep_keep_ref s a s' b e e' m' :
  rep s a -> a_bufs a !! b = Some e ->
  changed s s' (e_index e) m' (mkBuf true (e_locked e') (e_data e')) ->
  (exists order, lru_wf (lru s') order) -> disk s' = disk s -> writes s' = writes s ->
  index m' = e_index e -> dev m' = ROOTDEV -> blockno m' = b -> refcnt m' = e_rc e' ->
  e_index e' = e_index e -> 0 < e_rc e' < 2 ^ 64 -> rep s' (abs_set b e' a).
Proof.
  intros Hr He Hch Hwf Hdk Hw Hx Hd Hb Hrf Hi Hrc.
  destruct (rep_entry _ _ Hr _ _ He) as (Hs & _).
  eapply rep_changed; [done|done|done|done| | |]; simpl.
  - by rewrite Hdk, (rep_disk _ _ Hr).
  - by rewrite Hw, (rep_writes _ _ Hr).
  - eapply slots_ref; [apply (rep_slots _ _ Hr)| |done|rewrite Hi; exact Hs|by right|].
    + pose proof (changed_slot _ _ _ _ _ _ Hch Hs) as Hup.
      rewrite Hd, Hb, Hrf in Hup. rewrite Hi. exact Hup.
    + rewrite Hi. intros j slj Hne Hj Hdj Hbj. apply Hne.
      by eapply (so_unique _ _ (rep_slots _ _ Hr) _ _ _ _ Hj Hs).
Qed.

Lemma bread_referenced s a b e :
  rep s a -> a_bufs a !! b = Some e -> e_locked e = false -> e_rc e + 1 < 2 ^ 64 ->
  wp (bread ROOTDEV b) s (fun g s' => g = mkGuard (e_index e) b (e_index e) /\
    rep s' (abs_set b (mkEntry (e_index e) (e_rc e + 1) true (e_data e)) a)).
Proof.
  intros Hr He Hl Hrc. destruct (rep_lru _ _ Hr) as [order Hwf].
  destruct (rep_entry _ _ Hr _ _ He) as (Hs & ? & m & Hm & Hx & Hb & Hd & Hbn & Hrf).
  destruct (bread_cached s order (e_index e) m _ b Hwf Hm Hx Hb Hd Hbn Hl)
    as (s' & Heq & Hch & Hwf' & Hdk & Hw).
  { intros j mj Hj Hdj Hbj. eapply rep_unique_meta; eauto. congruence. }
  simpl in Hch. eapply wp_Done; [done|]. split; [done|].
  eapply rep_keep_ref; try done; simpl; [|lia]. rewrite Hrf. apply usize_add_small; lia.
Qed.

(** Taking the first reference to a block, cached or not. *)
Lemma rep_first_ref s a s' i m sl b :
  rep s a -> changed s s' i m (mkBuf true true (disk_get (disk s) b)) ->
  (exists order, lru_wf (lru s') order) -> disk s' = disk s -> writes s' = writes s ->
  index m = i -> dev m = ROOTDEV -> blockno m = b -> refcnt m = 1 ->
  slot_at s i = Some sl -> s_rc sl = 0 ->
  (forall j slj, j <> i -> slot_at s j = Some slj -> s_dev slj = ROOTDEV -> s_bno slj <> b) ->
  rep s' (abs_set b (mkEntry i 1 true (disk_get (a_disk a) b)) a).
Proof.
  intros Hr Hch Hwf Hdk Hw Hx Hd Hb Hrf Hs Hz Hno.
  eapply rep_changed; [done|done|done|done| | |]; simpl.
  - by rewrite Hdk, (rep_disk _ _ Hr).
  - by rewrite Hw, (rep_writes _ _ Hr).
  - eapply slots_ref; [apply (rep_slots _ _ Hr)| | |exact Hs|by left|done]; simpl; [|lia].
    pose proof (changed_slot _ _ _ _ _ _ Hch Hs) as Hup.
    rewrite Hd, Hb, Hrf, (rep_disk _ _ Hr) in Hup. exact Hup.
Qed.

Lemma bread_unreferenced s a b :
  rep s a -> a_bufs a !! b = None -> (size (a_bufs a) < NBUF)%nat ->
  wp (bread ROOTDEV b) s (fun g s' => exists i, g = mkGuard i b i /\
    rep s' (abs_set b (mkEntry i 1 true (disk_get (a_disk a) b)) a)).
Proof.
  intros Hr Hn Hsz. destruct (rep_lru _ _ Hr) as [order Hwf].
  destruct (decide (Exists (fun m => dev m = ROOTDEV /\ blockno m = b) (inner (lru s)))) as [HE|HE].
  - (* still cached by an unreferenced buffer *)
    apply Exists_exists in HE as (m & [i Hm]%list_elem_of_lookup & Hd & Hb).
    destruct (rep_meta_slot _ _ Hr _ _ Hm) as (bf & Hbf & Hs).
    assert (Hz : refcnt m = 0).
    { destruct (decide (refcnt m = 0)) as [|Hne]; [done|].
      destruct (so_ref _ _ (rep_slots _ _ Hr) _ _ Hs Hne) as (e & He & _). simpl in He. congruence. }
    destruct (so_free _ _ (rep_slots _ _ Hr) _ _ Hs Hz) as [Hl Hv]. simpl in Hl, Hv.
    destruct (bread_cached s order i m bf b) as (s' & Heq & Hch & Hwf' & Hdk & Hw); try done.
    { by eapply rep_index. }
    { intros j mj Hj Hdj Hbj. eapply rep_unique_meta; eauto. congruence. }
    eapply wp_Done; [done|]. exists i. split; [done|].
    eapply (rep_first_ref s a s' i (incr_ref m)); try done; simpl.
    + replace (if valid bf then data bf else disk_get (disk s) b)
        with (disk_get (disk s) b) in Hch; [done|].
      destruct (valid bf); [|done]. rewrite (rep_disk _ _ Hr).
      destruct Hv as [Hv|[_ Hv]]; [unfold ROOTDEV in *; lia|]. by rewrite Hv, Hb.
    + by eapply rep_index.
    + by rewrite Hz.
    + intros j slj Hne Hj Hdj Hbj. apply Hne.
      eapply (so_unique _ _ (rep_slots _ _ Hr) _ _ _ _ Hj Hs); simpl; congruence.
  - (* not cached: recycle *)
    assert (Hno : forall j mj, inner (lru s) !! j = Some mj -> dev mj = ROOTDEV -> blockno mj <> b).
    { intros j mj Hj Hd Hb. apply HE, Exists_exists. exists mj.
      split; [by eapply list_elem_of_lookup_2|done]. }
    destruct (rep_free_slot _ _ Hr Hsz) as (i0 & m0 & Hi0 & Hr0).
    destruct (recycle_some _ _ _ _ Hwf Hi0 Hr0) as (i & m & Hm & Hz & Hrec).
    destruct (rep_meta_slot _ _ Hr _ _ Hm) as (bf & Hbf & Hs).
    destruct (so_free _ _ (rep_slots _ _ Hr) _ _ Hs Hz) as [Hl _]. simpl in Hl.
    assert (Hx : index m = i) by by eapply rep_index.
    destruct (bread_recycled s order i m bf b) as (s' & Heq & Hch & Hwf' & Hdk & Hw); try done.
    eapply wp_Done; [done|]. exists i. split; [done|].
    eapply (rep_first_ref s a s' i (incr_ref (set_id ROOTDEV b m))); try done; simpl.
    + by rewrite Hz.
    + intros j slj Hne (mj & Hj & _ & Hdj & Hbj & _)%slot_at_inv Hd Hb.
      eapply Hno; [done|congruence|congruence].
Qed.

(** A second reader of a locked block waits for the buffer's sleep lock. *)
Lemma bread_locked s a b e :
  rep s a -> a_bufs a !! b = Some e -> e_locked e = true -> bread ROOTDEV b s = Sleep.
Proof.
  intros Hr He Hl. destruct (rep_lru _ _ Hr) as [order Hwf].
  destruct (rep_entry _ _ Hr _ _ He) as (Hs & ? & m & Hm & Hx & Hb & Hd & Hbn & Hrf).
  apply bind_Sleep. unfold bget, bind at 1, lift_lru.
  erewrite find_hit; [|done|done|done|done|].
  - unfold take_ref. rewrite Hm, Hx. apply bind_Sleep. unfold lock_buf, bind, get_buf. simpl.
    by rewrite Hb, Hl.
  - intros j mj Hj Hdj Hbj. eapply rep_unique_meta; eauto. congruence.
Qed.

(** With all [NBUF] buffers referenced a further block is a panic. *)
Lemma bread_full s a b :
  rep s a -> a_bufs a !! b = None -> size (a_bufs a) = NBUF ->
  bread ROOTDEV b s = Panic "bcache: no buffers".
Proof.
  intros Hr Hn Hsz. destruct (rep_lru _ _ Hr) as [order Hwf].
  apply bind_Panic. unfold bget, bind at 1, lift_lru at 1.
  erewrite find_miss; [|done|].
  - unfold bind, lift_lru. simpl. erewrite recycle_none; [done|done|].
    intros i m Hi. by eapply rep_full.
  - intros j mj Hj Hd Hb. destruct (rep_meta_slot _ _ Hr _ _ Hj) as (bf & _ & Hs).
    destruct (so_ref _ _ (rep_slots _ _ Hr) _ _ Hs) as (e & He & _); simpl in *; [|congruence].
    by eapply rep_full.
Qed.

Section guarded.
Context (s : io) (a : cabs) (b : Z) (e : entry).
Context (Hr : rep s a) (He : a_bufs a !! b = Some e).

Let g : BufGuard := mkGuard (e_index e) b (e_index e).

Lemma data_of_spec Q : Q (e_data e) s -> wp (data_of g) s Q.
Proof using Hr He.
  intros HQ. destruct (rep_entry _ _ Hr _ _ He) as (_ & _ & m & _ & _ & Hb & _).
  eapply wp_Done; [|exact HQ]. unfold data_of, bind, get_buf. simpl. by rewrite Hb.
Qed.

Lemma set_data_spec d :
  wp (set_data g d) s
    (fun _ s' => rep s' (abs_set b (mkEntry (e_index e) (e_rc e) (e_locked e) d) a)).
Proof using Hr He.
  destruct (rep_entry _ _ Hr _ _ He) as (_ & ? & m & Hm & Hx & Hb & Hd & Hbn & Hrf).
  eapply wp_Done.
  { unfold set_data, bind, get_buf, put_buf, modify. simpl. rewrite Hb. reflexivity. }
  eapply (rep_keep_ref s a _ b e _ m); try done; simpl.
  - split; [|done]. intros j. simpl. by rewrite list_insert_id.
  - apply (rep_lru _ _ Hr).
Qed.

Lemma bwrite_spec :
  wp (bwrite g) s (fun _ s' => rep s' (abs_write b (e_data e) a)).
Proof using Hr He.
  unfold bwrite, disk_write. apply wp_bind, data_of_spec, wp_modify. simpl.
  destruct Hr as [H1 H2 H3 H4 H5 H6 H7]. split; simpl; try done; [congruence|congruence|].
  by eapply slots_write.
Qed.

Lemma ref_change_spec (f : Z -> Z) e' :
  e_rc e' = f (e_rc e) -> 0 < e_rc e' < 2 ^ 64 ->
  e_index e' = e_index e -> e_locked e' = e_locked e -> e_data e' = e_data e ->
  rep (set_lru (mkLru (alter (fun m => set_refcnt (f (refcnt m)) m) (e_index e)
                          (inner (lru s))) (head (lru s)) (tail (lru s))) s) (abs_set b e' a).
Proof using Hr He.
  intros Hf Hrc Hi Hl Hda.
  destruct (rep_entry _ _ Hr _ _ He) as (_ & ? & m & Hm & Hx & Hb & Hd & Hbn & Hrf).
  eapply (rep_keep_ref s a _ b e _ (set_refcnt (f (refcnt m)) m)); try done; simpl.
  - split; simpl.
    + intros j. by erewrite alter_insert by done.
    + rewrite list_insert_id; [done|]. by rewrite Hl, Hda.
  - destruct (rep_lru _ _ Hr) as [order Hwf]. exists order. by apply lru_wf_alter.
  - by rewrite Hrf.
Qed.

Lemma bpin_spec :
  e_rc e + 1 < 2 ^ 64 ->
  wp (bpin g) s (fun _ s' =>
    rep s' (abs_set b (mkEntry (e_index e) (e_rc e + 1) (e_locked e) (e_data e)) a)).
Proof using Hr He.
  intros Hrc. destruct (rep_entry _ _ Hr _ _ He) as (_ & ? & _).
  apply wp_modify, (ref_change_spec (fun r => r ⊞ 1)); simpl; try done; [|lia].
  rewrite usize_add_small; lia.
Qed.

Lemma bunpin_spec :
  1 < e_rc e ->
  wp (bunpin g) s (fun _ s' =>
    rep s' (abs_set b (mkEntry (e_index e) (e_rc e - 1) (e_locked e) (e_data e)) a)).
Proof using Hr He.
  intros Hrc. destruct (rep_entry _ _ Hr _ _ He) as (_ & ? & _).
  apply wp_modify, (ref_change_spec (fun r => r ⊟ 1)); simpl; try done; [|lia].
  rewrite usize_sub_small; lia.
Qed.

(** The concrete effect of dropping a guard. *)
Lemma guard_drop_changed :
  exists s' m, guard_drop g s = Done (tt, s') /\
    changed s s' (e_index e) m (mkBuf true false (e_data e)) /\
    (exists order, lru_wf (lru s') order) /\ disk s' = disk s /\ writes s' = writes s /\
    index m = e_index e /\ dev m = ROOTDEV /\ blockno m = b /\ refcnt m = e_rc e - 1.
Proof using Hr He.
  destruct (rep_entry _ _ Hr _ _ He) as (_ & ? & m & Hm & Hx & Hb & Hd & Hbn & Hrf).
  destruct (rep_lru _ _ Hr) as [order Hwf].
  destruct (list_elem_of_split order (e_index e)) as (l1 & l2 & ->).
  { eapply lru_wf_elem; [done|]. by eapply lookup_lt_Some. }
  destruct (lru_brelse_spec _ _ _ _ _ Hwf Hm) as (l' & Heq & Hwf' & Hp).
  exists (mkIo l' (<[e_index e := mkBuf true false (e_data e)]> (bufs s)) (disk s) (writes s)).
  exists (set_refcnt (refcnt m ⊟ 1) m). simpl. split_and!; try done.
  - unfold guard_drop. erewrite bind_Done
      by (unfold unlock_buf, bind, get_buf, put_buf, modify; simpl; by rewrite Hb).
    unfold brelse, lift_lru. simpl. by rewrite Heq.
  - eauto.
  - rewrite Hrf. apply usize_sub_small; lia.
Qed.

Lemma guard_drop_keep :
  1 < e_rc e ->
  wp (guard_drop g) s (fun _ s' =>
    rep s' (abs_set b (mkEntry (e_index e) (e_rc e - 1) false (e_data e)) a)).
Proof using Hr He.
  intros Hrc. destruct (rep_entry _ _ Hr _ _ He) as (_ & ? & _).
  destruct guard_drop_changed as (s' & m & Heq & Hch & Hwf & Hdk & Hw & Hx & Hd & Hbn & Hrf).
  eapply wp_Done; [done|]. eapply rep_keep_ref; try done. simpl. lia.
Qed.

Lemma guard_drop_last :
  e_rc e = 1 -> e_data e = disk_get (a_disk a) b ->
  wp (guard_drop g) s (fun _ s' => rep s' (abs_del b a)).
Proof using Hr He.
  intros Hrc Hcl. destruct (rep_entry _ _ Hr _ _ He) as (Hs & ? & _).
  destruct guard_drop_changed as (s' & m & Heq & Hch & Hwf & Hdk & Hw & Hx & Hd & Hbn & Hrf).
  eapply wp_Done; [done|]. eapply rep_changed; [done|done|done|done| | |]; simpl.
  - by rewrite Hdk, (rep_disk _ _ Hr).
  - by rewrite Hw, (rep_writes _ _ Hr).
  - eapply slots_unref; [apply (rep_slots _ _ Hr)|done|].
    pose proof (changed_slot _ _ _ _ _ _ Hch Hs) as Hup.
    rewrite Hd, Hbn, Hrf, Hrc, Hcl in Hup. exact Hup.
Qed.

End guarded.

Lemma lru_init_wf : lru_wf (lru_init lru_new) (seq 0 NBUF).
Proof.
  split_and!; [apply NoDup_seq|done| |done|done].
  vm_compute. repeat split; eexists; repeat split.
Qed.

Lemma init_meta i m :
  inner (lru_init lru_new) !! i = Some m -> payload m = (i, 0, 0, 0).
Proof.
  intros Hi. assert (Hlt : (i < 30)%nat) by (apply lookup_lt_Some in Hi; exact Hi).
  do 30 (destruct i as [|i]; [vm_compute in Hi; by simplify_eq|]). lia.
Qed.

Lemma rep_init d : rep (io_init d) (mkAbs ∅ d []).
Proof.
  assert (Hs : forall i sl, slot_at (io_init d) i = Some sl ->
    sl = mkSlot 0 0 0 (mkBuf false false zero_block)).
  { intros i sl (m & Hm & Hb & Hd & Hn & Hr)%slot_at_inv. apply init_meta in Hm.
    apply lookup_replicate in Hb as [Hb _]. unfold payload in Hm. destruct sl.
    simplify_eq/=. congruence. }
  split; try done.
  - exists (seq 0 NBUF). apply lru_init_wf.
  - intros i m Hm%init_meta. unfold payload in Hm. by simplify_eq.
  - split; simpl; try done.
    + intros i sl ->%Hs Hne. done.
    + intros i sl ->%Hs _. auto.
    + intros i j si sj ->%Hs _ Hd. done.
Qed.

(** ** The cache as a transition system

    The calls a client makes, on guards it holds, and their abstract effect. *)

Inductive op :=
| OpRead (b : Z)
| OpSet (g : BufGuard) (d : block)
| OpWrite (g : BufGuard)
| OpPin (g : BufGuard)
| OpUnpin (g : BufGuard)
| OpDrop (g : BufGuard).

Definition exec (o : op) : M io (option BufGuard) :=
  match o with
  | OpRead b => let! g := bread ROOTDEV b in ret (Some g)
  | OpSet g d => set_data g d ;; ret None
  | OpWrite g => bwrite g ;; ret None
  | OpPin g => bpin g ;; ret None
  | OpUnpin g => bunpin g ;; ret None
  | OpDrop g => guard_drop g ;; ret None
  end.

Definition guard_of (b : Z) (e : entry) : BufGuard := mkGuard (e_index e) b (e_index e).

Inductive astep (a : cabs) : op -> option BufGuard -> cabs -> Prop :=
| a_read_hit b e :
    a_bufs a !! b = Some e -> e_locked e = false -> e_rc e + 1 < 2 ^ 64 ->
    astep a (OpRead b) (Some (guard_of b e))
      (abs_set b (mkEntry (e_index e) (e_rc e + 1) true (e_data e)) a)
| a_read_miss b i :
    a_bufs a !! b = None -> (size (a_bufs a) < NBUF)%nat ->
    astep a (OpRead b) (Some (mkGuard i b i))
      (abs_set b (mkEntry i 1 true (disk_get (a_disk a) b)) a)
| a_set b e d :
    a_bufs a !! b = Some e -> e_locked e = true ->
    astep a (OpSet (guard_of b e) d) None
      (abs_set b (mkEntry (e_index e) (e_rc e) true d) a)
| a_write b e :
    a_bufs a !! b = Some e -> e_locked e = true ->
    astep a (OpWrite (guard_of b e)) None (abs_write b (e_data e) a)
| a_pin b e :
    a_bufs a !! b = Some e -> e_locked e = true -> e_rc e + 1 < 2 ^ 64 ->
    astep a (OpPin (guard_of b e)) None
      (abs_set b (mkEntry (e_index e) (e_rc e + 1) true (e_data e)) a)
| a_unpin b e :
    a_bufs a !! b = Some e -> e_locked e = true -> 1 < e_rc e ->
    astep a (OpUnpin (guard_of b e)) None
      (abs_set b (mkEntry (e_index e) (e_rc e - 1) true (e_data e)) a)
| a_drop_pinned b e :
    a_bufs a !! b = Some e -> e_locked e = true -> 1 < e_rc e ->
    astep a (OpDrop (guard_of b e)) None
      (abs_set b (mkEntry (e_index e) (e_rc e - 1) false (e_data e)) a)
| a_drop_last b e :
    a_bufs a !! b = Some e -> e_locked e = true -> e_rc e = 1 ->
    e_data e = disk_get (a_disk a) b ->
    astep a (OpDrop (guard_of b e)) None (abs_del b a).

(** States a client reaches from [d] through the calls the protocol allows. *)
Inductive reaches (d : gmap Z block) : io -> cabs -> Prop :=
| reaches_init : reaches d (io_init d) (mkAbs ∅ d [])
| reaches_step s a o r s' a' :
    reaches d s a -> exec o s = Done (r, s') -> astep a o r a' -> reaches d s' a'.

Lemma wp_exec_ret {A} (m : M io A) (f : A -> option BufGuard) s Q :
  wp m s Q -> wp (let! x := m in ret (f x)) s (fun r s' => exists x, r = f x /\ Q x s').
Proof. intros H. apply wp_bind. eapply wp_mono; [exact H|]. intros x s' ?. apply wp_ret. eauto. Qed.

(** The abstract step of an enabled call is the one the code takes. *)
Lemma exec_simulates s a o r0 a0 :
  rep s a -> astep a o r0 a0 ->
  wp (exec o) s (fun r s' => exists a', astep a o r a' /\ rep s' a').
Proof.
  intros Hr Ha. destruct Ha as [b e He Hl Hrc|b i He Hsz|b e d He Hl|b e He Hl|b e He Hl Hrc
    |b e He Hl Hrc|b e He Hl Hrc|b e He Hl Hrc Hcl]; simpl.
  - eapply wp_mono; [by apply (wp_exec_ret _ Some), bread_referenced|].
    intros r s' (x & -> & -> & Hr'). eexists. split; [by apply a_read_hit|done].
  - eapply wp_mono; [by apply (wp_exec_ret _ Some), bread_unreferenced|].
    intros r s' (x & -> & j & -> & Hr'). eexists. split; [by apply a_read_miss|done].
  - eapply wp_mono; [by apply (wp_exec_ret _ (fun _ => None)), (set_data_spec s a)|].
    intros r s' (x & -> & Hr'). rewrite Hl in Hr'. eexists. split; [by apply a_set|done].
  - eapply wp_mono; [by apply (wp_exec_ret _ (fun _ => None)), (bwrite_spec s a)|].
    intros r s' (x & -> & Hr'). eexists. split; [by apply a_write|done].
  - eapply wp_mono; [by apply (wp_exec_ret _ (fun _ => None)), (bpin_spec s a)|].
    intros r s' (x & -> & Hr'). rewrite Hl in Hr'. eexists. split; [by apply a_pin|done].
  - eapply wp_mono; [by apply (wp_exec_ret _ (fun _ => None)), (bunpin_spec s a)|].
    intros r s' (x & -> & Hr'). rewrite Hl in Hr'. eexists. split; [by apply a_unpin|done].
  - eapply wp_mono; [by apply (wp_exec_ret _ (fun _ => None)), (guard_drop_keep s a)|].
    intros r s' (x & -> & Hr'). eexists. split; [by apply a_drop_pinned|done].
  - eapply wp_mono; [by apply (wp_exec_ret _ (fun _ => None)), (guard_drop_last s a)|].
    intros r s' (x & -> & Hr'). eexists. split; [by apply a_drop_last|done].
Qed.

Lemma guard_of_inj a b b' e e' :
  a_bufs a !! b = Some e -> a_bufs a !! b' = Some e' -> guard_of b e = guard_of b' e' ->
  b = b' /\ e = e'.
Proof. unfold guard_of. intros ? ? ?. simplify_eq. done. Qed.

Lemma astep_det a o r a1 a2 : astep a o r a1 -> astep a o r a2 -> a1 = a2.
Proof.
  intros H1 H2. destruct H1; inversion H2; subst;
    repeat match goal with
    | H : guard_of _ _ = guard_of _ _ |- _ =>
        eapply guard_of_inj in H as [? ?]; [|eassumption..]; subst
    end; simplify_eq; (lia || done).
Qed.

Lemma reaches_rep d s a : reaches d s a -> rep s a.
Proof.
  induction 1 as [|s a o r s' a' _ IH Hex Ha]; [apply rep_init|].
  destruct (wp_elim _ _ _ (exec_simulates _ _ _ _ _ IH Ha)) as (r' & s'' & Hex' & a'' & Ha' & Hr).
  rewrite Hex in Hex'. simplify_eq. by rewrite (astep_det _ _ _ _ _ Ha Ha').
Qed.

(** C2: refinement of the buffer cache.  Whatever allowed calls led to a
    state, a call that the abstract cache allows is carried out by the code:
    it returns (no panic, no wait, the pointer walks terminate), with the guard
    and the effect of the abstract cache, and the new state is again one that
    represents the abstract cache. *)
Theorem cache_refines d s a o r0 a0 :
  reaches d s a -> astep a o r0 a0 ->
  exists r s' a', exec o s = Done (r, s') /\ astep a o r a' /\ reaches d s' a' /\ rep s' a'.
Proof.
  intros Hs Ha. pose proof (reaches_rep _ _ _ Hs) as Hr.
  destruct (wp_elim _ _ _ (exec_simulates _ _ _ _ _ Hr Ha)) as (r & s' & Hex & a' & Ha' & Hr').
  exists r, s', a'. split_and!; try done. by eapply reaches_step.
Qed.

Lemma cache_refines_witness :
  exists r s' a', exec (OpRead 7) (io_init ∅) = Done (r, s') /\
    astep (mkAbs ∅ ∅ []) (OpRead 7) r a' /\ reaches ∅ s' a' /\ rep s' a'.
Proof.
  eapply (cache_refines ∅ (io_init ∅) (mkAbs ∅ ∅ []) (OpRead 7)).
  - apply reaches_init.
  - apply (a_read_miss _ 7 0); [reflexivity|]. vm_compute. lia.
Defined.

(** [bread] on every branch.  It returns the contents of the block as its
    clients last left them; it waits when another holder has the buffer
    locked; and it panics exactly when the block is not referenced and all
    [NBUF] buffers are. *)
Theorem bread_branches d s a b :
  reaches d s a -> (forall e, a_bufs a !! b = Some e -> e_rc e + 1 < 2 ^ 64) ->
  match a_bufs a !! b with
  | Some e =>
      if e_locked e then bread ROOTDEV b s = Sleep
      else wp (let! g := bread ROOTDEV b in data_of g) s (fun x _ => x = abs_view a b)
  | None =>
      if decide (size (a_bufs a) < NBUF)%nat
      then wp (let! g := bread ROOTDEV b in data_of g) s (fun x _ => x = abs_view a b)
      else size (a_bufs a) = NBUF /\ bread ROOTDEV b s = Panic "bcache: no buffers"
  end.
Proof.
  intros Hr%reaches_rep Hrc. unfold abs_view. destruct (a_bufs a !! b) as [e|] eqn:He.
  - destruct (e_locked e) eqn:Hl; [by eapply bread_locked|].
    apply wp_bind. eapply wp_mono; [by eapply bread_referenced; auto|].
    intros g s' [-> Hr']. by eapply (data_of_spec s' _ b _ Hr' (lookup_insert_eq _ _ _)).
  - case_decide as Hsz.
    + apply wp_bind. eapply wp_mono; [by eapply bread_unreferenced|].
      intros g s' (i & -> & Hr').
      by eapply (data_of_spec s' _ b _ Hr' (lookup_insert_eq _ _ _)).
    + assert (size (a_bufs a) = NBUF).
      { apply Nat.le_antisymm; [by eapply rep_size|lia]. }
      split; [done|]. by eapply bread_full.
Qed.

Lemma bread_branches_witness :
  wp (let! g := bread ROOTDEV 7 in data_of g) (io_init ∅)
    (fun x _ => x = abs_view (mkAbs ∅ ∅ []) 7).
Proof.
  pose proof (bread_branches ∅ (io_init ∅) (mkAbs ∅ ∅ []) 7 (reaches_init ∅)) as H.
  cbn [a_bufs] in H. rewrite lookup_empty in H.
  rewrite decide_True in H by (vm_compute; lia). apply H. done.
Defined.

(** Replacement.  The list is kept in order of use: the released buffer
    moves to its front when its last reference goes, and the buffer [recycle]
    takes is the unreferenced one that is furthest back, that is the one that was
    released longest ago; the other buffers keep their blocks. *)
Theorem recycle_least_recently_used l order1 i order2 m d b :
  lru_wf l (order1 ++ i :: order2) -> inner l !! i = Some m -> refcnt m = 0 ->
  (forall j mj, j ∈ order2 -> inner l !! j = Some mj -> refcnt mj <> 0) ->
  exists l', recycle d b l = Done (Some (index m, i), l') /\
    lru_wf l' (order1 ++ i :: order2) /\
    (payload <$> inner l' !! i = Some (index m, d, b, 1)) /\
    (forall j, j <> i -> inner l' !! j = inner l !! j) /\
    exists l'', lru_brelse i l' = Done (tt, l'') /\
      lru_wf l'' (i :: order1 ++ order2) /\
      payload <$> inner l'' !! i = Some (index m, d, b, 0).
Proof.
  intros Hwf Hm Hz Hno. pose proof (lookup_lt_Some _ _ _ Hm) as Hlt.
  set (m1 := set_refcnt (refcnt m ⊞ 1) (set_id d b m)).
  exists (mkLru (<[i := m1]> (inner l)) (head l) (tail l)).
  assert (Hwf1 : lru_wf (mkLru (<[i := m1]> (inner l)) (head l) (tail l)) (order1 ++ i :: order2)).
  { subst m1. rewrite <-(alter_insert (fun m => set_refcnt (refcnt m ⊞ 1) (set_id d b m))) by done.
    by apply lru_wf_alter. }
  assert (Hm1 : <[i := m1]> (inner l) !! i = Some m1) by by apply list_lookup_insert_eq.
  split_and!; [|done| | |].
  - unfold recycle. destruct Hwf as (Hnd & Hlen & Hs & _ & Ht). rewrite Ht.
    erewrite walk_prev_spec by (eauto; unfold walk_fuel; lia).
    rewrite rev_app_distr. simpl. rewrite <-app_assoc. cbn [app].
    erewrite find_app_skip; [|simpl; unfold hits; rewrite Hm; by apply Z.eqb_eq|].
    + unfold take_ref. rewrite Hm, <-Ht. by erewrite alter_insert by done.
    + intros j Hj%list_elem_of_In%in_rev%list_elem_of_In. unfold hits.
      destruct (inner l !! j) as [mj|] eqn:E; [|done]. apply Z.eqb_neq. eauto.
  - simpl. rewrite Hm1. subst m1. unfold payload. simpl. by rewrite Hz.
  - intros j Hne. simpl. by rewrite list_lookup_insert_ne.
  - destruct (lru_brelse_spec _ _ _ _ _ Hwf1 Hm1) as (l'' & Heq & Hwf2 & Hp).
    exists l''. split; [done|]. subst m1. simpl in *. rewrite Hz in *.
    split; [done|]. rewrite Hp, list_insert_insert_eq, list_lookup_insert_eq by done. done.
Qed.

Lemma recycle_least_recently_used_witness :
  exists l', recycle 1 7 (lru_init lru_new) = Done (Some (29%nat, 29%nat), l') /\
    lru_wf l' (seq 0 29 ++ [29%nat]).
Proof.
  destruct (recycle_least_recently_used (lru_init lru_new) (seq 0 29) 29 []
              (mkMeta 29 0 0 0 (Some 28%nat) None) 1 7) as (l' & H1 & H2 & _).
  - apply (lru_init_wf).
  - reflexivity.
  - reflexivity.
  - intros j mj Hj. by apply elem_of_nil in Hj.
  - by exists l'.
Defined.

End Bio.
