(* ===== verification/Virtio.v ===== *)
(** * The virtio disk driver

    Models [kernel/src/virtio.rs]: the descriptor table, the two rings shared
    with the device, the interrupt handler and the request [rw], which gives up
    the CPU while it waits and is therefore split at its [sleep]s.  The device is
    not part of the kernel: it is the class [VirtioDevice], with the behaviour
    of a virtio block device as its law.  Memory-mapped registers are a function
    for reads and a trace for writes. *)

From S2P Require Import Prelude Param Bytes Bio.

Module Virtio.

Definition NUM : nat := 8.

Definition VIRTIO_MMIO_MAGIC_VALUE : Z := 0x000.
Definition VIRTIO_MMIO_VERSION : Z := 0x004.
Definition VIRTIO_MMIO_DEVICE_ID : Z := 0x008.
Definition VIRTIO_MMIO_VENDOR_ID : Z := 0x00c.
Definition VIRTIO_MMIO_DEVICE_FEATURES : Z := 0x010.
Definition VIRTIO_MMIO_DRIVER_FEATURES : Z := 0x020.
Definition VIRTIO_MMIO_GUEST_PAGE_SIZE : Z := 0x028.
Definition VIRTIO_MMIO_QUEUE_SEL : Z := 0x030.
Definition VIRTIO_MMIO_QUEUE_NUM_MAX : Z := 0x034.
Definition VIRTIO_MMIO_QUEUE_NUM : Z := 0x038.
Definition VIRTIO_MMIO_QUEUE_PFN : Z := 0x040.
Definition VIRTIO_MMIO_QUEUE_NOTIFY : Z := 0x050.
Definition VIRTIO_MMIO_INTERRUPT_STATUS : Z := 0x060.
Definition VIRTIO_MMIO_INTERRUPT_ACK : Z := 0x064.
Definition VIRTIO_MMIO_STATUS : Z := 0x070.

Definition VIRTIO_CONFIG_S_ACKNOWLEDGE : Z := 1.
Definition VIRTIO_CONFIG_S_DRIVER : Z := 2.
Definition VIRTIO_CONFIG_S_DRIVER_OK : Z := 4.
Definition VIRTIO_CONFIG_S_FEATURES_OK : Z := 8.

Definition VIRTIO_BLK_F_RO : Z := 5.
Definition VIRTIO_BLK_F_SCSI : Z := 7.
Definition VIRTIO_BLK_F_CONFIG_WCE : Z := 11.
Definition VIRTIO_BLK_F_MQ : Z := 12.
Definition VIRTIO_F_ANY_LAYOUT : Z := 27.
Definition VIRTIO_RING_F_INDIRECT_DESC : Z := 28.
Definition VIRTIO_RING_F_EVENT_IDX : Z := 29.

Definition VRING_DESC_F_NEXT : Z := 1.
Definition VRING_DESC_F_WRITE : Z := 2.
Definition VIRTIO_BLK_T_IN : Z := 0.
Definition VIRTIO_BLK_T_OUT : Z := 1.

(** ** The structures shared with the device *)

Record Desc := mkDesc { d_addr : Z; d_len : Z; d_flags : Z; d_next : Z }.
Definition desc_new : Desc := mkDesc 0 0 0 0.

Record Avail := mkAvail { a_flags : Z; a_idx : Z; a_ring : list Z; a_unused : Z }.
Definition avail_new : Avail := mkAvail 0 0 (replicate NUM 0) 0.

Record UsedElem := mkUsedElem { ue_id : Z; ue_len : Z }.
Record Used := mkUsed { u_flags : Z; u_idx : Z; u_ring : list UsedElem }.
Definition used_new : Used := mkUsed 0 0 (replicate NUM (mkUsedElem 0 0)).

Record Info := mkInfo { buf_chan : option Z; i_disk : bool; status : Z }.
Definition info_new : Info := mkInfo None false 0.

Record BlkReq := mkBlkReq { typed : Z; reserved : Z; sector : Z }.
Definition blkreq_new : BlkReq := mkBlkReq 0 0 0.

Record Disk := mkDisk {
  desc : list Desc;
  avail : Avail;
  used : Used;
  free : list bool;
  used_idx : Z;
  info : list Info;
  ops : list BlkReq
}.

Definition disk_new : Disk :=
  mkDisk (replicate NUM desc_new) avail_new used_new (replicate NUM false) 0
    (replicate NUM info_new) (replicate NUM blkreq_new).

(** The driver with what surrounds it: the data of the buffers by address,
    the device registers as they read, the register writes and the wakeups so
    far. *)
Record vio := mkVio {
  dk : Disk;
  mem : gmap Z block;
  regs : Z -> Z;
  mmio : list (Z * Z);
  woken : list Z
}.

Definition set_dk (d : Disk) (s : vio) : vio := mkVio d (mem s) (regs s) (mmio s) (woken s).

Definition read (offset : Z) : M vio Z := let! s := get in ret (regs s offset).
Definition write (offset v : Z) : M vio unit :=
  modify (fun s => mkVio (dk s) (mem s) (regs s) (mmio s ++ [(offset, v)]) (woken s)).
Definition wakeup (chan : Z) : M vio unit :=
  modify (fun s => mkVio (dk s) (mem s) (regs s) (mmio s) (woken s ++ [chan])).

Definition get_dk : M vio Disk := let! s := get in ret (dk s).
Definition on_dk (f : Disk -> Disk) : M vio unit := modify (fun s => set_dk (f (dk s)) s).

(** [self.desc[i] = d] and the like. *)
Definition set_desc (i : nat) (x : Desc) (d : Disk) : Disk :=
  mkDisk (<[i := x]> (desc d)) (avail d) (used d) (free d) (used_idx d) (info d) (ops d).
Definition set_free (i : nat) (x : bool) (d : Disk) : Disk :=
  mkDisk (desc d) (avail d) (used d) (<[i := x]> (free d)) (used_idx d) (info d) (ops d).
Definition set_info (i : nat) (x : Info) (d : Disk) : Disk :=
  mkDisk (desc d) (avail d) (used d) (free d) (used_idx d) (<[i := x]> (info d)) (ops d).
Definition set_ops (i : nat) (x : BlkReq) (d : Disk) : Disk :=
  mkDisk (desc d) (avail d) (used d) (free d) (used_idx d) (info d) (<[i := x]> (ops d)).
Definition set_avail (x : Avail) (d : Disk) : Disk :=
  mkDisk (desc d) x (used d) (free d) (used_idx d) (info d) (ops d).
Definition set_used (x : Used) (d : Disk) : Disk :=
  mkDisk (desc d) (avail d) x (free d) (used_idx d) (info d) (ops d).
Definition set_used_idx (x : Z) (d : Disk) : Disk :=
  mkDisk (desc d) (avail d) (used d) (free d) x (info d) (ops d).
Definition set_all_free (d : Disk) : Disk :=
  mkDisk (desc d) (avail d) (used d) ((fun _ => true) <$> free d) (used_idx d) (info d) (ops d).

(** [features &= !(1u32 << bit)] *)
Definition clear_bit (features bit : Z) : Z := Z.land features (2 ^ 32 - 1 - 2 ^ bit).

Section driver.

(** Where the linker and the compiler put the parts of the static [DISK]. *)
Context (self_addr : Z) (free_addr : Z) (ops_addr status_addr : nat -> Z).

Definition init : M vio unit :=
  let! magic := read VIRTIO_MMIO_MAGIC_VALUE in
  let! version := read VIRTIO_MMIO_VERSION in
  let! device := read VIRTIO_MMIO_DEVICE_ID in
  let! vendor := read VIRTIO_MMIO_VENDOR_ID in
  if negb (magic =? 0x74726976) || negb (version =? 1) || negb (device =? 2) || negb (vendor =? 0x554d4551)
  then panic "could not find virtio disk"
  else
    let st := Z.lor 0 VIRTIO_CONFIG_S_ACKNOWLEDGE in
    write VIRTIO_MMIO_STATUS st ;;
    let st := Z.lor st VIRTIO_CONFIG_S_DRIVER in
    write VIRTIO_MMIO_STATUS st ;;
    let! features := read VIRTIO_MMIO_DEVICE_FEATURES in
    let features := clear_bit features VIRTIO_BLK_F_RO in
    let features := clear_bit features VIRTIO_BLK_F_SCSI in
    let features := clear_bit features VIRTIO_BLK_F_CONFIG_WCE in
    let features := clear_bit features VIRTIO_BLK_F_MQ in
    let features := clear_bit features VIRTIO_F_ANY_LAYOUT in
    let features := clear_bit features VIRTIO_RING_F_EVENT_IDX in
    let features := clear_bit features VIRTIO_RING_F_INDIRECT_DESC in
    write VIRTIO_MMIO_DRIVER_FEATURES features ;;
    let st := Z.lor st VIRTIO_CONFIG_S_FEATURES_OK in
    write VIRTIO_MMIO_STATUS st ;;
    let st := Z.lor st VIRTIO_CONFIG_S_DRIVER_OK in
    write VIRTIO_MMIO_STATUS st ;;
    write VIRTIO_MMIO_GUEST_PAGE_SIZE PAGESIZE ;;
    write VIRTIO_MMIO_QUEUE_SEL 0 ;;
    let! max := read VIRTIO_MMIO_QUEUE_NUM_MAX in
    if max =? 0 then panic "virtio disk has no queue 0"
    else if max <? Z.of_nat NUM then panic "virtio disk max queue too short"
    else
      write VIRTIO_MMIO_QUEUE_NUM (Z.of_nat NUM) ;;
      let pfn := Z.shiftr self_addr 12 in
      assert (pfn <? 2 ^ 32) "TryFromIntError" ;;
      write VIRTIO_MMIO_QUEUE_PFN pfn ;;
      on_dk set_all_free.

(** The [while] loop of [intr]. *)
Fixpoint intr_loop (fuel : nat) : M vio unit :=
  let! d := get_dk in
  if used_idx d =? u_idx (used d) then ret tt
  else
    match fuel with
    | O => out_of_fuel
    | S fuel =>
        let! e := get_at (u_ring (used d)) (Z.to_nat (used_idx d `mod` Z.of_nat NUM)) in
        let id := Z.to_nat (ue_id e) in
        let! inf := get_at (info d) id in
        assert (status inf =? 0) "virtio_intr: status" ;;
        on_dk (set_info id (mkInfo (buf_chan inf) false (status inf))) ;;
        let! buf := unwrap (buf_chan inf) "virtio: intr not found buffer channel" in
        wakeup buf ;;
        on_dk (set_used_idx (u32_add (used_idx d) 1)) ;;
        intr_loop fuel
    end.

Definition intr (fuel : nat) : M vio unit :=
  let! st := read VIRTIO_MMIO_INTERRUPT_STATUS in
  write VIRTIO_MMIO_INTERRUPT_ACK (Z.land st 0x3) ;;
  intr_loop fuel.

(** ** Descriptors *)

Fixpoint first_free (l : list bool) : option nat :=
  match l with
  | [] => None
  | true :: _ => Some O
  | false :: l => S <$> first_free l
  end.

Definition alloc_desc : M vio (option nat) :=
  let! d := get_dk in
  match first_free (free d) with
  | Some i => on_dk (set_free i false) ;; ret (Some i)
  | None => ret None
  end.

Definition free_desc (i : nat) : M vio unit :=
  if Nat.leb NUM i then panic "free_desc: out of range"
  else
    let! d := get_dk in
    let! f := get_at (free d) i in
    if f then panic "free_desc: already free"
    else
      on_dk (set_desc i desc_new) ;;
      on_dk (set_free i true) ;;
      wakeup free_addr.

(** [alloc3_desc]: the loop over [0..n], with the indices found so far. *)
Fixpoint alloc_descs (n : nat) (idx : list nat) : M vio (option (list nat)) :=
  match n with
  | O => ret (Some idx)
  | S n =>
      let! r := alloc_desc in
      match r with
      | Some i => alloc_descs n (idx ++ [i])
      | None => mfor (seq 0 (length idx)) free_desc ;; ret None
      end
  end.
Definition alloc3_desc : M vio (option (list nat)) := alloc_descs 3 [].

Fixpoint free_chain (fuel : nat) (i : nat) : M vio unit :=
  match fuel with
  | O => out_of_fuel
  | S fuel =>
      let! d := get_dk in
      let! x := get_at (desc d) i in
      free_desc i ;;
      if Z.land (d_flags x) VRING_DESC_F_NEXT =? 0 then ret tt
      else free_chain fuel (Z.to_nat (d_next x))
  end.

(** ** Requests *)

(** The three descriptors, the operation and the entry in the ring for a buffer
    at address [p] with the contents of block [blockno]. *)
Definition format (i0 i1 i2 : nat) (p blockno : Z) (writing : bool) : M vio unit :=
  on_dk (set_ops i0 (mkBlkReq (if writing then VIRTIO_BLK_T_OUT else VIRTIO_BLK_T_IN) 0 (blockno ⊠ (BSIZE / 512)))) ;;
  on_dk (set_desc i0 (mkDesc (ops_addr i0) 16 VRING_DESC_F_NEXT (Z.of_nat i1))) ;;
  on_dk (set_desc i1 (mkDesc p BSIZE
    (Z.lor (if writing then 0 else VRING_DESC_F_WRITE) VRING_DESC_F_NEXT) (Z.of_nat i2))) ;;
  on_dk (set_desc i2 (mkDesc (status_addr i0) 1 VRING_DESC_F_WRITE 0)) ;;
  on_dk (set_info i0 (mkInfo (Some p) true 0xff)) ;;
  on_dk (fun d => set_avail (mkAvail (a_flags (avail d)) (wrap 16 (a_idx (avail d) + 1))
    (<[Z.to_nat (a_idx (avail d) `mod` Z.of_nat NUM) := Z.of_nat i0]> (a_ring (avail d))) (a_unused (avail d))) d) ;;
  write VIRTIO_MMIO_QUEUE_NOTIFY 0.

(** [rw] up to the wait for the interrupt.  [None]: the descriptors did not
    suffice and the process sleeps on [&free[0]] before it tries again. *)
Definition rw_begin (p blockno : Z) (writing : bool) : M vio (option nat) :=
  let! idx := alloc3_desc in
  match idx with
  | Some [i0; i1; i2] => format i0 i1 i2 p blockno writing ;; ret (Some i0)
  | _ => ret None
  end.

(** One round of the wait: [false] if the process sleeps on the buffer again,
    otherwise the rest of [rw]. *)
Definition rw_end (p : Z) (i0 : nat) : M vio bool :=
  let! d := get_dk in
  let! inf := get_at (info d) i0 in
  if i_disk inf then ret false
  else
    on_dk (set_info i0 (mkInfo None (i_disk inf) (status inf))) ;;
    let! chan := unwrap (buf_chan inf) "unwrap" in
    assert (chan =? p) "assertion failed" ;;
    free_chain NUM i0 ;;
    ret true.
End driver.

(** ** Free descriptors *)

Fixpoint count_free (l : list bool) : nat :=
  match l with [] => 0 | true :: l => S (count_free l) | false :: l => count_free l end.

Lemma first_free_Some l i :
  first_free l = Some i -> l !! i = Some true /\ count_free (<[i := false]> l) = pred (count_free l) /\
  (0 < count_free l)%nat.
Proof.
  revert i. induction l as [|[] l IH]; intros i; cbn; [done|intros [= <-]; cbn; split_and!; [done|done|lia]|].
  destruct (first_free l) as [k|]; [|done]. intros [= <-]. by apply IH.
Qed.

Lemma first_free_None l : first_free l = None -> count_free l = 0%nat.
Proof.
  induction l as [|[] l IH]; [done|done|]. cbn. destruct (first_free l); [done|]. intros _. by apply IH.
Qed.

(** Marking the descriptors of a list as busy. *)
Definition take_free (l : list nat) (d : Disk) : Disk := foldl (fun d i => set_free i false d) d l.

Lemma take_free_cons i l d : take_free (i :: l) d = take_free l (set_free i false d).
Proof. done. Qed.

Lemma take_free_fields l d :
  desc (take_free l d) = desc d /\ avail (take_free l d) = avail d /\ used (take_free l d) = used d /\
  used_idx (take_free l d) = used_idx d /\ info (take_free l d) = info d /\ ops (take_free l d) = ops d /\
  length (free (take_free l d)) = length (free d).
Proof.
  revert d. induction l as [|i l IH]; intros d; [done|]. rewrite take_free_cons.
  destruct (IH (set_free i false d)) as (-> & -> & -> & -> & -> & -> & ->).
  cbn. by rewrite length_insert.
Qed.

Lemma take_free_lookup l d j :
  (j < length (free d))%nat ->
  free (take_free l d) !! j = if decide (j ∈ l) then Some false else free d !! j.
Proof.
  revert d. induction l as [|i l IH]; intros d Hj; [by rewrite decide_False by set_solver|].
  rewrite take_free_cons, IH by (cbn; by rewrite length_insert). cbn. destruct (decide (i = j)) as [->|Hne].
  - rewrite list_lookup_insert_eq by done. rewrite (decide_True (P := j ∈ j :: l)) by set_solver. by case_decide.
  - rewrite list_lookup_insert_ne by done. apply decide_ext. set_solver.
Qed.

(** The descriptors that [alloc_descs] finds. *)
Lemma alloc_descs_some fa n idx s :
  (n <= count_free (free (dk s)))%nat ->
  exists l, alloc_descs fa n idx s = Done (Some (idx ++ l), set_dk (take_free l (dk s)) s) /\
    length l = n /\ NoDup l /\ (forall i, i ∈ l -> free (dk s) !! i = Some true) /\
    (count_free (free (take_free l (dk s))) = count_free (free (dk s)) - n)%nat.
Proof.
  revert idx s. induction n as [|n IH]; intros idx s Hn.
  - exists []. rewrite app_nil_r. split_and!; [by destruct s|done|constructor|set_solver|unfold take_free; cbn; lia].
  - destruct (first_free (free (dk s))) as [i|] eqn:E; [|apply first_free_None in E; lia].
    destruct (first_free_Some _ _ E) as (Hi & Hc & _).
    destruct (IH (idx ++ [i]) (set_dk (set_free i false (dk s)) s)) as (l & Hl & Hlen & Hnd & Hf & Hcnt);
      [cbn; lia|]. exists (i :: l). rewrite take_free_cons. cbn in Hcnt. split_and!.
    + cbn [alloc_descs]. unfold alloc_desc, get_dk, on_dk, get, modify, bind, ret. rewrite E. by rewrite Hl, <-app_assoc.
    + cbn. lia.
    + constructor; [|done]. intros Hin. specialize (Hf i Hin). cbn in Hf.
      rewrite list_lookup_insert_eq in Hf by by eapply lookup_lt_Some. done.
    + intros j [->|Hj]%elem_of_cons; [done|]. specialize (Hf j Hj). cbn in Hf.
      destruct (decide (i = j)) as [->|]; [|by rewrite list_lookup_insert_ne in Hf].
      by rewrite list_lookup_insert_eq in Hf by by eapply lookup_lt_Some.
    + lia.
Qed.

(** The free flags of the descriptors that are not in [X]. *)
Lemma count_free_complement n (l : list bool) (X : list nat) :
  length l = n -> NoDup X -> (forall i, i ∈ X -> (i < n)%nat) ->
  (forall i, (i < n)%nat -> l !! i = Some (bool_decide (i ∉ X))) -> (count_free l + length X = n)%nat.
Proof.
  intros Hl Hnd Hlt Hf.
  assert (El : l = (fun i => bool_decide (i ∉ X)) <$> seq 0 n).
  { apply list_eq_same_length with (n := n); [by rewrite length_fmap, length_seq|done|].
    intros i x y Hi Hx Hy. rewrite Hf in Hx by done. injection Hx as <-.
    rewrite list_lookup_fmap, lookup_seq_lt in Hy by done. by injection Hy as <-. }
  assert (Hc : forall L,
    (count_free ((fun i => bool_decide (i ∉ X)) <$> L) + length (filter (fun i => i ∈ X) L) = length L)%nat).
  { induction L as [|i L IH]; [done|]. rewrite fmap_cons, filter_cons. case_decide as Hi.
    - rewrite bool_decide_eq_false_2 by naive_solver. cbn. lia.
    - rewrite bool_decide_eq_true_2 by done. cbn. lia. }
  specialize (Hc (seq 0 n)). rewrite <-El, length_seq in Hc. rewrite <-Hc. f_equal. apply Permutation_length.
  apply NoDup_Permutation; [done|apply NoDup_filter, NoDup_seq|]. intros i. rewrite list_elem_of_filter, elem_of_seq.
  split; [|tauto]. intros Hi. specialize (Hlt i Hi). split; [done|lia].
Qed.

(** A request with its three descriptors. *)
Record req := mkReq { r0 : nat; r1 : nat; r2 : nat; r_buf : Z; r_block : Z; r_write : bool }.

Definition ids (r : req) : list nat := [r0 r; r1 r; r2 r].
Definition ids_of (l : list req) : list nat := l ≫= ids.

Lemma ids_of_app l l' : ids_of (l ++ l') = ids_of l ++ ids_of l'.
Proof. apply bind_app. Qed.

#[global] Instance ids_of_perm : Proper ((≡ₚ) ==> (≡ₚ)) ids_of.
Proof. intros l l' H. unfold ids_of. by rewrite H. Qed.

Lemma elem_ids_of i l : i ∈ ids_of l <-> exists r, r ∈ l /\ i ∈ ids r.
Proof. unfold ids_of. rewrite list_elem_of_bind. naive_solver. Qed.

Lemma length_ids_of l : length (ids_of l) = (3 * length l)%nat.
Proof. unfold ids_of. induction l as [|r l IH]; [done|]. cbn in *. lia. Qed.

(** Requests of different owners use different descriptors. *)
Lemma ids_apart l r r' i : NoDup (ids_of l) -> r ∈ l -> r' ∈ l -> i ∈ ids r -> i ∈ ids r' -> r = r'.
Proof.
  intros Hnd Hr Hr' Hi Hi'. induction l as [|x l IH]; [by apply not_elem_of_nil in Hr|].
  change (ids_of (x :: l)) with (ids x ++ ids_of l) in Hnd. apply NoDup_app in Hnd as (_ & Hd & Hnd).
  apply elem_of_cons in Hr as [->|Hr], Hr' as [->|Hr']; [done| | |by apply IH].
  - exfalso. apply (Hd i Hi). apply elem_ids_of. by exists r'.
  - exfalso. apply (Hd i Hi'). apply elem_ids_of. by exists r.
Qed.

Section theory.
Context (free_addr : Z) (ops_addr status_addr : nat -> Z).

(** ** Requests in flight *)

Definition op_of (r : req) : BlkReq :=
  mkBlkReq (if r_write r then VIRTIO_BLK_T_OUT else VIRTIO_BLK_T_IN) 0 (r_block r * 8).
Definition desc0 (r : req) : Desc := mkDesc (ops_addr (r0 r)) 16 VRING_DESC_F_NEXT (Z.of_nat (r1 r)).
Definition desc1 (r : req) : Desc :=
  mkDesc (r_buf r) BSIZE (if r_write r then VRING_DESC_F_NEXT else VRING_DESC_F_WRITE + VRING_DESC_F_NEXT)
    (Z.of_nat (r2 r)).
Definition desc2 (r : req) : Desc := mkDesc (status_addr (r0 r)) 1 VRING_DESC_F_WRITE 0.

(** The request as the device reads it from memory. *)
Record request_at (d : Disk) (r : req) : Prop := {
  ra_op : ops d !! r0 r = Some (op_of r);
  ra_desc0 : desc d !! r0 r = Some (desc0 r);
  ra_desc1 : desc d !! r1 r = Some (desc1 r);
  ra_desc2 : desc d !! r2 r = Some (desc2 r)
}.

(** Request [queued] for the device, [served] by it, and [finished] by the
    interrupt handler; [tk] counts those that the device has taken. *)
Record vinv (tk : Z) (d : Disk) (queued served finished : list req) : Prop := {
  v_desc : length (desc d) = NUM;
  v_frees : length (free d) = NUM;
  v_infos : length (info d) = NUM;
  v_opss : length (ops d) = NUM;
  v_alen : length (a_ring (avail d)) = NUM;
  v_ulen : length (u_ring (used d)) = NUM;
  v_nodup : NoDup (ids_of (queued ++ served ++ finished));
  v_lt i : i ∈ ids_of (queued ++ served ++ finished) -> (i < NUM)%nat;
  v_free i : (i < NUM)%nat -> free d !! i = Some (bool_decide (i ∉ ids_of (queued ++ served ++ finished)));
  v_req r : r ∈ queued ++ served ++ finished -> request_at d r;
  v_queued r : r ∈ queued -> info d !! r0 r = Some (mkInfo (Some (r_buf r)) true 0xff);
  v_served r : r ∈ served -> info d !! r0 r = Some (mkInfo (Some (r_buf r)) true 0);
  v_finished r : r ∈ finished -> info d !! r0 r = Some (mkInfo (Some (r_buf r)) false 0);
  v_start : 0 <= used_idx d;
  v_used : u_idx (used d) = used_idx d + Z.of_nat (length served);
  v_taken : tk = u_idx (used d);
  v_avail : a_idx (avail d) = tk + Z.of_nat (length queued);
  v_bound : a_idx (avail d) < 2 ^ 16;
  v_aring j r : queued !! j = Some r ->
    a_ring (avail d) !! Z.to_nat ((tk + Z.of_nat j) `mod` Z.of_nat NUM) = Some (Z.of_nat (r0 r));
  v_uring j r : served !! j = Some r -> exists len,
    u_ring (used d) !! Z.to_nat ((used_idx d + Z.of_nat j) `mod` Z.of_nat NUM) = Some (mkUsedElem (Z.of_nat (r0 r)) len)
}.

Lemma vinv_count tk d q sv f :
  vinv tk d q sv f -> (count_free (free d) + 3 * length (q ++ sv ++ f) = NUM)%nat.
Proof using Type.
  intros Hi. rewrite <-length_ids_of. eapply count_free_complement; apply Hi.
Qed.

(** *** Submitting *)

Definition submitted (r : req) (d : Disk) : Disk :=
  let d := set_ops (r0 r) (op_of r) d in
  let d := set_desc (r0 r) (desc0 r) d in
  let d := set_desc (r1 r) (desc1 r) d in
  let d := set_desc (r2 r) (desc2 r) d in
  let d := set_info (r0 r) (mkInfo (Some (r_buf r)) true 0xff) d in
  set_avail (mkAvail (a_flags (avail d)) (wrap 16 (a_idx (avail d) + 1))
    (<[Z.to_nat (a_idx (avail d) `mod` Z.of_nat NUM) := Z.of_nat (r0 r)]> (a_ring (avail d))) (a_unused (avail d))) d.

Ltac disk_fields :=
  cbn [submitted set_avail set_info set_desc set_ops set_free set_used set_used_idx
       desc avail used free used_idx info ops].

Lemma format_spec r s :
  0 <= r_block r < 2 ^ 32 ->
  format ops_addr status_addr (r0 r) (r1 r) (r2 r) (r_buf r) (r_block r) (r_write r) s =
  Done (tt, mkVio (submitted r (dk s)) (mem s) (regs s) (mmio s ++ [(VIRTIO_MMIO_QUEUE_NOTIFY, 0)]) (woken s)).
Proof using Type.
  intros Hb. unfold format. rewrite usize_mul_small by (change (BSIZE / 512) with 8; lia).
  unfold submitted, op_of, desc1. change (BSIZE / 512) with 8. by destruct (r_write r).
Qed.

Lemma request_other r r' d :
  (forall i, i ∈ ids r -> i ∉ ids r') -> request_at d r' -> request_at (submitted r (take_free (ids r) d)) r'.
Proof using Type.
  intros Hne [H1 H2 H3 H4]. destruct (take_free_fields (ids r) d) as (E1 & _ & _ & _ & _ & E6 & _).
  assert (Hi : forall i j, i ∈ ids r -> j ∈ ids r' -> i <> j) by (intros i j Hi Hj ->; by eapply Hne).
  unfold ids in Hi. split; disk_fields; rewrite ?E1, ?E6;
    repeat rewrite list_lookup_insert_ne by (apply Hi; set_solver); done.
Qed.

Lemma request_own r d :
  length (desc d) = NUM -> length (ops d) = NUM -> NoDup (ids r) -> (forall i, i ∈ ids r -> (i < NUM)%nat) ->
  request_at (submitted r (take_free (ids r) d)) r.
Proof using Type.
  intros Hd Ho Hnd Hlt. destruct (take_free_fields (ids r) d) as (E1 & _ & _ & _ & _ & E6 & _).
  assert (r0 r < NUM /\ r1 r < NUM /\ r2 r < NUM)%nat as (L0 & L1 & L2) by (split_and!; apply Hlt; set_solver).
  unfold ids in Hnd. apply NoDup_cons in Hnd as [N0 Hnd]. apply NoDup_cons in Hnd as [N1 _].
  assert (r0 r <> r1 r /\ r0 r <> r2 r /\ r1 r <> r2 r) as (? & ? & ?) by set_solver.
  split; disk_fields; rewrite ?E1, ?E6;
    repeat first [rewrite list_lookup_insert_eq by (rewrite ?length_insert; lia) | rewrite list_lookup_insert_ne by congruence];
    done.
Qed.

Lemma ring_apart a j : 0 <= a -> 0 < j < 8 -> Z.to_nat (a `mod` Z.of_nat NUM) <> Z.to_nat ((a + j) `mod` Z.of_nat NUM).
Proof using Type.
  intros Ha Hj. change (Z.of_nat NUM) with 8. pose proof (Z.mod_pos_bound a 8). pose proof (Z.mod_pos_bound (a + j) 8).
  pose proof (Z.div_mod a 8). pose proof (Z.div_mod (a + j) 8). lia.
Qed.

Lemma ring_index a : (Z.to_nat (a `mod` Z.of_nat NUM) < NUM)%nat.
Proof using Type. change (Z.of_nat NUM) with 8. change NUM with 8%nat. pose proof (Z.mod_pos_bound a 8). lia. Qed.

Lemma vinv_submit tk d q sv f r :
  vinv tk d q sv f -> NoDup (ids r) -> (forall i, i ∈ ids r -> free d !! i = Some true) ->
  a_idx (avail d) + 1 < 2 ^ 16 -> (length q < 8)%nat ->
  vinv tk (submitted r (take_free (ids r) d)) (q ++ [r]) sv f.
Proof using Type.
  intros Hv Hnd Hfr Hb Hq. pose proof (v_start _ _ _ _ _ Hv) as Hst. pose proof (v_used _ _ _ _ _ Hv) as Hu.
  pose proof (v_taken _ _ _ _ _ Hv) as Htk. pose proof (v_avail _ _ _ _ _ Hv) as Hav.
  destruct (take_free_fields (ids r) d) as (E1 & E2 & E3 & E4 & E5 & E6 & E7).
  assert (Hlt : forall i, i ∈ ids r -> (i < NUM)%nat).
  { intros i Hi. rewrite <-(v_frees _ _ _ _ _ Hv). by eapply lookup_lt_Some, Hfr. }
  assert (Hout : forall i, i ∈ ids r -> i ∉ ids_of (q ++ sv ++ f)).
  { intros i Hi. specialize (Hfr i Hi). rewrite (v_free _ _ _ _ _ Hv) in Hfr by auto. injection Hfr as H.
    by apply bool_decide_eq_true in H. }
  assert (Hne : forall r', r' ∈ q ++ sv ++ f -> r0 r <> r0 r').
  { intros r' Hr' E. apply (Hout (r0 r)); [left|]. apply elem_ids_of. exists r'. rewrite E. split; [done|left]. }
  assert (Hall : (q ++ [r]) ++ sv ++ f ≡ₚ r :: q ++ sv ++ f) by (rewrite <-app_assoc; symmetry; apply Permutation_middle).
  assert (Hids : ids_of ((q ++ [r]) ++ sv ++ f) ≡ₚ ids r ++ ids_of (q ++ sv ++ f)) by by rewrite Hall.
  assert (Hinfo : forall r', r' ∈ q ++ sv ++ f -> info (submitted r (take_free (ids r) d)) !! r0 r' = info d !! r0 r').
  { intros r' Hr'. disk_fields. rewrite E5.
    by rewrite list_lookup_insert_ne by by apply Hne. }
  assert (Ha : avail (submitted r (take_free (ids r) d)) = mkAvail (a_flags (avail d)) (a_idx (avail d) + 1)
    (<[Z.to_nat (a_idx (avail d) `mod` Z.of_nat NUM) := Z.of_nat (r0 r)]> (a_ring (avail d))) (a_unused (avail d))).
  { disk_fields. rewrite E2, wrap_small by lia. done. }
  split; rewrite ?Ha; cbn [a_ring a_idx].
  - disk_fields. rewrite E1, !length_insert. apply Hv.
  - disk_fields. rewrite E7. apply Hv.
  - disk_fields. rewrite E5, length_insert. apply Hv.
  - disk_fields. rewrite E6, length_insert. apply Hv.
  - rewrite length_insert. apply Hv.
  - disk_fields. rewrite E3. apply Hv.
  - rewrite Hids. apply NoDup_app. split_and!; [done|done|apply Hv].
  - intros i. rewrite Hids, elem_of_app. intros [Hi|Hi]; [by apply Hlt|by eapply v_lt].
  - intros i Hi. disk_fields.
    rewrite take_free_lookup by (by rewrite (v_frees _ _ _ _ _ Hv)). rewrite (v_free _ _ _ _ _ Hv) by done.
    case_decide as Hin; f_equal; [symmetry; apply bool_decide_eq_false_2|apply bool_decide_ext];
      rewrite Hids, elem_of_app; tauto.
  - intros r'. rewrite Hall, elem_of_cons. intros [->|Hr']; [by apply request_own; [apply Hv|apply Hv|..]|].
    apply request_other; [|by eapply v_req]. intros i Hi Hi'. apply (Hout i Hi), elem_ids_of. by exists r'.
  - intros r'. rewrite elem_of_app, list_elem_of_singleton. intros [Hr'| ->].
    + rewrite Hinfo by (apply elem_of_app; by left). by eapply v_queued.
    + disk_fields. rewrite E5, list_lookup_insert_eq; [done|].
      rewrite (v_infos _ _ _ _ _ Hv). apply Hlt. left.
  - intros r' Hr'. rewrite Hinfo by (apply elem_of_app; right; apply elem_of_app; by left). by eapply v_served.
  - intros r' Hr'. rewrite Hinfo by (apply elem_of_app; right; apply elem_of_app; by right). by eapply v_finished.
  - disk_fields. by rewrite E4.
  - disk_fields. by rewrite E3, E4.
  - disk_fields. by rewrite E3.
  - rewrite length_app. cbn [length]. lia.
  - lia.
  - intros j r' Hj. destruct (decide (j < length q)%nat) as [Hlt'|Hge].
    + rewrite lookup_app_l in Hj by done. rewrite list_lookup_insert_ne; [by eapply v_aring|].
      rewrite Hav. intros E. symmetry in E. revert E.
      replace (tk + Z.of_nat (length q)) with ((tk + Z.of_nat j) + (Z.of_nat (length q) - Z.of_nat j)) by lia.
      apply ring_apart; lia.
    + rewrite lookup_app_r in Hj by lia. apply list_lookup_singleton_Some in Hj as [Hz <-].
      rewrite Hav. replace j with (length q) by lia. apply list_lookup_insert_eq. rewrite (v_alen _ _ _ _ _ Hv).
      apply ring_index.
  - intros j r' Hj. disk_fields. rewrite E3, E4. by eapply v_uring.
Qed.

Lemma rw_begin_spec tk s q sv f p b w :
  vinv tk (dk s) q sv f -> (length (q ++ sv ++ f) <= 1)%nat -> a_idx (avail (dk s)) + 1 < 2 ^ 16 -> 0 <= b < 2 ^ 32 ->
  exists r, r_buf r = p /\ r_block r = b /\ r_write r = w /\
    rw_begin free_addr ops_addr status_addr p b w s = Done (Some (r0 r),
      mkVio (submitted r (take_free (ids r) (dk s))) (mem s) (regs s)
        (mmio s ++ [(VIRTIO_MMIO_QUEUE_NOTIFY, 0)]) (woken s)) /\
    vinv tk (submitted r (take_free (ids r) (dk s))) (q ++ [r]) sv f.
Proof using Type.
  intros Hv Hl Ha Hb. pose proof (vinv_count _ _ _ _ _ Hv) as Hc. change NUM with 8%nat in Hc.
  destruct (alloc_descs_some free_addr 3 [] s) as (l & Hal & Hlen & Hnd & Hfr & _); [lia|].
  destruct l as [|i0 [|i1 [|i2 []]]]; try done. exists (mkReq i0 i1 i2 p b w). split_and!; [done|done|done| |].
  - unfold rw_begin. rewrite (bind_Done _ _ _ _ _ Hal). cbn [app].
    rewrite (bind_Done _ _ _ tt _ (format_spec (mkReq i0 i1 i2 p b w) _ Hb)). done.
  - apply vinv_submit; [done|done|done|done|]. rewrite length_app in Hl. lia.
Qed.

(** *** The interrupt handler *)

Lemma head_apart r r' l : NoDup (ids_of (r :: l)) -> r' ∈ l -> r0 r <> r0 r'.
Proof using Type.
  intros Hnd Hr' E. change (ids_of (r :: l)) with (ids r ++ ids_of l) in Hnd. apply NoDup_app in Hnd as (_ & Hd & _).
  apply (Hd (r0 r)); [left|]. apply elem_ids_of. exists r'. split; [done|]. rewrite E. left.
Qed.

(** A change of one request's [info] and of the rings. *)
Lemma request_same d d' r : desc d' = desc d -> ops d' = ops d -> request_at d r -> request_at d' r.
Proof using Type. intros E1 E2 [H1 H2 H3 H4]. split; by rewrite ?E1, ?E2. Qed.

Definition acknowledged (r : req) (d : Disk) : Disk :=
  set_used_idx (used_idx d + 1) (set_info (r0 r) (mkInfo (Some (r_buf r)) false 0) d).

Lemma vinv_intr tk d q r sv f : vinv tk d q (r :: sv) f -> vinv tk (acknowledged r d) q sv (f ++ [r]).
Proof using Type.
  intros Hv. assert (Hall : q ++ (r :: sv) ++ f ≡ₚ r :: q ++ sv ++ f) by (cbn [app]; symmetry; apply Permutation_middle).
  assert (Hall' : q ++ sv ++ f ++ [r] ≡ₚ q ++ (r :: sv) ++ f).
  { rewrite Hall, !app_assoc. symmetry. apply Permutation_cons_append. }
  pose proof (v_nodup _ _ _ _ _ Hv) as Hnd. rewrite Hall in Hnd.
  pose proof (v_used _ _ _ _ _ Hv) as Hu. pose proof (v_start _ _ _ _ _ Hv) as Hst. cbn [length] in Hu.
  assert (Hr : r ∈ q ++ (r :: sv) ++ f) by (rewrite Hall; left).
  assert (Hinfo : forall r', r' ∈ q ++ sv ++ f -> info (acknowledged r d) !! r0 r' = info d !! r0 r').
  { intros r' Hr'. apply list_lookup_insert_ne. by eapply head_apart. }
  split; cbn [acknowledged set_used_idx set_info desc avail used free used_idx info ops]; try apply Hv.
  - rewrite length_insert. apply Hv.
  - rewrite Hall'. apply Hv.
  - intros i. rewrite Hall'. apply Hv.
  - intros i Hi. rewrite (v_free _ _ _ _ _ Hv) by done. f_equal. apply bool_decide_ext. by rewrite Hall'.
  - intros r'. rewrite Hall'. intros Hr'. apply (request_same d); [done|done|by apply (v_req _ _ _ _ _ Hv)].
  - intros r' Hr'. rewrite <-(v_queued _ _ _ _ _ Hv r' Hr'). apply Hinfo. apply elem_of_app. by left.
  - intros r' Hr'. rewrite <-(v_served _ _ _ _ _ Hv r') by by right. apply Hinfo.
    apply elem_of_app. right. apply elem_of_app. by left.
  - intros r'. rewrite elem_of_app, list_elem_of_singleton. intros [Hr'| ->].
    + rewrite <-(v_finished _ _ _ _ _ Hv r' Hr'). apply Hinfo. apply elem_of_app. right. apply elem_of_app. by right.
    + apply list_lookup_insert_eq. rewrite (v_infos _ _ _ _ _ Hv). eapply v_lt; [done|]. apply elem_ids_of.
      exists r. split; [done|left].
  - lia.
  - lia.
  - intros j r' Hj. destruct (v_uring _ _ _ _ _ Hv (S j) r' Hj) as [len Hlen]. exists len. rewrite <-Hlen.
    do 3 f_equal. lia.
Qed.

Lemma intr_loop_spec fuel tk s q sv f :
  vinv tk (dk s) q sv f -> (length sv <= fuel)%nat ->
  exists s', intr_loop fuel s = Done (tt, s') /\ vinv tk (dk s') q [] (f ++ sv) /\
    mem s' = mem s /\ mmio s' = mmio s /\ woken s' = woken s ++ (r_buf <$> sv).
Proof using Type.
  revert s sv f. induction fuel as [|fuel IH]; intros s sv f Hv Hle; pose proof (v_used _ _ _ _ _ Hv) as Hu.
  - destruct sv; [|cbn in Hle; lia]. exists s. rewrite !app_nil_r. split; [|done]. cbn [intr_loop length] in *.
    unfold get_dk, get, bind, ret. by rewrite (proj2 (Z.eqb_eq _ _)) by lia.
  - destruct sv as [|r sv].
    { exists s. rewrite !app_nil_r. split; [|done]. cbn [intr_loop length] in *.
      unfold get_dk, get, bind, ret. by rewrite (proj2 (Z.eqb_eq _ _)) by lia. }
    destruct (v_uring _ _ _ _ _ Hv 0%nat r eq_refl) as [len Hlen]. rewrite Z.add_0_r in Hlen.
    pose proof (v_served _ _ _ _ _ Hv r (list_elem_of_here _ _)) as Hinf. pose proof (vinv_intr _ _ _ _ _ _ Hv) as Hv'.
    pose proof (v_avail _ _ _ _ _ Hv). pose proof (v_bound _ _ _ _ _ Hv). pose proof (v_taken _ _ _ _ _ Hv).
    pose proof (v_start _ _ _ _ _ Hv).
    cbn [length] in *.
    destruct (IH (mkVio (acknowledged r (dk s)) (mem s) (regs s) (mmio s) (woken s ++ [r_buf r])) sv (f ++ [r]) Hv')
      as (s' & Hrun & Hi & E1 & E2 & E3); [lia|].
    exists s'. split_and!; [|by rewrite <-app_assoc in Hi|done|done|rewrite E3; cbn [woken fmap list_fmap]; by rewrite <-app_assoc].
    cbn [intr_loop]. unfold get_dk, get, bind, ret. rewrite (proj2 (Z.eqb_neq _ _)) by lia.
    unfold get_at, unwrap, ret. rewrite Hlen. cbn [ue_id]. rewrite Nat2Z.id, Hinf. cbn [buf_chan status]. cbn. rewrite u32_add_small by lia.
    exact Hrun.
Qed.

(** *** The end of a request *)

Definition freed (i : nat) (d : Disk) : Disk := set_free i true (set_desc i desc_new d).
Definition released (r : req) (d : Disk) : Disk :=
  freed (r2 r) (freed (r1 r) (freed (r0 r) (set_info (r0 r) (mkInfo None false 0) d))).

Lemma free_desc_spec i s :
  (i < NUM)%nat -> free (dk s) !! i = Some false ->
  free_desc free_addr i s =
    Done (tt, mkVio (freed i (dk s)) (mem s) (regs s) (mmio s) (woken s ++ [free_addr])).
Proof using Type.
  intros Hi Hf. unfold free_desc. rewrite (proj2 (Nat.leb_gt _ _) Hi).
  unfold get_dk, get, bind, ret, get_at, unwrap, ret. by rewrite Hf.
Qed.

Lemma freed_lookup (i j : nat) d :
  i <> j -> free (freed i d) !! j = free d !! j /\ desc (freed i d) !! j = desc d !! j.
Proof using Type. intros Hij. cbn. by rewrite !list_lookup_insert_ne by done. Qed.

Lemma released_free r d j :
  length (free d) = NUM -> (j < NUM)%nat -> free (released r d) !! j = if decide (j ∈ ids r) then Some true else free d !! j.
Proof using Type.
  intros Hl Hj. unfold released, freed, ids. cbn [set_free set_desc set_info free].
  destruct (decide (r2 r = j)) as [<-|H2].
  { rewrite list_lookup_insert_eq by (rewrite !length_insert; lia). rewrite decide_True; [done|]. do 2 right. left. }
  rewrite list_lookup_insert_ne by done. destruct (decide (r1 r = j)) as [<-|H1].
  { rewrite list_lookup_insert_eq by (rewrite !length_insert; lia). rewrite decide_True; [done|]. right. left. }
  rewrite list_lookup_insert_ne by done. destruct (decide (r0 r = j)) as [<-|H0].
  { rewrite list_lookup_insert_eq by lia. rewrite decide_True; [done|]. left. }
  rewrite list_lookup_insert_ne by done. rewrite decide_False; [done|].
  rewrite !elem_of_cons. intros [|[|[|[]%not_elem_of_nil]]]; congruence.
Qed.

Lemma released_request r r' d :
  (forall i, i ∈ ids r -> i ∉ ids r') -> request_at d r' -> request_at (released r d) r'.
Proof using Type.
  intros Hne [H1 H2 H3 H4]. assert (Hi : forall i j, i ∈ ids r -> j ∈ ids r' -> i <> j) by (intros i j Hi Hj ->; by eapply Hne).
  unfold ids in Hi. split; cbn; repeat rewrite list_lookup_insert_ne by (apply Hi; set_solver); done.
Qed.

Lemma vinv_release tk d q sv f1 r f2 :
  vinv tk d q sv (f1 ++ r :: f2) -> vinv tk (released r d) q sv (f1 ++ f2).
Proof using Type.
  intros Hv. assert (Hall : q ++ sv ++ f1 ++ r :: f2 ≡ₚ r :: q ++ sv ++ f1 ++ f2).
  { rewrite !app_assoc. symmetry. apply Permutation_middle. }
  pose proof (v_nodup _ _ _ _ _ Hv) as Hnd. rewrite Hall in Hnd.
  assert (Hids : ids_of (q ++ sv ++ f1 ++ r :: f2) ≡ₚ ids r ++ ids_of (q ++ sv ++ f1 ++ f2)) by by rewrite Hall.
  pose proof Hnd as Hnd'. change (ids_of (r :: ?l)) with (ids r ++ ids_of l) in Hnd'.
  apply NoDup_app in Hnd' as (Hr & Hd & Hrest).
  assert (Hinfo : forall r', r' ∈ q ++ sv ++ f1 ++ f2 -> info (released r d) !! r0 r' = info d !! r0 r').
  { intros r' Hr'. apply list_lookup_insert_ne. by eapply head_apart. }
  split; cbn [released freed set_free set_desc set_info desc avail used free used_idx info ops];
    rewrite ?length_insert; try apply Hv.
  - done.
  - intros i Hi. apply (v_lt _ _ _ _ _ Hv). rewrite Hids. apply elem_of_app. by right.
  - intros i Hi. fold (freed (r0 r) (set_info (r0 r) (mkInfo None false 0) d)).
    change (free (released r d) !! i = Some (bool_decide (i ∉ ids_of (q ++ sv ++ f1 ++ f2)))).
    rewrite released_free by (done || apply Hv). case_decide as Hin.
    + f_equal. symmetry. apply bool_decide_eq_true_2. by apply Hd.
    + rewrite (v_free _ _ _ _ _ Hv) by done. f_equal. apply bool_decide_ext. rewrite Hids, elem_of_app. tauto.
  - intros r' Hr'. change (request_at (released r d) r'). apply released_request.
    + intros i Hi Hi'. apply (Hd i Hi), elem_ids_of. by exists r'.
    + apply (v_req _ _ _ _ _ Hv). rewrite Hall. by right.
  - intros r' Hr'. rewrite <-(v_queued _ _ _ _ _ Hv r' Hr'). apply Hinfo. apply elem_of_app. by left.
  - intros r' Hr'. rewrite <-(v_served _ _ _ _ _ Hv r' Hr'). apply Hinfo. apply elem_of_app. right.
    apply elem_of_app. by left.
  - intros r' Hr'. rewrite <-(v_finished _ _ _ _ _ Hv r').
    + apply Hinfo. apply elem_of_app. right. apply elem_of_app. by right.
    + apply elem_of_app in Hr' as [|]; apply elem_of_app; [by left|right; by right].
Qed.

(** The descriptors of a request are distinct and in use. *)
Lemma req_parts tk d q sv f r :
  vinv tk d q sv f -> r ∈ q ++ sv ++ f ->
  (forall i, i ∈ ids r -> (i < NUM)%nat /\ free d !! i = Some false) /\ r0 r <> r1 r /\ r0 r <> r2 r /\ r1 r <> r2 r.
Proof using Type.
  intros Hv Hr. split.
  - intros i Hi. assert (Hin : i ∈ ids_of (q ++ sv ++ f)) by (apply elem_ids_of; by exists r).
    pose proof (v_lt _ _ _ _ _ Hv i Hin) as Hl. split; [done|]. rewrite (v_free _ _ _ _ _ Hv) by done.
    f_equal. apply bool_decide_eq_false_2. naive_solver.
  - assert (Hnd : NoDup (ids r)).
    { apply elem_of_Permutation in Hr as [l Hl]. pose proof (v_nodup _ _ _ _ _ Hv) as Hnd. rewrite Hl in Hnd.
      change (ids_of (r :: l)) with (ids r ++ ids_of l) in Hnd. by apply NoDup_app in Hnd as (? & _ & _). }
    unfold ids in Hnd. apply NoDup_cons in Hnd as [N0 Hnd]. apply NoDup_cons in Hnd as [N1 _].
    set_solver.
Qed.

Lemma free_chain_step n i s x :
  (i < NUM)%nat -> free (dk s) !! i = Some false -> desc (dk s) !! i = Some x ->
  free_chain free_addr (S n) i s =
    (if Z.land (d_flags x) VRING_DESC_F_NEXT =? 0 then ret tt else free_chain free_addr n (Z.to_nat (d_next x)))
      (mkVio (freed i (dk s)) (mem s) (regs s) (mmio s) (woken s ++ [free_addr])).
Proof using Type.
  intros Hi Hf Hd. cbn [free_chain]. rewrite (bind_Done _ _ _ (dk s) s) by done.
  rewrite (bind_Done _ _ _ x s) by (unfold get_at; by rewrite Hd).
  by rewrite (bind_Done _ _ _ tt _ (free_desc_spec i s Hi Hf)).
Qed.

Lemma rw_end_spec tk s q sv f1 r f2 :
  vinv tk (dk s) q sv (f1 ++ r :: f2) ->
  rw_end free_addr (r_buf r) (r0 r) s =
    Done (true, mkVio (released r (dk s)) (mem s) (regs s) (mmio s) (woken s ++ [free_addr; free_addr; free_addr])).
Proof using Type.
  intros Hv. assert (Hr : r ∈ q ++ sv ++ f1 ++ r :: f2) by (do 3 (apply elem_of_app; right); left).
  destruct (v_req _ _ _ _ _ Hv r Hr) as [_ D0 D1 D2]. destruct (req_parts _ _ _ _ _ _ Hv Hr) as (Hlt & N01 & N02 & N12).
  destruct (Hlt (r0 r)) as [L0 F0]; [left|]. destruct (Hlt (r1 r)) as [L1 F1]; [right; left|].
  destruct (Hlt (r2 r)) as [L2 F2]; [do 2 right; left|].
  unfold rw_end. rewrite (bind_Done _ _ _ (dk s) s) by done.
  rewrite (bind_Done _ _ _ (mkInfo (Some (r_buf r)) false 0) s).
  2:{ unfold get_at. rewrite (v_finished _ _ _ _ _ Hv r); [done|]. apply elem_of_app. right. left. }
  cbn [i_disk buf_chan status]. set (s0 := set_dk (set_info (r0 r) (mkInfo None false 0) (dk s)) s).
  rewrite (bind_Done _ _ _ tt s0) by done. rewrite (bind_Done _ _ _ (r_buf r) s0) by done.
  rewrite (bind_Done _ _ _ tt s0) by by rewrite Z.eqb_refl.
  rewrite (bind_Done _ _ _ tt (mkVio (released r (dk s)) (mem s) (regs s) (mmio s)
    (woken s ++ [free_addr; free_addr; free_addr]))); [done|]. change NUM with (S (S (S 5))).
  rewrite (free_chain_step _ _ s0 (desc0 r)) by done. cbn [desc0 d_flags d_next]. change (Z.land _ _ =? 0) with false.
  rewrite Nat2Z.id. destruct (freed_lookup (r0 r) (r1 r) (dk s0) N01) as [G1 G2].
  rewrite (free_chain_step _ _ _ (desc1 r)); [|done|exact (eq_trans G1 F1)|exact (eq_trans G2 D1)].
  replace (Z.land (d_flags (desc1 r)) VRING_DESC_F_NEXT =? 0) with false by (unfold desc1; by destruct (r_write r)).
  cbn [desc1 d_next dk]. rewrite Nat2Z.id.
  destruct (freed_lookup (r0 r) (r2 r) (dk s0) N02) as [G3 G4].
  destruct (freed_lookup (r1 r) (r2 r) (freed (r0 r) (dk s0)) N12) as [G5 G6].
  rewrite (free_chain_step _ _ _ (desc2 r)); [|done|exact (eq_trans G5 (eq_trans G3 F2))|exact (eq_trans G6 (eq_trans G4 D2))].
  cbn [desc2 d_flags]. change (Z.land _ _ =? 0) with true. unfold ret. cbn [mem regs mmio woken]. by rewrite <-!app_assoc.
Qed.

(** *** The device *)

(** What the device writes when it completes a request: the used ring and the
    status byte. *)
Definition completed (r : req) (len : Z) (d : Disk) : Disk :=
  mkDisk (desc d) (avail d)
    (mkUsed (u_flags (used d)) (wrap 16 (u_idx (used d) + 1))
       (<[Z.to_nat (u_idx (used d) `mod` Z.of_nat NUM) := mkUsedElem (Z.of_nat (r0 r)) len]> (u_ring (used d))))
    (free d) (used_idx d) (alter (fun x => mkInfo (buf_chan x) (i_disk x) 0) (r0 r) (info d)) (ops d).

Lemma vinv_serve tk d r q sv f len :
  vinv tk d (r :: q) sv f -> (length sv < 8)%nat -> vinv (tk + 1) (completed r len d) q (sv ++ [r]) f.
Proof using Type.
  intros Hv Hsv. assert (Hall' : q ++ (sv ++ [r]) ++ f ≡ₚ (r :: q) ++ sv ++ f).
  { rewrite <-app_assoc. cbn [app]. rewrite !app_assoc. symmetry. apply Permutation_middle. }
  pose proof (v_nodup _ _ _ _ _ Hv) as Hnd. pose proof (v_used _ _ _ _ _ Hv) as Hu.
  pose proof (v_start _ _ _ _ _ Hv) as Hst. pose proof (v_taken _ _ _ _ _ Hv) as Htk.
  pose proof (v_avail _ _ _ _ _ Hv) as Hav. pose proof (v_bound _ _ _ _ _ Hv) as Hb. cbn [length] in Hav.
  assert (Hinfo : forall r', r' ∈ q ++ sv ++ f -> info (completed r len d) !! r0 r' = info d !! r0 r').
  { intros r' Hr'. apply list_lookup_alter_ne. by eapply head_apart. }
  split; cbn [completed desc avail used free used_idx info ops u_idx u_ring];
    rewrite ?wrap_small, ?length_alter, ?length_insert, ?length_app by lia; try apply Hv.
  - rewrite Hall'. apply Hv.
  - intros i. rewrite Hall'. apply Hv.
  - intros i Hi. rewrite (v_free _ _ _ _ _ Hv) by done. f_equal. apply bool_decide_ext. by rewrite Hall'.
  - intros r'. rewrite Hall'. intros Hr'. apply (request_same d); [done|done|by apply (v_req _ _ _ _ _ Hv)].
  - intros r' Hr'. rewrite <-(v_queued _ _ _ _ _ Hv r') by by right. apply Hinfo. apply elem_of_app. by left.
  - intros r'. rewrite elem_of_app, list_elem_of_singleton. intros [Hr'| ->].
    + rewrite <-(v_served _ _ _ _ _ Hv r' Hr'). apply Hinfo. apply elem_of_app. right. apply elem_of_app. by left.
    + rewrite list_lookup_alter_eq, (v_queued _ _ _ _ _ Hv r) by left. done.
  - intros r' Hr'. rewrite <-(v_finished _ _ _ _ _ Hv r' Hr'). apply Hinfo. apply elem_of_app. right. apply elem_of_app. by right.
  - cbn [length]. lia.
  - lia.
  - lia.
  - intros j r' Hj. rewrite <-(v_aring _ _ _ _ _ Hv (S j) r' Hj). do 3 f_equal. lia.
  - intros j r' Hj. destruct (decide (j < length sv)%nat) as [Hlt|Hge].
    + rewrite lookup_app_l in Hj by done. destruct (v_uring _ _ _ _ _ Hv j r' Hj) as [len' Hlen]. exists len'.
      rewrite list_lookup_insert_ne; [done|]. rewrite Hu. intros E. symmetry in E. revert E.
      replace (used_idx d + Z.of_nat (length sv)) with ((used_idx d + Z.of_nat j) + (Z.of_nat (length sv) - Z.of_nat j)) by lia.
      apply ring_apart; lia.
    + rewrite lookup_app_r in Hj by lia. apply list_lookup_singleton_Some in Hj as [Hz <-]. exists len.
      rewrite Hu. replace j with (length sv) by lia. apply list_lookup_insert_eq. rewrite (v_ulen _ _ _ _ _ Hv). apply ring_index.
Qed.

End theory.

(** A virtio block device with the blocks it stores, the number of requests it
    has taken from the ring, and what it does with the next one. *)
Class VirtioDevice (D : Type) := {
  contents : D -> Z -> block;
  taken : D -> Z;
  serve : D * vio -> D * vio
}.

(** The block layer of a request that the device has carried out. *)
Record transferred {D} `{!VirtioDevice D} (r : req) (dv : D) (s : vio) (dv' : D) (s' : vio) : Prop := {
  tr_mem : mem s' = if r_write r then mem s else <[r_buf r := contents dv (r_block r)]> (mem s);
  tr_contents b : contents dv' b =
    if bool_decide (r_write r = true /\ b = r_block r) then default zero_block (mem s !! r_buf r) else contents dv b;
  tr_taken : taken dv' = wrap 16 (taken dv + 1);
  tr_mmio : mmio s' = mmio s;
  tr_woken : woken s' = woken s
}.

(** What a virtio block device does with a well-formed request at the head of
    the ring: it moves the data, reports status 0 and enters the first descriptor
    in the used ring.  This describes a device that works through its queue in order and
    whose transfers succeed; the virtio specification also allows a device to finish requests in
    another order or to report an error, on which the driver panics. *)
Class DeviceLaws (ops_addr status_addr : nat -> Z) (D : Type) `{!VirtioDevice D} :=
  serve_ok : forall (dv : D) s r,
    taken dv <> a_idx (avail (dk s)) ->
    a_ring (avail (dk s)) !! Z.to_nat (taken dv `mod` Z.of_nat NUM) = Some (Z.of_nat (r0 r)) ->
    request_at ops_addr status_addr (dk s) r -> is_Some (mem s !! r_buf r) ->
    exists dv' s' len, serve (dv, s) = (dv', s') /\ dk s' = completed r len (dk s) /\ transferred r dv s dv' s'.

Section requests.
Context (free_addr : Z) (ops_addr status_addr : nat -> Z).
Context {D : Type} `{!VirtioDevice D, !DeviceLaws ops_addr status_addr D}.

Lemma serve_spec (dv : D) s r q sv f :
  vinv ops_addr status_addr (taken dv) (dk s) (r :: q) sv f -> is_Some (mem s !! r_buf r) ->
  exists dv' s', serve (dv, s) = (dv', s') /\ transferred r dv s dv' s' /\
    vinv ops_addr status_addr (taken dv') (dk s') q (sv ++ [r]) f.
Proof.
  intros Hv Hm. pose proof (vinv_count _ _ _ _ _ _ _ Hv) as Hc. rewrite !length_app in Hc. change NUM with 8%nat in Hc.
  pose proof (v_avail _ _ _ _ _ _ _ Hv) as Hav. pose proof (v_bound _ _ _ _ _ _ _ Hv) as Hb.
  pose proof (v_taken _ _ _ _ _ _ _ Hv) as Htk. pose proof (v_used _ _ _ _ _ _ _ Hv) as Hu.
  pose proof (v_start _ _ _ _ _ _ _ Hv) as Hst. cbn [length] in *.
  destruct (serve_ok dv s r) as (dv' & s' & len & Hs & Hd & Ht).
  - lia.
  - rewrite <-(v_aring _ _ _ _ _ _ _ Hv 0%nat r eq_refl). by rewrite Z.add_0_r.
  - apply (v_req _ _ _ _ _ _ _ Hv). left.
  - done.
  - exists dv', s'. split; [done|]. split; [done|]. rewrite Hd, (tr_taken _ _ _ _ _ Ht), wrap_small by lia.
    apply vinv_serve; [done|lia].
Qed.

(** [intr] with its acknowledgement. *)
Lemma intr_spec fuel tk s q sv f :
  vinv ops_addr status_addr tk (dk s) q sv f -> (length sv <= fuel)%nat ->
  exists s', intr fuel s = Done (tt, s') /\ vinv ops_addr status_addr tk (dk s') q [] (f ++ sv) /\
    mem s' = mem s /\ woken s' = woken s ++ (r_buf <$> sv).
Proof.
  intros Hv Hf. set (s1 := mkVio (dk s) (mem s) (regs s)
    (mmio s ++ [(VIRTIO_MMIO_INTERRUPT_ACK, Z.land (regs s VIRTIO_MMIO_INTERRUPT_STATUS) 0x3)]) (woken s)).
  destruct (intr_loop_spec ops_addr status_addr fuel tk s1 q sv f Hv Hf) as (s' & Hr & Hi & E1 & _ & E3).
  by exists s'.
Qed.

(** C17: requests are isolated.  The invariant ties the descriptor table, the
    two rings and the bookkeeping to the requests in flight: every request has
    three descriptors of its own, formatted as the device expects them, and all
    others are free.  A request is made while at most one other is in flight (a third one
    would find the table short of descriptors) and before the 16-bit index of the ring wraps, and
    the device serves requests in their order and without error ([DeviceLaws]).  Then each step keeps
    it: [rw] submits behind the queued requests, the device serves the oldest,
    the interrupt handler finishes every served request and wakes exactly their
    owners, an owner whose request is finished gets its descriptors back to the
    free list without a panic, and one whose request is not goes on sleeping. *)
Theorem requests_isolated (dv : D) s q sv f :
  vinv ops_addr status_addr (taken dv) (dk s) q sv f ->
  (forall p b w, (length (q ++ sv ++ f) <= 1)%nat -> a_idx (avail (dk s)) + 1 < 2 ^ 16 -> 0 <= b < 2 ^ 32 ->
     exists r s', r_buf r = p /\ r_block r = b /\ r_write r = w /\
       rw_begin free_addr ops_addr status_addr p b w s = Done (Some (r0 r), s') /\
       vinv ops_addr status_addr (taken dv) (dk s') (q ++ [r]) sv f /\ mem s' = mem s) /\
  (forall r q', q = r :: q' -> is_Some (mem s !! r_buf r) ->
     exists dv' s', serve (dv, s) = (dv', s') /\ transferred r dv s dv' s' /\
       vinv ops_addr status_addr (taken dv') (dk s') q' (sv ++ [r]) f) /\
  (forall fuel, (length sv <= fuel)%nat ->
     exists s', intr fuel s = Done (tt, s') /\ vinv ops_addr status_addr (taken dv) (dk s') q [] (f ++ sv) /\
       mem s' = mem s /\ woken s' = woken s ++ (r_buf <$> sv)) /\
  (forall f1 r f2, f = f1 ++ r :: f2 ->
     exists s', rw_end free_addr (r_buf r) (r0 r) s = Done (true, s') /\
       vinv ops_addr status_addr (taken dv) (dk s') q sv (f1 ++ f2) /\ mem s' = mem s) /\
  (forall r, r ∈ q ++ sv -> rw_end free_addr (r_buf r) (r0 r) s = Done (false, s)).
Proof.
  intros Hv. split_and!.
  - intros p b w Hl Ha Hb.
    destruct (rw_begin_spec free_addr ops_addr status_addr _ _ _ _ _ p b w Hv Hl Ha Hb) as (r & E1 & E2 & E3 & Hr & Hv').
    exists r. eexists. split_and!; [done|done|done|exact Hr|exact Hv'|done].
  - intros r q' -> Hm. by apply serve_spec.
  - intros fuel Hf. by apply intr_spec.
  - intros f1 r f2 ->. eexists. split_and!; [by eapply rw_end_spec| |done]. by apply vinv_release.
  - intros r Hr. unfold rw_end. rewrite (bind_Done _ _ _ (dk s) s) by done.
    assert (exists st, info (dk s) !! r0 r = Some (mkInfo (Some (r_buf r)) true st)) as [st Hst].
    { apply elem_of_app in Hr as [Hr|Hr]; eexists; [by eapply v_queued|by eapply v_served]. }
    by rewrite (bind_Done _ _ _ (mkInfo (Some (r_buf r)) true st) s) by (unfold get_at; by rewrite Hst).
Qed.

(** C18: [DISK.read] and [DISK.write] move whole blocks.  On an idle driver, [rw]
    for the buffer at [p] submits the request; once the device has served it and
    the interrupt has been handled, the owner has been woken, the wait ends, all
    descriptors are free again, and the effect is that of the buffer cache's
    model of the disk: a read leaves the block's contents in the buffer and the
    disk unchanged, a write stores the buffer in that block and in no other. *)
Theorem rw_moves_block (dv : D) s p b w (dg : gmap Z block) data :
  vinv ops_addr status_addr (taken dv) (dk s) [] [] [] -> a_idx (avail (dk s)) + 1 < 2 ^ 16 -> 0 <= b < 2 ^ 32 ->
  mem s !! p = Some data -> (forall x, contents dv x = Bio.disk_get dg x) ->
  exists i s1 dv' s2 s3 s4, rw_begin free_addr ops_addr status_addr p b w s = Done (Some i, s1) /\
    serve (dv, s1) = (dv', s2) /\ intr 1 s2 = Done (tt, s3) /\ p ∈ woken s3 /\
    rw_end free_addr p i s3 = Done (true, s4) /\
    vinv ops_addr status_addr (taken dv') (dk s4) [] [] [] /\
    mem s4 = (if w then mem s else <[p := Bio.disk_get dg b]> (mem s)) /\
    (forall x, contents dv' x = Bio.disk_get (if w then <[b := data]> dg else dg) x).
Proof.
  intros Hv Ha Hb Hp Hdg.
  destruct (rw_begin_spec free_addr ops_addr status_addr _ _ _ _ _ p b w Hv ltac:(cbn; lia) Ha Hb)
    as (r & <- & <- & <- & Hr & Hv1). match type of Hr with _ = Done (_, ?x) => set (s1 := x) in * end.
  destruct (serve_spec dv s1 r [] [] [] Hv1) as (dv' & s2 & Hs & Ht & Hv2); [by exists data|].
  destruct (intr_spec 1 _ s2 _ _ _ Hv2) as (s3 & Hi & Hv3 & Hm3 & Hw3); [cbn; lia|].
  pose proof (rw_end_spec free_addr _ _ _ s3 _ _ [] r [] Hv3) as He. eexists (r0 r), s1, dv', s2, s3, _.
  split_and!; [exact Hr|exact Hs|exact Hi| |exact He|by apply (vinv_release _ _ _ _ _ _ [])| |].
  - rewrite Hw3. apply elem_of_app. right. left.
  - cbn [mem]. rewrite Hm3, (tr_mem _ _ _ _ _ Ht). by rewrite Hdg.
  - intros x. rewrite (tr_contents _ _ _ _ _ Ht). cbn [s1 mem]. rewrite Hp, Hdg. cbn [default].
    destruct (r_write r); [|by rewrite bool_decide_eq_false_2 by naive_solver]. unfold Bio.disk_get.
    case_bool_decide as E; [destruct E as [_ ->]; by rewrite lookup_insert_eq|].
    rewrite lookup_insert_ne; [done|]. naive_solver.
Qed.
End requests.

(** ** Running short of descriptors *)

Lemma alloc_descs_none fa n idx s :
  (count_free (free (dk s)) < n)%nat ->
  exists l, length l = count_free (free (dk s)) /\
    (forall i, (i < length (free (dk s)))%nat -> free (take_free l (dk s)) !! i = Some false) /\
    alloc_descs fa n idx s =
      bind (mfor (seq 0 (length idx + length l)) (free_desc fa)) (fun _ => ret None) (set_dk (take_free l (dk s)) s).
Proof.
  revert idx s. induction n as [|n IH]; intros idx s Hn; [lia|]. cbn [alloc_descs].
  destruct (first_free (free (dk s))) as [i|] eqn:E.
  - destruct (first_free_Some _ _ E) as (Hi & Hc & Hpos).
    destruct (IH (idx ++ [i]) (set_dk (set_free i false (dk s)) s)) as (l & Hl & Hf & Hr); [cbn; lia|].
    exists (i :: l). rewrite take_free_cons. cbn in Hl, Hf. rewrite length_insert in Hf. split_and!; [cbn; lia|done|].
    rewrite (bind_Done _ _ _ (Some i) (set_dk (set_free i false (dk s)) s)).
    2:{ unfold alloc_desc, get_dk, on_dk, get, modify, bind, ret. by rewrite E. }
    rewrite Hr, length_app. cbn [length]. by rewrite <-Nat.add_assoc.
  - pose proof (first_free_None _ E) as H0. exists []. rewrite H0, Nat.add_0_r. split_and!; [done| |].
    + intros i Hi. cbn. destruct (lookup_lt_is_Some_2 _ _ Hi) as [[] Hx]; [|done]. exfalso. clear -H0 Hx.
      revert i Hx. induction (free (dk s)) as [|[] l IH]; intros [|i] Hx; try done. cbn in *. by eapply IH.
    + rewrite (bind_Done _ _ _ None s); [by destruct s|].
      unfold alloc_desc, get_dk, get, bind, ret. by rewrite E.
Qed.

(** C19: the third request steals descriptors.  [alloc3_desc] undoes a failed
    attempt with [free_desc(j)] for the loop index [j], not for [idx[j]]: when
    two requests are in flight, a third one takes the last two descriptors,
    releases descriptors 0 and 1 in their place and goes to sleep.  From then on
    exactly 0 and 1 are free, whoever uses them: a descriptor of a request in
    flight is wiped, and the two it took are lost. *)
Theorem third_request_steals fa ops_addr status_addr tk s q sv f p b w :
  vinv ops_addr status_addr tk (dk s) q sv f -> length (q ++ sv ++ f) = 2%nat ->
  exists s', rw_begin fa ops_addr status_addr p b w s = Done (None, s') /\
    (forall i, (i < NUM)%nat -> free (dk s') !! i = Some (bool_decide (i < 2)%nat)) /\
    (forall i, (i < 2)%nat -> desc (dk s') !! i = Some desc_new).
Proof.
  intros Hv H2. pose proof (vinv_count _ _ _ _ _ _ _ Hv) as Hc. rewrite H2 in Hc. change NUM with 8%nat in Hc.
  destruct (alloc_descs_none fa 3 [] s) as (l & Hl & Hf & Hr); [lia|].
  assert (Hlen : length l = 2%nat) by lia. rewrite Hlen in Hr. cbn [length Nat.add seq mfor] in Hr.
  rewrite (v_frees _ _ _ _ _ _ _ Hv) in Hf. set (s1 := set_dk (take_free l (dk s)) s) in *.
  destruct (take_free_fields l (dk s)) as (E1 & _ & _ & _ & _ & _ & E7). rewrite (v_frees _ _ _ _ _ _ _ Hv) in E7.
  set (s2 := mkVio (freed 0 (dk s1)) (mem s1) (regs s1) (mmio s1) (woken s1 ++ [fa])).
  set (s3 := mkVio (freed 1 (dk s2)) (mem s2) (regs s2) (mmio s2) (woken s2 ++ [fa])).
  assert (F0 : free_desc fa 0 s1 = Done (tt, s2)) by (apply free_desc_spec; [unfold NUM; lia|apply Hf; unfold NUM; lia]).
  assert (F1 : free_desc fa 1 s2 = Done (tt, s3)).
  { apply free_desc_spec; [unfold NUM; lia|]. cbn [s2 s1 set_dk dk freed set_free set_desc free].
    rewrite list_lookup_insert_ne by done. apply Hf. unfold NUM. lia. }
  exists s3. split_and!.
  - unfold rw_begin, alloc3_desc. unfold bind at 1. rewrite Hr. unfold bind. by rewrite F0, F1.
  - intros i Hi. unfold s3, s2, s1. cbn [dk set_dk freed set_free set_desc free].
    destruct i as [|[|i]]; [|rewrite list_lookup_insert_eq; [done|]|].
    + rewrite list_lookup_insert_ne, list_lookup_insert_eq; [done|rewrite E7; unfold NUM; lia|done].
    + rewrite length_insert, E7. unfold NUM. lia.
    + rewrite !list_lookup_insert_ne by done. rewrite Hf by done. by rewrite bool_decide_eq_false_2 by lia.
  - intros i Hi. unfold s3, s2, s1. cbn [dk set_dk freed set_free set_desc desc].
    assert (Hd : length (desc (take_free l (dk s))) = 8%nat) by (rewrite E1; apply Hv).
    destruct i as [|[|i]]; [|by rewrite list_lookup_insert_eq by (rewrite length_insert, Hd; lia)|lia].
    by rewrite list_lookup_insert_ne, list_lookup_insert_eq by (done || lia).
Qed.

(** ** The 16-bit index of the used ring *)

Lemma intr_loop_hangs fuel s :
  u_idx (used (dk s)) = 0 -> 0 < used_idx (dk s) -> used_idx (dk s) + Z.of_nat fuel < 2 ^ 32 ->
  forall s', intr_loop fuel s <> Done (tt, s').
Proof.
  revert s. induction fuel as [|fuel IH]; intros s Hu Hpos Hb s'; cbn [intr_loop];
    rewrite (bind_Done _ _ _ (dk s) s) by done; rewrite (proj2 (Z.eqb_neq _ _)) by lia; [done|].
  unfold get_at. destruct (u_ring (used (dk s)) !! _) as [e|]; [|done]. rewrite (bind_Done _ _ _ e s) by done.
  destruct (info (dk s) !! _) as [inf|]; [|done]. rewrite (bind_Done _ _ _ inf s) by done.
  destruct (status inf =? 0) eqn:Est; [|by unfold bind at 1, assert; cbn]. rewrite (bind_Done _ _ _ tt s) by done.
  set (s1 := set_dk (set_info (Z.to_nat (ue_id e)) (mkInfo (buf_chan inf) false (status inf)) (dk s)) s).
  rewrite (bind_Done _ _ _ tt s1) by done. destruct (buf_chan inf) as [c|]; [|done].
  rewrite (bind_Done _ _ _ c s1) by done. set (s2 := mkVio (dk s1) (mem s1) (regs s1) (mmio s1) (woken s1 ++ [c])).
  rewrite (bind_Done _ _ _ tt s2) by done.
  rewrite (bind_Done _ _ _ tt (set_dk (set_used_idx (u32_add (used_idx (dk s)) 1) (dk s2)) s2)) by done.
  apply IH; cbn; [done|..]; rewrite u32_add_small; lia.
Qed.

(** C20: the driver loses count after 65536 requests.  The device counts
    completed requests in 16 bits, [intr] in 32: when the device's index has
    come round to 0 behind 65535 acknowledged requests, the loop does not end at
    the new request; whatever the rings and the descriptors hold, [intr] has not
    returned after more than four billion rounds. *)
Theorem used_index_wraps fuel s :
  used_idx (dk s) = 65535 -> u_idx (used (dk s)) = 0 -> Z.of_nat fuel < 2 ^ 32 - 65535 ->
  forall s', intr fuel s <> Done (tt, s').
Proof.
  intros Hi Hu Hf s'. unfold intr, read, write. rewrite (bind_Done _ _ _ (regs s VIRTIO_MMIO_INTERRUPT_STATUS) s) by done.
  match goal with |- bind _ _ _ <> _ => unfold bind, modify end. apply intr_loop_hangs; cbn; lia.
Qed.

(** ** An initialised driver and a device *)

Lemma idle_inv ops_addr status_addr : vinv ops_addr status_addr 0 (set_all_free disk_new) [] [] [].
Proof.
  split; try done.
  - constructor.
  - intros i Hi. by apply not_elem_of_nil in Hi.
  - intros i Hi. cbn [set_all_free disk_new free]. rewrite list_lookup_fmap, lookup_replicate_2 by done.
    cbn. by rewrite bool_decide_eq_true_2 by apply not_elem_of_nil.
  - intros r Hr. by apply not_elem_of_nil in Hr.
  - intros r Hr. by apply not_elem_of_nil in Hr.
  - intros r Hr. by apply not_elem_of_nil in Hr.
  - intros r Hr. by apply not_elem_of_nil in Hr.
Qed.

Lemma wp_read offset s (Q : Z -> vio -> Prop) : Q (regs s offset) s -> wp (read offset) s Q.
Proof. done. Qed.

Lemma wp_write offset v s (Q : unit -> vio -> Prop) :
  (forall l, Q tt (mkVio (dk s) (mem s) (regs s) l (woken s))) -> wp (write offset v) s Q.
Proof. intros HQ. apply HQ. Qed.

(** [init] makes the driver idle on a device that answers as virtio disks do. *)
Lemma init_idle self_addr s :
  dk s = disk_new -> regs s VIRTIO_MMIO_MAGIC_VALUE = 0x74726976 -> regs s VIRTIO_MMIO_VERSION = 1 ->
  regs s VIRTIO_MMIO_DEVICE_ID = 2 -> regs s VIRTIO_MMIO_VENDOR_ID = 0x554d4551 ->
  8 <= regs s VIRTIO_MMIO_QUEUE_NUM_MAX -> Z.shiftr self_addr 12 < 2 ^ 32 ->
  wp (init self_addr) s (fun _ s' => dk s' = set_all_free disk_new /\ mem s' = mem s).
Proof.
  intros Hd H1 H2 H3 H4 H5 H6. unfold init. do 4 apply wp_bind, wp_read. rewrite H1, H2, H3, H4.
  cbn [negb orb Z.eqb Pos.eqb]. do 2 (apply wp_bind, wp_write; intros ?). apply wp_bind, wp_read.
  cbv zeta. do 5 (apply wp_bind, wp_write; intros ?). apply wp_bind, wp_read. cbn [regs].
  rewrite (proj2 (Z.eqb_neq _ _)) by lia. rewrite (proj2 (Z.ltb_ge _ _)) by (change (Z.of_nat NUM) with 8; lia).
  apply wp_bind, wp_write; intros ?. apply wp_bind, wp_assert; [by apply Z.ltb_lt|]. apply wp_bind, wp_write; intros ?.
  apply wp_modify. cbn [dk set_dk mem]. by rewrite Hd.
Qed.

Definition disk_regs (offset : Z) : Z :=
  if offset =? VIRTIO_MMIO_MAGIC_VALUE then 0x74726976
  else if offset =? VIRTIO_MMIO_VERSION then 1
  else if offset =? VIRTIO_MMIO_DEVICE_ID then 2
  else if offset =? VIRTIO_MMIO_VENDOR_ID then 0x554d4551
  else if offset =? VIRTIO_MMIO_QUEUE_NUM_MAX then 1024 else 0.

(** A device that follows the chain of the next request in the ring. *)
Definition sample_serve (c : (Z -> block) * Z * vio) : (Z -> block) * Z * vio :=
  let '(blocks, n, s) := c in
  let i0 := Z.to_nat (a_ring (avail (dk s)) !!! Z.to_nat (n `mod` Z.of_nat NUM)) in
  match ops (dk s) !! i0, desc (dk s) !! i0 with
  | Some op, Some d0 =>
      match desc (dk s) !! Z.to_nat (d_next d0) with
      | Some d1 =>
          let b := sector op / 8 in
          let data := default zero_block (mem s !! d_addr d1) in
          let d := completed (mkReq i0 0 0 0 0 false) 0 (dk s) in
          if typed op =? VIRTIO_BLK_T_OUT
          then ((fun x => if x =? b then data else blocks x), wrap 16 (n + 1), mkVio d (mem s) (regs s) (mmio s) (woken s))
          else (blocks, wrap 16 (n + 1), mkVio d (<[d_addr d1 := blocks b]> (mem s)) (regs s) (mmio s) (woken s))
      | None => c
      end
  | _, _ => c
  end.

#[local] Instance sample_device : VirtioDevice ((Z -> block) * Z) :=
  {| contents := fst; taken := snd; serve := sample_serve |}.

#[local] Instance sample_laws ops_addr status_addr : DeviceLaws ops_addr status_addr ((Z -> block) * Z).
Proof.
  intros [blocks n] s r _ Hring [Hop H0 H1 _] Hm. cbn [taken sample_device snd] in Hring.
  unfold serve, sample_device, sample_serve. cbn [fst snd].
  rewrite (list_lookup_total_correct _ _ _ Hring), Nat2Z.id, Hop, H0. cbn [desc0 d_next]. rewrite Nat2Z.id, H1.
  cbn [op_of typed sector desc1 d_addr]. rewrite Z.div_mul by done.
  destruct (r_write r) eqn:Ew; cbn [Z.eqb VIRTIO_BLK_T_OUT VIRTIO_BLK_T_IN Pos.eqb];
    eexists _, _, 0; (split; [reflexivity|]); (split; [reflexivity|]); split; rewrite ?Ew; try done; intros x; cbn.
  case_bool; [rewrite bool_decide_eq_true_2 by done|rewrite bool_decide_eq_false_2 by naive_solver]; done.
Qed.

Definition sample_vio : vio := mkVio (set_all_free disk_new) {[ 0x80100000 := zero_block ]} disk_regs [] [].
Definition sample_addr (i : nat) : Z := 0x80200000 + 64 * Z.of_nat i.
Definition sample_blocks (b : Z) : block := zero_block.

Lemma requests_isolated_witness :
  exists i s', rw_begin 0 sample_addr sample_addr 0x80100000 7 true sample_vio = Done (Some i, s').
Proof.
  destruct (requests_isolated 0 sample_addr sample_addr (sample_blocks, 0) sample_vio [] [] []) as (H & _).
  - apply idle_inv.
  - destruct (H 0x80100000 7 true) as (r & s' & _ & _ & _ & Hr & _); [cbn; lia|cbn; lia|lia|].
    by exists (r0 r), s'.
Defined.

Lemma rw_moves_block_witness :
  exists i s1 dv' s2 s3 s4, rw_begin 0 sample_addr sample_addr 0x80100000 7 false sample_vio = Done (Some i, s1) /\
    serve ((sample_blocks, 0), s1) = (dv', s2) /\ intr 1 s2 = Done (tt, s3) /\
    rw_end 0 0x80100000 i s3 = Done (true, s4) /\ mem s4 = <[0x80100000 := zero_block]> (mem sample_vio).
Proof.
  destruct (rw_moves_block 0 sample_addr sample_addr (sample_blocks, 0) sample_vio 0x80100000 7 false ∅ zero_block)
    as (i & s1 & dv' & s2 & s3 & s4 & H1 & H2 & H3 & _ & H4 & _ & H5 & _).
  - apply idle_inv.
  - cbn. lia.
  - lia.
  - apply lookup_singleton_eq.
  - done.
  - by exists i, s1, dv', s2, s3, s4.
Defined.

(** Two requests in flight. *)
Lemma busy_inv : exists s q, vinv sample_addr sample_addr 0 (dk s) q [] [] /\ length q = 2%nat.
Proof.
  destruct (rw_begin_spec 0 sample_addr sample_addr 0 sample_vio [] [] [] 0 0 false (idle_inv _ _))
    as (r & _ & _ & _ & _ & Hv); [cbn; lia|cbn; lia|lia|].
  match type of Hv with vinv _ _ _ ?d _ _ _ => set (s1 := set_dk d sample_vio) in * end.
  assert (Ha : a_idx (avail (dk s1)) + 1 < 2 ^ 16) by (pose proof (v_avail _ _ _ _ _ _ _ Hv) as E; cbn [s1 set_dk dk]; rewrite E; cbn; lia).
  destruct (rw_begin_spec 0 sample_addr sample_addr 0 s1 _ [] [] 0 0 false Hv) as (r' & _ & _ & _ & _ & Hv');
    [cbn; lia|exact Ha|lia|].
  eexists (set_dk _ s1), _. split; [exact Hv'|done].
Qed.

Lemma third_request_steals_witness :
  exists s s', rw_begin 0 sample_addr sample_addr 0 0 false s = Done (None, s') /\ free (dk s') !! 0%nat = Some true.
Proof.
  destruct busy_inv as (s & q & Hv & Hq).
  destruct (third_request_steals 0 sample_addr sample_addr 0 s q [] [] 0 0 false Hv) as (s' & Hr & Hf & _);
    [by rewrite app_nil_r|]. exists s, s'. split; [done|]. rewrite Hf by (unfold NUM; lia). done.
Defined.

Lemma used_index_wraps_witness :
  exists s, forall s', intr 1000 s <> Done (tt, s').
Proof.
  exists (set_dk (set_used_idx 65535 disk_new) sample_vio). by apply used_index_wraps.
Defined.

End Virtio.
