(* ===== verification/Log.v ===== *)
(** * The write-ahead log

    Models [kernel/src/log.rs] on top of the buffer cache: the header and its
    on-disk encoding, [begin_op], [write], [end_op], [commit] and recovery at
    boot.  A call that would wait ([begin_op] while a commit runs or the log is
    full) has outcome [Sleep]; the loop of [begin_op] tries again in the state
    it is woken in.  The calls to [PROCESS_TABLE.wakeup] change the process
    table only and are not part of this state.

    The second half gives the transaction invariant ([log_inv]) that every
    operation of the protocol keeps, and proves that a crash at any point
    recovers to a committed state. *)

From S2P Require Import Prelude Param Bytes Bio.
Import Bio.

Module Log.

(** ** Data *)

Record LogHeader := mkHeader { n : Z; blocknos : list Z }.
Definition header_new : LogHeader := mkHeader 0 (replicate LOGSIZE 0).

Record Log := mkLog {
  log_start : Z;
  log_size : Z;
  outstanding : Z;
  committing : bool;
  log_dev : Z;
  header : LogHeader
}.
Definition log_new : Log := mkLog 0 0 0 false 0 header_new.

Definition set_outstanding (o : Z) (l : Log) : Log :=
  mkLog (log_start l) (log_size l) o (committing l) (log_dev l) (header l).
Definition set_committing (c : bool) (l : Log) : Log :=
  mkLog (log_start l) (log_size l) (outstanding l) c (log_dev l) (header l).
Definition set_header (h : LogHeader) (l : Log) : Log :=
  mkLog (log_start l) (log_size l) (outstanding l) (committing l) (log_dev l) h.
Definition set_n (k : Z) (l : Log) : Log := set_header (mkHeader k (blocknos (header l))) l.

(** The log and the block layer below it. *)
Record fsys := mkFs { log : Log; bio : io }.

Definition lift {A} (m : M io A) : M fsys A := fun f =>
  match m (bio f) with
  | Done (x, s) => Done (x, mkFs (log f) s)
  | Panic msg => Panic msg
  | Sleep => Sleep
  | OutOfFuel => OutOfFuel
  | Undef => Undef
  end.
Definition get_log : M fsys Log := fun f => Done (log f, f).
Definition put_log (l : Log) : M fsys unit := fun f => Done (tt, mkFs l (bio f)).

(** The header as the bytes of its [repr(C)] struct. *)
Definition header_bytes (h : LogHeader) : list Z := words_bytes (n h :: blocknos h).
Definition header_of (d : block) : LogHeader :=
  match bytes_words (S LOGSIZE) d with
  | k :: bns => mkHeader k bns
  | [] => header_new
  end.

(** ** Operations *)

Definition read_head : M fsys unit :=
  let! l := get_log in
  let! g := lift (bread (log_dev l) (log_start l)) in
  let! d := lift (data_of g) in
  put_log (set_header (header_of d) l) ;;
  lift (guard_drop g).

Definition write_head : M fsys unit :=
  let! l := get_log in
  let! g := lift (bread (log_dev l) (log_start l)) in
  let! d := lift (data_of g) in
  lift (set_data g (splice 0 (header_bytes (header l)) d)) ;;
  lift (bwrite g) ;;
  lift (guard_drop g).

Definition install_block (recovering : bool) (tail : Z) : M fsys unit :=
  let! l := get_log in
  let! log_buf := lift (bread (log_dev l) (u32_add (u32_add (log_start l) tail) 1)) in
  let! bn := unwrap (blocknos (header l) !! Z.to_nat tail) "index out of bounds" in
  let! disk_buf := lift (bread (log_dev l) bn) in
  let! d := lift (data_of log_buf) in
  lift (set_data disk_buf d) ;;
  lift (bwrite disk_buf) ;;
  (if recovering then ret tt else lift (bunpin disk_buf)) ;;
  lift (guard_drop log_buf) ;;
  lift (guard_drop disk_buf).

Definition install_trans (recovering : bool) : M fsys unit :=
  let! l := get_log in mfor (seqZ 0 (n (header l))) (install_block recovering).

Definition write_log_block (tail : Z) : M fsys unit :=
  let! l := get_log in
  let! bn := unwrap (blocknos (header l) !! Z.to_nat tail) "index out of bounds" in
  let! from := lift (bread (log_dev l) bn) in
  let! to := lift (bread (log_dev l) (u32_add (u32_add (log_start l) tail) 1)) in
  let! d := lift (data_of from) in
  lift (set_data to d) ;;
  lift (bwrite to) ;;
  lift (guard_drop from) ;;
  lift (guard_drop to).

Definition write_log : M fsys unit :=
  let! l := get_log in mfor (seqZ 0 (n (header l))) write_log_block.

Definition clear_n : M fsys unit := let! l := get_log in put_log (set_n 0 l).

Definition commit : M fsys unit :=
  let! l := get_log in
  if 0 <? n (header l) then
    write_log ;; write_head ;; install_trans false ;; clear_n ;; write_head
  else ret tt.

Definition recover_from_log : M fsys unit :=
  read_head ;; install_trans true ;; clear_n ;; write_head.

(** [Log::init] with the [logstart] and [nlog] of the super block. *)
Definition log_init (d logstart nlog : Z) : M fsys unit :=
  let! l := get_log in
  put_log (mkLog logstart nlog (outstanding l) (committing l) d (header l)) ;;
  recover_from_log.

Definition begin_op : M fsys unit :=
  let! l := get_log in
  if committing l then sleep
  else if Z.of_nat LOGSIZE <? n (header l) ⊞ (outstanding l ⊞ 1) ⊠ Z.of_nat MAXOPBLOCKS then sleep
  else put_log (set_outstanding (outstanding l ⊞ 1) l).

(** The [while] loop of [write]: the position of [b] among the first [k]
    block numbers, or [k]. *)
Fixpoint absorb (bns : list Z) (k : nat) (b : Z) : nat :=
  match k, bns with
  | S k, x :: bns => if x =? b then 0 else S (absorb bns k b)
  | _, _ => 0
  end.

Definition write (g : BufGuard) : M fsys unit :=
  let! l := get_log in
  let k := n (header l) in
  if (Z.of_nat LOGSIZE <=? k) || (u32_sub (log_size l) 1 <=? k) then
    panic "log_write: too big a transaction"
  else if outstanding l <? 1 then panic "log_write: out of trans"
  else
    let i := absorb (blocknos (header l)) (Z.to_nat k) (gblockno g) in
    assert (Nat.ltb i (length (blocknos (header l)))) "index out of bounds" ;;
    let l := set_header (mkHeader k (<[i := gblockno g]> (blocknos (header l)))) l in
    put_log l ;;
    if Z.of_nat i =? k then lift (bpin g) ;; put_log (set_n (u32_add k 1) l) else ret tt.

Definition end_op : M fsys unit :=
  let! l := get_log in
  let l := set_outstanding (outstanding l ⊟ 1) l in
  if committing l then panic "log end_op: committing"
  else
    let do_commit := outstanding l =? 0 in
    put_log (if do_commit then set_committing true l else l) ;;
    if do_commit then
      commit ;; let! l := get_log in put_log (set_committing false l)
    else ret tt.

(** ** Sequences of device writes *)

Definition apply_writes (ws : list (Z * block)) (d : gmap Z block) : gmap Z block :=
  foldl (fun d w => <[w.1 := w.2]> d) d ws.

Definition abs_writes (ws : list (Z * block)) (a : cabs) : cabs :=
  mkAbs (a_bufs a) (apply_writes ws (a_disk a)) (a_writes a ++ ws).

Lemma apply_writes_app ws ws' d : apply_writes (ws ++ ws') d = apply_writes ws' (apply_writes ws d).
Proof. apply foldl_app. Qed.

Lemma apply_writes_notin ws d b : b ∉ ws.*1 -> apply_writes ws d !! b = d !! b.
Proof.
  revert d. induction ws as [|[b' x] ws IH]; intros d Hb; [done|]. simpl in *.
  rewrite not_elem_of_cons in Hb. rewrite IH by naive_solver. rewrite lookup_insert_ne; naive_solver.
Qed.

Lemma apply_writes_in ws d b x :
  NoDup ws.*1 -> (b, x) ∈ ws -> apply_writes ws d !! b = Some x.
Proof.
  revert d. induction ws as [|[b' x'] ws IH]; intros d Hnd Hin; [by apply elem_of_nil in Hin|].
  simpl in *. apply NoDup_cons in Hnd as [Hn Hnd].
  apply elem_of_cons in Hin as [[= -> ->]|Hin]; [|by apply IH].
  by rewrite apply_writes_notin, lookup_insert_eq.
Qed.

Lemma abs_writes_nil a : abs_writes [] a = a.
Proof. destruct a. unfold abs_writes. simpl. by rewrite app_nil_r. Qed.

Lemma abs_writes_app ws ws' a : abs_writes (ws ++ ws') a = abs_writes ws' (abs_writes ws a).
Proof. unfold abs_writes. simpl. by rewrite apply_writes_app, app_assoc. Qed.

Lemma abs_write_writes b d a : abs_write b d a = abs_writes [(b, d)] a.
Proof. done. Qed.

(** Equality of abstract caches that differ in the order of their updates. *)
Ltac abs_eq :=
  unfold abs_set, abs_del, abs_write, abs_writes; simpl; f_equal; apply map_eq; intros x;
  repeat match goal with
  | |- context [<[?b := _]> _ !! ?b] => rewrite (lookup_insert_eq _ b)
  | |- context [delete ?b _ !! ?b] => rewrite (lookup_delete_eq _ b)
  | |- context [<[?b := _]> _ !! ?x] =>
      destruct (decide (x = b)) as [->|]; [rewrite lookup_insert_eq|rewrite lookup_insert_ne by done]
  | |- context [delete ?b _ !! ?x] =>
      destruct (decide (x = b)) as [->|]; [rewrite lookup_delete_eq|rewrite lookup_delete_ne by done]
  end; try done; try congruence.

(** ** The operations on the represented state *)

Definition frep (f : fsys) (l : Log) (a : cabs) : Prop := log f = l /\ rep (bio f) a.

Lemma wp_lift {A} (m : M io A) f (Q : A -> fsys -> Prop) :
  wp m (bio f) (fun x s => Q x (mkFs (log f) s)) -> wp (lift m) f Q.
Proof. unfold wp, lift. by destruct (m (bio f)) as [[x s]| | | |]. Qed.

Lemma wp_get_log f l a (Q : Log -> fsys -> Prop) :
  frep f l a -> Q l f -> wp get_log f Q.
Proof. by intros [<- _]. Qed.

Section steps.
Context (l : Log) (Hdev : log_dev l = ROOTDEV).

Lemma wp_bread_ref f a b e (Q : BufGuard -> fsys -> Prop) :
  frep f l a -> a_bufs a !! b = Some e -> e_locked e = false -> e_rc e + 1 < 2 ^ 64 ->
  (forall f', frep f' l (abs_set b (mkEntry (e_index e) (e_rc e + 1) true (e_data e)) a) ->
     Q (mkGuard (e_index e) b (e_index e)) f') ->
  wp (lift (bread (log_dev l) b)) f Q.
Proof using Hdev.
  intros [Hl Hr] He Hu Hrc HQ. rewrite Hdev. apply wp_lift.
  eapply wp_mono; [by eapply bread_referenced|]. intros g s [-> Hs]. by apply HQ.
Qed.

Lemma wp_bread_new f a b (Q : BufGuard -> fsys -> Prop) :
  frep f l a -> a_bufs a !! b = None -> (size (a_bufs a) < NBUF)%nat ->
  (forall f' i, frep f' l (abs_set b (mkEntry i 1 true (disk_get (a_disk a) b)) a) ->
     Q (mkGuard i b i) f') ->
  wp (lift (bread (log_dev l) b)) f Q.
Proof using Hdev.
  intros [Hl Hr] He Hsz HQ. rewrite Hdev. apply wp_lift.
  eapply wp_mono; [by eapply bread_unreferenced|]. intros g s (i & -> & Hs). by apply HQ.
Qed.

Lemma wp_data_of f a b e i (Q : block -> fsys -> Prop) :
  frep f l a -> a_bufs a !! b = Some e -> i = e_index e -> Q (e_data e) f ->
  wp (lift (data_of (mkGuard i b i))) f Q.
Proof using Type.
  intros [Hl Hr] He -> HQ. apply wp_lift, (data_of_spec _ a b e Hr He). by destruct f.
Qed.

Lemma wp_set_data f a b e i d (Q : unit -> fsys -> Prop) :
  frep f l a -> a_bufs a !! b = Some e -> i = e_index e ->
  (forall f', frep f' l (abs_set b (mkEntry (e_index e) (e_rc e) (e_locked e) d) a) -> Q tt f') ->
  wp (lift (set_data (mkGuard i b i) d)) f Q.
Proof using Type.
  intros [Hl Hr] He -> HQ. apply wp_lift. eapply wp_mono; [by apply (set_data_spec _ a b e)|].
  intros [] s Hs. by apply HQ.
Qed.

Lemma wp_bwrite f a b e i (Q : unit -> fsys -> Prop) :
  frep f l a -> a_bufs a !! b = Some e -> i = e_index e ->
  (forall f', frep f' l (abs_write b (e_data e) a) -> Q tt f') ->
  wp (lift (bwrite (mkGuard i b i))) f Q.
Proof using Type.
  intros [Hl Hr] He -> HQ. apply wp_lift. eapply wp_mono; [by apply (bwrite_spec _ a b e)|].
  intros [] s Hs. by apply HQ.
Qed.

Lemma wp_bpin f a b e i (Q : unit -> fsys -> Prop) :
  frep f l a -> a_bufs a !! b = Some e -> i = e_index e -> e_rc e + 1 < 2 ^ 64 ->
  (forall f', frep f' l (abs_set b (mkEntry (e_index e) (e_rc e + 1) (e_locked e) (e_data e)) a) ->
     Q tt f') ->
  wp (lift (bpin (mkGuard i b i))) f Q.
Proof using Type.
  intros [Hl Hr] He -> Hrc HQ. apply wp_lift. eapply wp_mono; [by apply (bpin_spec _ a b e)|].
  intros [] s Hs. by apply HQ.
Qed.

Lemma wp_bunpin f a b e i (Q : unit -> fsys -> Prop) :
  frep f l a -> a_bufs a !! b = Some e -> i = e_index e -> 1 < e_rc e ->
  (forall f', frep f' l (abs_set b (mkEntry (e_index e) (e_rc e - 1) (e_locked e) (e_data e)) a) ->
     Q tt f') ->
  wp (lift (bunpin (mkGuard i b i))) f Q.
Proof using Type.
  intros [Hl Hr] He -> Hrc HQ. apply wp_lift. eapply wp_mono; [by apply (bunpin_spec _ a b e)|].
  intros [] s Hs. by apply HQ.
Qed.

(** The entry a block has after its guard is dropped. *)
Definition abs_drop (b : Z) (e : entry) (a : cabs) : cabs :=
  if e_rc e =? 1 then abs_del b a
  else abs_set b (mkEntry (e_index e) (e_rc e - 1) false (e_data e)) a.

Lemma wp_guard_drop f a b e i (Q : unit -> fsys -> Prop) :
  frep f l a -> a_bufs a !! b = Some e -> i = e_index e -> 0 < e_rc e ->
  (e_rc e = 1 -> e_data e = disk_get (a_disk a) b) ->
  (forall f', frep f' l (abs_drop b e a) -> Q tt f') ->
  wp (lift (guard_drop (mkGuard i b i))) f Q.
Proof using Type.
  intros [Hl Hr] He -> Hrc Hcl HQ. apply wp_lift. unfold abs_drop in HQ.
  destruct (Z.eqb_spec (e_rc e) 1).
  - eapply wp_mono; [apply (guard_drop_last _ a b e); auto|]. intros [] s Hs. by apply HQ.
  - eapply wp_mono; [apply (guard_drop_keep _ a b e); auto; lia|]. intros [] s Hs. by apply HQ.
Qed.

End steps.

Lemma size_insert_existing {A} (m : gmap Z A) b x y :
  m !! b = Some x -> size (<[b := y]> m) = size m.
Proof. intros Hb. rewrite map_size_insert, Hb. done. Qed.

(** One step of a proof about a block operation: run the next call and look
    the entry of its guard up in the updated map. *)
Ltac lk := simpl; first [ eassumption | by rewrite ?lookup_insert_ne, ?lookup_insert_eq by done ].

Section transfer.
Context (l : Log) (Hdev : log_dev l = ROOTDEV).
Context (tail : Z) (bn lb : Z).
Context (Hlb : u32_add (u32_add (log_start l) tail) 1 = lb).
Context (Hbn : blocknos (header l) !! Z.to_nat tail = Some bn) (Hne : bn <> lb).

(** Copying a pinned block to its log block leaves the cache as it was. *)
Lemma write_log_block_spec f a e :
  frep f l a -> a_bufs a !! bn = Some e -> e_locked e = false -> 0 < e_rc e < 2 ^ 63 ->
  a_bufs a !! lb = None -> (size (a_bufs a) < NBUF)%nat ->
  wp (write_log_block tail) f (fun _ f' => frep f' l (abs_writes [(lb, e_data e)] a)).
Proof using Hdev Hlb Hbn Hne.
  intros Hf He Hl Hrc Hnone Hsz. unfold write_log_block.
  eapply wp_bind, wp_get_log; [done|]. eapply wp_bind, wp_unwrap; [done|]. rewrite Hlb.
  eapply wp_bind, wp_bread_ref; [done|done|done|done|lia|]. intros f1 H1.
  eapply wp_bind, wp_bread_new; [done|done|lk| |].
  { simpl. by erewrite size_insert_existing. }
  intros f2 j H2. eapply wp_bind, wp_data_of; [done|lk|done|]. simpl.
  eapply wp_bind, wp_set_data; [done|lk|done|]. intros f3 H3. simpl in H3.
  eapply wp_bind, wp_bwrite; [done|lk|done|]. intros f4 H4. simpl in H4.
  eapply wp_bind, wp_guard_drop; [done|simpl; rewrite !lookup_insert_ne, lookup_insert_eq by done;
    done|done|simpl; lia|simpl; lia|]. intros f5 H5.
  unfold abs_drop in H5. cbn [e_rc e_index e_data] in H5.
  rewrite (proj2 (Z.eqb_neq _ 1)) in H5 by lia.
  eapply wp_guard_drop; [done|simpl; rewrite lookup_insert_ne, lookup_insert_eq by done;
    done|done|done|simpl; by unfold disk_get; rewrite lookup_insert_eq|]. intros f6 H6.
  replace (abs_writes _ a) with (abs_drop lb (mkEntry j 1 true (e_data e))
    (abs_set bn (mkEntry (e_index e) (e_rc e + 1 - 1) false (e_data e))
      (abs_write lb (e_data e) (abs_set lb (mkEntry j 1 true (e_data e))
         (abs_set lb (mkEntry j 1 true (disk_get (a_disk a) lb))
           (abs_set bn (mkEntry (e_index e) (e_rc e + 1) true (e_data e)) a)))))); [done|].
  unfold abs_drop. simpl. abs_eq. rewrite He. destruct e. simpl in *. subst. do 2 f_equal. lia.
Qed.

(** Installing a pinned block from the log writes it home and drops its pin. *)
Lemma install_block_spec f a e d :
  frep f l a -> a_bufs a !! bn = Some e -> e_locked e = false -> 0 < e_rc e < 2 ^ 63 ->
  a_bufs a !! lb = None -> (size (a_bufs a) < NBUF)%nat -> d = disk_get (a_disk a) lb ->
  wp (install_block false tail) f (fun _ f' =>
    frep f' l (abs_drop bn (mkEntry (e_index e) (e_rc e) true d) (abs_writes [(bn, d)] a))).
Proof using Hdev Hlb Hbn Hne.
  intros Hf He Hl Hrc Hnone Hsz Hd. unfold install_block.
  eapply wp_bind, wp_get_log; [done|]. rewrite Hlb.
  eapply wp_bind, wp_bread_new; [done|done|done|done|]. intros f1 j H1. rewrite <-Hd in H1.
  eapply wp_bind, wp_unwrap; [done|].
  eapply wp_bind, wp_bread_ref; [done|done|lk|done|lia|]. intros f2 H2.
  eapply wp_bind, wp_data_of; [done|simpl; rewrite lookup_insert_ne, lookup_insert_eq by done;
    done|done|]. simpl.
  eapply wp_bind, wp_set_data; [done|lk|done|]. intros f3 H3. simpl in H3.
  eapply wp_bind, wp_bwrite; [done|lk|done|]. intros f4 H4. simpl in H4.
  eapply wp_bind, wp_bunpin; [done|lk|done|simpl; lia|]. intros f5 H5. simpl in H5.
  eapply wp_bind, wp_guard_drop; [done|simpl; rewrite !lookup_insert_ne, lookup_insert_eq by done;
    done|done|done| |].
  { intros _. simpl. unfold disk_get. rewrite lookup_insert_ne by done. by rewrite Hd. }
  intros f6 H6. unfold abs_drop in H6. cbn [e_rc Z.eqb Pos.eqb] in H6.
  eapply wp_guard_drop; [done|simpl; rewrite lookup_delete_ne, lookup_insert_eq by done;
    done|done|simpl; lia| |].
  { intros _. simpl. unfold disk_get. by rewrite lookup_insert_eq. }
  intros f7 H7. match type of H7 with frep _ _ ?x => replace (abs_drop bn _ _) with x; [done|] end.
  unfold abs_drop. simpl. replace (e_rc e + 1 - 1) with (e_rc e) by lia.
  destruct (Z.eqb_spec (e_rc e) 1); abs_eq.
Qed.

(** During recovery nothing is pinned: both blocks are read from the disk. *)
Lemma recover_block_spec f a d :
  frep f l a -> a_bufs a = ∅ -> d = disk_get (a_disk a) lb ->
  wp (install_block true tail) f (fun _ f' => frep f' l (abs_writes [(bn, d)] a)).
Proof using Hdev Hlb Hbn Hne.
  intros Hf Hemp Hd. unfold install_block.
  eapply wp_bind, wp_get_log; [done|]. rewrite Hlb.
  eapply wp_bind, wp_bread_new; [done|done|by rewrite Hemp|rewrite Hemp; vm_compute; lia|].
  intros f1 j H1. rewrite <-Hd in H1. eapply wp_bind, wp_unwrap; [done|].
  eapply wp_bind, wp_bread_new; [done|done|simpl; by rewrite lookup_insert_ne, Hemp
    |simpl; rewrite Hemp, map_size_insert, lookup_empty, map_size_empty; vm_compute; lia|].
  intros f2 k H2.
  eapply wp_bind, wp_data_of; [done|simpl; rewrite lookup_insert_ne, lookup_insert_eq by done;
    done|done|]. simpl.
  eapply wp_bind, wp_set_data; [done|lk|done|]. intros f3 H3. simpl in H3.
  eapply wp_bind, wp_bwrite; [done|lk|done|]. intros f4 H4. simpl in H4.
  apply wp_bind, wp_ret.
  eapply wp_bind, wp_guard_drop; [done|simpl; rewrite !lookup_insert_ne, lookup_insert_eq by done;
    done|done|done| |].
  { intros _. simpl. unfold disk_get. rewrite lookup_insert_ne by done. by rewrite Hd. }
  intros f6 H6. unfold abs_drop in H6. cbn [e_rc Z.eqb Pos.eqb] in H6.
  eapply wp_guard_drop; [done|simpl; rewrite lookup_delete_ne, lookup_insert_eq by done;
    done|done|done| |].
  { intros _. simpl. unfold disk_get. by rewrite lookup_insert_eq. }
  intros f7 H7. unfold abs_drop in H7. cbn [e_rc Z.eqb Pos.eqb] in H7.
  match type of H7 with frep _ _ ?x => replace (abs_writes _ a) with x; [done|] end.
  unfold abs_drop. simpl. abs_eq; rewrite Hemp; by rewrite lookup_empty.
Qed.

End transfer.

(** The block [write_head] writes. *)
Definition header_block (h : LogHeader) (d : block) : block := splice 0 (header_bytes h) d.

Lemma write_head_spec l f a :
  log_dev l = ROOTDEV -> frep f l a -> a_bufs a !! log_start l = None ->
  (size (a_bufs a) < NBUF)%nat ->
  wp write_head f (fun _ f' => frep f' l
    (abs_writes [(log_start l, header_block (header l) (disk_get (a_disk a) (log_start l)))] a)).
Proof.
  intros Hdev Hf Hn Hsz. unfold write_head.
  eapply wp_bind, wp_get_log; [done|].
  eapply wp_bind, wp_bread_new; [done|done|done|done|]. intros f1 j H1.
  eapply wp_bind, wp_data_of; [done|lk|done|]. simpl.
  eapply wp_bind, wp_set_data; [done|lk|done|]. intros f3 H3. simpl in H3.
  eapply wp_bind, wp_bwrite; [done|lk|done|]. intros f4 H4. simpl in H4.
  eapply wp_guard_drop; [done|lk|done|done|simpl; by unfold disk_get; rewrite lookup_insert_eq|].
  intros f7 H7. unfold abs_drop in H7. cbn [e_rc Z.eqb Pos.eqb] in H7.
  match type of H7 with frep _ _ ?x => replace (abs_writes _ a) with x; [done|] end. abs_eq.
Qed.

Lemma read_head_spec l f a :
  log_dev l = ROOTDEV -> frep f l a -> a_bufs a !! log_start l = None ->
  (size (a_bufs a) < NBUF)%nat ->
  wp read_head f (fun _ f' => frep f'
    (set_header (header_of (disk_get (a_disk a) (log_start l))) l) a).
Proof.
  intros Hdev Hf Hn Hsz. unfold read_head.
  eapply wp_bind, wp_get_log; [done|].
  eapply wp_bind, wp_bread_new; [done|done|done|done|]. intros f1 j H1.
  eapply wp_bind, wp_data_of; [done|lk|done|]. simpl.
  eapply wp_bind, wp_Done; [reflexivity|]. destruct H1 as [Hl1 Hr1].
  eapply (wp_guard_drop (set_header (header_of (disk_get (a_disk a) (log_start l))) l));
    [split; [done|exact Hr1]|lk|done|done|done|].
  intros f7 H7. unfold abs_drop in H7. cbn [e_rc Z.eqb Pos.eqb] in H7.
  match type of H7 with frep _ _ ?x => replace a with x; [done|] end. destruct a. abs_eq.
Qed.

(** ** Transactions

    A transaction is the list [bns] of the blocks it logs with their new
    contents [ds]. *)

(** The geometry of the log: a header block and up to [size - 1] log blocks. *)
Definition in_log (start size b : Z) : Prop := start <= b < start + size.
Definition home (start size b : Z) : Prop := is_u32 b /\ ~ in_log start size b.

Record geometry (start size : Z) : Prop := {
  geo_start : 0 <= start;
  geo_size : 2 <= size <= Z.of_nat LOGSIZE;
  geo_end : start + size <= 2 ^ 32
}.

Definition log_block (start : Z) (i : nat) : Z := start + Z.of_nat i + 1.
Definition log_writes (start : Z) (ds : list block) : list (Z * block) :=
  imap (fun i d => (log_block start i, d)) ds.

(** [h] describes the transaction [bns]. *)
Definition describes (h : LogHeader) (bns : list Z) : Prop :=
  n h = Z.of_nat (length bns) /\ take (length bns) (blocknos h) = bns /\
  length (blocknos h) = LOGSIZE /\ Forall is_u32 (blocknos h).

Lemma describes_lookup h bns i bn :
  describes h bns -> bns !! i = Some bn -> blocknos h !! i = Some bn.
Proof.
  intros (_ & Ht & _) Hi. rewrite <-Ht in Hi.
  apply lookup_take_Some in Hi as [? _]. done.
Qed.

Lemma log_writes_fst start ds x :
  x ∈ (log_writes start ds).*1 -> exists i, (i < length ds)%nat /\ x = log_block start i.
Proof.
  intros ([b d] & -> & Hin)%list_elem_of_fmap. simpl.
  apply elem_of_lookup_imap in Hin as (i & d' & [= -> ->] & Hi%lookup_lt_Some). eauto.
Qed.

Lemma log_writes_nodup start ds : NoDup (log_writes start ds).*1.
Proof.
  apply NoDup_alt. intros i j x. unfold log_writes.
  rewrite !list_lookup_fmap, !list_lookup_imap.
  destruct (ds !! i), (ds !! j); simpl; try done. unfold log_block. intros ? ?. simplify_eq. lia.
Qed.

Lemma apply_log_writes start ds d i x :
  ds !! i = Some x -> apply_writes (log_writes start ds) d !! log_block start i = Some x.
Proof.
  intros Hi. apply apply_writes_in; [apply log_writes_nodup|].
  apply list_elem_of_lookup. exists i. unfold log_writes. rewrite list_lookup_imap, Hi. done.
Qed.

Lemma lookup_foldl_delete {A} (m : gmap Z A) bs b :
  foldl (fun m b => delete b m) m bs !! b = if decide (b ∈ bs) then None else m !! b.
Proof.
  revert m. induction bs as [|x bs IH]; intros m; [done|]. simpl foldl.
  rewrite IH. destruct (decide (b = x)) as [->|Hne].
  - rewrite lookup_delete_eq. rewrite (decide_True (P := x ∈ x :: bs)) by set_solver.
    by case_decide.
  - rewrite lookup_delete_ne by done. repeat case_decide; set_solver.
Qed.

Section txn.
Context (l : Log) (bns : list Z) (ds : list block).
Context (Hdev : log_dev l = ROOTDEV) (Hgeo : geometry (log_start l) (log_size l)).
Context (Hdesc : describes (header l) bns) (Hlen : (length bns < Z.to_nat (log_size l))%nat).
Context (Hhome : Forall (home (log_start l) (log_size l)) bns).
Context (Hds : length ds = length bns).

Lemma txn_log_block i :
  (i < length bns)%nat ->
  u32_add (u32_add (log_start l) (Z.of_nat i)) 1 = log_block (log_start l) i /\
  in_log (log_start l) (log_size l) (log_block (log_start l) i).
Proof using Hgeo Hlen.
  clear Hds. intros Hi. destruct Hgeo as [? ? ?]. unfold log_block, in_log.
  rewrite (u32_add_small (log_start l)) by lia. unwrap_arith. lia.
Qed.

Lemma txn_block i :
  (i < length bns)%nat ->
  exists bn d, bns !! i = Some bn /\ ds !! i = Some d /\
    blocknos (header l) !! Z.to_nat (Z.of_nat i) = Some bn /\
    bn <> log_block (log_start l) i.
Proof using Hgeo Hlen Hdesc Hhome Hds.
  intros Hi. destruct (lookup_lt_is_Some_2 bns i Hi) as [bn Hbn].
  destruct (lookup_lt_is_Some_2 ds i) as [d Hd]; [lia|]. exists bn, d. split_and!; try done.
  - rewrite Nat2Z.id. by eapply describes_lookup.
  - intros ->. rewrite Forall_lookup in Hhome. destruct (Hhome _ _ Hbn) as [_ Hh].
    apply Hh. by apply txn_log_block.
Qed.

Lemma write_log_spec f a :
  frep f l a ->
  (forall i bn d, bns !! i = Some bn -> ds !! i = Some d ->
     exists e, a_bufs a !! bn = Some e /\ e_locked e = false /\ 0 < e_rc e < 2 ^ 63 /\ e_data e = d) ->
  (forall b, in_log (log_start l) (log_size l) b -> a_bufs a !! b = None) ->
  (size (a_bufs a) < NBUF)%nat ->
  wp write_log f (fun _ f' => frep f' l (abs_writes (log_writes (log_start l) ds) a)).
Proof using Hdev Hgeo Hdesc Hlen Hhome Hds.
  intros Hf Hpin Hlog Hsz. unfold write_log. eapply wp_bind, wp_get_log; [done|].
  rewrite (proj1 Hdesc).
  apply (wp_for_range _ _ (fun i f => frep f l (abs_writes (take i (log_writes (log_start l) ds)) a))).
  - by rewrite take_0, abs_writes_nil.
  - intros i f1 Hi H1. destruct (txn_block i Hi) as (bn & d & Hbn & Hd & Hh & Hne).
    destruct (txn_log_block i Hi) as [Hlb Hin].
    destruct (Hpin _ _ _ Hbn Hd) as (e & He & Hl & Hrc & Hed).
    eapply wp_mono.
    + eapply (write_log_block_spec l Hdev _ bn _ Hlb Hh Hne); [done|done|done|done|by apply Hlog|done].
    + intros [] f2 H2. erewrite take_S_r; [by rewrite abs_writes_app|].
      unfold log_writes. rewrite list_lookup_imap, Hd. simpl. by rewrite Hed.
  - intros f1 H1. rewrite take_ge in H1; [done|]. unfold log_writes. rewrite length_imap. lia.
Qed.

(** The cache after the first [i] blocks of the transaction are installed. *)
Definition installed (i : nat) (a : cabs) : cabs :=
  mkAbs (foldl (fun m b => delete b m) (a_bufs a) (take i bns))
    (apply_writes (take i (zip bns ds)) (a_disk a)) (a_writes a ++ take i (zip bns ds)).

Lemma installed_S i a bn d :
  bns !! i = Some bn -> ds !! i = Some d ->
  installed (S i) a = abs_del bn (abs_writes [(bn, d)] (installed i a)).
Proof using Type.
  intros Hbn Hd. unfold installed, abs_del, abs_writes. simpl.
  assert (Hz : zip bns ds !! i = Some (bn, d)) by (rewrite lookup_zip_with, Hbn; simpl; by rewrite Hd).
  rewrite (take_S_r _ _ _ Hbn), (take_S_r _ _ _ Hz), foldl_app, apply_writes_app, app_assoc. done.
Qed.

Lemma installed_bufs_out i a b : b ∉ bns -> a_bufs (installed i a) !! b = a_bufs a !! b.
Proof using Type.
  intros Hb. simpl. rewrite lookup_foldl_delete, decide_False; [done|].
  intros Hin. apply Hb. by eapply elem_of_take_elem.
Qed.

Lemma installed_bufs_later i a j bn :
  NoDup bns -> bns !! j = Some bn -> (i <= j)%nat -> a_bufs (installed i a) !! bn = a_bufs a !! bn.
Proof using Type.
  clear Hlen Hds Hdesc. intros Hnd Hj Hi. simpl. rewrite lookup_foldl_delete, decide_False; [done|].
  intros (k & Hk)%list_elem_of_lookup. apply lookup_take_Some in Hk as [Hk ?].
  pose proof (NoDup_lookup _ _ _ _ Hnd Hj Hk). lia.
Qed.

Lemma installed_size i a : (size (a_bufs (installed i a)) <= size (a_bufs a))%nat.
Proof using Type.
  simpl. rewrite <-!size_dom. apply subseteq_size. intros b.
  rewrite !elem_of_dom, lookup_foldl_delete. case_decide; [by intros [? ?]|done].
Qed.

(** [install_trans(false)] after the log is on the disk. *)
Lemma install_trans_spec f a :
  NoDup bns -> frep f l a ->
  (forall i bn, bns !! i = Some bn ->
     exists e, a_bufs a !! bn = Some e /\ e_locked e = false /\ e_rc e = 1) ->
  (forall i d, ds !! i = Some d -> disk_get (a_disk a) (log_block (log_start l) i) = d) ->
  (forall b, in_log (log_start l) (log_size l) b -> a_bufs a !! b = None) ->
  (size (a_bufs a) < NBUF)%nat ->
  wp (install_trans false) f (fun _ f' => frep f' l (installed (length bns) a)).
Proof using Hdev Hgeo Hdesc Hlen Hhome Hds.
  intros Hnd Hf Hpin Hdisk Hlog Hsz. unfold install_trans. eapply wp_bind, wp_get_log; [done|].
  rewrite (proj1 Hdesc).
  apply (wp_for_range _ _ (fun i f => frep f l (installed i a))); [| |done].
  { unfold installed. rewrite !take_0. simpl. rewrite app_nil_r. by destruct a. }
  intros i f1 Hi H1. destruct (txn_block i Hi) as (bn & d & Hbn & Hd & Hh & Hne).
  destruct (txn_log_block i Hi) as [Hlb Hin].
  destruct (Hpin _ _ Hbn) as (e & He & Hl & Hrc).
  assert (Hout : forall b, in_log (log_start l) (log_size l) b -> b ∉ bns).
  { intros b Hb Hbb. rewrite Forall_forall in Hhome. by destruct (Hhome _ Hbb) as [_ []]. }
  eapply wp_mono.
  - eapply (install_block_spec l Hdev _ bn _ Hlb Hh Hne _ _ e d H1).
    + by rewrite (installed_bufs_later i a i).
    + done.
    + lia.
    + rewrite installed_bufs_out by auto. auto.
    + pose proof (installed_size i a). lia.
    + simpl. unfold disk_get. rewrite apply_writes_notin.
      * symmetry. by apply Hdisk.
      * intros Hx. apply (Hout _ Hin). rewrite fmap_take in Hx.
        apply elem_of_take_elem in Hx. rewrite fst_zip in Hx by lia. done.
  - intros [] f2 H2. rewrite (installed_S _ _ _ _ Hbn Hd). unfold abs_drop in H2.
    simpl in H2. by rewrite Hrc in H2.
Qed.

(** [install_trans(true)] at boot, nothing cached. *)
Lemma recover_trans_spec f a :
  frep f l a -> a_bufs a = ∅ ->
  (forall i d, ds !! i = Some d -> disk_get (a_disk a) (log_block (log_start l) i) = d) ->
  wp (install_trans true) f (fun _ f' => frep f' l (abs_writes (zip bns ds) a)).
Proof using Hdev Hgeo Hdesc Hlen Hhome Hds.
  intros Hf Hemp Hdisk. unfold install_trans. eapply wp_bind, wp_get_log; [done|].
  rewrite (proj1 Hdesc).
  apply (wp_for_range _ _ (fun i f => frep f l (abs_writes (take i (zip bns ds)) a))).
  { by rewrite take_0, abs_writes_nil. }
  - intros i f1 Hi H1. destruct (txn_block i Hi) as (bn & d & Hbn & Hd & Hh & Hne).
    destruct (txn_log_block i Hi) as [Hlb Hin].
    eapply wp_mono.
    + eapply (recover_block_spec l Hdev _ bn _ Hlb Hh Hne _ _ d H1); [done|].
      simpl. unfold disk_get. rewrite apply_writes_notin; [symmetry; by apply Hdisk|].
      intros Hx. rewrite fmap_take in Hx.
      apply elem_of_take_elem in Hx. rewrite fst_zip in Hx by lia.
      rewrite Forall_forall in Hhome. by destruct (Hhome _ Hx) as [_ []].
    + intros [] f2 H2. erewrite take_S_r; [by rewrite abs_writes_app|].
      rewrite lookup_zip_with, Hbn. simpl. by rewrite Hd.
  - intros f1 H1. rewrite take_ge in H1; [done|]. rewrite length_zip_with. lia.
Qed.

End txn.

(** The header read back from the block it was written to. *)
Lemma header_of_block h bns d : describes h bns -> is_u32 (n h) -> header_of (header_block h d) = h.
Proof.
  intros (_ & _ & Hlen & Hu) Hn. unfold header_of, header_block, splice, header_bytes.
  rewrite take_0. cbn [app].
  change (S LOGSIZE) with (1 + LOGSIZE)%nat. rewrite <-Hlen.
  change (1 + length (blocknos h))%nat with (length (n h :: blocknos h)).
  rewrite bytes_words_bytes by by constructor. by destruct h.
Qed.

Definition cleared (h : LogHeader) : LogHeader := mkHeader 0 (blocknos h).

Lemma describes_cleared h bns : describes h bns -> describes (cleared h) [].
Proof. intros (_ & _ & ? & ?). by split_and!. Qed.

Lemma describes_n_u32 h bns : describes h bns -> is_u32 (n h).
Proof.
  intros (Hn & Ht & Hl & _). unfold is_u32. rewrite Hn. apply (f_equal length) in Ht.
  rewrite length_take, Hl in Ht. unfold LOGSIZE, MAXOPBLOCKS in Ht. lia.
Qed.

Lemma clear_n_spec l f a : frep f l a -> wp clear_n f (fun _ f' => frep f' (set_n 0 l) a).
Proof. intros [Hl Hr]. unfold wp, clear_n, bind, get_log, put_log. by rewrite Hl. Qed.

(** The device writes of a commit, in order. *)
Definition commit_writes (start : Z) (h : LogHeader) (bns : list Z) (ds : list block)
    (d : gmap Z block) : list (Z * block) :=
  let h1 := header_block h (disk_get d start) in
  log_writes start ds ++ [(start, h1)] ++ zip bns ds ++ [(start, header_block (cleared h) h1)].

Lemma start_notin_log_writes start ds : start ∉ (log_writes start ds).*1.
Proof. intros (i & _ & Hi)%log_writes_fst. unfold log_block in Hi. lia. Qed.

Lemma home_notin_log_writes start size ds b :
  (length ds < Z.to_nat size)%nat -> home start size b -> b ∉ (log_writes start ds).*1.
Proof.
  intros Hlen [_ Hh] (i & Hi & ->)%log_writes_fst. apply Hh. unfold in_log, log_block. lia.
Qed.

Lemma log_notin_home start size bns (ds : list block) b :
  Forall (home start size) bns -> in_log start size b -> b ∉ (zip bns ds).*1.
Proof.
  intros Hh Hb ([x y] & -> & Hin)%list_elem_of_fmap. apply elem_of_zip_l in Hin.
  rewrite Forall_forall in Hh. by destruct (Hh _ Hin).
Qed.

Section commit.
Context (l : Log) (bns : list Z) (ds : list block).
Context (Hdev : log_dev l = ROOTDEV) (Hgeo : geometry (log_start l) (log_size l)).
Context (Hdesc : describes (header l) bns) (Hlen : (length bns < Z.to_nat (log_size l))%nat).
Context (Hhome : Forall (home (log_start l) (log_size l)) bns).
Context (Hds : length ds = length bns) (Hnd : NoDup bns).

Let start := log_start l.
Let h1 (a : cabs) := header_block (header l) (disk_get (a_disk a) start).

Lemma start_in_log : in_log start (log_size l) start.
Proof using Hgeo. clear Hds Hlen. destruct Hgeo. unfold in_log, start. lia. Qed.

Definition committed (a : cabs) : cabs :=
  mkAbs (foldl (fun m b => delete b m) (a_bufs a) bns)
    (apply_writes (commit_writes start (header l) bns ds (a_disk a)) (a_disk a))
    (a_writes a ++ commit_writes start (header l) bns ds (a_disk a)).

Lemma committed_installed a :
  committed a =
  abs_writes [(start, header_block (cleared (header l)) (h1 a))]
    (installed bns ds (length bns)
       (abs_writes [(start, h1 a)] (abs_writes (log_writes start ds) a))).
Proof using Hds.
  clear Hlen. unfold committed, installed, abs_writes, commit_writes. simpl.
  rewrite !apply_writes_app, !firstn_all, !take_ge by (rewrite length_zip_with; lia).
  simpl. rewrite <-!app_assoc, apply_writes_app. done.
Qed.

Lemma commit_spec f a :
  frep f l a -> bns <> [] ->
  (forall i bn d, bns !! i = Some bn -> ds !! i = Some d ->
     exists e, a_bufs a !! bn = Some e /\ e_locked e = false /\ e_rc e = 1 /\ e_data e = d) ->
  (forall b, in_log start (log_size l) b -> a_bufs a !! b = None) ->
  (size (a_bufs a) < NBUF)%nat ->
  wp commit f (fun _ f' => frep f' (set_n 0 l) (committed a)).
Proof using Hdev Hgeo Hdesc Hlen Hhome Hds Hnd.
  intros Hf Hne Hpin Hlog Hsz. unfold commit. eapply wp_bind, wp_get_log; [done|].
  assert (Hpos : (0 <? n (header l)) = true).
  { apply Z.ltb_lt. destruct Hdesc as [-> _]. destruct bns; [done|]. simpl. lia. }
  rewrite Hpos. pose proof start_in_log as Hsl.
  eapply wp_bind, wp_mono; [apply (write_log_spec l bns ds); try done|].
  { intros i bn d Hi Hd. destruct (Hpin _ _ _ Hi Hd) as (e & ? & ? & ? & ?).
    exists e. split_and!; (done || lia). }
  intros [] f1 H1. eapply wp_bind, wp_mono; [apply (write_head_spec l); try done; by apply Hlog|].
  intros [] f2 H2. cbv beta in H2.
  replace (disk_get (a_disk (abs_writes (log_writes (log_start l) ds) a)) (log_start l))
    with (disk_get (a_disk a) start) in H2.
  2:{ simpl. unfold disk_get. by rewrite apply_writes_notin by apply start_notin_log_writes. }
  eapply wp_bind, wp_mono; [eapply (install_trans_spec l bns ds); try done|].
  { intros i bn Hi. destruct (lookup_lt_is_Some_2 ds i) as [d Hd].
    { rewrite Hds. by eapply lookup_lt_Some. }
    destruct (Hpin _ _ _ Hi Hd) as (e & ? & ? & ? & ?). by exists e. }
  { intros i d Hd. simpl. unfold disk_get. rewrite lookup_insert_ne.
    - by erewrite apply_log_writes.
    - unfold log_block. lia. }
  intros [] f3 H3. eapply wp_bind, wp_mono; [by apply clear_n_spec|].
  intros [] f4 H4. eapply wp_mono; [apply (write_head_spec (set_n 0 l)); try done|].
  - rewrite installed_bufs_out; [by apply Hlog|]. intros Hin. rewrite Forall_forall in Hhome.
    by destruct (Hhome _ Hin).
  - eapply Nat.le_lt_trans; [apply installed_size|done].
  - intros [] f5 H5. cbv beta in H5. rewrite committed_installed.
    replace (disk_get (a_disk (installed _ _ _ _)) _) with (h1 a) in H5; [done|].
    unfold disk_get. simpl. rewrite apply_writes_notin, lookup_insert_eq; [done|].
    intros Hx. rewrite fmap_take in Hx. apply elem_of_take_elem in Hx.
    by eapply (log_notin_home start (log_size l) bns ds start).
Qed.

End commit.

(** ** Boot and recovery *)

(** Booting on a disk: an empty cache, then [Log::init]. *)
Definition boot (start size : Z) (d : gmap Z block) : outcome (unit * fsys) :=
  log_init ROOTDEV start size (mkFs log_new (io_init d)).

Definition booted_log (start size : Z) (h : LogHeader) : Log :=
  mkLog start size 0 false ROOTDEV (cleared h).

Section recovery.
Context (start size : Z) (Hgeo : geometry start size).

Lemma boot_spec d bns ds :
  describes (header_of (disk_get d start)) bns -> (length bns < Z.to_nat size)%nat ->
  Forall (home start size) bns -> length ds = length bns ->
  (forall i x, ds !! i = Some x -> disk_get d (log_block start i) = x) ->
  exists f ws, boot start size d = Done (tt, f) /\
    frep f (booted_log start size (header_of (disk_get d start))) (mkAbs ∅ (apply_writes ws d) ws) /\
    ws = zip bns ds ++
      [(start, header_block (cleared (header_of (disk_get d start))) (disk_get d start))].
Proof using Hgeo.
  intros Hdesc Hlen Hhome Hds Hlog. set (h := header_of (disk_get d start)) in *.
  enough (wp (log_init ROOTDEV start size) (mkFs log_new (io_init d)) (fun _ f =>
    frep f (booted_log start size h) (abs_writes (zip bns ds ++
      [(start, header_block (cleared h) (disk_get d start))]) (mkAbs ∅ d [])))) as Hw.
  { apply wp_elim in Hw as ([] & f & Heq & Hf). exists f. by eexists. }
  unfold log_init. eapply wp_bind, wp_Done; [reflexivity|].
  eapply wp_bind, wp_Done; [reflexivity|]. simpl.
  set (l0 := mkLog start size 0 false ROOTDEV header_new).
  unfold recover_from_log.
  assert (H0 : frep (mkFs l0 (io_init d)) l0 (mkAbs ∅ d [])) by (split; [done|apply rep_init]).
  eapply wp_bind, wp_mono; [apply (read_head_spec l0); [done|exact H0|done|vm_compute; lia]|].
  intros [] f1 H1. simpl in H1. fold h in H1.
  eapply wp_bind, wp_mono; [eapply (recover_trans_spec (set_header h l0) bns ds
    eq_refl Hgeo Hdesc Hlen Hhome Hds _ _ H1); [done|exact Hlog]|].
  intros [] f2 H2. eapply wp_bind, wp_mono; [by apply clear_n_spec|].
  intros [] f3 H3. eapply wp_mono; [eapply (write_head_spec (set_n 0 (set_header h l0)) _ _ eq_refl H3)|].
  { done. } { vm_compute. lia. }
  intros [] f4 H4. rewrite abs_writes_app. simpl in H4.
  replace (disk_get (apply_writes (zip bns ds) d) start) with (disk_get d start) in H4; [done|].
  unfold disk_get. rewrite apply_writes_notin; [done|].
  eapply log_notin_home; [done|]. destruct Hgeo. unfold in_log. lia.
Qed.

#[local] Opaque boot header_of.

(** The contents of the home blocks after a transaction. *)
Definition after (bns : list Z) (ds : list block) (d : gmap Z block) (b : Z) : block :=
  disk_get (apply_writes (zip bns ds) d) b.

Lemma after_ext bns ds d d' b :
  length ds = length bns -> NoDup bns -> (b ∉ bns -> d !! b = d' !! b) ->
  after bns ds d b = after bns ds d' b.
Proof using Type.
  intros Hds Hnd Hb. unfold after, disk_get. destruct (decide (b ∈ bns)) as [Hin|Hni].
  - apply list_elem_of_lookup in Hin as [i Hi].
    destruct (lookup_lt_is_Some_2 ds i) as [x Hx]; [rewrite Hds; by eapply lookup_lt_Some|].
    assert (Hz : (b, x) ∈ zip bns ds).
    { apply list_elem_of_lookup. exists i. rewrite lookup_zip_with, Hi. simpl. by rewrite Hx. }
    by rewrite !(apply_writes_in _ _ b x) by (rewrite ?fst_zip by lia; done).
  - by rewrite !apply_writes_notin, Hb by (rewrite ?fst_zip by lia; done).
Qed.

(** The prefixes of the writes of a commit. *)
Lemma commit_writes_prefix h bns ds d k :
  let h1 := header_block h (disk_get d start) in
  (exists j, take k (commit_writes start h bns ds d) = take j (log_writes start ds)) \/
  (exists j, take k (commit_writes start h bns ds d) =
     log_writes start ds ++ [(start, h1)] ++ take j (zip bns ds)) \/
  take k (commit_writes start h bns ds d) =
     log_writes start ds ++ [(start, h1)] ++ zip bns ds ++ [(start, header_block (cleared h) h1)].
Proof using Type.
  intros h1. unfold commit_writes. fold h1. rewrite take_app.
  destruct (k - length (log_writes start ds))%nat as [|j] eqn:Ej.
  { left. exists k. by rewrite app_nil_r. }
  right. rewrite (take_ge (log_writes start ds)) by lia. cbn [app take]. rewrite take_app.
  destruct (j - length (zip bns ds))%nat as [|j'] eqn:Ej'.
  { left. exists j. by rewrite app_nil_r. }
  right. rewrite (take_ge (zip bns ds)) by lia. by cbn [take]; rewrite take_nil.
Qed.

Section crash.
Context (h : LogHeader) (bns : list Z) (ds : list block) (d : gmap Z block).
Context (Hdesc : describes h bns) (Hds : length ds = length bns).
Context (Hlen : (length bns < Z.to_nat size)%nat) (Hnd : NoDup bns).
Context (Hhome : Forall (home start size) bns).

Lemma crash_start_in : in_log start size start.
Proof using Hgeo. clear Hds Hlen. destruct Hgeo. unfold in_log. lia. Qed.

Lemma crash_log_prefix j b :
  home start size b \/ b = start ->
  apply_writes (take j (log_writes start ds)) d !! b = d !! b.
Proof using Hds Hlen.
  intros Hb. apply apply_writes_notin. intros Hx. rewrite fmap_take in Hx.
  apply elem_of_take_elem in Hx. destruct Hb as [Hb| ->].
  - eapply home_notin_log_writes; [|done|done]. lia.
  - by eapply start_notin_log_writes.
Qed.

Lemma crash_home_prefix j m b :
  in_log start size b \/ b ∉ bns -> apply_writes (take j (zip bns ds)) m !! b = m !! b.
Proof using Hhome Hds.
  clear Hlen. intros Hb. apply apply_writes_notin. intros Hx. rewrite fmap_take in Hx.
  apply elem_of_take_elem in Hx. destruct Hb as [Hb|Hb].
  - by eapply log_notin_home.
  - rewrite fst_zip in Hx by lia. done.
Qed.

Lemma home_ne_start b : home start size b -> start <> b.
Proof using Hgeo. intros [_ Hb] <-. apply Hb, crash_start_in. Qed.

(** What a crash can leave on the disk: no trace of the transaction in the
    home blocks, all of it, or a log from which all of it is installed. *)
Lemma crash_cases k :
  describes (header_of (disk_get d start)) [] ->
  let d' := apply_writes (take k (commit_writes start h bns ds d)) d in
  (describes (header_of (disk_get d' start)) [] /\
     ((forall b, home start size b -> disk_get d' b = disk_get d b) \/
      (forall b, home start size b -> disk_get d' b = after bns ds d b))) \/
  (describes (header_of (disk_get d' start)) bns /\
     (forall i x, ds !! i = Some x -> disk_get d' (log_block start i) = x) /\
     (forall b, home start size b -> after bns ds d' b = after bns ds d b)).
Proof using Hgeo Hdesc Hds Hlen Hnd Hhome.
  intros Hclean d'. subst d'. pose proof crash_start_in as Hsl.
  destruct (commit_writes_prefix h bns ds d k) as [[j ->]|[[j ->]| ->]].
  - left. split; [|left].
    + unfold disk_get in *. by rewrite crash_log_prefix by auto.
    + intros b Hb. unfold disk_get. by rewrite crash_log_prefix by auto.
  - right. rewrite !apply_writes_app. simpl. split_and!.
    + unfold disk_get at 1. rewrite crash_home_prefix, lookup_insert_eq by auto. simpl.
      by erewrite header_of_block by (eauto using describes_n_u32).
    + intros i x Hx. unfold disk_get. rewrite crash_home_prefix, lookup_insert_ne.
      * by erewrite apply_log_writes.
      * unfold log_block. lia.
      * left. apply lookup_lt_Some in Hx. unfold in_log, log_block. lia.
    + intros b Hb. apply after_ext; [done|done|]. intros Hnb.
      rewrite crash_home_prefix, lookup_insert_ne by auto using home_ne_start.
      rewrite <-(firstn_all (log_writes start ds)), crash_log_prefix by auto. done.
  - left. rewrite !apply_writes_app. simpl. split; [|right].
    + unfold disk_get at 1. rewrite lookup_insert_eq. simpl.
      erewrite header_of_block; [by eapply describes_cleared|by eapply describes_cleared|done].
    + intros b Hb. unfold disk_get at 1. rewrite lookup_insert_ne by auto using home_ne_start.
      apply after_ext; [done|done|]. intros Hnb. rewrite lookup_insert_ne by auto using home_ne_start.
      rewrite <-(firstn_all (log_writes start ds)), crash_log_prefix by auto. done.
Qed.

End crash.

(** Booting after a crash inside a commit. *)
Lemma boot_after_crash h bns ds d k :
  describes h bns -> length ds = length bns -> (length bns < Z.to_nat size)%nat ->
  NoDup bns -> Forall (home start size) bns -> describes (header_of (disk_get d start)) [] ->
  exists f h', boot start size (apply_writes (take k (commit_writes start h bns ds d)) d) =
      Done (tt, f) /\
    log f = booted_log start size h' /\ rep (bio f) (mkAbs ∅ (disk (bio f)) (writes (bio f))) /\
    describes (cleared h') [] /\ describes (header_of (disk_get (disk (bio f)) start)) [] /\
    ((forall b, home start size b -> disk_get (disk (bio f)) b = disk_get d b) \/
     (forall b, home start size b -> disk_get (disk (bio f)) b = after bns ds d b)).
Proof using Hgeo.
  intros Hdesc Hds Hlen Hnd Hhome Hclean.
  pose proof (crash_cases h bns ds d Hdesc Hds Hlen Hnd Hhome k Hclean) as Hc. simpl in Hc.
  set (d' := apply_writes (take k (commit_writes start h bns ds d)) d) in *.
  assert (exists bns' ds', describes (header_of (disk_get d' start)) bns' /\
    (length bns' < Z.to_nat size)%nat /\ Forall (home start size) bns' /\
    length ds' = length bns' /\
    (forall i x, ds' !! i = Some x -> disk_get d' (log_block start i) = x) /\
    ((forall b, home start size b -> after bns' ds' d' b = disk_get d b) \/
     (forall b, home start size b -> after bns' ds' d' b = after bns ds d b))) as
    (bns' & ds' & Hd' & Hl' & Hh' & Hs' & Hlog & Hview).
  { destruct Hc as [[Hd' Hv]|(Hd' & Hlog & Hv)].
    - exists [], []. split_and!; try done. destruct Hgeo. simpl. lia.
    - exists bns, ds. split_and!; try done. by right. }
  destruct (boot_spec d' bns' ds' Hd' Hl' Hh' Hs' Hlog) as (f & ws & Hb & [Hl Hr] & Hws).
  pose proof (rep_disk _ _ Hr) as Hdk. simpl in Hdk.
  assert (Hget : forall b, home start size b ->
    disk_get (disk (bio f)) b = after bns' ds' d' b).
  { intros b Hb'. rewrite Hdk, Hws, apply_writes_app. simpl. unfold after, disk_get.
    by rewrite lookup_insert_ne by by eapply home_ne_start. }
  exists f, (header_of (disk_get d' start)). split_and!; try assumption.
  - rewrite Hdk, (rep_writes _ _ Hr). exact Hr.
  - by eapply describes_cleared.
  - rewrite Hdk, Hws, apply_writes_app. simpl. unfold disk_get at 1. rewrite lookup_insert_eq.
    simpl. erewrite header_of_block; [by eapply describes_cleared|by eapply describes_cleared|done].
  - destruct Hview as [Hv|Hv]; [left|right]; intros b Hb'; rewrite Hget; auto.
Qed.

End recovery.

(** ** The protocol of file-system operations *)

(** [g] is a live guard: its buffer is referenced and its lock is held. *)
Definition held (s : io) (g : BufGuard) : Prop :=
  exists m bf, inner (lru s) !! gindex g = Some m /\ bufs s !! gindex g = Some bf /\
    blockno m = gblockno g /\ refcnt m <> 0 /\ locked bf = true /\ rc_ptr g = gindex g.

Definition unmodified (s : io) (g : BufGuard) : Prop :=
  exists bf, bufs s !! gindex g = Some bf /\ data bf = disk_get (disk s) (gblockno g).

Definition logged (l : Log) (b : Z) : Prop := b ∈ take (Z.to_nat (n (header l))) (blocknos (header l)).

(** The calls file-system code makes. *)
Inductive fop :=
| FBegin
| FRead (b : Z)
| FModify (g : BufGuard) (d : block)
| FLog (g : BufGuard)
| FRelease (g : BufGuard)
| FEnd.

Definition fexec (o : fop) : M fsys (option BufGuard) :=
  match o with
  | FBegin => begin_op ;; ret None
  | FRead b => let! g := lift (bread ROOTDEV b) in ret (Some g)
  | FModify g d => lift (set_data g d) ;; ret None
  | FLog g => write g ;; ret None
  | FRelease g => lift (guard_drop g) ;; ret None
  | FEnd => end_op ;; ret None
  end.

(** The protocol: blocks of the log are not read, buffers are changed under
    their lock, a changed buffer is logged before it is released, and the last
    operation releases its buffers before it ends. *)
Definition allowed (start size : Z) (f : fsys) (o : fop) : Prop :=
  match o with
  | FBegin => True
  | FRead b => home start size b
  | FModify g _ | FLog g => held (bio f) g
  | FRelease g => held (bio f) g /\ (logged (log f) (gblockno g) \/ unmodified (bio f) g)
  | FEnd => 0 < outstanding (log f) /\
      (outstanding (log f) = 1 -> Forall (fun bf => locked bf = false) (bufs (bio f)))
  end.

Definition b2z (b : bool) : Z := if b then 1 else 0.

Record log_inv (start size : Z) (f : fsys) (a : cabs) (bns : list Z) : Prop := {
  li_rep : rep (bio f) a;
  li_start : log_start (log f) = start;
  li_size : log_size (log f) = size;
  li_dev : log_dev (log f) = ROOTDEV;
  li_committing : committing (log f) = false;
  li_outstanding : 0 <= outstanding (log f) <= 3;
  li_describes : describes (header (log f)) bns;
  li_length : (length bns < Z.to_nat size)%nat;
  li_nodup : NoDup bns;
  li_home : Forall (home start size) bns;
  li_entry b e : a_bufs a !! b = Some e ->
    home start size b /\ e_rc e = b2z (e_locked e) + b2z (bool_decide (b ∈ bns));
  li_pinned b : b ∈ bns -> is_Some (a_bufs a !! b);
  li_clean : describes (header_of (disk_get (a_disk a) start)) []
}.

(** Slots and locks of the referenced blocks are unchanged. *)
Definition keeps (a a' : cabs) : Prop :=
  forall b, (fun e => (e_index e, e_locked e)) <$> a_bufs a' !! b =
            (fun e => (e_index e, e_locked e)) <$> a_bufs a !! b.

Lemma keeps_set a b e e' :
  a_bufs a !! b = Some e -> e_index e' = e_index e -> e_locked e' = e_locked e ->
  keeps a (abs_set b e' a).
Proof.
  intros He Hi Hl b'. simpl. destruct (decide (b' = b)) as [->|].
  - rewrite lookup_insert_eq, He. simpl. by rewrite Hi, Hl.
  - by rewrite lookup_insert_ne.
Qed.

Lemma held_entry s a g :
  rep s a -> held s g -> exists e, a_bufs a !! gblockno g = Some e /\
    g = guard_of (gblockno g) e /\ e_locked e = true /\
    bufs s !! gindex g = Some (mkBuf true true (e_data e)).
Proof.
  intros Hr (m & bf & Hm & Hb & Hbn & Hrc & Hl & Hp).
  destruct (rep_meta_slot _ _ Hr _ _ Hm) as (bf' & Hb' & Hs). simplify_eq.
  destruct (so_ref _ _ (rep_slots _ _ Hr) _ _ Hs Hrc) as (e & He & Hx). simpl in He.
  destruct (rep_entry _ _ Hr _ _ He) as (_ & _ & m' & _ & _ & Hbe & _).
  rewrite Hx, Hb in Hbe. injection Hbe as ->. simpl in Hl. rewrite Hl in *.
  exists e. rewrite <-Hbn. split_and!; try done.
  destruct g as [gi gb gr]. unfold guard_of. simpl in *. by subst.
Qed.

Lemma absorb_spec bl bns b :
  take (length bns) bl = bns ->
  (exists i, absorb bl (length bns) b = i /\ bns !! i = Some b) \/
  (b ∉ bns /\ absorb bl (length bns) b = length bns).
Proof.
  revert bns. induction bl as [|x bl IH]; intros [|y bns] Ht; simpl in *; try done.
  1,2: right; split; [apply not_elem_of_nil|done].
  injection Ht as <- Ht. destruct (Z.eqb_spec x b) as [->|Hne]; [left; by exists 0%nat|].
  destruct (IH _ Ht) as [(i & Hi & Hb)|[Hni Hi]]; [left; exists (S i)|right].
  - by rewrite Hi.
  - rewrite Hi. split; [set_solver|done].
Qed.

Lemma describes_snoc h bns b :
  describes h bns -> (length bns < LOGSIZE)%nat -> is_u32 b ->
  describes (mkHeader (Z.of_nat (S (length bns))) (<[length bns := b]> (blocknos h))) (bns ++ [b]).
Proof.
  intros (Hn & Ht & Hl & Hu) Hlt Hb. split_and!; simpl.
  - rewrite length_app. simpl. lia.
  - rewrite length_app, Nat.add_1_r. simpl. erewrite take_S_r by (apply list_lookup_insert_eq; lia).
    by rewrite take_insert_ge, Ht by lia.
  - by rewrite length_insert.
  - by apply Forall_insert.
Qed.

Section protocol.
Context (start size : Z) (Hgeo : geometry start size).

Lemma inv_set f f' a bns b e :
  log_inv start size f a bns -> log f' = log f -> rep (bio f') (abs_set b e a) ->
  home start size b -> e_rc e = b2z (e_locked e) + b2z (bool_decide (b ∈ bns)) ->
  log_inv start size f' (abs_set b e a) bns.
Proof using Type.
  intros [] Hl Hr Hb Hrc. split; rewrite ?Hl; try done.
  - intros b' e' Hb'. simpl in Hb'. apply lookup_insert_Some in Hb' as [[<- <-]|[_ Hb']]; auto.
  - intros b' Hb'. simpl. destruct (decide (b' = b)) as [->|].
    + rewrite lookup_insert_eq. eauto.
    + rewrite lookup_insert_ne; auto.
Qed.

Lemma inv_del f f' a bns b :
  log_inv start size f a bns -> log f' = log f -> rep (bio f') (abs_del b a) -> b ∉ bns ->
  log_inv start size f' (abs_del b a) bns.
Proof using Type.
  intros [] Hl Hr Hb. split; rewrite ?Hl; try done.
  - intros b' e' Hb'. simpl in Hb'. apply lookup_delete_Some in Hb' as [_ Hb']. auto.
  - intros b' Hb'. simpl. rewrite lookup_delete_ne; [auto|]. by intros ->.
Qed.

Lemma inv_frep f a bns : log_inv start size f a bns -> frep f (log f) a.
Proof using Type. intros H. split; [done|apply (li_rep _ _ _ _ _ H)]. Qed.

Lemma inv_rc f a bns b e :
  log_inv start size f a bns -> a_bufs a !! b = Some e -> 0 < e_rc e <= 2.
Proof using Type.
  intros H He. destruct (li_entry _ _ _ _ _ H _ _ He) as [_ Hrc].
  destruct (rep_entry _ _ (li_rep _ _ _ _ _ H) _ _ He) as (_ & ? & _).
  unfold b2z in Hrc. repeat case_match; lia.
Qed.

Lemma begin_inv f a bns f' :
  log_inv start size f a bns -> begin_op f = Done (tt, f') ->
  log_inv start size f' a bns /\ bio f' = bio f.
Proof using Hgeo.
  intros H Hb. unfold begin_op, bind, get_log in Hb. destruct H.
  rewrite li_committing0 in Hb.
  destruct (Z.ltb_spec (Z.of_nat LOGSIZE)
    (n (header (log f)) ⊞ (outstanding (log f) ⊞ 1) ⊠ Z.of_nat MAXOPBLOCKS)) as [|Hle]; [done|].
  unfold put_log in Hb. injection Hb as <-. split; [|done]. split; simpl; try done.
  destruct li_describes0 as (Hn & _). rewrite Hn in Hle. destruct Hgeo as [_ Hsz _].
  unfold LOGSIZE, MAXOPBLOCKS in *. rewrite (usize_add_small (outstanding _)) in * by lia.
  rewrite usize_mul_small, usize_add_small in Hle by lia. lia.
Qed.

Lemma read_inv f a bns b r f' :
  log_inv start size f a bns -> home start size b -> lift (bread ROOTDEV b) f = Done (r, f') ->
  exists a', log_inv start size f' a' bns /\ a_disk a' = a_disk a /\ a_writes a' = a_writes a.
Proof using Type.
  intros H Hb Hex. pose proof (li_rep _ _ _ _ _ H) as Hr. unfold lift in Hex.
  destruct (a_bufs a !! b) as [e|] eqn:He.
  - destruct (e_locked e) eqn:Hl; [by rewrite (bread_locked _ _ _ _ Hr He Hl) in Hex|].
    pose proof (inv_rc _ _ _ _ _ H He) as Hrc.
    destruct (wp_elim _ _ _ (bread_referenced _ _ _ _ Hr He Hl ltac:(lia))) as (g & s' & Hs & _ & Hr').
    rewrite Hs in Hex. injection Hex as _ <-. 
    refine (ex_intro _ _ (conj (inv_set f (mkFs (log f) s') _ _ _ _ H eq_refl Hr' Hb _) _)); [|done]. simpl.
    destruct (li_entry _ _ _ _ _ H _ _ He) as [_ ->]. rewrite Hl. simpl. lia.
  - destruct (decide (Datatypes.length (map_to_list (a_bufs a)) < NBUF)%nat) as [Hsz|Hsz];
      rewrite length_map_to_list in Hsz.
    + destruct (wp_elim _ _ _ (bread_unreferenced _ _ _ Hr He Hsz)) as (g & s' & Hs & i & _ & Hr').
      rewrite Hs in Hex. injection Hex as _ <-.
      refine (ex_intro _ _ (conj (inv_set f (mkFs (log f) s') _ _ _ _ H eq_refl Hr' Hb _) _)); [|done].
      simpl. rewrite bool_decide_eq_false_2; [done|].
      intros Hin. destruct (li_pinned _ _ _ _ _ H _ Hin). congruence.
    + rewrite (bread_full _ _ _ Hr He) in Hex; [done|].
      pose proof (rep_size _ _ Hr). lia.
Qed.

Lemma modify_inv f a bns g d :
  log_inv start size f a bns -> held (bio f) g ->
  wp (lift (set_data g d)) f (fun _ f' => exists a', log_inv start size f' a' bns /\
    a_disk a' = a_disk a /\ a_writes a' = a_writes a /\
    log f' = log f /\ keeps a a' /\ abs_view a' (gblockno g) = d /\
    forall b, b <> gblockno g -> abs_view a' b = abs_view a b).
Proof using Type.
  intros H Hh. destruct (held_entry _ _ _ (li_rep _ _ _ _ _ H) Hh) as (e & He & Hg & Hl & _).
  rewrite Hg. eapply wp_set_data; [by eapply inv_frep|done|done|]. intros f' [Hl' Hr'].
  destruct (li_entry _ _ _ _ _ H _ _ He) as [Hhome Hrc].
  refine (ex_intro _ _ (conj (inv_set _ _ _ _ _ _ H Hl' Hr' Hhome Hrc) _)). split_and!; try done.
  - by eapply keeps_set.
  - unfold abs_view, guard_of. simpl. by rewrite lookup_insert_eq.
  - intros b Hb. unfold abs_view. simpl in *. by rewrite lookup_insert_ne.
Qed.

Lemma release_inv f a bns g :
  log_inv start size f a bns -> held (bio f) g ->
  logged (log f) (gblockno g) \/ unmodified (bio f) g ->
  wp (lift (guard_drop g)) f (fun _ f' => exists a', log_inv start size f' a' bns /\
    a_disk a' = a_disk a /\ a_writes a' = a_writes a /\ (forall b, abs_view a' b = abs_view a b) /\
    log f' = log f /\
    (forall b e, a_bufs a' !! b = Some e -> e_locked e = true ->
       b <> gblockno g /\ a_bufs a !! b = Some e) /\
    (forall b, b <> gblockno g -> a_bufs a' !! b = a_bufs a !! b)).
Proof using Type.
  intros H Hh Hok. destruct (held_entry _ _ _ (li_rep _ _ _ _ _ H) Hh) as (e & He & Hg & Hl & Hbf).
  destruct (li_entry _ _ _ _ _ H _ _ He) as [Hhome Hrc]. rewrite Hl in Hrc. simpl in Hrc.
  assert (Hclean : gblockno g ∉ bns -> e_data e = disk_get (a_disk a) (gblockno g)).
  { intros Hni. destruct Hok as [Hlg|(bf & Hb & Hd)].
    - exfalso. apply Hni. unfold logged in Hlg. destruct (li_describes _ _ _ _ _ H) as (Hn & Ht & _).
      by rewrite Hn, Nat2Z.id, Ht in Hlg.
    - rewrite Hbf in Hb. injection Hb as <-. simpl in Hd. rewrite Hd.
      by rewrite (rep_disk _ _ (li_rep _ _ _ _ _ H)). }
  pose proof (inv_rc _ _ _ _ _ H He).
  rewrite Hg. eapply wp_guard_drop; [by eapply inv_frep|done|done|lia| |].
  { intros E. apply Hclean. intros Hin. rewrite bool_decide_eq_true_2 in Hrc by done.
    simpl in Hrc. lia. }
  intros f' [Hl' Hr']. unfold abs_drop in Hr'.
  case_bool_decide as Hin; simpl in Hrc; rewrite Hrc in Hr'; simpl in Hr'.
  - refine (ex_intro _ _ (conj (inv_set _ _ _ _ _ _ H Hl' Hr' Hhome _) _)).
    + simpl. by rewrite bool_decide_eq_true_2.
    + split_and!; try done.
      * intros b. unfold abs_view. simpl. destruct (decide (b = gblockno g)) as [->|].
        -- by rewrite lookup_insert_eq, He.
        -- by rewrite lookup_insert_ne.
      * simpl. intros b e' [[<- <-]|[? ?]]%lookup_insert_Some; [done|]. auto.
      * intros b Hb. simpl. by rewrite lookup_insert_ne.
  - refine (ex_intro _ _ (conj (inv_del _ _ _ _ _ H Hl' Hr' Hin) _)). split_and!; try done.
    + intros b. unfold abs_view. simpl. destruct (decide (b = gblockno g)) as [->|].
      * rewrite lookup_delete_eq, He. symmetry. auto.
      * by rewrite lookup_delete_ne.
    + simpl. intros b e' [? ?]%lookup_delete_Some. auto.
    + intros b Hb. simpl. by rewrite lookup_delete_ne.
Qed.

Lemma write_inv f a bns g :
  log_inv start size f a bns -> held (bio f) g -> 0 < outstanding (log f) ->
  (length bns + 1 < Z.to_nat size)%nat ->
  wp (write g) f (fun _ f' => exists a' bns', log_inv start size f' a' bns' /\
    (forall b, b ∈ bns' <-> b = gblockno g \/ b ∈ bns) /\
    (length bns <= length bns' <= length bns + 1)%nat /\
    a_disk a' = a_disk a /\ a_writes a' = a_writes a /\
    outstanding (log f') = outstanding (log f) /\ keeps a a' /\
    (forall b, abs_view a' b = abs_view a b)).
Proof using Hgeo.
  intros H Hh Hout Hlen. destruct (held_entry _ _ _ (li_rep _ _ _ _ _ H) Hh) as (e & He & Hg & Hl & _).
  destruct (li_entry _ _ _ _ _ H _ _ He) as [Hhome Hrc].
  pose proof (li_describes _ _ _ _ _ H) as Hd. destruct (Hd) as (Hn & Ht & Hll & Hu).
  pose proof (inv_frep _ _ _ H) as Hf. destruct Hgeo as [Hg1 Hg2 Hg3].
  change LOGSIZE with 30%nat in Hg2, Hll. unfold write. change LOGSIZE with 30%nat. eapply wp_bind, wp_get_log; [done|]. cbv zeta. rewrite Hn, (li_size _ _ _ _ _ H), Nat2Z.id.
  rewrite u32_sub_small by lia.
  rewrite !(proj2 (Z.leb_gt _ _)), (proj2 (Z.ltb_ge _ _)) by lia. simpl orb. cbv iota.
  destruct (absorb_spec (blocknos (header (log f))) bns (gblockno g) Ht) as [(i & Hi & Hb)|[Hni Hi]];
    rewrite Hi.
  - pose proof (lookup_lt_Some _ _ _ Hb) as Hlt.
    apply wp_bind, wp_assert; [apply Nat.ltb_lt; lia|].
    rewrite list_insert_id by by eapply describes_lookup.
    eapply wp_bind, wp_Done; [reflexivity|].
    rewrite (proj2 (Z.eqb_neq _ _)) by lia. apply wp_ret.
    exists a, bns. split_and!; try done; [| |lia].
    2:{ intros b. split; [by right|]. intros [->|]; [by eapply list_elem_of_lookup_2|done]. }
    destruct Hf as [_ Hr]. destruct H. split; simpl; try done.
  - apply wp_bind, wp_assert; [apply Nat.ltb_lt; lia|].
    eapply wp_bind, wp_Done; [reflexivity|]. rewrite Z.eqb_refl.
    apply wp_bind. rewrite Hg at 1.
    eapply (wp_bpin _ _ a (gblockno g) e); [split; [reflexivity|]|done|done| |].
    { apply (li_rep _ _ _ _ _ H). }
    { pose proof (inv_rc _ _ _ _ _ H He). lia. }
    intros f' [Hl' Hr']. eapply wp_Done; [reflexivity|].
    exists (abs_set (gblockno g) (mkEntry (e_index e) (e_rc e + 1) (e_locked e) (e_data e)) a).
    exists (bns ++ [gblockno g]).
    assert (Hsn : u32_add (Z.of_nat (length bns)) 1 = Z.of_nat (S (length bns)))
      by (rewrite u32_add_small; lia).
    split_and!; [|set_solver|rewrite length_app; simpl; lia|rewrite length_app; simpl; lia
      |done|done|done|by eapply keeps_set|].
    + rewrite Hsn. destruct H. split; simpl; try done.
      * apply describes_snoc; [done|change LOGSIZE with 30%nat; lia|apply Hhome].
      * rewrite length_app. simpl. lia.
      * apply NoDup_app. split_and!; [done|set_solver|apply NoDup_singleton].
      * apply Forall_app. split; [done|by constructor].
      * intros b' e' [[<- <-]|[Hne Hb']]%lookup_insert_Some.
        -- split; [done|]. simpl. rewrite Hrc, (bool_decide_eq_false_2 (_ ∈ bns)) by done.
           rewrite bool_decide_eq_true_2 by set_solver. simpl. lia.
        -- destruct (li_entry0 _ _ Hb') as [? ->]. split; [done|]. do 2 f_equal.
           apply bool_decide_ext. set_solver.
      * intros b' Hb'. apply lookup_insert_is_Some. destruct (decide (gblockno g = b')); [by left|right].
        split; [done|]. apply li_pinned0. set_solver.
    + intros b. unfold abs_view. simpl. destruct (decide (b = gblockno g)) as [->|].
      * by rewrite lookup_insert_eq, He.
      * by rewrite lookup_insert_ne.
Qed.

Lemma booted_inv f h :
  log f = booted_log start size h -> rep (bio f) (mkAbs ∅ (disk (bio f)) (writes (bio f))) ->
  describes (cleared h) [] -> describes (header_of (disk_get (disk (bio f)) start)) [] ->
  log_inv start size f (mkAbs ∅ (disk (bio f)) (writes (bio f))) [].
Proof using Hgeo.
  intros Hl Hr Hd Hc. destruct Hgeo as [_ Hsz _].
  split; rewrite ?Hl; simpl; try done; try lia; try apply NoDup_nil; try constructor.
  - intros b Hb. by apply elem_of_nil in Hb.
Qed.

(** With every buffer unlocked only the logged blocks are referenced, once each. *)
Lemma quiescent_entries f a bns :
  log_inv start size f a bns -> Forall (fun bf => locked bf = false) (bufs (bio f)) ->
  (forall b e, a_bufs a !! b = Some e -> b ∈ bns /\ e_locked e = false /\ e_rc e = 1) /\
  (base.size (a_bufs a) < NBUF)%nat.
Proof using Hgeo.
  intros H Hq.
  assert (Hent : forall b e, a_bufs a !! b = Some e -> b ∈ bns /\ e_locked e = false /\ e_rc e = 1).
  { intros b e He. destruct (li_entry _ _ _ _ _ H _ _ He) as [_ Hrc].
    destruct (rep_entry _ _ (li_rep _ _ _ _ _ H) _ _ He) as (_ & ? & m & _ & _ & Hb & _).
    rewrite Forall_lookup in Hq. specialize (Hq _ _ Hb). simpl in Hq. rewrite Hq in Hrc. simpl in Hrc.
    case_bool_decide; simpl in Hrc; [done|lia]. }
  split; [done|]. pose proof (li_length _ _ _ _ _ H). destruct Hgeo as [_ Hsz _].
  rewrite <-size_dom.
  assert (Hs : (base.size (dom (a_bufs a)) <= base.size (list_to_set bns : gset Z))%nat).
  { apply subseteq_size. intros b [e He]%elem_of_dom. apply elem_of_list_to_set.
    by destruct (Hent _ _ He). }
  rewrite size_list_to_set in Hs by apply (li_nodup _ _ _ _ _ H).
  change LOGSIZE with NBUF in Hsz. lia.
Qed.

Lemma after_view f a bns b :
  log_inv start size f a bns -> (forall b e, a_bufs a !! b = Some e -> b ∈ bns) ->
  after bns (abs_view a <$> bns) (a_disk a) b = abs_view a b.
Proof using Type.
  intros H Hq. unfold after. destruct (decide (b ∈ bns)) as [Hin|Hni].
  - unfold disk_get. rewrite (apply_writes_in _ _ b (abs_view a b)); [done| |].
    + rewrite fst_zip by (rewrite length_fmap; lia). apply (li_nodup _ _ _ _ _ H).
    + apply list_elem_of_lookup in Hin as [i Hi]. apply list_elem_of_lookup. exists i.
      rewrite lookup_zip_with, Hi, list_lookup_fmap, Hi. done.
  - unfold disk_get, abs_view. rewrite apply_writes_notin.
    + destruct (a_bufs a !! b) eqn:E; [|done]. exfalso. eauto.
    + rewrite fst_zip by (rewrite length_fmap; lia). done.
Qed.

Lemma end_op_last f :
  committing (log f) = false -> outstanding (log f) = 1 ->
  end_op f = (commit ;; let! l := get_log in put_log (set_committing false l))
    (mkFs (set_committing true (set_outstanding 0 (log f))) (bio f)).
Proof using Type.
  intros Hc Ho. unfold end_op. erewrite bind_Done by reflexivity. cbv zeta.
  change (committing (set_outstanding _ _)) with (committing (log f)).
  change (outstanding (set_outstanding ?o _)) with o. rewrite Hc, Ho.
  change (1 ⊟ 1 =? 0) with true. cbv iota. by erewrite bind_Done by reflexivity.
Qed.

Lemma end_commit_writes f a bns l :
  log_inv start size f a bns ->
  (forall b e, a_bufs a !! b = Some e -> b ∈ bns /\ e_locked e = false /\ e_rc e = 1) ->
  (base.size (a_bufs a) < NBUF)%nat -> bns <> [] ->
  l = set_committing true (set_outstanding 0 (log f)) ->
  let ws := commit_writes start (header (log f)) bns (abs_view a <$> bns) (a_disk a) in
  exists f', commit (mkFs l (bio f)) = Done (tt, f') /\ log f' = set_n 0 l /\
    rep (bio f') (mkAbs ∅ (apply_writes ws (a_disk a)) (a_writes a ++ ws)).
Proof using Hgeo.
  intros H Hent Hsz Hne Hl ws. destruct H as [Hr Hs Hz Hdv _ _ Hd Hlen Hnd Hh _ Hpin Hcl].
  assert (Hs' : log_start l = start) by by subst l. assert (Hz' : log_size l = size) by by subst l.
  assert (Hw : wp commit (mkFs l (bio f))
    (fun _ f' => frep f' (set_n 0 l) (committed l bns (abs_view a <$> bns) a))).
  { apply commit_spec; rewrite ?Hs', ?Hz'; try done; try (by subst l).
    - by rewrite length_fmap.
    - intros i bn d Hi Hdi. destruct (Hpin bn) as [e He]; [by eapply list_elem_of_lookup_2|].
      exists e. destruct (Hent _ _ He) as (_ & ? & ?). split_and!; try done.
      rewrite list_lookup_fmap, Hi in Hdi. injection Hdi as <-. unfold abs_view. by rewrite He.
    - intros b Hb. destruct (a_bufs a !! b) as [e|] eqn:E; [|done]. destruct (Hent _ _ E) as [Hin _].
      rewrite Forall_forall in Hh. by destruct (Hh _ Hin). }
  apply wp_elim in Hw as ([] & f' & Hc & Hl' & Hr'). exists f'. split_and!; try done.
  replace ∅ with (foldl (fun m b => delete b m) (a_bufs a) bns).
  - unfold committed in Hr'. rewrite Hs' in Hr'. subst l. exact Hr'.
  - apply map_eq. intros b. rewrite lookup_foldl_delete, lookup_empty. case_decide; [done|].
    destruct (a_bufs a !! b) as [e|] eqn:E; [|done]. by destruct (Hent _ _ E).
Qed.

(** The commit of the last operation: what it returns and what it writes. *)
Lemma end_commit f a bns :
  log_inv start size f a bns -> outstanding (log f) = 1 ->
  Forall (fun bf => locked bf = false) (bufs (bio f)) ->
  exists f' ws,
    end_op f = Done (tt, f') /\ writes (bio f') = writes (bio f) ++ ws /\
    log_inv start size f' (mkAbs ∅ (disk (bio f')) (writes (bio f'))) [] /\
    disk (bio f') = apply_writes ws (disk (bio f)) /\
    outstanding (log f') = 0 /\
    (forall b, home start size b -> disk_get (disk (bio f')) b = abs_view a b) /\
    (ws = [] \/ ws = commit_writes start (header (log f)) bns (abs_view a <$> bns) (a_disk a)).
Proof using Hgeo.
  intros H Ho Hq. destruct (quiescent_entries _ _ _ H Hq) as [Hent Hsz].
  pose proof (li_rep _ _ _ _ _ H) as Hr. pose proof (rep_disk _ _ Hr) as Hdk.
  pose proof (li_describes _ _ _ _ _ H) as Hd.
  set (l1 := set_committing true (set_outstanding 0 (log f))).
  assert (Hend : forall f2, commit (mkFs l1 (bio f)) = Done (tt, f2) ->
    end_op f = Done (tt, mkFs (set_committing false (log f2)) (bio f2))).
  { intros f2 Hc. rewrite end_op_last by (apply (li_committing _ _ _ _ _ H) || done).
    by erewrite bind_Done by exact Hc. }
  destruct (decide (bns = [])) as [->|Hne].
  - exists (mkFs (set_committing false l1) (bio f)), []. split_and!; try done.
    + rewrite (Hend (mkFs l1 (bio f))); [done|]. unfold commit, bind, get_log. simpl.
      destruct Hd as [-> _]. done.
    + simpl. by rewrite app_nil_r.
    + assert (Hemp : a_bufs a = ∅).
      { apply map_eq. intros b. rewrite lookup_empty. destruct (a_bufs a !! b) as [e|] eqn:E; [|done].
        destruct (Hent _ _ E) as [Hx _]. by apply elem_of_nil in Hx. }
      assert (Ha : a = mkAbs ∅ (disk (bio f)) (writes (bio f))).
      { rewrite Hdk, (rep_writes _ _ Hr), <-Hemp. by destruct a. }
      rewrite Ha in H, Hr, Hdk. destruct H. split; simpl; try done.
    + intros b Hb. simpl. rewrite Hdk. unfold abs_view. destruct (a_bufs a !! b) as [e|] eqn:E; [|done].
      destruct (Hent _ _ E) as [Hx _]. by apply elem_of_nil in Hx.
    + by left.
  - destruct (end_commit_writes f a bns l1 H Hent Hsz Hne eq_refl) as (f2 & Hc & Hl2 & Hr2).
    exists (mkFs (set_committing false (log f2)) (bio f2)). eexists. split_and!.
    + by apply Hend.
    + simpl. rewrite (rep_writes _ _ Hr2), (rep_writes _ _ Hr). reflexivity.
    + pose proof (rep_disk _ _ Hr2) as Hdk2. simpl in Hdk2.
      pose proof (rep_writes _ _ Hr2) as Hw2. simpl in Hw2.
      apply (booted_inv _ (header (log f))).
      * simpl. rewrite Hl2. unfold booted_log, set_n, set_header, set_committing, cleared. simpl.
        by rewrite (li_start _ _ _ _ _ H), (li_size _ _ _ _ _ H), (li_dev _ _ _ _ _ H).
      * simpl. rewrite Hdk2, Hw2. exact Hr2.
      * by eapply describes_cleared.
      * simpl. rewrite Hdk2. unfold commit_writes. rewrite !apply_writes_app. simpl. unfold disk_get at 1. rewrite lookup_insert_eq. simpl.
        erewrite header_of_block; [by eapply describes_cleared|by eapply describes_cleared|done].
    + simpl. by rewrite (rep_disk _ _ Hr2), Hdk.
    + simpl. by rewrite Hl2.
    + intros b Hb. simpl. rewrite (rep_disk _ _ Hr2). simpl.
      rewrite <-(after_view _ _ _ b H) by (intros; by edestruct Hent).
      unfold commit_writes. rewrite !apply_writes_app. simpl.
      unfold disk_get at 1. rewrite lookup_insert_ne by (by eapply home_ne_start).
      apply after_ext; [by rewrite length_fmap|apply (li_nodup _ _ _ _ _ H)|]. intros _.
      rewrite lookup_insert_ne by (by eapply home_ne_start).
      apply apply_writes_notin. eapply home_notin_log_writes; [|done].
      rewrite length_fmap. apply (li_length _ _ _ _ _ H).
    + by right.
Qed.

Lemma end_other f a bns :
  log_inv start size f a bns -> 1 < outstanding (log f) ->
  exists f', end_op f = Done (tt, f') /\ log_inv start size f' a bns /\ bio f' = bio f.
Proof using Type.
  intros H Ho. destruct (li_outstanding _ _ _ _ _ H).
  exists (mkFs (set_outstanding (outstanding (log f) - 1) (log f)) (bio f)). split_and!; [| |done].
  - unfold end_op. erewrite bind_Done by reflexivity. cbv zeta.
    change (committing (set_outstanding _ _)) with (committing (log f)).
    change (outstanding (set_outstanding ?o _)) with o.
    rewrite (li_committing _ _ _ _ _ H), usize_sub_small, (proj2 (Z.eqb_neq _ _)) by lia.
    by erewrite bind_Done by reflexivity.
  - destruct H. split; simpl; (done || lia).
Qed.

(** Runs of file-system code from a boot on the disk [d0], with the disks
    after the boot and after each [end_op]. *)
Inductive run (d0 : gmap Z block) : fsys -> list (gmap Z block) -> Prop :=
| run_boot f : boot start size d0 = Done (tt, f) -> run d0 f [disk (bio f)]
| run_step f hist o r f' :
    run d0 f hist -> allowed start size f o -> fexec o f = Done (r, f') ->
    run d0 f' (hist ++ match o with FEnd => [disk (bio f')] | _ => [] end).

Definition same_home (d d' : gmap Z block) : Prop :=
  forall b, home start size b -> disk_get d b = disk_get d' b.

(** Booting from the first [k] device writes gives a disk of the history, the
    last one if no write is lost. *)
Definition recovers (d0 : gmap Z block) (ws : list (Z * block)) (hist : list (gmap Z block)) : Prop :=
  forall k, exists f c, boot start size (apply_writes (take k ws) d0) = Done (tt, f) /\
    c ∈ hist /\ same_home (disk (bio f)) c /\
    ((length ws <= k)%nat -> last hist = Some c) /\
    log_inv start size f (mkAbs ∅ (disk (bio f)) (writes (bio f))) [].

Definition run_inv (d0 : gmap Z block) (f : fsys) (hist : list (gmap Z block)) : Prop :=
  (exists a bns, log_inv start size f a bns) /\
  disk (bio f) = apply_writes (writes (bio f)) d0 /\
  (exists c, last hist = Some c /\ same_home (disk (bio f)) c) /\
  recovers d0 (writes (bio f)) hist.

Lemma clean_boot d :
  describes (header_of (disk_get d start)) [] ->
  exists f, boot start size d = Done (tt, f) /\ same_home (disk (bio f)) d /\
    disk (bio f) = apply_writes (writes (bio f)) d /\ length (writes (bio f)) = 1%nat /\
    log_inv start size f (mkAbs ∅ (disk (bio f)) (writes (bio f))) [].
Proof using Hgeo.
  intros Hc. destruct (boot_spec start size Hgeo d [] [] Hc) as (f & ws & Hb & [Hl Hr] & Hws);
    try done. { destruct Hgeo. simpl. lia. }
  pose proof (rep_disk _ _ Hr) as Hd. pose proof (rep_writes _ _ Hr) as Hw. simpl in Hd, Hw.
  exists f. split_and!; [assumption|..].
  - intros b Hbh. rewrite Hd, Hws. simpl. unfold disk_get.
    by rewrite lookup_insert_ne by (by eapply home_ne_start).
  - by rewrite Hd, Hw.
  - by rewrite Hw, Hws.
  - eapply booted_inv; [done|by rewrite Hd, Hw|by eapply describes_cleared|].
    rewrite Hd, Hws. simpl. unfold disk_get at 1. rewrite lookup_insert_eq. simpl.
    erewrite header_of_block; [by eapply describes_cleared|by eapply describes_cleared|done].
Qed.

Lemma recovers_boot d0 f :
  describes (header_of (disk_get d0 start)) [] -> boot start size d0 = Done (tt, f) ->
  run_inv d0 f [disk (bio f)].
Proof using Hgeo.
  intros Hc Hb. destruct (clean_boot d0 Hc) as (f' & Hb' & Hs & Hd & Hw & Hi).
  rewrite Hb in Hb'. injection Hb' as <-. split_and!; [by eauto|done|by eexists|].
  intros [|k].
  - exists f, (disk (bio f)). rewrite take_0. split_and!; try done. apply list_elem_of_singleton. done.
  - destruct (clean_boot (disk (bio f))) as (f2 & Hb2 & Hs2 & _ & _ & Hi2).
    { apply (li_clean _ _ _ _ _ Hi). }
    exists f2, (disk (bio f)). rewrite take_ge, <-Hd by lia. split_and!; try done.
    by apply list_elem_of_singleton.
Qed.

(** A step that writes nothing to the device. *)
Lemma run_inv_quiet d0 f f' hist a a' bns :
  run_inv d0 f hist -> log_inv start size f a bns ->
  (exists bns', log_inv start size f' a' bns') -> a_disk a' = a_disk a -> a_writes a' = a_writes a ->
  run_inv d0 f' (hist ++ []).
Proof using Type.
  intros (_ & Hd & Hl & Hrec) Hi [bns' Hi'] Hda Hwa. rewrite app_nil_r.
  pose proof (li_rep _ _ _ _ _ Hi) as Hr. pose proof (li_rep _ _ _ _ _ Hi') as Hr'.
  assert (Hdd : disk (bio f') = disk (bio f))
    by by rewrite (rep_disk _ _ Hr), (rep_disk _ _ Hr').
  assert (Hww : writes (bio f') = writes (bio f))
    by by rewrite (rep_writes _ _ Hr), (rep_writes _ _ Hr').
  split_and!; [by eauto|by rewrite Hdd, Hww|by rewrite Hdd|by rewrite Hww].
Qed.

(** The step that commits. *)
Lemma run_inv_commit d0 f hist a bns :
  run_inv d0 f hist -> log_inv start size f a bns -> outstanding (log f) = 1 ->
  Forall (fun bf => locked bf = false) (bufs (bio f)) ->
  exists f', end_op f = Done (tt, f') /\ run_inv d0 f' (hist ++ [disk (bio f')]).
Proof using Hgeo.
  intros (_ & Hd & (c0 & Hl0 & Hs0) & Hrec) Hi Ho Hq.
  destruct (end_commit _ _ _ Hi Ho Hq) as (f' & ws & He & Hw & Hi' & Hdk & _ & Hview & Hws).
  pose proof (rep_disk _ _ (li_rep _ _ _ _ _ Hi)) as Hda.
  exists f'. split; [done|]. split_and!; [by eauto| |by exists (disk (bio f')); rewrite last_snoc|].
  { by rewrite Hdk, Hw, apply_writes_app, <-Hd. }
  intros k. rewrite Hw. destruct (decide (k < length (writes (bio f)))%nat) as [Hk|Hk].
  { destruct (Hrec k) as (f2 & c & Hb & Hc & Hs & _ & Hi2). exists f2, c.
    rewrite take_app_le by lia. rewrite length_app. split_and!; try assumption; try lia.
    apply elem_of_app. by left. }
  rewrite take_app_ge, apply_writes_app, <-Hd by lia. rewrite length_app, last_snoc.
  destruct (decide (length (writes (bio f)) + length ws <= k)%nat) as [Hk2|Hk2].
  { rewrite take_ge, <-Hdk by lia.
    destruct (clean_boot (disk (bio f'))) as (f2 & Hb & Hs & _ & _ & Hi2).
    { apply (li_clean _ _ _ _ _ Hi'). }
    exists f2, (disk (bio f')). split_and!; try assumption; [|reflexivity].
    apply elem_of_app; right; by apply list_elem_of_singleton. }
  destruct Hws as [->| ->]; [simpl in Hk2; lia|]. rewrite Hda.
  destruct (boot_after_crash start size Hgeo (header (log f)) bns (abs_view a <$> bns) (a_disk a)
    (k - length (writes (bio f)))) as (f2 & h' & Hb & Hl & Hr2 & Hd2 & Hc2 & Hor).
  { apply (li_describes _ _ _ _ _ Hi). } { by rewrite length_fmap. }
  { apply (li_length _ _ _ _ _ Hi). } { apply (li_nodup _ _ _ _ _ Hi). }
  { apply (li_home _ _ _ _ _ Hi). } { apply (li_clean _ _ _ _ _ Hi). }
  pose proof (booted_inv f2 h' Hl Hr2 Hd2 Hc2) as Hi2.
  destruct Hor as [Hold|Hnew].
  - exists f2, c0. split_and!; try assumption; [| |lia].
    + apply elem_of_app. left. apply last_Some_elem_of in Hl0. done.
    + intros b Hb'. by rewrite Hold, <-Hs0, Hda.
  - exists f2, (disk (bio f')). split_and!; try assumption; [apply elem_of_app; right; by apply list_elem_of_singleton| |lia].
    intros b Hb'. rewrite Hnew, Hview by done. apply (after_view _ _ _ _ Hi).
    intros b' e' He'. by edestruct (quiescent_entries _ _ _ Hi Hq) as [Hent _]; destruct (Hent _ _ He').
Qed.

(** [write] returns only inside an operation and with room in the log. *)
Lemma write_returns f a bns g r :
  log_inv start size f a bns -> write g f = Done r ->
  0 < outstanding (log f) /\ (length bns + 1 < Z.to_nat size)%nat.
Proof using Hgeo.
  intros H Hw. destruct (li_describes _ _ _ _ _ H) as (Hn & _).
  destruct Hgeo as [_ Hsz _]. change LOGSIZE with 30%nat in Hsz.
  unfold write in Hw. erewrite bind_Done in Hw by reflexivity. cbv zeta in Hw.
  rewrite Hn, (li_size _ _ _ _ _ H), u32_sub_small in Hw by lia.
  destruct (Z.leb_spec (Z.of_nat LOGSIZE) (Z.of_nat (length bns))); [done|].
  destruct (Z.leb_spec (size - 1) (Z.of_nat (length bns))); [done|]. simpl in Hw.
  destruct (Z.ltb_spec (outstanding (log f)) 1); [done|]. lia.
Qed.

Lemma bind_ret_inv {A} (m : M fsys A) (g : A -> option BufGuard) f r f' :
  (let! x := m in ret (g x)) f = Done (r, f') -> exists x, m f = Done (x, f').
Proof using Type.
  unfold bind, ret. destruct (m f) as [[x f2]| | | |]; try done. intros. simplify_eq. eauto.
Qed.

Lemma run_inv_step d0 f hist o r f' :
  run_inv d0 f hist -> allowed start size f o -> fexec o f = Done (r, f') ->
  run_inv d0 f' (hist ++ match o with FEnd => [disk (bio f')] | _ => [] end).
Proof using Hgeo.
  intros Hrun Hal Hex. destruct (Hrun) as ([a [bns Hi]] & _).
  destruct o as [|b|g d|g|g|]; simpl in Hal; apply bind_ret_inv in Hex as [x Hex].
  - destruct x. destruct (begin_inv _ _ _ _ Hi Hex) as [Hi' _].
    eapply run_inv_quiet; eauto.
  - destruct (read_inv _ _ _ _ _ _ Hi Hal Hex) as (a' & Hi' & ? & ?).
    eapply run_inv_quiet; eauto.
  - destruct (wp_elim _ _ _ (modify_inv _ _ _ g d Hi Hal)) as (y & f2 & Hex2 & a' & Hi' & ? & ? & _).
    rewrite Hex in Hex2. simplify_eq. eapply run_inv_quiet; eauto.
  - destruct (write_returns _ _ _ _ _ Hi Hex) as [Ho Hlen].
    destruct (wp_elim _ _ _ (write_inv _ _ _ g Hi Hal Ho Hlen))
      as (y & f2 & Hex2 & a' & bns' & Hi' & _ & _ & ? & ? & _).
    rewrite Hex in Hex2. simplify_eq. eapply run_inv_quiet; eauto.
  - destruct Hal as [Hh Hok].
    destruct (wp_elim _ _ _ (release_inv _ _ _ g Hi Hh Hok)) as (y & f2 & Hex2 & a' & Hi' & ? & ? & _).
    rewrite Hex in Hex2. simplify_eq. eapply run_inv_quiet; eauto.
  - destruct Hal as [Hpos Hq]. destruct (decide (outstanding (log f) = 1)) as [Ho|Ho].
    + destruct (run_inv_commit _ _ _ _ _ Hrun Hi Ho (Hq Ho)) as (f2 & Hex2 & Hr2).
      rewrite Hex in Hex2. simplify_eq. done.
    + destruct (end_other _ _ _ Hi) as (f2 & Hex2 & Hi2 & Hb); [lia|].
      rewrite Hex in Hex2. simplify_eq.
      destruct Hrun as (_ & Hd & (c & Hc & Hs) & Hrec). rewrite Hb.
      split_and!; [by eauto|by rewrite Hb|by exists (disk (bio f)); rewrite last_snoc, Hb|].
      intros k. destruct (Hrec k) as (f3 & c' & Hb3 & Hc' & Hs' & Hl' & Hi3). rewrite Hb, last_snoc.
      destruct (decide (length (writes (bio f)) <= k)%nat) as [Hk|Hk].
      * exists f3, (disk (bio f)). split_and!; try assumption; [apply elem_of_app; right; by apply list_elem_of_singleton| |reflexivity].
        intros b Hbh. rewrite (Hs' b Hbh). symmetry. rewrite (Hs b Hbh).
        rewrite (Hl' Hk) in Hc. by injection Hc as ->.
      * exists f3, c'. split_and!; try assumption; [apply elem_of_app; by left|lia].
Qed.

Lemma run_run_inv d0 f hist :
  describes (header_of (disk_get d0 start)) [] -> run d0 f hist -> run_inv d0 f hist.
Proof using Hgeo.
  intros Hc. induction 1 as [f Hb|f hist o r f' _ IH Hal Hex]; [by apply recovers_boot|].
  by eapply run_inv_step.
Qed.

End protocol.

(** C1: crash safety.  Take any run of file-system operations that follow the
    protocol, from a boot on a disk with an empty log, and lose all device
    writes after the [k]-th, in the middle of a commit or not.  Booting on what
    is left succeeds and gives, on every block outside the log, the disk of
    the boot or of one completed [end_op]; if no write is lost, that of the
    last one. *)
Theorem crash_recovers_committed start size d0 f hist k :
  geometry start size -> describes (header_of (disk_get d0 start)) [] ->
  run start size d0 f hist ->
  exists f' c, boot start size (apply_writes (take k (writes (bio f))) d0) = Done (tt, f') /\
    c ∈ hist /\ (forall b, home start size b -> disk_get (disk (bio f')) b = disk_get c b) /\
    ((length (writes (bio f)) <= k)%nat -> last hist = Some c).
Proof.
  intros Hg Hc Hr. destruct (run_run_inv _ _ Hg _ _ _ Hc Hr) as (_ & _ & _ & Hrec).
  destruct (Hrec k) as (f' & c & ? & ? & ? & ? & _). exists f', c. split_and!; assumption.
Qed.

(** C4: a commit makes exactly the modified contents permanent.  When the
    last outstanding operation ends with its buffers released, [end_op] returns
    and every block outside the log has on the disk the contents the operations
    left in the cache; the log is empty and all buffers are free again. *)
Theorem end_op_commits start size d0 f hist a :
  geometry start size -> describes (header_of (disk_get d0 start)) [] ->
  run start size d0 f hist -> rep (bio f) a -> allowed start size f FEnd ->
  outstanding (log f) = 1 ->
  exists f', end_op f = Done (tt, f') /\
    (forall b, home start size b -> disk_get (disk (bio f')) b = abs_view a b) /\
    n (header (log f')) = 0 /\ outstanding (log f') = 0 /\
    rep (bio f') (mkAbs ∅ (disk (bio f')) (writes (bio f'))).
Proof.
  intros Hg Hc Hr Ha [_ Hal] Ho. destruct (run_run_inv _ _ Hg _ _ _ Hc Hr) as ((a' & bns & Hi) & _).
  rewrite (rep_det _ _ _ Ha (li_rep _ _ _ _ _ Hi)).
  destruct (end_commit _ _ Hg _ _ _ Hi Ho (Hal Ho)) as (f' & ws & He & _ & Hi' & _ & Ho' & Hv & _).
  exists f'. split_and!; try done.
  - by destruct (li_describes _ _ _ _ _ Hi') as (-> & _).
  - apply (li_rep _ _ _ _ _ Hi').
Qed.

(** ** One transaction from begin to end *)

Lemma entry_held s a b e :
  rep s a -> a_bufs a !! b = Some e -> e_locked e = true -> held s (guard_of b e).
Proof.
  intros Hr He Hl. destruct (rep_entry _ _ Hr _ _ He) as (_ & ? & m & Hm & _ & Hb & _ & Hbn & Hrc).
  exists m. eexists. split_and!; try done; simpl; lia.
Qed.

Section transaction.
Context (start size : Z) (Hgeo : geometry start size) (d0 : gmap Z block).
Context (Hclean : describes (header_of (disk_get d0 start)) []).

Lemma begin_returns f a bns :
  log_inv start size f a bns -> outstanding (log f) = 0 -> bns = [] ->
  begin_op f = Done (tt, mkFs (set_outstanding 1 (log f)) (bio f)).
Proof using Type.
  intros H Ho ->. destruct (li_describes _ _ _ _ _ H) as (Hn & _).
  unfold begin_op. erewrite bind_Done by reflexivity.
  by rewrite (li_committing _ _ _ _ _ H), Ho, Hn.
Qed.

Lemma unlocked_bufs s a :
  rep s a -> (forall b e, a_bufs a !! b = Some e -> e_locked e = false) ->
  Forall (fun bf => locked bf = false) (bufs s).
Proof using Type.
  intros Hr Hu. apply Forall_lookup. intros i bf Hi.
  destruct (rep_slot_at s a i Hr) as [sl Hs].
  { rewrite <-(rep_blen _ _ Hr). by eapply lookup_lt_Some. }
  destruct (slot_at_inv _ _ _ Hs) as (m & _ & Hb & _). rewrite Hi in Hb. injection Hb as ->.
  destruct (decide (s_rc sl = 0)) as [Hz|Hz]; [by eapply so_free; [apply (rep_slots _ _ Hr)|..]|].
  destruct (so_ref _ _ (rep_slots _ _ Hr) _ _ Hs Hz) as (e & He & Hx).
  destruct (rep_entry _ _ Hr _ _ He) as (Hs' & _). rewrite Hx, Hs in Hs'. injection Hs' as ->.
  simpl. eauto.
Qed.

(** Reading a block when nothing is cached. *)
Lemma txn_read f hist a b :
  run start size d0 f hist -> log_inv start size f a [] -> a_bufs a = ∅ -> home start size b ->
  exists f' i a', let g := mkGuard i b i in
    a' = abs_set b (mkEntry i 1 true (disk_get (a_disk a) b)) a /\
    run start size d0 f' hist /\ log_inv start size f' a' [] /\ log f' = log f /\
    held (bio f') g /\ (forall b' e', a_bufs a' !! b' = Some e' -> b' = b).
Proof using Type.
  intros Hrun Hi Hemp Hb. pose proof (li_rep _ _ _ _ _ Hi) as Hr.
  assert (Hw := bread_unreferenced (bio f) a b Hr ltac:(by rewrite Hemp)
                  ltac:(rewrite Hemp; vm_compute; lia)).
  apply wp_elim in Hw as (g & s1 & Hex1 & i & -> & Hr1).
  exists (mkFs (log f) s1), i. eexists. split; [reflexivity|]. split_and!; try done.
  - rewrite <-(app_nil_r hist). eapply (run_step _ _ _ f hist (FRead b)); [done|done|].
    simpl. erewrite bind_Done; [reflexivity|]. unfold lift. by rewrite Hex1.
  - by apply (inv_set start size f).
  - simpl. eapply (entry_held s1 _ b (mkEntry i 1 true _) Hr1); [apply lookup_insert_eq|done].
  - simpl. rewrite Hemp. intros b' e' [[-> _]|[_ H]]%lookup_insert_Some; [done|].
    by rewrite lookup_empty in H.
Qed.

Lemma keeps_held s a a' s' g :
  rep s a -> held s g -> keeps a a' -> rep s' a' -> held s' g.
Proof using Type.
  intros Hr Hh Hk Hr'. destruct (held_entry _ _ _ Hr Hh) as (e & He & Hg & Hl & _).
  specialize (Hk (gblockno g)). rewrite He in Hk. simpl in Hk.
  destruct (a_bufs a' !! gblockno g) as [e'|] eqn:E; [|done]. simpl in Hk. injection Hk as Hx Hl'.
  rewrite Hl in Hl'. pose proof (entry_held _ _ _ _ Hr' E Hl') as Hh'.
  unfold guard_of in *. rewrite Hx in Hh'. by rewrite Hg.
Qed.

Lemma run_quiet f hist o f' :
  run start size d0 f hist -> allowed start size f o -> o <> FEnd ->
  fexec o f = Done (None, f') -> run start size d0 f' hist.
Proof using Type.
  intros Hr Hal Ho Hex. pose proof (run_step _ _ _ _ _ _ _ _ Hr Hal Hex) as H.
  destruct o; try (by rewrite app_nil_r in H). done.
Qed.

(** Between [begin_op] and [end_op]: read, modify, log and release one block. *)
Lemma txn_body f hist a b d :
  run start size d0 f hist -> log_inv start size f a [] -> a_bufs a = ∅ ->
  outstanding (log f) = 1 -> home start size b ->
  exists f' a' bns, run start size d0 f' hist /\ log_inv start size f' a' bns /\
    outstanding (log f') = 1 /\ Forall (fun bf => locked bf = false) (bufs (bio f')) /\
    abs_view a' b = d /\ forall b', b' <> b -> abs_view a' b' = abs_view a b'.
Proof using Hgeo.
  intros Hrun Hi Hemp Ho Hb.
  destruct (txn_read f hist a b Hrun Hi Hemp Hb) as (f1 & i & a1 & Ha1 & Hrun1 & Hi1 & Hl1 & Hh1 & Hu1).
  set (g := mkGuard i b i) in *. pose proof (li_rep _ _ _ _ _ Hi1) as Hr1.
  destruct (wp_elim _ _ _ (modify_inv _ _ f1 a1 [] g d Hi1 Hh1))
    as ([] & f2 & Hex2 & a2 & Hi2 & _ & _ & Hl2 & Hk2 & Hv2 & Hvo2).
  pose proof (keeps_held _ _ _ _ _ Hr1 Hh1 Hk2 (li_rep _ _ _ _ _ Hi2)) as Hh2.
  assert (Hrun2 : run start size d0 f2 hist).
  { apply (run_quiet f1 _ (FModify g d)); [done|done|done|]. simpl. by erewrite bind_Done. }
  destruct (wp_elim _ _ _ (write_inv _ _ Hgeo f2 a2 [] g Hi2 Hh2 ltac:(rewrite Hl2, Hl1, Ho; lia)
    ltac:(destruct Hgeo; simpl; lia)))
    as ([] & f3 & Hex3 & a3 & bns & Hi3 & Hin' & _ & _ & _ & Ho3 & Hk3 & Hv3).
  assert (Hin : gblockno g ∈ bns) by (apply Hin'; by left).
  pose proof (keeps_held _ _ _ _ _ (li_rep _ _ _ _ _ Hi2) Hh2 Hk3 (li_rep _ _ _ _ _ Hi3)) as Hh3.
  assert (Hrun3 : run start size d0 f3 hist).
  { apply (run_quiet f2 _ (FLog g)); [done|done|done|]. simpl. by erewrite bind_Done. }
  assert (Hlg : logged (log f3) (gblockno g)).
  { unfold logged. destruct (li_describes _ _ _ _ _ Hi3) as (-> & Ht & _). by rewrite Nat2Z.id, Ht. }
  destruct (wp_elim _ _ _ (release_inv _ _ f3 a3 bns g Hi3 Hh3 (or_introl Hlg)))
    as ([] & f4 & Hex4 & a4 & Hi4 & _ & _ & Hv4 & Hl4 & Hlk4 & _).
  exists f4, a4, bns. split_and!; try done.
  - apply (run_quiet f3 _ (FRelease g)); [done|by split; [|left]|done|]. simpl. by erewrite bind_Done.
  - by rewrite Hl4, Ho3, Hl2, Hl1.
  - eapply unlocked_bufs; [apply (li_rep _ _ _ _ _ Hi4)|]. intros b' e' He'.
    destruct (e_locked e') eqn:El; [|done]. destruct (Hlk4 _ _ He' El) as [Hne He3].
    specialize (Hk3 b'). rewrite He3, Hk2 in Hk3. simpl in Hk3.
    destruct (a_bufs a1 !! b') as [e1|] eqn:E1; [|done]. exfalso. apply Hne. by eapply Hu1.
  - rewrite Hv4, Hv3. exact Hv2.
  - intros b' Hb'. rewrite Hv4, Hv3, Hvo2 by done. subst a1. unfold abs_view. simpl.
    by rewrite lookup_insert_ne.
Qed.

Lemma boot_outstanding f : boot start size d0 = Done (tt, f) -> outstanding (log f) = 0.
Proof using Hgeo Hclean.
  intros Hb. destruct (boot_spec start size Hgeo d0 [] [] Hclean) as (f' & ws & Hb' & [Hl _] & _);
    [destruct Hgeo; simpl; lia|constructor|reflexivity|intros i x Hx; by rewrite lookup_nil in Hx|].
  rewrite Hb in Hb'. injection Hb' as <-. by rewrite Hl.
Qed.

Lemma txn_exists b d :
  home start size b ->
  exists f0 f1 f2 hist a bns,
    boot start size d0 = Done (tt, f0) /\ run start size d0 f1 hist /\
    log_inv start size f1 a bns /\ allowed start size f1 FEnd /\ outstanding (log f1) = 1 /\
    end_op f1 = Done (tt, f2) /\ run start size d0 f2 (hist ++ [disk (bio f2)]) /\
    disk_get (disk (bio f2)) b = d /\
    forall b', home start size b' -> b' <> b -> disk_get (disk (bio f2)) b' = disk_get d0 b'.
Proof using Hgeo Hclean.
  intros Hb. destruct (clean_boot _ _ Hgeo d0 Hclean) as (f0 & Hb0 & Hs0 & _ & _ & Hi0).
  pose proof (run_boot start size d0 f0 Hb0) as Hrun0.
  pose proof (boot_outstanding _ Hb0) as Hout.
  pose proof (begin_returns _ _ _ Hi0 Hout eq_refl) as Hbeg.
  set (f1 := mkFs (set_outstanding 1 (log f0)) (bio f0)) in *.
  destruct (begin_inv _ _ Hgeo _ _ _ _ Hi0 Hbeg) as [Hi1 _].
  assert (Hrun1 : run start size d0 f1 [disk (bio f0)]).
  { apply (run_quiet f0 _ FBegin); [assumption|constructor|discriminate|].
    simpl. by erewrite bind_Done by exact Hbeg. }
  destruct (txn_body f1 _ _ b d Hrun1 Hi1 eq_refl eq_refl Hb)
    as (f2 & a2 & bns & Hrun2 & Hi2 & Ho2 & Hq & Hv & Hvo).
  destruct (end_commit _ _ Hgeo _ _ _ Hi2 Ho2 Hq) as (f3 & ws & He & _ & _ & _ & _ & Hview & _).
  exists f0, f2, f3, [disk (bio f0)], a2, bns. split_and!; try assumption.
  - split; [lia|auto].
  - apply (run_step _ _ _ f2 _ FEnd None); [assumption|split; [lia|auto]|].
    simpl. by erewrite bind_Done by exact He.
  - by rewrite Hview.
  - intros b' Hb' Hne. rewrite Hview, Hvo by assumption. exact (Hs0 b' Hb').
Qed.

End transaction.

(** A transaction takes effect.  After a boot on a disk with an empty log,
    there is a run that begins an operation, reads any block outside the log,
    replaces its contents, logs, releases and ends; no step panics or waits;
    the disk then holds the new contents and the other blocks are as before. *)
Theorem transaction_takes_effect start size d0 b d :
  geometry start size -> describes (header_of (disk_get d0 start)) [] -> home start size b ->
  exists f hist, run start size d0 f hist /\ disk_get (disk (bio f)) b = d /\
    forall b', home start size b' -> b' <> b -> disk_get (disk (bio f)) b' = disk_get d0 b'.
Proof.
  intros Hg Hc Hb. destruct (txn_exists _ _ Hg _ Hc b d Hb)
    as (f0 & f1 & f2 & hist & a & bns & _ & _ & _ & _ & _ & _ & Hr & Hd & Ho).
  exists f2. eexists. split_and!; eassumption.
Qed.

Lemma sample_geometry : geometry 2 30.
Proof. split; unfold LOGSIZE, MAXOPBLOCKS; lia. Qed.

Lemma sample_clean : describes (header_of (disk_get ∅ 2)) [].
Proof.
  assert (E : header_of (disk_get ∅ 2) = header_new) by (vm_compute; reflexivity).
  rewrite E. split_and!; [reflexivity|reflexivity|reflexivity|]. by apply Forall_replicate.
Qed.

Lemma sample_home : home 2 30 50.
Proof. split; unfold is_u32, in_log; lia. Qed.

Lemma transaction_takes_effect_witness :
  exists f hist, run 2 30 ∅ f hist /\ disk_get (disk (bio f)) 50 = [7].
Proof.
  destruct (transaction_takes_effect 2 30 ∅ 50 [7] sample_geometry sample_clean sample_home)
    as (f & hist & Hr & Hd & _).
  by exists f, hist.
Defined.

(** The log cut after its first write in a run that commits block 50. *)
Lemma crash_recovers_committed_witness :
  exists f hist f' c, run 2 30 ∅ f hist /\ disk_get (disk (bio f)) 50 = [7] /\
    boot 2 30 (apply_writes (take 2 (writes (bio f))) ∅) = Done (tt, f') /\ c ∈ hist.
Proof.
  destruct (txn_exists 2 30 sample_geometry ∅ sample_clean 50 [7] sample_home)
    as (f0 & f1 & f2 & hist & a & bns & _ & _ & _ & _ & _ & _ & Hr & Hd & Ho).
  destruct (crash_recovers_committed 2 30 ∅ f2 _ 2 sample_geometry sample_clean Hr)
    as (f' & c & Hb & Hc & _).
  exists f2, (hist ++ [disk (bio f2)]), f', c. split_and!; assumption.
Defined.

Lemma end_op_commits_witness :
  exists f f' a, end_op f = Done (tt, f') /\
    forall b, home 2 30 b -> disk_get (disk (bio f')) b = abs_view a b.
Proof.
  destruct (txn_exists 2 30 sample_geometry ∅ sample_clean 50 [7] sample_home)
    as (f0 & f1 & f2 & hist & a & bns & _ & Hr & Hi & Hal & Ho & _).
  destruct (end_op_commits 2 30 ∅ f1 hist a sample_geometry sample_clean Hr
    (li_rep _ _ _ _ _ Hi) Hal Ho) as (f' & He & Hv & _).
  exists f1, f', a. split; assumption.
Defined.

End Log.
