(* ===== verification/Blocks.v ===== *)
(** * The interface between the log and the file system

    File-system code ([bmap.rs], [fs.rs]) runs inside a transaction and
    touches blocks only through the buffer guards of [BCACHE.bread] and through
    [LOG.write].  [BlockOps] names these calls, [BlockLaws] states what they
    promise while a transaction is open; the file-system components are proved
    against it.  The instance at the end discharges the laws with the buffer
    cache and the log, and carries the crash-safety invariant along. *)

From S2P Require Import Prelude Param Bytes Bio Log.
Import Bio Log.

Class BlockOps (S : Type) := {
  blk_read : Z -> Z -> M S BufGuard;         (* BCACHE.bread(dev, bn) *)
  blk_data : BufGuard -> M S block;          (* read through data_ptr *)
  blk_set : BufGuard -> block -> M S unit;   (* write through data_ptr_mut *)
  blk_log : BufGuard -> M S unit;            (* LOG.write(&mut buf) *)
  blk_drop : BufGuard -> M S unit            (* drop(buf) *)
}.

(** What a client may assume about an open transaction: the contents of the
    blocks, the guards it holds, the blocks it changed and has not logged yet, and
    the blocks in the log. *)
Record txn_state := mkTxn {
  t_view : Z -> block;
  t_held : gmap Z BufGuard;
  t_dirty : gset Z;
  t_logged : gset Z
}.

Definition upd (v : Z -> block) (b : Z) (d : block) : Z -> block :=
  fun x => if decide (x = b) then d else v x.

Lemma upd_eq v b d : upd v b d b = d.
Proof. unfold upd. by rewrite decide_True. Qed.
Lemma upd_ne v b d x : x <> b -> upd v b d x = v x.
Proof. intros. unfold upd. by rewrite decide_False. Qed.

Class BlockLaws (S : Type) `{!BlockOps S} := {
  in_txn : S -> txn_state -> Prop;
  usable : Z -> Prop;
  (** how many blocks the log holds *)
  capacity : nat;
  (** the view is a function of the block number up to extensionality *)
  law_view s t t' :
    in_txn s t -> (forall b, usable b -> t_view t b = t_view t' b) ->
    t_held t' = t_held t -> t_dirty t' = t_dirty t -> t_logged t' = t_logged t -> in_txn s t';
  law_read s t b :
    in_txn s t -> usable b -> t_held t !! b = None ->
    (size (t_held t) + size (t_logged t) <= capacity)%nat ->
    wp (blk_read ROOTDEV b) s (fun g s' => gblockno g = b /\
      in_txn s' (mkTxn (t_view t) (<[b := g]> (t_held t)) (t_dirty t) (t_logged t)));
  law_data s t b g :
    in_txn s t -> t_held t !! b = Some g ->
    wp (blk_data g) s (fun d s' => d = t_view t b /\ in_txn s' t);
  law_set s t b g d :
    in_txn s t -> t_held t !! b = Some g ->
    wp (blk_set g d) s (fun _ s' =>
      in_txn s' (mkTxn (upd (t_view t) b d) (t_held t) ({[b]} ∪ t_dirty t) (t_logged t)));
  law_log s t b g :
    in_txn s t -> t_held t !! b = Some g -> (size (t_logged t) < capacity)%nat ->
    wp (blk_log g) s (fun _ s' =>
      in_txn s' (mkTxn (t_view t) (t_held t) (t_dirty t ∖ {[b]}) ({[b]} ∪ t_logged t)));
  law_drop s t b g :
    in_txn s t -> t_held t !! b = Some g -> b ∉ t_dirty t ->
    wp (blk_drop g) s (fun _ s' =>
      in_txn s' (mkTxn (t_view t) (delete b (t_held t)) (t_dirty t) (t_logged t)))
}.

(** The buffers held and the blocks logged leave room for [n] more. *)
Definition room {S} `{!BlockOps S, !BlockLaws S} (n : nat) (t : txn_state) : Prop :=
  (size (t_held t) + size (t_logged t) + n <= capacity)%nat.


Lemma size_add (b : Z) (L : gset Z) : (size ({[b]} ∪ L) <= 1 + size L)%nat.
Proof. rewrite size_union_alt, size_singleton. apply Nat.add_le_mono_l, subseteq_size. set_solver. Qed.

Ltac size_bound b L :=
  lazymatch goal with
  | _ : (size ({[b]} ∪ L) <= 1 + size L)%nat |- _ => fail
  | _ => pose proof (size_add b L)
  end.
Ltac room_lia :=
  unfold room in *; cbn [t_held t_logged] in *;
  repeat match goal with
  | |- context [size ({[?b]} ∪ ?L)] => size_bound b L
  | _ : context [size ({[?b]} ∪ ?L)] |- _ => size_bound b L
  end; lia.

(** ** The buffer cache and the log implement the interface *)

#[export] Instance fsys_ops : BlockOps fsys := {
  blk_read d b := lift (bread d b);
  blk_data g := lift (data_of g);
  blk_set g d := lift (set_data g d);
  blk_log g := write g;
  blk_drop g := lift (guard_drop g)
}.

Section instance.
Context (start size : Z) (Hgeo : geometry start size) (d0 : gmap Z block).

Record fsys_txn (f : fsys) (t : txn_state) (a : cabs) (bns : list Z) hist : Prop := {
  ft_run : run start size d0 f hist;
  ft_inv : log_inv start size f a bns;
  ft_out : 0 < outstanding (log f);
  ft_view b : home start size b -> t_view t b = abs_view a b;
  ft_held b g : t_held t !! b = Some g <->
    exists e, a_bufs a !! b = Some e /\ e_locked e = true /\ g = guard_of b e;
  ft_dirty b e : a_bufs a !! b = Some e -> e_locked e = true -> b ∉ t_dirty t ->
    b ∈ bns \/ e_data e = disk_get (a_disk a) b;
  ft_logged : t_logged t = list_to_set bns
}.

Definition fsys_in_txn (f : fsys) (t : txn_state) : Prop :=
  exists a bns hist, fsys_txn f t a bns hist.

Lemma run_op f hist o r f' :
  run start size d0 f hist -> allowed start size f o -> o <> FEnd ->
  fexec o f = Done (r, f') -> run start size d0 f' hist.
Proof using Type.
  intros Hr Hal Ho Hex. pose proof (run_step _ _ _ _ _ _ _ _ Hr Hal Hex) as H.
  destruct o; try (by rewrite app_nil_r in H). done.
Qed.

Lemma ft_guard_held f t a bns hist b g :
  fsys_txn f t a bns hist -> t_held t !! b = Some g ->
  held (bio f) g /\ gblockno g = b /\
  exists e, a_bufs a !! b = Some e /\ e_locked e = true /\ g = guard_of b e.
Proof using Type.
  intros H Hg. apply (ft_held _ _ _ _ _ H) in Hg as (e & He & Hl & ->).
  split; [|by eauto]. eapply entry_held; [|done|done].
  apply (li_rep _ _ _ _ _ (ft_inv _ _ _ _ _ H)).
Qed.

Lemma ft_size f t a bns hist :
  fsys_txn f t a bns hist ->
  (base.size (t_held t) + base.size (t_logged t) <= Z.to_nat size - 1)%nat ->
  (base.size (a_bufs a) < NBUF)%nat.
Proof using Hgeo.
  intros H Hle. pose proof (ft_inv _ _ _ _ _ H) as Hi.
  assert (Hsub : dom (a_bufs a) ⊆ dom (t_held t) ∪ list_to_set bns).
  { intros b [e He]%elem_of_dom. apply elem_of_union.
    destruct (e_locked e) eqn:Hl.
    - left. apply elem_of_dom. exists (guard_of b e). apply (ft_held _ _ _ _ _ H). eauto.
    - right. apply elem_of_list_to_set. destruct (li_entry _ _ _ _ _ Hi _ _ He) as [_ Hrc].
      pose proof (inv_rc _ _ _ _ _ _ _ Hi He). rewrite Hl in Hrc. simpl in Hrc.
      case_bool_decide; [done|]. simpl in Hrc. lia. }
  apply subseteq_size in Hsub. rewrite size_dom in Hsub.
  pose proof (size_union_alt (dom (t_held t)) (list_to_set bns : gset Z)) as Hu.
  assert (Hd : (base.size (list_to_set bns ∖ dom (t_held t)) <= length bns)%nat).
  { rewrite <-(size_list_to_set (C:=gset Z) bns) by apply (li_nodup _ _ _ _ _ Hi).
    apply subseteq_size. set_solver. }
  rewrite size_dom in Hu. rewrite (ft_logged _ _ _ _ _ H) in Hle.
  rewrite size_list_to_set in Hle by apply (li_nodup _ _ _ _ _ Hi). destruct Hgeo as [_ Hs _].
  change LOGSIZE with NBUF in Hs. lia.
Qed.

(** Replacing the entry of one block changes the transaction at that block only. *)
Lemma ft_set f f' t a bns hist b e h' dirty' v' :
  fsys_txn f t a bns hist -> run start size d0 f' hist -> log f' = log f ->
  rep (bio f') (abs_set b e a) -> home start size b ->
  e_rc e = b2z (e_locked e) + b2z (bool_decide (b ∈ bns)) -> e_locked e = true ->
  h' = <[b := guard_of b e]> (t_held t) ->
  (forall x, x <> b -> x ∉ dirty' -> x ∉ t_dirty t) ->
  (b ∉ dirty' -> b ∈ bns \/ e_data e = disk_get (a_disk a) b) ->
  v' b = e_data e -> (forall x, home start size x -> x <> b -> v' x = t_view t x) ->
  fsys_in_txn f' (mkTxn v' h' dirty' (t_logged t)).
Proof using Type.
  intros H Hrun Hlog Hr Hb Hrc Hl -> Hd Hdb Hvb Hvo. exists (abs_set b e a), bns, hist.
  destruct H. split; simpl; try done.
  - by eapply inv_set.
  - by rewrite Hlog.
  - intros x Hx. unfold abs_view. simpl. destruct (decide (x = b)) as [->|Hne].
    + by rewrite lookup_insert_eq.
    + rewrite lookup_insert_ne by done. rewrite Hvo by done. by rewrite ft_view0.
  - intros x g. destruct (decide (x = b)) as [->|Hne].
    + rewrite !lookup_insert_eq. naive_solver.
    + rewrite !lookup_insert_ne by done. apply ft_held0.
  - intros x e' Hx Hl' Hnd. destruct (decide (x = b)) as [->|Hne].
    + rewrite lookup_insert_eq in Hx. injection Hx as <-. auto.
    + rewrite lookup_insert_ne in Hx by done. eapply ft_dirty0; eauto.
Qed.

Lemma fsys_read f t b :
  fsys_in_txn f t -> home start size b -> t_held t !! b = None ->
  (base.size (t_held t) + base.size (t_logged t) <= Z.to_nat size - 1)%nat ->
  wp (lift (bread ROOTDEV b)) f (fun g f' => gblockno g = b /\
    fsys_in_txn f' (mkTxn (t_view t) (<[b := g]> (t_held t)) (t_dirty t) (t_logged t))).
Proof using Hgeo.
  intros (a & bns & hist & H) Hb Hn Hsz. pose proof (ft_inv _ _ _ _ _ H) as Hi.
  pose proof (li_rep _ _ _ _ _ Hi) as Hr.
  assert (Hrun : forall g f', lift (bread ROOTDEV b) f = Done (g, f') -> run start size d0 f' hist).
  { intros g f' Hex. eapply (run_op f hist (FRead b) (Some g)); [apply (ft_run _ _ _ _ _ H)|done|done|].
    simpl. by erewrite bind_Done. }
  destruct (a_bufs a !! b) as [e|] eqn:He.
  - assert (Hl : e_locked e = false).
    { destruct (e_locked e) eqn:E; [|done]. exfalso.
      assert (t_held t !! b = Some (guard_of b e)) as Hc by (apply (ft_held _ _ _ _ _ H); eauto).
      congruence. }
    pose proof (inv_rc _ _ _ _ _ _ _ Hi He) as Hrc.
    destruct (wp_elim _ _ _ (bread_referenced _ _ _ _ Hr He Hl ltac:(lia))) as (g & s' & Hs & -> & Hr').
    eapply wp_Done; [unfold lift; by rewrite Hs|]. split; [done|].
    eapply ft_set; try done; simpl.
    + eapply Hrun. unfold lift. by rewrite Hs.
    + destruct (li_entry _ _ _ _ _ Hi _ _ He) as [_ ->]. rewrite Hl. simpl. lia.
    + intros _. left. destruct (li_entry _ _ _ _ _ Hi _ _ He) as [_ Hrc'].
      rewrite Hl in Hrc'. simpl in Hrc'. case_bool_decide; [done|]. simpl in Hrc'. lia.
    + rewrite (ft_view _ _ _ _ _ H) by done. unfold abs_view. by rewrite He.
  - destruct (wp_elim _ _ _ (bread_unreferenced _ _ _ Hr He (ft_size _ _ _ _ _ H Hsz)))
      as (g & s' & Hs & i & -> & Hr').
    eapply wp_Done; [unfold lift; by rewrite Hs|]. split; [done|].
    eapply ft_set; try done; simpl.
    + eapply Hrun. unfold lift. by rewrite Hs.
    + rewrite bool_decide_eq_false_2; [done|]. intros Hin.
      destruct (li_pinned _ _ _ _ _ Hi _ Hin). congruence.
    + auto.
    + rewrite (ft_view _ _ _ _ _ H) by done. unfold abs_view. by rewrite He.
Qed.

Lemma fsys_set f t b g d :
  fsys_in_txn f t -> t_held t !! b = Some g ->
  wp (lift (set_data g d)) f (fun _ f' =>
    fsys_in_txn f' (mkTxn (upd (t_view t) b d) (t_held t) ({[b]} ∪ t_dirty t) (t_logged t))).
Proof using Hgeo.
  intros (a & bns & hist & H) Hg. destruct (ft_guard_held _ _ _ _ _ _ _ H Hg) as (Hh & Hbn & e & He & Hl & ->).
  pose proof (ft_inv _ _ _ _ _ H) as Hi. pose proof (li_rep _ _ _ _ _ Hi) as Hr.
  destruct (wp_elim _ _ _ (set_data_spec _ _ _ _ Hr He d)) as ([] & s' & Hs & Hr').
  assert (Hex : lift (set_data (guard_of b e) d) f = Done (tt, mkFs (log f) s'))
    by (unfold lift, guard_of; by rewrite Hs).
  destruct (li_entry _ _ _ _ _ Hi _ _ He) as [Hhome Hrc].
  eapply wp_Done; [done|]. eapply ft_set; try done; simpl.
  - eapply (run_op f hist (FModify (guard_of b e) d) None); [apply (ft_run _ _ _ _ _ H)|done|done|].
    simpl. by erewrite bind_Done.
  - symmetry. apply insert_id. rewrite Hg. by destruct e.
  - set_solver.
  - set_solver.
  - apply upd_eq.
  - intros x _ Hne. by apply upd_ne.
Qed.

Lemma fsys_data f t b g :
  fsys_in_txn f t -> t_held t !! b = Some g ->
  wp (lift (data_of g)) f (fun d f' => d = t_view t b /\ fsys_in_txn f' t).
Proof using Type.
  intros (a & bns & hist & H) Hg. destruct (ft_guard_held _ _ _ _ _ _ _ H Hg) as (_ & _ & e & He & _ & ->).
  pose proof (ft_inv _ _ _ _ _ H) as Hi.
  eapply wp_data_of; [by eapply inv_frep|done|done|]. split; [|by exists a, bns, hist].
  destruct (li_entry _ _ _ _ _ Hi _ _ He) as [Hhome _].
  rewrite (ft_view _ _ _ _ _ H) by done. unfold abs_view. by rewrite He.
Qed.

Lemma fsys_log f t b g :
  fsys_in_txn f t -> t_held t !! b = Some g ->
  (base.size (t_logged t) < Z.to_nat size - 1)%nat ->
  wp (write g) f (fun _ f' =>
    fsys_in_txn f' (mkTxn (t_view t) (t_held t) (t_dirty t ∖ {[b]}) ({[b]} ∪ t_logged t))).
Proof using Hgeo.
  intros (a & bns & hist & H) Hg Hroom.
  destruct (ft_guard_held _ _ _ _ _ _ _ H Hg) as (Hh & Hbn & e & He & Hl & Hge).
  pose proof (ft_inv _ _ _ _ _ H) as Hi. pose proof (ft_logged _ _ _ _ _ H) as Hlg.
  rewrite Hlg, size_list_to_set in Hroom by apply (li_nodup _ _ _ _ _ Hi).
  destruct (wp_elim _ _ _ (write_inv _ _ Hgeo f a bns g Hi Hh (ft_out _ _ _ _ _ H) ltac:(lia)))
    as ([] & f' & Hex & a' & bns' & Hi' & Hin & Hlen & Hd & Hw & Ho & Hk & Hv).
  eapply wp_Done; [done|]. exists a', bns', hist.
  split; simpl; try done.
  - eapply (run_op f hist (FLog g) None); [apply (ft_run _ _ _ _ _ H)|done|done|].
    simpl. by erewrite bind_Done.
  - rewrite Ho. apply (ft_out _ _ _ _ _ H).
  - intros x Hx. by rewrite Hv, (ft_view _ _ _ _ _ H).
  - intros x g'. rewrite (ft_held _ _ _ _ _ H). specialize (Hk x).
    destruct (a_bufs a !! x) as [e1|], (a_bufs a' !! x) as [e2|]; simpl in Hk; try done.
    injection Hk as Hx1 Hx2. unfold guard_of.
    split; intros (y & [= <-] & Hy & ->); eexists; (split; [done|]);
      split; congruence.
  - intros x e' Hx Hl' Hnd. destruct (decide (x = b)) as [->|Hne]; [left; apply Hin; by left|].
    pose proof (Hk x) as Hkx. rewrite Hx in Hkx. simpl in Hkx.
    destruct (a_bufs a !! x) as [e0|] eqn:E0; [|done]. simpl in Hkx. injection Hkx as _ Hl0.
    destruct (ft_dirty _ _ _ _ _ H x e0 E0) as [Hb|Hdata];
      [congruence|set_solver|left; apply Hin; by right|].
    right. rewrite Hd, <-Hdata. specialize (Hv x). unfold abs_view in Hv. rewrite Hx, E0 in Hv. done.
  - rewrite Hlg. apply set_eq. intros x. rewrite elem_of_list_to_set, Hin, Hbn. set_solver.
Qed.

Lemma fsys_drop f t b g :
  fsys_in_txn f t -> t_held t !! b = Some g -> b ∉ t_dirty t ->
  wp (lift (guard_drop g)) f (fun _ f' =>
    fsys_in_txn f' (mkTxn (t_view t) (delete b (t_held t)) (t_dirty t) (t_logged t))).
Proof using Type.
  intros (a & bns & hist & H) Hg Hnd.
  destruct (ft_guard_held _ _ _ _ _ _ _ H Hg) as (Hh & Hbn & e & He & Hl & Hge).
  pose proof (ft_inv _ _ _ _ _ H) as Hi.
  destruct (held_entry _ _ _ (li_rep _ _ _ _ _ Hi) Hh) as (e' & He' & _ & _ & Hbf).
  rewrite Hbn, He in He'. injection He' as <-.
  assert (Hok : logged (log f) (gblockno g) \/ unmodified (bio f) g).
  { destruct (ft_dirty _ _ _ _ _ H b e He Hl Hnd) as [Hb|Hdata].
    - left. unfold logged. destruct (li_describes _ _ _ _ _ Hi) as (-> & Ht & _).
      by rewrite Nat2Z.id, Ht, Hbn.
    - right. eexists. split; [exact Hbf|]. simpl.
      by rewrite (rep_disk _ _ (li_rep _ _ _ _ _ Hi)), Hbn. }
  destruct (wp_elim _ _ _ (release_inv _ _ f a bns g Hi Hh Hok))
    as ([] & f' & Hex & a' & Hi' & Hd & Hw & Hv & Hlg & Hlk & Hother).
  eapply wp_Done; [done|]. exists a', bns, hist. split; simpl; try done.
  - eapply (run_op f hist (FRelease g) None); [apply (ft_run _ _ _ _ _ H)|done|done|].
    simpl. by erewrite bind_Done.
  - rewrite Hlg. apply (ft_out _ _ _ _ _ H).
  - intros x Hx. by rewrite Hv, (ft_view _ _ _ _ _ H).
  - intros x g'. rewrite lookup_delete_Some, (ft_held _ _ _ _ _ H). split.
    + intros [Hne (y & Hy & Hly & ->)]. exists y. rewrite Hother; [done|congruence].
    + intros (y & Hy & Hly & ->). destruct (Hlk _ _ Hy Hly). split; [congruence|eauto].
  - intros x y Hy Hly Hnx. destruct (Hlk _ _ Hy Hly) as [_ Hy0]. rewrite Hd.
    by eapply (ft_dirty _ _ _ _ _ H).
  - apply (ft_logged _ _ _ _ _ H).
Qed.

Lemma fsys_view f t t' :
  fsys_in_txn f t -> (forall b, home start size b -> t_view t b = t_view t' b) ->
  t_held t' = t_held t -> t_dirty t' = t_dirty t -> t_logged t' = t_logged t -> fsys_in_txn f t'.
Proof using Type.
  intros (a & bns & hist & []) Hv Hh Hd Hr. exists a, bns, hist.
  split; rewrite ?Hh, ?Hd, ?Hr; try done. intros b Hb. rewrite <-Hv; auto.
Qed.

Definition fsys_laws : BlockLaws fsys := {|
  in_txn := fsys_in_txn;
  usable := home start size;
  capacity := Z.to_nat size - 1;
  law_view := fsys_view;
  law_read := fsys_read;
  law_data := fsys_data;
  law_set := fsys_set;
  law_log := fsys_log;
  law_drop := fsys_drop
|}.

(** [begin_op] after a boot opens a transaction on the contents of the disk. *)
Lemma txn_begin :
  describes (header_of (disk_get d0 start)) [] ->
  exists f0 f, boot start size d0 = Done (tt, f0) /\ begin_op f0 = Done (tt, f) /\
    outstanding (log f) = 1 /\
    fsys_in_txn f (mkTxn (disk_get d0) ∅ ∅ ∅).
Proof using Hgeo.
  intros Hc. destruct (clean_boot _ _ Hgeo d0 Hc) as (f0 & Hb0 & Hs0 & _ & _ & Hi0).
  assert (Hout : outstanding (log f0) = 0) by by eapply boot_outstanding.
  pose proof (begin_returns _ _ _ _ _ Hi0 Hout eq_refl) as Hbeg.
  destruct (begin_inv _ _ Hgeo _ _ _ _ Hi0 Hbeg) as [Hi1 _].
  eexists f0, _. split_and!; [exact Hb0|exact Hbeg|reflexivity|].
  exists (mkAbs ∅ (disk (bio f0)) (writes (bio f0))), [], [disk (bio f0)]. split; simpl.
  - eapply (run_op f0 _ FBegin None); [by apply run_boot|constructor|discriminate|].
    simpl. by erewrite bind_Done by exact Hbeg.
  - exact Hi1.
  - lia.
  - intros b Hb. unfold abs_view. simpl. rewrite lookup_empty. symmetry. by apply Hs0.
  - intros b g. rewrite lookup_empty. split; [done|]. intros (e & He & _).
    by rewrite lookup_empty in He.
  - intros b e He. by rewrite lookup_empty in He.
  - done.
Qed.

(** What a transaction leaves on the disk.  When file-system code that used
    blocks only through the interface has released its buffers and its [end_op]
    is the last one, [end_op] returns and every block outside the log has on
    the disk the contents of the transaction's view. *)
Theorem txn_end f t :
  fsys_in_txn f t -> t_held t = ∅ -> outstanding (log f) = 1 ->
  exists f', end_op f = Done (tt, f') /\ outstanding (log f') = 0 /\
    forall b, home start size b -> disk_get (disk (bio f')) b = t_view t b.
Proof using Hgeo.
  intros (a & bns & hist & H) Hh Ho. pose proof (ft_inv _ _ _ _ _ H) as Hi.
  assert (Hq : Forall (fun bf => locked bf = false) (bufs (bio f))).
  { eapply unlocked_bufs; [apply (li_rep _ _ _ _ _ Hi)|]. intros b e He.
    destruct (e_locked e) eqn:E; [|done]. exfalso.
    assert (t_held t !! b = Some (guard_of b e)) as Hx by (apply (ft_held _ _ _ _ _ H); eauto).
    by rewrite Hh, lookup_empty in Hx. }
  destruct (end_commit _ _ Hgeo _ _ _ Hi Ho Hq) as (f' & ws & He & _ & _ & _ & Ho' & Hv & _).
  exists f'. split_and!; [assumption|assumption|]. intros b Hb.
  rewrite Hv by assumption. symmetry. by apply (ft_view _ _ _ _ _ H).
Qed.

(** ** Operations that fill the log *)

(** A change of one block, as [bmap.rs] and [fs.rs] make it. *)
Definition touch (w : Z * block) : M fsys unit :=
  let! g := blk_read ROOTDEV w.1 in blk_set g w.2 ;; blk_log g ;; blk_drop g.

(** [begin_op] admits an operation beside at most two others while the log is empty. *)
Lemma fsys_begin f t :
  fsys_in_txn f t -> t_logged t = ∅ -> outstanding (log f) <= 2 ->
  begin_op f = Done (tt, mkFs (set_outstanding (outstanding (log f) + 1) (log f)) (bio f)) /\
  fsys_in_txn (mkFs (set_outstanding (outstanding (log f) + 1) (log f)) (bio f)) t.
Proof using Hgeo.
  intros (a & bns & hist & H) He Ho. pose proof (ft_inv _ _ _ _ _ H) as Hi. pose proof (ft_out _ _ _ _ _ H) as Hpos.
  assert (bns = []) as ->.
  { rewrite (ft_logged _ _ _ _ _ H) in He. destruct bns as [|b l]; [done|]. exfalso. apply (not_elem_of_empty (C := gset Z) b).
    rewrite <-He. cbn. set_solver. }
  destruct (li_describes _ _ _ _ _ Hi) as (Hn & _). cbn in Hn.
  assert (Hb : begin_op f = Done (tt, mkFs (set_outstanding (outstanding (log f) + 1) (log f)) (bio f))).
  { unfold begin_op. erewrite bind_Done by reflexivity. rewrite (li_committing _ _ _ _ _ Hi), Hn.
    rewrite (usize_add_small (outstanding _)), usize_mul_small, usize_add_small by (unfold MAXOPBLOCKS; lia).
    rewrite (proj2 (Z.ltb_ge _ _)); [done|]. unfold LOGSIZE, MAXOPBLOCKS. lia. }
  split; [done|]. destruct (begin_inv _ _ Hgeo _ _ _ _ Hi Hb) as [Hi' _].
  exists a, [], hist. destruct H. split; try done; [|cbn; lia].
  eapply (run_op f _ FBegin None); [done|done|discriminate|]. simpl. by erewrite bind_Done by exact Hb.
Qed.

Lemma wp_touch f t b d (Q : unit -> fsys -> Prop) :
  fsys_in_txn f t -> t_held t = ∅ -> t_dirty t = ∅ -> home start size b ->
  (base.size (t_logged t) < Z.to_nat size - 1)%nat ->
  (forall f' t', fsys_in_txn f' t' -> t_held t' = ∅ -> t_dirty t' = ∅ -> t_logged t' = {[b]} ∪ t_logged t -> Q tt f') ->
  wp (touch (b, d)) f Q.
Proof using Hgeo.
  intros Ht Hh Hd Hb Hs HQ. unfold touch. cbn [fst snd].
  eapply wp_bind, wp_mono; [apply fsys_read; [exact Ht|done|by rewrite Hh, lookup_empty|rewrite Hh, map_size_empty; lia]|].
  intros g f1 [_ H1]. eapply wp_bind, wp_mono; [eapply fsys_set; [exact H1|apply lookup_insert_eq]|].
  intros [] f2 H2. eapply wp_bind, wp_mono; [eapply fsys_log; [exact H2|apply lookup_insert_eq|done]|].
  intros [] f3 H3. eapply wp_mono; [eapply fsys_drop; [exact H3|apply lookup_insert_eq|cbn; set_solver]|].
  intros [] f4 H4. eapply HQ; [exact H4|cbn|cbn|done].
  - by rewrite Hh, delete_insert_id by apply lookup_empty.
  - rewrite Hd. set_solver.
Qed.

Lemma wp_touches ws : forall f t,
  fsys_in_txn f t -> t_held t = ∅ -> t_dirty t = ∅ -> Forall (home start size) ws.*1 -> NoDup ws.*1 ->
  (forall b, b ∈ ws.*1 -> b ∉ t_logged t) -> (base.size (t_logged t) + length ws <= Z.to_nat size - 1)%nat ->
  wp (mfor ws touch) f (fun _ f' => exists t', fsys_in_txn f' t' /\ t_held t' = ∅ /\ t_dirty t' = ∅ /\
    base.size (t_logged t') = (base.size (t_logged t) + length ws)%nat).
Proof using Hgeo.
  induction ws as [|[b d] ws IH]; intros f t Ht Hh Hd Hf Hn Hl Hs.
  { apply wp_ret. exists t. by rewrite Nat.add_0_r. }
  rewrite fmap_cons in Hf, Hn, Hl. cbn [fst length mfor] in *. apply Forall_cons in Hf as [Hb Hf]. apply NoDup_cons in Hn as [Hb' Hn].
  apply wp_bind. apply (wp_touch f t); [done|done|done|done|lia|]. intros f1 t1 H1 Hh1 Hd1 Hl1.
  assert (Es : base.size (t_logged t1) = S (base.size (t_logged t)))
    by (rewrite Hl1, size_union, size_singleton; [done|]; specialize (Hl b ltac:(left)); set_solver).
  eapply wp_mono; [apply (IH f1 t1); try done|].
  - intros x Hx. rewrite Hl1. specialize (Hl x ltac:(by right)). set_solver.
  - lia.
  - intros _ f2 (t2 & H2 & Hh2 & Hd2 & E2). exists t2. split_and!; [done|done|done|lia].
Qed.

(** With all blocks but the header's in use, [write] refuses every block. *)
Lemma touch_full f t b d :
  fsys_in_txn f t -> t_held t = ∅ -> home start size b -> base.size (t_logged t) = (Z.to_nat size - 1)%nat ->
  touch (b, d) f = Panic "log_write: too big a transaction".
Proof using Hgeo.
  intros Ht Hh Hb Hs. unfold touch. cbn [fst snd].
  destruct (wp_elim _ _ _ (fsys_read f t b Ht Hb ltac:(by rewrite Hh, lookup_empty) ltac:(rewrite Hh, map_size_empty; lia)))
    as (g & f1 & E1 & _ & H1).
  destruct (wp_elim _ _ _ (fsys_set f1 _ b g d H1 (lookup_insert_eq _ _ _))) as ([] & f2 & E2 & H2).
  erewrite bind_Done by exact E1. erewrite bind_Done by exact E2.
  destruct H2 as (a & bns & hist & H2). pose proof (ft_inv _ _ _ _ _ H2) as Hi. pose proof (ft_logged _ _ _ _ _ H2) as Hl.
  cbn in Hl. rewrite Hl, size_list_to_set in Hs by apply (li_nodup _ _ _ _ _ Hi).
  destruct (li_describes _ _ _ _ _ Hi) as (Hn & _). destruct Hgeo as [_ Hsz _]. change (Z.of_nat LOGSIZE) with 30 in Hsz.
  assert (E : write g f2 = Panic "log_write: too big a transaction").
  { unfold write. erewrite bind_Done by reflexivity. rewrite Hn, Hs, (li_size _ _ _ _ _ Hi).
    rewrite (proj2 (orb_true_iff _ _)); [done|]. right. apply Z.leb_le. rewrite u32_sub_small; lia. }
  unfold bind. cbn [blk_log fsys_ops]. by rewrite E.
Qed.

(** C40: the space that [begin_op] reserves is more than the log holds.  After a boot on
    a disk with an empty log, three operations of up to [MAXOPBLOCKS] = 10 blocks each are
    admitted together, and they can change, log and release as many distinct blocks as
    the log has room for, one less than its [size] <= 30 blocks.  The next block one of them
    logs, within its ten, makes [write] panic, even when that block is already in the log; with the log of
    30 blocks that [mkfs] lays out this is the thirtieth of the 30 admitted. *)
Theorem reserved_space_overruns_log ws b d :
  describes (header_of (disk_get d0 start)) [] -> Forall (home start size) ws.*1 -> NoDup ws.*1 -> home start size b ->
  Z.of_nat (length ws) = size - 1 ->
  (length (ws ++ [(b, d)]) <= 3 * MAXOPBLOCKS)%nat /\
  exists f0 f3, boot start size d0 = Done (tt, f0) /\
    (begin_op ;; begin_op ;; begin_op) f0 = Done (tt, f3) /\ outstanding (log f3) = 3 /\
    (exists f, mfor ws touch f3 = Done (tt, f)) /\
    mfor (ws ++ [(b, d)]) touch f3 = Panic "log_write: too big a transaction".
Proof using Hgeo.
  intros Hc Hf Hn Hb Hlen. assert (Hsz : size <= 30) by (destruct Hgeo as [_ H _]; change (Z.of_nat LOGSIZE) with 30 in H; lia).
  split; [rewrite length_app; unfold MAXOPBLOCKS; cbn; lia|].
  destruct (txn_begin Hc) as (f0 & f1 & Hb0 & E1 & O1 & H1).
  destruct (fsys_begin f1 _ H1 eq_refl ltac:(lia)) as [E2 H2]. set (f2 := mkFs _ _) in E2, H2.
  destruct (fsys_begin f2 _ H2 eq_refl ltac:(cbn; lia)) as [E3 H3]. set (f3 := mkFs _ _) in E3, H3.
  destruct (wp_elim _ _ _ (wp_touches ws f3 _ H3 eq_refl eq_refl Hf Hn ltac:(set_solver) ltac:(cbn [t_logged]; rewrite size_empty; lia)))
    as ([] & f4 & E4 & t4 & H4 & Hh4 & _ & Hs4).
  exists f0, f3. split_and!; [done| |cbn; lia|by exists f4|].
  - erewrite bind_Done by exact E1. by erewrite bind_Done by exact E2.
  - rewrite (mfor_app_Done _ _ _ _ _ E4). cbn [mfor]. unfold bind.
    rewrite (touch_full f4 t4); [done|done|done|done|]. rewrite Hs4. cbn [t_logged]. rewrite size_empty. lia.
Qed.

End instance.

Lemma txn_end_witness :
  exists f f', end_op f = Done (tt, f') /\ outstanding (log f') = 0.
Proof.
  destruct (txn_begin 2 30 sample_geometry ∅ sample_clean) as (f0 & f & _ & _ & Ho & Ht).
  destruct (txn_end 2 30 sample_geometry ∅ f _ Ht eq_refl Ho) as (f' & He & Ho' & _).
  by exists f, f'.
Defined.

Lemma reserved_space_overruns_log_witness :
  exists f3, outstanding (log f3) = 3 /\
    mfor ((fun k => (50 + Z.of_nat k, [7])) <$> seq 0 30) touch f3 = Panic "log_write: too big a transaction".
Proof.
  destruct (reserved_space_overruns_log 2 30 sample_geometry ∅ ((fun k => (50 + Z.of_nat k, [7])) <$> seq 0 29) 79 [7])
    as (_ & f0 & f3 & _ & _ & Ho & _ & Hp).
  - exact sample_clean.
  - apply Forall_fmap, Forall_fmap, Forall_forall. intros k Hk%elem_of_seq. split; unfold is_u32, in_log; cbn; lia.
  - rewrite <-list_fmap_compose. apply NoDup_fmap_2; [|apply NoDup_seq]. intros x y E. cbn in E. lia.
  - split; unfold is_u32, in_log; lia.
  - reflexivity.
  - exists f3. split; [exact Ho|exact Hp].
Defined.
