(* ===== verification/Bmap.v ===== *)
(** * The free-block bitmap

    Models [kernel/src/superblock.rs] (the layout record) and
    [kernel/src/bmap.rs]: [alloc] finds the first zero bit, sets it and zeroes the
    block, [free] clears the bit.  The operations are written against the
    transaction interface of [Blocks.v]; the theorems relate them to the set of
    used blocks that the bitmap encodes. *)

From S2P Require Import Prelude Param Bytes Bio Log Blocks.

Module Bmap.

(** ** The super block *)

Definition FSMAGIC : Z := 0x10203040.

Record SuperBlock := mkSb {
  magic : Z;
  sb_size : Z;
  nblocks : Z;
  ninodes : Z;
  nlog : Z;
  logstart : Z;
  inodestart : Z;
  bmapstart : Z
}.

Definition super_bytes (sb : SuperBlock) : list Z :=
  words_bytes [magic sb; sb_size sb; nblocks sb; ninodes sb; nlog sb; logstart sb;
               inodestart sb; bmapstart sb].

(** The [copy_nonoverlapping] of [read_super_block]. *)
Definition super_of (d : block) : option SuperBlock :=
  match bytes_words 8 d with
  | [a; b; c; d; e; f; g; h] => Some (mkSb a b c d e f g h)
  | _ => None
  end.

(** ** Bits of a bitmap block *)

Definition byte_at (d : list Z) (i : Z) : Z := d !!! Z.to_nat i.
(** [buf_data[index] & (1 << bit) != 0] *)
Definition bit_set (d : list Z) (o : Z) : bool :=
  negb (Z.land (byte_at d (o / 8)) (Z.shiftl 1 (o `mod` 8)) =? 0).
(** [buf_data[index] |= 1 << bit] *)
Definition mark (d : list Z) (o : Z) : list Z :=
  <[Z.to_nat (o / 8) := Z.lor (byte_at d (o / 8)) (Z.shiftl 1 (o `mod` 8))]> d.
(** [buf_data[index] &= !(1 << bit)], on [u8] *)
Definition unmark (d : list Z) (o : Z) : list Z :=
  <[Z.to_nat (o / 8) := Z.land (byte_at d (o / 8)) (255 - Z.shiftl 1 (o `mod` 8))]> d.

Section ops.
Context {S : Type} `{!BlockOps S} (sb : SuperBlock).

Definition read_super_block (dev : Z) : M S SuperBlock :=
  let! g := blk_read dev 1 in
  let! d := blk_data g in
  let! sb := unwrap (super_of d) "unreachable" in
  assert (magic sb =? FSMAGIC) "invalid file system" ;;
  blk_drop g ;;
  ret sb.

Definition bmap_block (bn : Z) : Z := u32_add (bn / BPB) (bmapstart sb).

Definition bzero (dev blockno : Z) : M S unit :=
  let! g := blk_read dev blockno in
  blk_set g zero_block ;;
  blk_log g ;;
  blk_drop g.

(** The inner loop of [alloc]: the first offset whose bit is clear, stopping
    at the end of the disk. *)
Fixpoint scan (size base : Z) (d : block) (offsets : list Z) : option Z :=
  match offsets with
  | [] => None
  | o :: offsets =>
      if size <=? base + o then None
      else if bit_set d o then scan size base d offsets
      else Some o
  end.

Fixpoint alloc_from (dev : Z) (bases : list Z) : M S Z :=
  match bases with
  | [] => panic "balloc: out of blocks"
  | base :: bases =>
      let! g := blk_read dev (bmap_block (wrap 32 base)) in
      let! d := blk_data g in
      match scan (sb_size sb) base d (seqZ 0 BPB) with
      | Some o =>
          blk_set g (mark d o) ;;
          assert (base + o <? 2 ^ 32) "TryFromIntError" ;;
          blk_log g ;;
          blk_drop g ;;
          bzero dev (base + o) ;;
          ret (base + o)
      | None =>
          blk_drop g ;;
          alloc_from dev bases
      end
  end.

Definition alloc (dev : Z) : M S Z := alloc_from dev (step_by 0 (sb_size sb) BPB).

Definition free (dev bn : Z) : M S unit :=
  let! g := blk_read dev (bmap_block bn) in
  let bi := bn `mod` BPB in
  let! d := blk_data g in
  if negb (bit_set d bi) then panic "bmap: freeing free block"
  else
    blk_set g (unmark d bi) ;;
    blk_log g ;;
    blk_drop g.

End ops.

(** ** Bit arithmetic *)

Lemma land_bit x k : 0 <= k -> negb (Z.land x (Z.shiftl 1 k) =? 0) = Z.testbit x k.
Proof.
  intros Hk. rewrite Z.shiftl_1_l. destruct (Z.testbit x k) eqn:E.
  - apply negb_true_iff, Z.eqb_neq. intros H. apply (f_equal (fun z => Z.testbit z k)) in H.
    rewrite Z.land_spec, E, Z.pow2_bits_true, Z.bits_0 in H by done. done.
  - apply negb_false_iff, Z.eqb_eq. apply Z.bits_inj_0. intros j.
    rewrite Z.land_spec. destruct (decide (j = k)) as [->|Hne]; [by rewrite E|].
    rewrite Z.pow2_bits_false by done. by rewrite andb_false_r.
Qed.

(** A bit position is its byte and its bit in the byte. *)
Lemma bit_pos_inj o o' : o / 8 = o' / 8 -> o `mod` 8 = o' `mod` 8 -> o = o'.
Proof. intros H1 H2. rewrite (Z.div_mod o 8), (Z.div_mod o' 8) by lia. congruence. Qed.

Lemma bit_set_testbit d o : bit_set d o = Z.testbit (byte_at d (o / 8)) (o `mod` 8).
Proof. apply land_bit. apply Z.mod_pos_bound. lia. Qed.

Lemma testbit_not_bit k j : 0 <= k < 8 -> 0 <= j < 8 ->
  Z.testbit (255 - Z.shiftl 1 k) j = negb (bool_decide (j = k)).
Proof.
  intros Hk Hj.
  assert (k = 0 \/ k = 1 \/ k = 2 \/ k = 3 \/ k = 4 \/ k = 5 \/ k = 6 \/ k = 7) as Ek by lia.
  assert (j = 0 \/ j = 1 \/ j = 2 \/ j = 3 \/ j = 4 \/ j = 5 \/ j = 6 \/ j = 7) as Ej by lia.
  repeat destruct Ek as [->|Ek]; try subst k; repeat destruct Ej as [->|Ej]; try subst j; reflexivity.
Qed.

Section bits.
Context (d : list Z) (Hd : length d = Z.to_nat BSIZE).

Lemma offset_byte o : 0 <= o < BPB -> (Z.to_nat (o / 8) < length d)%nat.
Proof using Hd.
  intros Ho. rewrite Hd. unfold BPB, BSIZE in *.
  assert (0 <= o / 8 < 4096); [|lia]. split; [apply Z.div_pos; lia|]. apply Z.div_lt_upper_bound; lia.
Qed.

Lemma bit_set_insert o o' x :
  0 <= o < BPB -> 0 <= o' < BPB ->
  bit_set (<[Z.to_nat (o / 8) := x]> d) o' =
  if decide (o' / 8 = o / 8) then negb (Z.land x (Z.shiftl 1 (o' `mod` 8)) =? 0) else bit_set d o'.
Proof using Hd.
  intros Ho Ho'. unfold bit_set, byte_at. case_decide as E.
  - rewrite E, list_lookup_total_insert_eq by by apply offset_byte. done.
  - rewrite list_lookup_total_insert_ne; [done|].
    pose proof (Z.div_pos o 8). pose proof (Z.div_pos o' 8). lia.
Qed.

Lemma bit_set_mark o o' :
  0 <= o < BPB -> 0 <= o' < BPB ->
  bit_set (mark d o) o' = if decide (o' = o) then true else bit_set d o'.
Proof using Hd.
  intros Ho Ho'. unfold mark. rewrite bit_set_insert by done.
  pose proof (Z.mod_pos_bound o 8 eq_refl). pose proof (Z.mod_pos_bound o' 8 eq_refl).
  destruct (decide (o' / 8 = o / 8)) as [E|E].
  - rewrite land_bit, Z.lor_spec, Z.shiftl_1_l by lia. case_decide as E'.
    + subst. rewrite Z.pow2_bits_true by lia. apply orb_true_r.
    + rewrite Z.pow2_bits_false, orb_false_r by (intros ?; apply E'; by apply bit_pos_inj).
      by rewrite bit_set_testbit, E.
  - rewrite decide_False; [done|]. by intros ->.
Qed.

Lemma bit_set_unmark o o' :
  0 <= o < BPB -> 0 <= o' < BPB ->
  bit_set (unmark d o) o' = if decide (o' = o) then false else bit_set d o'.
Proof using Hd.
  intros Ho Ho'. unfold unmark. rewrite bit_set_insert by done.
  pose proof (Z.mod_pos_bound o 8 eq_refl). pose proof (Z.mod_pos_bound o' 8 eq_refl).
  destruct (decide (o' / 8 = o / 8)) as [E|E].
  - rewrite land_bit, Z.land_spec, testbit_not_bit by lia. case_decide as E'.
    + subst. rewrite bool_decide_eq_true_2 by done. apply andb_false_r.
    + rewrite bool_decide_eq_false_2, andb_true_r by (intros ?; apply E'; by apply bit_pos_inj).
      by rewrite bit_set_testbit, E.
  - rewrite decide_False; [done|]. by intros ->.
Qed.

End bits.

(** ** The search for a free bit *)

Lemma scan_spec size base d o0 m :
  0 <= o0 ->
  match scan size base d (seqZ o0 (Z.of_nat m)) with
  | Some o => o0 <= o < o0 + Z.of_nat m /\ base + o < size /\ bit_set d o = false /\
      forall x, o0 <= x < o -> bit_set d x = true
  | None => forall x, o0 <= x < o0 + Z.of_nat m -> base + x < size -> bit_set d x = true
  end.
Proof.
  revert o0. induction m as [|m IH]; intros o0 Ho; [simpl; lia|].
  rewrite seqZ_cons by lia. replace (Z.pred (Z.of_nat (S m))) with (Z.of_nat m) by lia.
  cbn [scan]. destruct (Z.leb_spec size (base + o0)); [intros; lia|].
  destruct (bit_set d o0) eqn:E.
  - specialize (IH (Z.succ o0) ltac:(lia)). destruct (scan _ _ _ _) as [o|].
    + destruct IH as (? & ? & ? & Hlt). split_and!; try done; try lia.
      intros x Hx. destruct (decide (x = o0)) as [->|]; [done|]. apply Hlt. lia.
    + intros x Hx Hs. destruct (decide (x = o0)) as [->|]; [done|]. apply IH; lia.
  - split_and!; try lia; done.
Qed.

Section spec.
Context {S : Type} `{!BlockOps S} {HL : BlockLaws S} (sb : SuperBlock).

(** The bitmap of a view: is block [bn] in use? *)
Definition used (v : Z -> block) (bn : Z) : bool := bit_set (v (bmap_block sb bn)) (bn `mod` BPB).

Definition is_bitmap (b : Z) : Prop := exists bn, 0 <= bn < sb_size sb /\ b = bmap_block sb bn.

(** The layout [mkfs] establishes: the bitmap blocks are whole blocks outside
    the log, and a block marked free is neither a bitmap block nor in the log. *)
Record layout (v : Z -> block) : Prop := {
  lay_size : 0 <= sb_size sb < 2 ^ 32;
  lay_start : 0 <= bmapstart sb /\ bmapstart sb + sb_size sb / BPB < 2 ^ 32;
  lay_bitmap b : is_bitmap b -> usable b /\ length (v b) = Z.to_nat BSIZE;
  lay_free bn : 0 <= bn < sb_size sb -> used v bn = false -> usable bn /\ ~ is_bitmap bn
}.

Lemma bmap_block_small v bn :
  layout v -> 0 <= bn < sb_size sb -> bmap_block sb bn = bn / BPB + bmapstart sb.
Proof using Type.
  intros [? [? ?] _ _] Hbn. unfold bmap_block. apply u32_add_small; [apply Z.div_pos; unfold BPB, BSIZE; lia|lia|].
  assert (bn / BPB <= sb_size sb / BPB) by (apply Z.div_le_mono; unfold BPB, BSIZE; lia). lia.
Qed.

Lemma bmap_block_base base o :
  base `mod` BPB = 0 -> 0 <= o < BPB -> bmap_block sb (base + o) = bmap_block sb base /\
  (base + o) `mod` BPB = o.
Proof using Type.
  intros Hb Ho. assert (Hbpb : BPB <> 0) by done. unfold bmap_block.
  rewrite (Z_div_exact_2 base BPB) at 1 3; [|unfold BPB, BSIZE; lia|done].
  rewrite (Z.mul_comm BPB), Z.add_comm, Z.div_add, Z.mod_add by done.
  rewrite (Z.div_small o), (Z.mod_small o) by done. by rewrite Z.add_0_l.
Qed.

Lemma used_inj v bn bn' :
  layout v -> 0 <= bn < sb_size sb -> 0 <= bn' < sb_size sb ->
  bmap_block sb bn = bmap_block sb bn' -> bn `mod` BPB = bn' `mod` BPB -> bn = bn'.
Proof using Type.
  intros Hl Hb Hb' H1 H2. rewrite !(bmap_block_small v) in H1 by done.
  rewrite (Z.div_mod bn BPB), (Z.div_mod bn' BPB) by done. lia.
Qed.

Lemma mod_BPB bn : 0 <= bn `mod` BPB < BPB.
Proof using Type. apply Z.mod_pos_bound. done. Qed.

(** Setting or clearing the bit of [bn] in the view. *)
Definition set_used (v : Z -> block) (bn : Z) : Z -> block :=
  upd v (bmap_block sb bn) (mark (v (bmap_block sb bn)) (bn `mod` BPB)).
Definition clear_used (v : Z -> block) (bn : Z) : Z -> block :=
  upd v (bmap_block sb bn) (unmark (v (bmap_block sb bn)) (bn `mod` BPB)).

Lemma used_set_used v bn x :
  layout v -> 0 <= bn < sb_size sb -> 0 <= x < sb_size sb ->
  used (set_used v bn) x = if decide (x = bn) then true else used v x.
Proof using Type.
  intros Hl Hb Hx. unfold used, set_used. pose proof (mod_BPB bn). pose proof (mod_BPB x).
  destruct (decide (bmap_block sb x = bmap_block sb bn)) as [E|E].
  - rewrite E, upd_eq, bit_set_mark; try done; [|by apply Hl; exists bn].
    destruct (decide (x `mod` BPB = bn `mod` BPB)) as [E'|E'].
    + rewrite decide_True by (by eapply used_inj). done.
    + rewrite decide_False by congruence. done.
  - rewrite upd_ne by done. rewrite decide_False by congruence. done.
Qed.

Lemma used_clear_used v bn x :
  layout v -> 0 <= bn < sb_size sb -> 0 <= x < sb_size sb ->
  used (clear_used v bn) x = if decide (x = bn) then false else used v x.
Proof using Type.
  intros Hl Hb Hx. unfold used, clear_used. pose proof (mod_BPB bn). pose proof (mod_BPB x).
  destruct (decide (bmap_block sb x = bmap_block sb bn)) as [E|E].
  - rewrite E, upd_eq, bit_set_unmark; try done; [|by apply Hl; exists bn].
    destruct (decide (x `mod` BPB = bn `mod` BPB)) as [E'|E'].
    + rewrite decide_True by (by eapply used_inj). done.
    + rewrite decide_False by congruence. done.
  - rewrite upd_ne by done. rewrite decide_False by congruence. done.
Qed.

(** Contents outside the bitmap do not matter. *)
Lemma used_upd v b d x : ~ is_bitmap b -> 0 <= x < sb_size sb -> used (upd v b d) x = used v x.
Proof using Type. intros Hb Hx. unfold used. rewrite upd_ne; [done|]. intros E. apply Hb. by exists x. Qed.

Lemma layout_set_used v bn : layout v -> 0 <= bn < sb_size sb -> layout (set_used v bn).
Proof using Type.
  intros Hl Hb. destruct (Hl) as [H1 H2 H3 H4]. split; try done.
  - intros b Hbm. destruct (H3 _ Hbm) as [? Hlen]. split; [done|]. unfold set_used, upd.
    case_decide as E; [|done]. subst. unfold mark. by rewrite length_insert.
  - intros x Hx. rewrite used_set_used by done. case_decide; [done|]. by apply H4.
Qed.

Lemma layout_clear_used v bn :
  layout v -> 0 <= bn < sb_size sb -> usable bn -> ~ is_bitmap bn -> layout (clear_used v bn).
Proof using Type.
  intros Hl Hb Hu Hn. destruct (Hl) as [H1 H2 H3 H4]. split; try done.
  - intros b Hbm. destruct (H3 _ Hbm) as [? Hlen]. split; [done|]. unfold clear_used, upd.
    case_decide as E; [|done]. subst. unfold unmark. by rewrite length_insert.
  - intros x Hx. rewrite used_clear_used by done. case_decide as E; [by subst|]. by apply H4.
Qed.

Lemma layout_upd v b d : layout v -> ~ is_bitmap b -> layout (upd v b d).
Proof using Type.
  intros Hl Hb. destruct (Hl) as [H1 H2 H3 H4]. split; try done.
  - intros x Hx. rewrite upd_ne by (intros ->; done). auto.
  - intros x Hx. rewrite used_upd by done. auto.
Qed.

(** ** The operations in a transaction *)

(** Guards held by the caller do not get in the way. *)
Definition apart (t : txn_state) : Prop :=
  (forall b, is_bitmap b -> t_held t !! b = None) /\
  (forall bn, 0 <= bn < sb_size sb -> used (t_view t) bn = false -> t_held t !! bn = None) /\
  (forall b, b ∈ t_dirty t -> is_Some (t_held t !! b)).

Definition least_free (v : Z -> block) (bn : Z) : Prop :=
  0 <= bn < sb_size sb /\ used v bn = false /\ forall x, 0 <= x < bn -> used v x = true.

Lemma bzero_spec s t b :
  in_txn s t -> usable b -> t_held t !! b = None -> b ∉ t_dirty t ->
  room 1 t ->
  wp (bzero ROOTDEV b) s (fun _ s' =>
    in_txn s' (mkTxn (upd (t_view t) b zero_block) (t_held t) (t_dirty t) ({[b]} ∪ t_logged t))).
Proof using Type.
  intros Ht Hu Hh Hd Hr. unfold bzero, room in *.
  eapply wp_bind, wp_mono; [apply law_read; [done|done|done|lia]|]. intros g s1 [_ H1].
  eapply wp_bind, wp_mono; [eapply law_set; [done|apply lookup_insert_eq]|]. intros [] s2 H2.
  eapply wp_bind, wp_mono; [eapply law_log; [done|apply lookup_insert_eq|room_lia]|].
  intros [] s3 H3. simpl in *.
  eapply wp_mono; [eapply law_drop; [done|apply lookup_insert_eq|set_solver]|].
  intros [] s4 H4. simpl in H4.
  rewrite delete_insert_id in H4 by done.
  replace (({[b]} ∪ t_dirty t) ∖ {[b]}) with (t_dirty t) in H4 by set_solver. done.
Qed.

Definition bases (k : Z) (m : nat) : list Z := (fun i => 0 + BPB * i) <$> seqZ k (Z.of_nat m).

Lemma bases_cons k m : bases k (Datatypes.S m) = BPB * k :: bases (Z.succ k) m.
Proof using Type.
  unfold bases. rewrite seqZ_cons by lia.
  replace (Z.pred (Z.of_nat (Datatypes.S m))) with (Z.of_nat m) by lia. by rewrite fmap_cons.
Qed.

(** The bits of one bitmap block are the blocks of its group. *)
Lemma used_group v k o :
  0 <= o < BPB -> used v (BPB * k + o) = bit_set (v (bmap_block sb (BPB * k))) o.
Proof using Type.
  intros Ho. unfold used. destruct (bmap_block_base (BPB * k) o) as [-> ->]; try done.
  rewrite Z.mul_comm. by apply Z.mod_mul.
Qed.

Lemma scan_group v k :
  match scan (sb_size sb) (BPB * k) (v (bmap_block sb (BPB * k))) (seqZ 0 BPB) with
  | Some o => 0 <= o < BPB /\ BPB * k + o < sb_size sb /\ used v (BPB * k + o) = false /\
      forall x, BPB * k <= x < BPB * k + o -> used v x = true
  | None => forall x, BPB * k <= x < BPB * k + BPB -> x < sb_size sb -> used v x = true
  end.
Proof using Type.
  assert (exists m, Z.of_nat m = BPB) as [m Hm].
  { exists (Z.to_nat BPB). apply Z2Nat.id. unfold BPB, BSIZE. lia. }
  pose proof (scan_spec (sb_size sb) (BPB * k) (v (bmap_block sb (BPB * k))) 0 m ltac:(lia)) as H.
  rewrite Hm in H. destruct (scan _ _ _ _) as [o|].
  - destruct H as (Ho & Hs & Hb & Hlt). split_and!; try lia.
    + rewrite used_group; [done|lia].
    + intros x Hx. replace x with (BPB * k + (x - BPB * k)) by lia.
      rewrite used_group by lia. apply Hlt. lia.
  - intros x Hx Hs. replace x with (BPB * k + (x - BPB * k)) by lia.
    rewrite used_group by lia. apply H; lia.
Qed.

Lemma apart_read t b :
  apart t -> is_bitmap b -> (t_held t !! b = None) /\ b ∉ t_dirty t.
Proof using Type.
  intros (H1 & _ & H3) Hb. split; [auto|]. intros Hd. destruct (H3 _ Hd). rewrite H1 in *; done.
Qed.

Lemma group_block v k :
  layout v -> 0 <= k -> BPB * k < sb_size sb ->
  wrap 32 (BPB * k) = BPB * k /\ is_bitmap (bmap_block sb (BPB * k)).
Proof using Type.
  intros [? _ _ _] Hk Hs. assert (0 < BPB) by done. split; [apply wrap_small; nia|].
  exists (BPB * k). split; [nia|done].
Qed.

(** Taking the bit found by the search. *)
Lemma alloc_found s t g k o r :
  in_txn s (mkTxn (t_view t) (<[bmap_block sb (BPB * k) := g]> (t_held t)) (t_dirty t) (t_logged t)) ->
  layout (t_view t) -> apart t -> room 2 t ->
  0 <= k -> 0 <= o < BPB -> BPB * k + o < sb_size sb -> used (t_view t) (BPB * k + o) = false ->
  r = BPB * k + o ->
  wp (blk_set g (mark (t_view t (bmap_block sb (BPB * k))) o) ;;
      assert (BPB * k + o <? 2 ^ 32) "TryFromIntError" ;;
      blk_log g ;; blk_drop g ;; bzero ROOTDEV (BPB * k + o) ;; ret (BPB * k + o)) s
    (fun bn s' => bn = r /\
      in_txn s' (mkTxn (upd (set_used (t_view t) r) r zero_block) (t_held t) (t_dirty t)
        ({[r]} ∪ ({[bmap_block sb r]} ∪ t_logged t)))).
Proof using Type.
  intros Ht Hl Ha Hroom Hk Ho Hs Hu ->. destruct (Hl) as [Hsz _ _ Hfree].
  assert (Hbn : 0 <= BPB * k + o < sb_size sb) by (assert (0 < BPB) by done; nia).
  destruct (group_block _ k Hl Hk ltac:(lia)) as [_ Hbm].
  destruct (apart_read t _ Ha Hbm) as [Hnh Hnd]. destruct (Hfree _ Hbn Hu) as [Hub Hnb].
  eapply wp_bind, wp_mono; [eapply law_set; [done|apply lookup_insert_eq]|]. intros [] s1 H1.
  apply wp_bind, wp_assert; [apply Z.ltb_lt; lia|].
  eapply wp_bind, wp_mono; [eapply law_log; [done|apply lookup_insert_eq|room_lia]|].
  intros [] s2 H2. simpl in *.
  eapply wp_bind, wp_mono; [eapply law_drop; [done|apply lookup_insert_eq|set_solver]|].
  intros [] s3 H3. simpl in *. rewrite delete_insert_id in H3 by done.
  replace (({[bmap_block sb (BPB * k)]} ∪ t_dirty t) ∖ {[bmap_block sb (BPB * k)]})
    with (t_dirty t) in H3 by set_solver.
  destruct Ha as (_ & Hfh & Hdh).
  eapply wp_bind, wp_mono; [eapply bzero_spec; [exact H3|done|by apply Hfh| |]|].
  { simpl. intros Hd. destruct (Hdh _ Hd). rewrite Hfh in *; done. }
  { pose proof (size_add (bmap_block sb (BPB * k)) (t_logged t)). unfold room in *. simpl. lia. }
  intros [] s4 H4. simpl in *. apply wp_ret. split; [done|].
  unfold set_used. destruct (bmap_block_base (BPB * k) o) as [-> ->]; try done.
  rewrite Z.mul_comm. by apply Z.mod_mul.
Qed.

Lemma alloc_from_spec m k s t bn :
  in_txn s t -> layout (t_view t) -> apart t -> room 2 t -> 0 <= k ->
  least_free (t_view t) bn -> BPB * k <= bn < BPB * (k + Z.of_nat m) ->
  wp (alloc_from sb ROOTDEV (bases k m)) s (fun r s' => r = bn /\
    in_txn s' (mkTxn (upd (set_used (t_view t) bn) bn zero_block) (t_held t) (t_dirty t)
      ({[bn]} ∪ ({[bmap_block sb bn]} ∪ t_logged t)))).
Proof using Type.
  revert k s. induction m as [|m IH]; intros k s Ht Hl Ha Hroom Hk Hlf Hbn; [lia|].
  rewrite bases_cons. cbn [alloc_from]. destruct (Hlf) as (Hr & Hu & Hmin).
  destruct (group_block _ k Hl Hk ltac:(lia)) as [-> Hbm].
  destruct (apart_read t _ Ha Hbm) as [Hnh Hnd].
  eapply wp_bind, wp_mono; [apply law_read; [done|by apply Hl|done|room_lia]|]. intros g s1 [_ H1].
  eapply wp_bind, wp_mono; [eapply law_data; [done|apply lookup_insert_eq]|].
  intros d s2 [-> H2]. cbn [t_view]. pose proof (scan_group (t_view t) k) as Hscan.
  destruct (scan _ _ _ _) as [o|].
  - destruct Hscan as (Ho & Hso & Huo & Hlt).
    assert (0 <= BPB * k) by (unfold BPB, BSIZE; lia).
    apply (alloc_found s2 t g k o); try done.
    destruct (decide (bn < BPB * k + o)); [by rewrite Hlt in Hu by lia|].
    destruct (decide (bn = BPB * k + o)); [done|]. rewrite Hmin in Huo by lia. done.
  - eapply wp_bind, wp_mono; [eapply law_drop; [done|apply lookup_insert_eq|done]|].
    intros [] s3 H3. simpl in H3. rewrite delete_insert_id in H3 by done.
    replace (mkTxn (t_view t) (t_held t) (t_dirty t) (t_logged t)) with t in H3 by by destruct t.
    apply IH; try done; [lia|]. split; [|lia].
    destruct (decide (bn < BPB * k + BPB)); [by rewrite Hscan in Hu by lia|lia].
Qed.

Lemma step_by_bases :
  0 <= sb_size sb ->
  exists m, step_by 0 (sb_size sb) BPB = bases 0 m /\ sb_size sb <= BPB * Z.of_nat m.
Proof using Type.
  intros Hs. assert (Hb : 0 < BPB) by done.
  assert (Hq : 0 <= (sb_size sb - 0 + BPB - 1) / BPB) by (apply Z.div_pos; lia).
  exists (Z.to_nat ((sb_size sb - 0 + BPB - 1) / BPB)). unfold step_by, bases.
  rewrite Z2Nat.id by done. split; [done|].
  pose proof (Z.div_mod (sb_size sb - 0 + BPB - 1) BPB ltac:(lia)).
  pose proof (Z.mod_pos_bound (sb_size sb - 0 + BPB - 1) BPB Hb). lia.
Qed.

Lemma alloc_from_full m k s t :
  in_txn s t -> layout (t_view t) -> apart t -> room 0 t -> 0 <= k ->
  (forall x, 0 <= x < sb_size sb -> used (t_view t) x = true) ->
  Forall (fun b => b < sb_size sb) (bases k m) ->
  alloc_from sb ROOTDEV (bases k m) s = Panic "balloc: out of blocks".
Proof using Type.
  revert k s. induction m as [|m IH]; intros k s Ht Hl Ha Hroom Hk Hall Hb; [done|].
  rewrite bases_cons in *. apply Forall_cons_iff in Hb as [Hb Hbs]. cbn [alloc_from].
  destruct (group_block _ k Hl Hk Hb) as [-> Hbm].
  destruct (apart_read t _ Ha Hbm) as [Hnh Hnd].
  eapply bind_panics; [apply law_read; [done|by apply Hl|done|room_lia]|]. intros g s1 [_ H1].
  eapply bind_panics; [eapply law_data; [done|apply lookup_insert_eq]|].
  intros d s2 [-> H2]. cbn [t_view]. pose proof (scan_group (t_view t) k) as Hscan.
  destruct (scan _ _ _ _) as [o|].
  - destruct Hscan as (Ho & Hso & Huo & _).
    assert (0 <= BPB * k) by (unfold BPB, BSIZE; lia). by rewrite Hall in Huo by lia.
  - eapply bind_panics; [eapply law_drop; [done|apply lookup_insert_eq|done]|].
    intros [] s3 H3. simpl in H3. rewrite delete_insert_id in H3 by done.
    replace (mkTxn (t_view t) (t_held t) (t_dirty t) (t_logged t)) with t in H3 by by destruct t.
    apply IH; try done; room_lia.
Qed.

Lemma alloc_spec s t bn :
  in_txn s t -> layout (t_view t) -> apart t -> room 2 t ->
  least_free (t_view t) bn ->
  wp (alloc sb ROOTDEV) s (fun r s' => r = bn /\
    in_txn s' (mkTxn (upd (set_used (t_view t) bn) bn zero_block) (t_held t) (t_dirty t)
      ({[bn]} ∪ ({[bmap_block sb bn]} ∪ t_logged t)))).
Proof using Type.
  intros Ht Hl Ha Hroom Hlf. destruct (step_by_bases) as (m & Hm & Hsz); [apply Hl|].
  unfold alloc. rewrite Hm. apply alloc_from_spec; try done. destruct Hlf as [? _]. lia.
Qed.

Lemma free_spec s t bn :
  in_txn s t -> layout (t_view t) -> apart t ->
  room 1 t -> 0 <= bn < sb_size sb ->
  used (t_view t) bn = true ->
  wp (free sb ROOTDEV bn) s (fun _ s' =>
    in_txn s' (mkTxn (clear_used (t_view t) bn) (t_held t) (t_dirty t)
      ({[bmap_block sb bn]} ∪ t_logged t))).
Proof using Type.
  intros Ht Hl Ha Hroom Hb Hu. unfold free, room in *.
  assert (Hbm : is_bitmap (bmap_block sb bn)) by by exists bn.
  destruct (apart_read t _ Ha Hbm) as [Hnh Hnd].
  eapply wp_bind, wp_mono; [apply law_read; [done|by apply Hl|done|room_lia]|]. intros g s1 [_ H1].
  eapply wp_bind, wp_mono; [eapply law_data; [done|apply lookup_insert_eq]|].
  intros d s2 [-> H2]. cbn [t_view]. unfold used in Hu. rewrite Hu. simpl negb. cbv iota.
  eapply wp_bind, wp_mono; [eapply law_set; [done|apply lookup_insert_eq]|]. intros [] s3 H3.
  eapply wp_bind, wp_mono; [eapply law_log; [done|apply lookup_insert_eq|room_lia]|].
  intros [] s4 H4. simpl in *.
  eapply wp_mono; [eapply law_drop; [done|apply lookup_insert_eq|set_solver]|].
  intros [] s5 H5. simpl in *. rewrite delete_insert_id in H5 by done.
  replace (({[bmap_block sb bn]} ∪ t_dirty t) ∖ {[bmap_block sb bn]})
    with (t_dirty t) in H5 by set_solver. done.
Qed.

Lemma apart_after_alloc t bn r :
  layout (t_view t) -> apart t -> 0 <= bn < sb_size sb -> ~ is_bitmap bn ->
  apart (mkTxn (upd (set_used (t_view t) bn) bn zero_block) (t_held t) (t_dirty t) r).
Proof using Type.
  intros Hl (H1 & H2 & H3) Hb Hn. split_and!; simpl; try done.
  intros x Hx. rewrite used_upd, used_set_used by done. case_decide; [done|]. auto.
Qed.

(** Allocation.  In an open transaction [alloc] returns the lowest block
    whose bit is clear; afterwards exactly that bit is set in addition, the
    block reads as zeros, and no block outside the bitmap and the new block has
    changed; it panics exactly when every block of the disk is in use. *)
Theorem alloc_first_free s t :
  in_txn s t -> layout (t_view t) -> apart t -> room 2 t ->
  (forall bn, least_free (t_view t) bn ->
     wp (alloc sb ROOTDEV) s (fun r s' => r = bn /\ exists v logged,
       in_txn s' (mkTxn v (t_held t) (t_dirty t) logged) /\
       logged = {[bn; bmap_block sb bn]} ∪ t_logged t /\ layout v /\ v bn = zero_block /\
       (forall x, 0 <= x < sb_size sb -> used v x = bool_decide (x = bn) || used (t_view t) x) /\
       (forall b, b <> bn -> ~ is_bitmap b -> v b = t_view t b))) /\
  ((forall x, 0 <= x < sb_size sb -> used (t_view t) x = true) ->
     alloc sb ROOTDEV s = Panic "balloc: out of blocks").
Proof using Type.
  intros Ht Hl Ha Hroom. split.
  - intros bn Hlf. eapply wp_mono; [by apply alloc_spec|]. intros r s' [-> Hs'].
    split; [done|]. eexists _, _. split_and!; [exact Hs'|set_solver|..];
      destruct Hlf as (Hb & Hu & _); destruct (lay_free _ Hl bn Hb Hu) as [_ Hnb].
    + apply layout_upd; [by apply layout_set_used|done].
    + apply upd_eq.
    + intros x Hx. rewrite used_upd, used_set_used by done.
      case_decide; [by rewrite bool_decide_eq_true_2|by rewrite bool_decide_eq_false_2].
    + intros b Hne Hbm. rewrite upd_ne by done. unfold set_used. rewrite upd_ne; [done|].
      intros ->. apply Hbm. by exists bn.
  - intros Hall. destruct (step_by_bases) as (m & Hm & _); [apply Hl|]. unfold alloc. rewrite Hm.
    apply (alloc_from_full m 0 s t); try done; [room_lia|]. rewrite <-Hm. apply Forall_forall.
    intros x Hx%elem_of_step_by; [lia|done].
Qed.

(** Freeing.  [free] of a block in use clears its bit and changes nothing
    else; [free] of a free block panics, so that no block is freed twice; and a
    block that is allocated and freed again leaves the bitmap as it was. *)
Theorem free_clears_bit s t :
  in_txn s t -> layout (t_view t) -> apart t -> room 3 t ->
  (forall bn, 0 <= bn < sb_size sb -> used (t_view t) bn = true ->
     wp (free sb ROOTDEV bn) s (fun _ s' => exists v logged,
       in_txn s' (mkTxn v (t_held t) (t_dirty t) logged) /\
       (forall x, 0 <= x < sb_size sb -> used v x = negb (bool_decide (x = bn)) && used (t_view t) x) /\
       (forall b, ~ is_bitmap b -> v b = t_view t b))) /\
  (forall bn, 0 <= bn < sb_size sb -> used (t_view t) bn = false ->
     free sb ROOTDEV bn s = Panic "bmap: freeing free block") /\
  (forall bn, least_free (t_view t) bn ->
     wp (let! b := alloc sb ROOTDEV in free sb ROOTDEV b) s (fun _ s' => exists v logged,
       in_txn s' (mkTxn v (t_held t) (t_dirty t) logged) /\
       forall x, 0 <= x < sb_size sb -> used v x = used (t_view t) x)).
Proof using Type.
  intros Ht Hl Ha Hroom. split_and!.
  - intros bn Hb Hu. eapply wp_mono; [apply free_spec; try done; room_lia|].
    intros [] s' Hs'. eexists _, _. split_and!; [exact Hs'|..].
    + intros x Hx. rewrite used_clear_used by done.
      case_decide; [by rewrite bool_decide_eq_true_2|by rewrite bool_decide_eq_false_2].
    + intros b Hbm. unfold clear_used. rewrite upd_ne; [done|]. intros ->. apply Hbm. by exists bn.
  - intros bn Hb Hu. unfold free. assert (Hbm : is_bitmap (bmap_block sb bn)) by by exists bn.
    destruct (apart_read t _ Ha Hbm) as [Hnh Hnd].
    eapply bind_panics; [apply law_read; [done|by apply Hl|done|room_lia]|]. intros g s1 [_ H1].
    eapply bind_panics; [eapply law_data; [done|apply lookup_insert_eq]|].
    intros d s2 [-> H2]. cbn [t_view]. unfold used in Hu. by rewrite Hu.
  - intros bn Hlf. pose proof (Hlf) as (Hb & Hu & _). destruct (lay_free _ Hl bn Hb Hu) as [_ Hnb].
    eapply wp_bind, wp_mono; [apply alloc_spec; try done; room_lia|]. intros r s1 [-> H1].
    assert (Hl1 : layout (upd (set_used (t_view t) bn) bn zero_block))
      by (apply layout_upd; [by apply layout_set_used|done]).
    eapply wp_mono; [eapply free_spec; [exact H1|done|by apply apart_after_alloc| |done|]|].
    { pose proof (size_add bn ({[bmap_block sb bn]} ∪ t_logged t)).
      pose proof (size_add (bmap_block sb bn) (t_logged t)). room_lia. }
    { simpl. rewrite used_upd, used_set_used by done. by rewrite decide_True. }
    intros [] s2 H2. eexists _, _. split; [exact H2|]. simpl. intros x Hx.
    rewrite used_clear_used by done. case_decide; [by subst|].
    rewrite used_upd, used_set_used by done. by rewrite decide_False.
Qed.

End spec.

(** ** A sample disk

    100 blocks, the log at 2, one bitmap block at 40; blocks 0 to 40 in use. *)

Definition sample_sb : SuperBlock := mkSb FSMAGIC 100 59 200 30 2 32 40.
Definition sample_bitmap : block := [255; 255; 255; 255; 255; 1] ++ replicate 4090 0.
Definition sample_disk : gmap Z block := {[40 := sample_bitmap]}.

Lemma sample_disk_clean : Log.describes (Log.header_of (Bio.disk_get sample_disk 2)) [].
Proof.
  assert (E : Log.header_of (Bio.disk_get sample_disk 2) = Log.header_new) by (vm_compute; reflexivity).
  rewrite E. split_and!; [reflexivity|reflexivity|reflexivity|]. by apply Forall_replicate.
Qed.

Definition sample_laws : BlockLaws Log.fsys := fsys_laws 2 30 Log.sample_geometry sample_disk.

Lemma sample_bitmap_block b : is_bitmap sample_sb b -> b = 40.
Proof.
  intros (bn & Hb & ->). unfold bmap_block. simpl in *. by rewrite Z.div_small by (unfold BPB, BSIZE; lia).
Qed.

Lemma sample_used x :
  0 <= x < 100 -> used sample_sb (Bio.disk_get sample_disk) x = bool_decide (x < 41).
Proof.
  intros Hx.
  assert (H : forallb (fun x => eqb (used sample_sb (Bio.disk_get sample_disk) x) (bool_decide (x < 41)))
            (seqZ 0 100) = true) by (vm_compute; reflexivity).
  rewrite forallb_forall in H. apply eqb_prop, H, list_elem_of_In, elem_of_seqZ. lia.
Qed.

Lemma sample_layout : layout (HL := sample_laws) sample_sb (Bio.disk_get sample_disk).
Proof.
  split; simpl.
  - lia.
  - split; [lia|]. vm_compute. reflexivity.
  - intros b ->%sample_bitmap_block. split; [split; unfold is_u32, Log.in_log; lia|].
    vm_compute. reflexivity.
  - intros bn Hb Hu. rewrite sample_used in Hu by done. apply bool_decide_eq_false in Hu.
    split; [split; unfold is_u32, Log.in_log; lia|]. intros ?%sample_bitmap_block. lia.
Qed.

Lemma sample_apart : apart sample_sb (mkTxn (Bio.disk_get sample_disk) ∅ ∅ ∅).
Proof. split_and!; simpl; done. Qed.

Lemma sample_least_free : least_free sample_sb (Bio.disk_get sample_disk) 41.
Proof.
  split_and!; [simpl; lia|simpl; lia|by rewrite sample_used by lia|].
  intros x Hx. rewrite sample_used by lia. apply bool_decide_eq_true_2. lia.
Qed.

Lemma alloc_first_free_witness :
  exists f, wp (alloc sample_sb ROOTDEV) f (fun r _ => r = 41).
Proof.
  destruct (txn_begin 2 30 Log.sample_geometry sample_disk sample_disk_clean)
    as (f0 & f & _ & _ & _ & Ht).
  exists f. eapply wp_mono.
  - apply (alloc_first_free (HL := sample_laws) sample_sb f _ Ht sample_layout sample_apart).
    + vm_compute. lia.
    + exact sample_least_free.
  - intros r s' [-> _]. reflexivity.
Defined.

Lemma free_clears_bit_witness :
  exists f, free sample_sb ROOTDEV 60 f = Panic "bmap: freeing free block".
Proof.
  destruct (txn_begin 2 30 Log.sample_geometry sample_disk sample_disk_clean)
    as (f0 & f & _ & _ & _ & Ht).
  destruct (free_clears_bit (HL := sample_laws) sample_sb f _ Ht sample_layout sample_apart)
    as (_ & Hpanic & _); [vm_compute; lia|].
  exists f. apply Hpanic; [simpl; lia|]. cbn [t_view]. by rewrite sample_used by lia.
Defined.

End Bmap.
