(* ===== verification/Fs.v ===== *)
(** * Inodes, directories and path names

    Models [kernel/src/fs.rs]: the table of in-memory inodes with its
    reference counts and sleep locks, the on-disk inode and its block map,
    reading and writing file contents, directory entries, path lookup, and
    creating and unlinking names.  Blocks are reached through the transaction
    interface of [Blocks.v] and allocated with [Bmap.v]; user memory is behind
    the interface [UserCopy]. *)

From S2P Require Import Prelude Param Bytes Bio Log Blocks Bmap.

Module Fs.
Import Bmap.

(** ** On-disk structures *)

Definition NINODE : nat := 50.
Definition NDIRECT : nat := 11.
Definition NINDIRECT : Z := BSIZE / 4.
Definition NDINDIRECT : Z := NINDIRECT.
Definition MAXFILE : Z := Z.of_nat NDIRECT + NINDIRECT + NINDIRECT * NDINDIRECT.
Definition DINODE_SIZE : Z := 64.
Definition IPB : Z := BSIZE / DINODE_SIZE.
Definition DIRSIZ : nat := 30.
Definition DE_SIZE : Z := 32.
Definition ROOTINO : Z := 1.

Inductive InodeType := Empty | Directory | File | Device.

#[global] Instance inode_type_eq_dec : EqDecision InodeType.
Proof. solve_decision. Defined.

Definition type_code (t : InodeType) : Z :=
  match t with Empty => 0 | Directory => 1 | File => 2 | Device => 3 end.
Definition type_of (z : Z) : option InodeType :=
  match z with 0 => Some Empty | 1 => Some Directory | 2 => Some File | 3 => Some Device | _ => None end.

Record DiskInode := mkDinode {
  typ : InodeType;
  major : Z;
  minor : Z;
  nlink : Z;
  size : Z;
  addrs : list Z
}.

Definition dinode_new : DiskInode := mkDinode Empty 0 0 0 0 (replicate (NDIRECT + 2) 0).

(** [repr(C)]: four [u16], then the size and 13 block numbers as [u32]. *)
Definition dinode_bytes (di : DiskInode) : list Z :=
  u16_bytes (type_code (typ di)) ++ u16_bytes (major di) ++ u16_bytes (minor di) ++
  u16_bytes (nlink di) ++ words_bytes (size di :: addrs di).
(** A type outside the enumeration is not a value of [DiskInode]. *)
Definition dinode_of (bs : list Z) : option DiskInode :=
  match type_of (bytes_u16 (take 2 bs)) with
  | Some t =>
      match bytes_words 14 (drop 8 bs) with
      | sz :: ads =>
          Some (mkDinode t (bytes_u16 (take 2 (drop 2 bs))) (bytes_u16 (take 2 (drop 4 bs)))
                  (bytes_u16 (take 2 (drop 6 bs))) sz ads)
      | [] => None
      end
  | None => None
  end.

Record DirEnt := mkDirEnt { de_inum : Z; de_name : list Z }.

Definition dirent_empty : DirEnt := mkDirEnt 0 (replicate DIRSIZ 0).
Definition dirent_bytes (de : DirEnt) : list Z := u16_bytes (de_inum de) ++ de_name de.
Definition dirent_of (bs : list Z) : DirEnt := mkDirEnt (bytes_u16 (take 2 bs)) (take DIRSIZ (drop 2 bs)).

Record FileStat := mkStat {
  st_dev : Z; st_inum : Z; st_typ : InodeType; st_nlink : Z; st_size : Z
}.

(** ** The inode table *)

Record InodeMeta := mkMeta { m_dev : Z; m_inum : Z; refcnt : Z }.
Definition meta_new : InodeMeta := mkMeta 0 0 0.

(** A [SleepLock<InodeData>]. *)
Record slot := mkSlot { s_locked : bool; s_valid : option (Z * Z); s_dinode : DiskInode }.
Definition slot_new : slot := mkSlot false None dinode_new.

Record Inode := mkInode { i_dev : Z; i_inum : Z; i_index : nat }.

(** The user side of [either_copy_out] and [either_copy_in]: writing to and
    reading from the memory of the current process. *)
Class UserCopy (U : Type) := {
  copy_to_user : Z -> list Z -> M U unit;
  copy_from_user : Z -> Z -> M U (list Z)
}.

(** A buffer of the kernel, with its bytes, or one of the user, at an address. *)
Inductive buffer := Kernel (bs : list Z) | User (va : Z).

(** ** Paths *)

Definition SLASH : Z := 47.
Definition DOT : Z := 46.

Definition index {S} (l : list Z) (i : nat) : M S Z := get_at l i.

(** [while path[cur] == b'/'] and [while path[cur] != b'/' && path[cur] != 0];
    indexing past the end stops both, so the length is enough fuel. *)
Fixpoint skip_while {S} (p : Z -> bool) (fuel : nat) (path : list Z) (cur : nat) : M S nat :=
  match fuel with
  | O => out_of_fuel
  | S fuel =>
      let! c := index path cur in
      if p c then skip_while p fuel path (1 + cur)%nat else ret cur
  end.
Definition is_slash (c : Z) : bool := c =? SLASH.
Definition is_elem (c : Z) : bool := negb (c =? SLASH) && negb (c =? 0).

Definition skip_elem {S} (path : list Z) (cur : nat) (name : list Z) : M S (nat * list Z) :=
  let fuel := (1 + length path)%nat in
  let! cur := skip_while is_slash fuel path cur in
  let! c := index path cur in
  if c =? 0 then ret (0%nat, name)
  else
    let s := cur in
    let! cur := skip_while is_elem fuel path cur in
    let len := (cur - s)%nat in
    let len := if Nat.leb (length name) len then (length name - 1)%nat else len in
    let name := splice 0 (take len (drop s path)) name in
    assert (Nat.ltb len (length name)) "index out of bounds" ;;
    let name := <[len := 0]> name in
    let! cur := skip_while is_slash fuel path cur in
    ret (cur, name).

Section ops.
Context {B : Type} `{!BlockOps B} {U : Type} `{!UserCopy U} (sb : SuperBlock).

Record fs := mkFsState {
  blk : B;
  user : U;
  meta : list InodeMeta;
  data : list slot
}.

Definition on_blk {A} (m : M B A) : M fs A := fun s =>
  match m (blk s) with
  | Done (x, b) => Done (x, mkFsState b (user s) (meta s) (data s))
  | Panic msg => Panic msg
  | Sleep => Sleep
  | OutOfFuel => OutOfFuel
  | Undef => Undef
  end.
Definition on_user {A} (m : M U A) : M fs A := fun s =>
  match m (user s) with
  | Done (x, u) => Done (x, mkFsState (blk s) u (meta s) (data s))
  | Panic msg => Panic msg
  | Sleep => Sleep
  | OutOfFuel => OutOfFuel
  | Undef => Undef
  end.

Definition get_meta (i : nat) : M fs InodeMeta :=
  let! s := get in unwrap (meta s !! i) "index out of bounds".
Definition set_meta (i : nat) (m : InodeMeta) : M fs unit :=
  modify (fun s => mkFsState (blk s) (user s) (<[i := m]> (meta s)) (data s)).
Definition get_slot (i : nat) : M fs slot :=
  let! s := get in unwrap (data s !! i) "index out of bounds".
Definition set_slot (i : nat) (x : slot) : M fs unit :=
  modify (fun s => mkFsState (blk s) (user s) (meta s) (<[i := x]> (data s))).

(** [INODE_TABLE.data[i].lock()] and the drop of its guard. *)
Definition lock_slot (i : nat) : M fs unit :=
  let! x := get_slot i in
  if s_locked x then sleep else set_slot i (mkSlot true (s_valid x) (s_dinode x)).
Definition unlock_slot (i : nat) : M fs unit :=
  let! x := get_slot i in set_slot i (mkSlot false (s_valid x) (s_dinode x)).

(** Reading and writing the fields through a guard. *)
Definition get_dinode (i : nat) : M fs DiskInode := let! x := get_slot i in ret (s_dinode x).
Definition set_dinode (i : nat) (di : DiskInode) : M fs unit :=
  let! x := get_slot i in set_slot i (mkSlot (s_locked x) (s_valid x) di).
Definition set_valid (i : nat) (v : option (Z * Z)) : M fs unit :=
  let! x := get_slot i in set_slot i (mkSlot (s_locked x) v (s_dinode x)).
Definition get_valid (i : nat) : M fs (Z * Z) :=
  let! x := get_slot i in unwrap (s_valid x) "called `Option::unwrap()` on a `None` value".

(** ** [InodeTable::iget], [idup] *)

(** The loop over the table: the entry for the inode, or the first unused one. *)
Fixpoint iget_scan (dev inum : Z) (l : list InodeMeta) (i : nat) (empty : option nat)
    : nat + option nat :=
  match l with
  | [] => inr empty
  | ip :: l =>
      if (m_dev ip =? dev) && (m_inum ip =? inum) then inl i
      else iget_scan dev inum l (1 + i)%nat
             (match empty with
              | None => if refcnt ip =? 0 then Some i else None
              | Some _ => empty
              end)
  end.

Definition iget (dev inum : Z) : M fs Inode :=
  let! s := get in
  match iget_scan dev inum (meta s) 0 None with
  | inl i =>
      let! ip := get_meta i in
      set_meta i (mkMeta (m_dev ip) (m_inum ip) (refcnt ip ⊞ 1)) ;;
      ret (mkInode dev inum i)
  | inr empty =>
      let! i := unwrap empty "called `Option::unwrap()` on a `None` value" in
      set_meta i (mkMeta dev inum 1) ;;
      lock_slot i ;;
      set_valid i None ;;
      unlock_slot i ;;
      ret (mkInode dev inum i)
  end.

Definition idup (ip : Inode) : M fs Inode :=
  let i := i_index ip in
  let! m := get_meta i in
  set_meta i (mkMeta (m_dev m) (m_inum m) (refcnt m ⊞ 1)) ;;
  ret (mkInode (m_dev m) (m_inum m) i).

(** ** Inodes on disk *)

Definition inode_block (inum : Z) : Z := u32_add (inum / IPB) (inodestart sb).
(** The byte offset of the inode in its block. *)
Definition inode_offset (inum : Z) : nat := Z.to_nat (inum `mod` IPB * DINODE_SIZE).

Definition read_dinode (d : block) (inum : Z) : option DiskInode :=
  dinode_of (take (Z.to_nat DINODE_SIZE) (drop (inode_offset inum) d)).

Definition ilock (ip : Inode) : M fs unit :=
  let i := i_index ip in
  lock_slot i ;;
  let! x := get_slot i in
  match s_valid x with
  | Some _ => ret tt
  | None =>
      let! g := on_blk (blk_read (i_dev ip) (inode_block (i_inum ip))) in
      let! d := on_blk (blk_data g) in
      let! di := unwrap (read_dinode d (i_inum ip)) "invalid InodeType" in
      set_dinode i di ;;
      on_blk (blk_drop g) ;;
      if decide (typ di = Empty) then panic "ilock: no type"
      else set_valid i (Some (i_dev ip, i_inum ip))
  end.

Definition iupdate (i : nat) : M fs unit :=
  let! '(dev, inum) := get_valid i in
  let! di := get_dinode i in
  let! g := on_blk (blk_read dev (inode_block inum)) in
  let! d := on_blk (blk_data g) in
  on_blk (blk_set g (splice (inode_offset inum) (dinode_bytes di) d)) ;;
  on_blk (blk_log g) ;;
  on_blk (blk_drop g).

(** ** The block map of an inode *)

Definition read_word (d : block) (k : Z) : Z := bytes_u32 (take 4 (drop (Z.to_nat (4 * k)) d)).
Definition write_word (d : block) (k x : Z) : block := splice (Z.to_nat (4 * k)) (u32_bytes x) d.

Definition get_addr (i k : nat) : M fs Z := let! di := get_dinode i in index (addrs di) k.
Definition set_addr (i k : nat) (x : Z) : M fs unit :=
  let! di := get_dinode i in
  assert (Nat.ltb k (length (addrs di))) "index out of bounds" ;;
  set_dinode i (mkDinode (typ di) (major di) (minor di) (nlink di) (size di) (<[k := x]> (addrs di))).

(** The address in slot [k] of the inode, allocating a block if it is zero. *)
Definition addr_or_alloc (i k : nat) (dev : Z) : M fs Z :=
  let! a := get_addr i k in
  if negb (a =? 0) then ret a
  else
    let! bn := on_blk (Bmap.alloc sb dev) in
    set_addr i k bn ;;
    ret bn.

(** The entry [k] of the block [bn] of addresses: the value read, while a
    block allocated for a zero entry is only stored. *)
Definition entry_of (dev bn k : Z) : M fs Z :=
  let! g := on_blk (blk_read dev bn) in
  let! d := on_blk (blk_data g) in
  let data_bn := read_word d k in
  (if data_bn =? 0 then
     let! freed := on_blk (Bmap.alloc sb dev) in
     let! d := on_blk (blk_data g) in
     on_blk (blk_set g (write_word d k freed)) ;;
     on_blk (blk_log g)
   else ret tt) ;;
  on_blk (blk_drop g) ;;
  ret data_bn.

Definition bmap (i : nat) (offset : Z) : M fs Z :=
  let! '(dev, _) := get_valid i in
  if offset <? Z.of_nat NDIRECT then addr_or_alloc i (Z.to_nat offset) dev
  else
    let offset := offset ⊟ Z.of_nat NDIRECT in
    if offset <? NINDIRECT then
      let! indirect_bn := addr_or_alloc i NDIRECT dev in
      entry_of dev indirect_bn offset
    else
      let offset := offset ⊟ NINDIRECT in
      if offset <? NDINDIRECT * NINDIRECT then
        let! d_indirect_bn := addr_or_alloc i (NDIRECT + 1) dev in
        let! indirect_bn := entry_of dev d_indirect_bn (offset / NDINDIRECT) in
        entry_of dev indirect_bn (offset `mod` NDINDIRECT)
      else panic "bmap: out of range".

(** ** Reading and writing contents *)

Definition either_copy_out (dst : buffer) (pos : Z) (bs : list Z) : M fs unit :=
  match dst with
  | Kernel _ => ret tt
  | User va => on_user (copy_to_user (va ⊞ pos) bs)
  end.
Definition either_copy_in (src : buffer) (pos n : Z) : M fs (list Z) :=
  match src with
  | Kernel bs => ret (take (Z.to_nat n) (drop (Z.to_nat pos) bs))
  | User va => on_user (copy_from_user (va ⊞ pos) n)
  end.

(** Rounds of [readi] and [writei]: every one but the last ends at a block
    boundary. *)
Definition rounds (n : Z) : nat := Z.to_nat (n / BSIZE + 2).

(** The loop of [readi]; [done] bytes were copied, [acc] are their values. *)
Fixpoint readi_loop (fuel : nat) (i : nat) (dev : Z) (dst : buffer) (done offset n : Z)
    (acc : list Z) : M fs (list Z) :=
  if 0 <? n then
    match fuel with
    | O => out_of_fuel
    | S fuel =>
        let read_n := Z.min (BSIZE - offset `mod` BSIZE) n in
        let! bn := bmap i (offset / BSIZE) in
        let! g := on_blk (blk_read dev bn) in
        let! d := on_blk (blk_data g) in
        let bs := take (Z.to_nat read_n) (drop (Z.to_nat (offset `mod` BSIZE)) d) in
        either_copy_out dst done bs ;;
        on_blk (blk_drop g) ;;
        readi_loop fuel i dev dst (done ⊞ read_n) (offset ⊞ read_n) (n ⊟ read_n) (acc ++ bs)
    end
  else ret acc.

(** [Ok]: how many bytes were read, and their values. *)
Definition readi (i : nat) (dst : buffer) (offset n : Z) : M fs (result (Z * list Z)) :=
  let! '(dev, _) := get_valid i in
  match checked_add offset n with
  | None => ret (Err "")
  | Some end_ =>
      let! di := get_dinode i in
      let n := if size di <? end_ then size di ⊟ offset else n in
      let! bs := readi_loop (rounds n) i dev dst 0 offset n [] in
      ret (Ok (n, bs))
  end.

Fixpoint writei_loop (fuel : nat) (i : nat) (dev : Z) (src : buffer) (done offset n : Z) : M fs Z :=
  if 0 <? n then
    match fuel with
    | O => out_of_fuel
    | S fuel =>
        let write_n := Z.min n (BSIZE - offset `mod` BSIZE) in
        let! bn := bmap i (offset / BSIZE) in
        let! g := on_blk (blk_read dev bn) in
        let! bs := either_copy_in src done write_n in
        let! d := on_blk (blk_data g) in
        on_blk (blk_set g (splice (Z.to_nat (offset `mod` BSIZE)) bs d)) ;;
        on_blk (blk_log g) ;;
        on_blk (blk_drop g) ;;
        writei_loop fuel i dev src (done ⊞ write_n) (offset ⊞ write_n) (n ⊟ write_n)
    end
  else ret offset.

Definition writei (i : nat) (src : buffer) (offset n : Z) : M fs (result unit) :=
  let! '(dev, _) := get_valid i in
  let! di := get_dinode i in
  if size di <? offset then ret (Err "")
  else
    match checked_add offset n with
    | None => ret (Err "")
    | Some end_ =>
        if MAXFILE * BSIZE <? end_ then ret (Err "")
        else
          let! offset := writei_loop (rounds n) i dev src 0 offset n in
          let! di := get_dinode i in
          (if size di <? offset then
             assert (offset <? 2 ^ 32) "TryFromIntError" ;;
             set_dinode i (mkDinode (typ di) (major di) (minor di) (nlink di) offset (addrs di))
           else ret tt) ;;
          iupdate i ;;
          ret (Ok tt)
    end.

Definition stati (i : nat) : M fs FileStat :=
  let! '(dev, inum) := get_valid i in
  let! di := get_dinode i in
  ret (mkStat (as_i32 dev) inum (typ di) (nlink di) (size di)).

(** ** Truncation and [iput] *)

Definition itrunc_direct (i : nat) (dev : Z) (k : nat) : M fs unit :=
  let! a := get_addr i k in
  if 0 <? a then on_blk (Bmap.free sb dev a) ;; set_addr i k 0 else ret tt.

Definition itrunc (i : nat) : M fs unit :=
  let! '(dev, _) := get_valid i in
  mfor (seq 0 NDIRECT) (itrunc_direct i dev) ;;
  let! a := get_addr i NDIRECT in
  (if 0 <? a then
     let! g := on_blk (blk_read dev a) in
     mfor (seqZ 0 NINDIRECT) (fun k =>
       let! d := on_blk (blk_data g) in
       let bn := read_word d k in
       if negb (bn =? 0) then on_blk (Bmap.free sb dev bn) else ret tt) ;;
     on_blk (blk_drop g) ;;
     on_blk (Bmap.free sb dev a) ;;
     set_addr i NDIRECT 0
   else ret tt) ;;
  let! di := get_dinode i in
  set_dinode i (mkDinode (typ di) (major di) (minor di) (nlink di) 0 (addrs di)) ;;
  iupdate i.

Definition iput (i : nat) : M fs unit :=
  let! m := get_meta i in
  (if refcnt m =? 1 then
     lock_slot i ;;
     let! x := get_slot i in
     if bool_decide (is_Some (s_valid x)) && (nlink (s_dinode x) =? 0) then
       itrunc i ;;
       let! di := get_dinode i in
       set_dinode i (mkDinode Empty (major di) (minor di) (nlink di) (size di) (addrs di)) ;;
       iupdate i ;;
       set_valid i None ;;
       unlock_slot i
     else unlock_slot i
   else ret tt) ;;
  let! m := get_meta i in
  set_meta i (mkMeta (m_dev m) (m_inum m) (refcnt m ⊟ 1)).

(** The drop of an [Inode]. *)
Definition drop_inode (ip : Inode) : M fs unit := iput (i_index ip).

(** ** Directories *)

(** [readi(false, &mut de, off, size_of::<DirEnt>())] *)
Definition read_dirent (i : nat) (off : Z) (de : DirEnt) : M fs (result DirEnt) :=
  let! r := readi i (Kernel []) off DE_SIZE in
  ret (match r with
       | Ok (_, bs) => Ok (dirent_of (splice 0 bs (dirent_bytes de)))
       | Err msg => Err msg
       end).

(** The comparison loop of [dirlookup]: equal up to and including a zero. *)
Fixpoint name_eq (a b : list Z) : bool :=
  match a, b with
  | x :: a, y :: b => if negb (x =? y) then false else if x =? 0 then true else name_eq a b
  | _, _ => false
  end.

Fixpoint dirlookup_loop (i : nat) (dev : Z) (name : list Z) (de : DirEnt) (offs : list Z)
    : M fs (option (Inode * Z)) :=
  match offs with
  | [] => ret None
  | off :: offs =>
      let! r := read_dirent i off de in
      match r with
      | Err _ => panic "dirlookup: read"
      | Ok de =>
          if de_inum de =? 0 then dirlookup_loop i dev name de offs
          else if name_eq (de_name de) name then
            let! ip := iget dev (de_inum de) in ret (Some (ip, off))
          else dirlookup_loop i dev name de offs
      end
  end.

Definition dirlookup (i : nat) (name : list Z) : M fs (option (Inode * Z)) :=
  let! '(dev, _) := get_valid i in
  let! di := get_dinode i in
  if decide (typ di <> Directory) then panic "dirlookup not DIR"
  else dirlookup_loop i dev name dirent_empty (step_by 0 (size di) DE_SIZE).

Fixpoint available_loop (i : nat) (sz : Z) (de : DirEnt) (offs : list Z) : M fs (result (Z * DirEnt)) :=
  match offs with
  | [] => ret (Ok (sz, de))
  | off :: offs =>
      let! r := read_dirent i off de in
      match r with
      | Err _ => ret (Err "failed to read entry in directory inode")
      | Ok de => if de_inum de =? 0 then ret (Ok (off, de)) else available_loop i sz de offs
      end
  end.

Definition find_available_dirent_offset (i : nat) (de : DirEnt) : M fs (result (Z * DirEnt)) :=
  let! di := get_dinode i in
  available_loop i (size di) de (step_by 0 (size di) DE_SIZE).

(** [de.name[i] = name[i]] up to and including a zero. *)
Fixpoint copy_name (old name : list Z) : list Z :=
  match old, name with
  | _ :: old, c :: name => c :: (if c =? 0 then old else copy_name old name)
  | _, _ => old
  end.

Definition dirlink (i : nat) (name : list Z) (inum : Z) : M fs (result unit) :=
  let! di := get_dinode i in
  if decide (typ di <> Directory) then panic "dirlink: not DIR"
  else
    let! o := dirlookup i name in
    match o with
    | Some (ip, _) => drop_inode ip ;; ret (Err "dirent already present")
    | None =>
        let! r := find_available_dirent_offset i dirent_empty in
        match r with
        | Err msg => ret (Err msg)
        | Ok (offset, de) =>
            assert (inum <? 2 ^ 16) "TryFromIntError" ;;
            let de := mkDirEnt inum (copy_name (de_name de) name) in
            let! r := writei i (Kernel (dirent_bytes de)) offset DE_SIZE in
            ret (match r with Ok _ => Ok tt | Err _ => Err "failed to write dirent" end)
        end
    end.

Fixpoint empty_loop (i : nat) (de : DirEnt) (offs : list Z) : M fs bool :=
  match offs with
  | [] => ret true
  | off :: offs =>
      let! r := read_dirent i off de in
      match r with
      | Err _ => panic "is_dir_empty: failed to read entry in directory inode"
      | Ok de => if negb (de_inum de =? 0) then ret false else empty_loop i de offs
      end
  end.

Definition is_dir_empty (i : nat) : M fs bool :=
  let! di := get_dinode i in
  empty_loop i dirent_empty (step_by (2 * DE_SIZE) (size di) DE_SIZE).

(** ** Path lookup

    [cwd] is the current directory of the calling process. *)

Fixpoint namex_loop (fuel : nat) (path : list Z) (parent : bool) (ip : Inode) (pos : nat)
    (name : list Z) : M fs (option Inode * list Z) :=
  match fuel with
  | O => out_of_fuel
  | S fuel =>
      let! '(pos, name) := skip_elem path pos name in
      if Nat.eqb pos 0 then ret (Some ip, name)
      else
        ilock ip ;;
        let! di := get_dinode (i_index ip) in
        if decide (typ di <> Directory) then
          unlock_slot (i_index ip) ;;
          drop_inode ip ;;
          ret (None, name)
        else
          let! c := (if parent then index path pos else ret 1) in
          if parent && (c =? 0) then
            unlock_slot (i_index ip) ;;
            ret (Some ip, name)
          else
            let! o := dirlookup (i_index ip) name in
            match o with
            | Some (next, _) =>
                unlock_slot (i_index ip) ;;
                drop_inode ip ;;
                namex_loop fuel path parent next pos name
            | None =>
                unlock_slot (i_index ip) ;;
                drop_inode ip ;;
                ret (None, name)
            end
  end.

Definition namex (cwd : option Inode) (path name : list Z) (parent : bool) : M fs (option Inode * list Z) :=
  let! c := index path 0 in
  let! ip := (if c =? SLASH then iget ROOTDEV ROOTINO
              else let! cwd := unwrap cwd "called `Option::unwrap()` on a `None` value" in idup cwd) in
  namex_loop (1 + length path) path parent ip 0 name.

Definition namei (cwd : option Inode) (path : list Z) : M fs (option Inode) :=
  let! '(o, _) := namex cwd path (replicate DIRSIZ 0) false in ret o.

Definition nameiparent (cwd : option Inode) (path name : list Z) : M fs (option Inode * list Z) :=
  namex cwd path name true.

(** ** Creating and unlinking *)

Fixpoint ialloc_loop (dev : Z) (t : InodeType) (inums : list Z) : M fs Inode :=
  match inums with
  | [] => panic "no free inodes"
  | inum :: inums =>
      let! g := on_blk (blk_read dev (inode_block inum)) in
      let! d := on_blk (blk_data g) in
      let! di := unwrap (read_dinode d inum) "invalid InodeType" in
      if decide (typ di = Empty) then
        on_blk (blk_set g (splice (inode_offset inum)
          (dinode_bytes (mkDinode t 0 0 0 0 (replicate (NDIRECT + 2) 0))) d)) ;;
        on_blk (blk_log g) ;;
        on_blk (blk_drop g) ;;
        iget dev inum
      else
        on_blk (blk_drop g) ;;
        ialloc_loop dev t inums
  end.

Definition ialloc (dev : Z) (t : InodeType) : M fs Inode :=
  ialloc_loop dev t (seqZ 1 (ninodes sb - 1)).

Definition expect_ok {A} (m : M fs (result A)) (msg : string) : M fs A :=
  let! r := m in match r with Ok x => ret x | Err _ => panic msg end.

Definition dot_name : list Z := <[0%nat := DOT]> (replicate DIRSIZ 0).
Definition dotdot_name : list Z := <[1%nat := DOT]> dot_name.

Definition create (cwd : option Inode) (path : list Z) (t : InodeType) (maj min : Z) : M fs Inode :=
  let! '(o, basename) := nameiparent cwd path (replicate DIRSIZ 0) in
  let! dir := unwrap o "create: parent not found" in
  ilock dir ;;
  let! ip := ialloc (i_dev dir) t in
  ilock ip ;;
  let! di := get_dinode (i_index ip) in
  set_dinode (i_index ip) (mkDinode (typ di) maj min 1 (size di) (addrs di)) ;;
  iupdate (i_index ip) ;;
  (if decide (t = Directory) then
     expect_ok (dirlink (i_index ip) dot_name (i_inum ip)) "create: create with '.'" ;;
     expect_ok (dirlink (i_index ip) dotdot_name (i_inum dir)) "create: create with '..'"
   else ret tt) ;;
  unlock_slot (i_index ip) ;;
  expect_ok (dirlink (i_index dir) basename (i_inum ip)) "create: dirlink" ;;
  (if decide (t = Directory) then
     let! dd := get_dinode (i_index dir) in
     set_dinode (i_index dir)
       (mkDinode (typ dd) (major dd) (minor dd) (wrap 16 (nlink dd + 1)) (size dd) (addrs dd)) ;;
     iupdate (i_index dir)
   else ret tt) ;;
  unlock_slot (i_index dir) ;;
  drop_inode dir ;;
  ret ip.

(** [nlink -= 1] and [iupdate] *)
Definition drop_link (i : nat) : M fs unit :=
  let! di := get_dinode i in
  set_dinode i (mkDinode (typ di) (major di) (minor di) (wrap 16 (nlink di - 1)) (size di) (addrs di)) ;;
  iupdate i.

Definition unlink (cwd : option Inode) (path : list Z) : M fs (result unit) :=
  let! '(o, name) := nameiparent cwd path (replicate DIRSIZ 0) in
  match o with
  | None => ret (Err "cannot find the parent")
  | Some dir =>
      if decide (name = dot_name) then drop_inode dir ;; ret (Err "cannot unlink '.'")
      else if decide (name = dotdot_name) then drop_inode dir ;; ret (Err "cannot unlink '..'")
      else
        ilock dir ;;
        let! o := dirlookup (i_index dir) name in
        match o with
        | None =>
            unlock_slot (i_index dir) ;;
            drop_inode dir ;;
            ret (Err "cannot find the file in the parent")
        | Some (ip, offset) =>
            ilock ip ;;
            let! di := get_dinode (i_index ip) in
            if nlink di <? 1 then panic "unlink: nlink < 1"
            else
              let! e := (if decide (typ di = Directory) then is_dir_empty (i_index ip) else ret true) in
              if negb e then
                unlock_slot (i_index ip) ;;
                drop_inode ip ;;
                unlock_slot (i_index dir) ;;
                drop_inode dir ;;
                ret (Err "the directory not empty")
              else
                expect_ok (writei (i_index dir) (Kernel (dirent_bytes dirent_empty)) offset DE_SIZE)
                  "unlink: writei failed" ;;
                (if decide (typ di = Directory) then drop_link (i_index dir) else ret tt) ;;
                unlock_slot (i_index dir) ;;
                drop_inode dir ;;
                drop_link (i_index ip) ;;
                unlock_slot (i_index ip) ;;
                drop_inode ip ;;
                ret (Ok tt)
        end
  end.

End ops.

(** ** Paths as lists of elements *)

Fixpoint take_while (p : Z -> bool) (l : list Z) : list Z :=
  match l with [] => [] | c :: l => if p c then c :: take_while p l else [] end.
Fixpoint drop_while (p : Z -> bool) (l : list Z) : list Z :=
  match l with [] => [] | c :: l' => if p c then drop_while p l' else l end.

(** The elements of a path: the maximal runs without a slash. *)
Fixpoint elements_from (cur : list Z) (str : list Z) : list (list Z) :=
  match str with
  | [] => match cur with [] => [] | _ => [rev cur] end
  | c :: str =>
      if is_slash c then
        match cur with [] => elements_from [] str | _ => rev cur :: elements_from [] str end
      else elements_from (c :: cur) str
  end.
Definition elements (str : list Z) : list (list Z) := elements_from [] str.

(** What [skip_elem] leaves in [name]: at most 29 bytes and a terminator. *)
Definition set_name (name e : list Z) : list Z := splice 0 (take (DIRSIZ - 1) e ++ [0]) name.

Lemma take_drop_while p l : take_while p l ++ drop_while p l = l.
Proof. induction l as [|c l IH]; simpl; [done|]. destruct (p c); simpl; by rewrite ?IH. Qed.

Lemma take_while_Forall p l : Forall (fun c => p c = true) (take_while p l).
Proof. induction l as [|c l IH]; simpl; [done|]. destruct (p c) eqn:E; [by constructor|done]. Qed.

Lemma drop_while_head p l c l' : drop_while p l = c :: l' -> p c = false.
Proof.
  induction l as [|x l IH]; simpl; [done|]. destruct (p x) eqn:E; [done|]. by intros [= -> ->].
Qed.

Lemma drop_while_incl p l c : c ∈ drop_while p l -> c ∈ l.
Proof. intros H. rewrite <-(take_drop_while p l). apply elem_of_app. by right. Qed.

Lemma skip_while_spec {S} p fuel l : forall (pre rest : list Z) c (s : S),
  Forall (fun c => p c = true) l -> p c = false -> (length l < fuel)%nat ->
  skip_while p fuel (pre ++ l ++ c :: rest) (length pre) s = Done ((length pre + length l)%nat, s).
Proof.
  revert l. induction fuel as [|fuel IH]; intros l pre rest c s Hl Hc Hf; [lia|]. cbn [skip_while].
  destruct l as [|x l].
  - simpl. rewrite (bind_Done _ _ _ c s) by (unfold index, get_at; by rewrite list_lookup_middle).
    rewrite Hc. by rewrite Nat.add_0_r.
  - apply Forall_cons_iff in Hl as [Hx Hl]. simpl.
    rewrite (bind_Done _ _ _ x s) by (unfold index, get_at; by rewrite list_lookup_middle).
    rewrite Hx. specialize (IH l (pre ++ [x]) rest c s Hl Hc ltac:(simpl in Hf; lia)).
    rewrite <-app_assoc, length_app in IH. simpl in IH. rewrite Nat.add_1_r in IH.
    rewrite IH. do 2 f_equal. lia.
Qed.

Lemma elements_from_elem e : forall cur str,
  Forall (fun c => is_slash c = false) e ->
  elements_from cur (e ++ str) = elements_from (rev e ++ cur) str.
Proof.
  induction e as [|c e IH]; intros cur str He; [done|]. apply Forall_cons_iff in He as [Hc He].
  simpl. rewrite Hc, IH by done. by rewrite <-app_assoc.
Qed.

Lemma elements_slashes l str :
  Forall (fun c => is_slash c = true) l -> elements (l ++ str) = elements str.
Proof.
  induction 1 as [|c l Hc Hl IH]; [done|]. unfold elements in *. simpl. by rewrite Hc.
Qed.

(** One element and the slashes behind it. *)
Lemma elements_cons e str :
  e <> [] -> Forall (fun c => is_slash c = false) e ->
  (str = [] \/ exists c str', str = c :: str' /\ is_slash c = true) ->
  elements (e ++ str) = e :: elements str.
Proof.
  intros Hne He Hstr. unfold elements. rewrite elements_from_elem, app_nil_r by done.
  assert (rev e <> []) as Hr by (intros E; apply Hne; rewrite <-(rev_involutive e), E; done).
  destruct Hstr as [->|(c & str' & -> & Hc)]; simpl.
  - destruct (rev e) as [|x l] eqn:E; [done|]. by rewrite <-E, rev_involutive.
  - rewrite Hc. destruct (rev e) as [|x l] eqn:E; [done|]. by rewrite <-E, rev_involutive.
Qed.

Lemma elements_from_nil cur str : elements_from cur str = [] -> Forall (fun c => is_slash c = true) str.
Proof.
  revert cur. induction str as [|c str IH]; intros cur; [done|]. simpl.
  destruct (is_slash c) eqn:E; intros H.
  - constructor; [done|]. destruct cur; [by eapply IH|done].
  - exfalso. clear IH. assert (Hne : c :: cur <> []) by done. revert H Hne. generalize (c :: cur).
    clear. induction str as [|c str IH]; intros cur; simpl.
    + by destruct cur.
    + destruct (is_slash c); [by destruct cur|]. intros H _. by eapply IH.
Qed.

Lemma is_elem_slash c : c <> 0 -> is_elem c = negb (is_slash c).
Proof. intros H. unfold is_elem, is_slash. rewrite (proj2 (Z.eqb_neq c 0)) by done. apply andb_true_r. Qed.

Lemma set_name_steps name (e rest : list Z) :
  length name = DIRSIZ ->
  forall len, len = (if Nat.leb (length name) (length e) then (length name - 1)%nat else length e) ->
  (len < length name)%nat /\ length (splice 0 (take len (e ++ rest)) name) = length name /\
  <[len := 0]> (splice 0 (take len (e ++ rest)) name) = set_name name e.
Proof.
  intros Hn len Hlen0.
  assert (Hlen : len = Nat.min (length e) (DIRSIZ - 1))
    by (unfold DIRSIZ in *; destruct (Nat.leb_spec (length name) (length e)); lia).
  assert (Ht : take len (e ++ rest) = take (DIRSIZ - 1) e).
  { rewrite take_app_le by lia. rewrite Hlen. destruct (decide (length e <= DIRSIZ - 1)%nat).
    - rewrite Nat.min_l, !take_ge by lia. done.
    - by rewrite Nat.min_r by lia. }
  assert (Hl : length (take (DIRSIZ - 1) e) = len) by (rewrite length_take; lia).
  assert (Hlt : (len < length name)%nat) by (unfold DIRSIZ in *; lia).
  rewrite Ht. split_and!; [done|rewrite length_splice; lia|].
  unfold set_name. rewrite <-splice_app by (rewrite Hl; simpl; lia). rewrite Hl.
  unfold splice at 2. cbn [length app]. rewrite Nat.add_1_r. apply insert_take_drop.
  rewrite length_splice; lia.
Qed.

(** The parts of a path: slashes, its first element and the slashes behind it. *)
Record path_parts (str s0 e l2 rest : list Z) : Prop := {
  pp_str : str = s0 ++ e ++ l2 ++ rest;
  pp_lead : Forall (fun c => is_slash c = true) s0;
  pp_elem : Forall (fun c => is_elem c = true) e;
  pp_some : e <> [];
  pp_trail : Forall (fun c => is_slash c = true) l2;
  pp_end : l2 = [] -> rest = [];
  pp_rest : rest = [] \/ exists c r, rest = c :: r /\ is_slash c = false
}.

Lemma path_parts_elements str s0 e l2 rest :
  path_parts str s0 e l2 rest -> elements str = e :: elements rest /\ (rest = [] <-> elements rest = []).
Proof.
  intros [-> H0 He Hne H2 Hend Hr]. split.
  - rewrite elements_slashes by done. rewrite elements_cons; [by rewrite elements_slashes|done| |].
    + eapply Forall_impl; [exact He|]. intros x Hx. unfold is_elem in Hx.
      apply andb_prop in Hx as [Hx _]. by apply negb_true_iff in Hx.
    + destruct l2 as [|c l2']; [left; by rewrite Hend|right]. apply Forall_cons_iff in H2 as [Hc _].
      by exists c, (l2' ++ rest).
  - split; [by intros ->|]. intros H. destruct Hr as [|(c & r & -> & Hc)]; [done|].
    apply elements_from_nil in H. apply Forall_cons_iff in H as [H _]. congruence.
Qed.

Lemma path_split str :
  Forall (fun c => c <> 0) str ->
  (Forall (fun c => is_slash c = true) str /\ elements str = []) \/
  exists s0 e l2 rest, path_parts str s0 e l2 rest.
Proof.
  intros Hnz. pose proof (take_drop_while is_slash str) as Hstr.
  pose proof (take_while_Forall is_slash str) as Hs0.
  destruct (drop_while is_slash str) as [|c s1] eqn:E1.
  { left. rewrite app_nil_r in Hstr. rewrite Hstr in Hs0. split; [done|].
    rewrite <-(app_nil_r str). by apply elements_slashes. }
  right. set (r1 := drop_while is_elem (c :: s1)).
  assert (Hnz1 : Forall (fun c => c <> 0) (c :: s1)) by (rewrite <-Hstr in Hnz; by apply Forall_app in Hnz as [_ ?]).
  exists (take_while is_slash str), (take_while is_elem (c :: s1)), (take_while is_slash r1), (drop_while is_slash r1).
  split.
  - rewrite (take_drop_while is_slash r1). unfold r1. by rewrite (take_drop_while is_elem (c :: s1)).
  - done.
  - apply take_while_Forall.
  - apply drop_while_head in E1. apply Forall_cons_iff in Hnz1 as [Hc _]. simpl. by rewrite is_elem_slash, E1.
  - apply take_while_Forall.
  - rewrite <-(take_drop_while is_elem (c :: s1)) in Hnz1. apply Forall_app in Hnz1 as [_ Hnzr]. fold r1 in Hnzr.
    destruct r1 as [|x r] eqn:E; [done|]. apply drop_while_head in E. apply Forall_cons_iff in Hnzr as [Hx _].
    rewrite is_elem_slash in E by done. apply negb_false_iff in E. simpl. by rewrite E.
  - destruct (drop_while is_slash r1) as [|x r] eqn:E; [by left|right]. exists x, r. split; [done|].
    by eapply drop_while_head.
Qed.

(** [skip_elem] on a path of slashes, and on one with an element. *)
Lemma skip_elem_none {S} pre str junk name (s : S) :
  Forall (fun c => is_slash c = true) str ->
  skip_elem (pre ++ str ++ 0 :: junk) (length pre) name s = Done ((0%nat, name), s).
Proof.
  intros Hs. unfold skip_elem. cbv zeta.
  rewrite (bind_Done _ _ _ (length pre + length str)%nat s).
  2:{ apply skip_while_spec; [done|done|rewrite !length_app; simpl; lia]. }
  rewrite (bind_Done _ _ _ 0 s); [done|]. unfold index, get_at. rewrite app_assoc.
  by rewrite list_lookup_middle by by rewrite length_app.
Qed.

Lemma skip_elem_some {S} pre str s0 e l2 rest junk name (s : S) :
  length name = DIRSIZ -> path_parts str s0 e l2 rest ->
  skip_elem (pre ++ str ++ 0 :: junk) (length pre) name s =
    Done (((length pre + length (s0 ++ e ++ l2))%nat, set_name name e), s).
Proof.
  intros Hn [-> H0 He Hne H2 Hend Hr]. set (path := pre ++ _). destruct e as [|c e']; [done|]. set (e := c :: e') in *.
  apply Forall_cons_iff in He as Hc. destruct Hc as [Hc _].
  assert (Hp0 : path = pre ++ s0 ++ e ++ (l2 ++ rest) ++ 0 :: junk) by (unfold path; by rewrite <-!app_assoc).
  assert (Hp1 : path = (pre ++ s0) ++ e ++ (l2 ++ rest) ++ 0 :: junk) by (rewrite Hp0; by rewrite <-!app_assoc).
  assert (Hp2 : path = ((pre ++ s0) ++ e) ++ l2 ++ rest ++ 0 :: junk) by (rewrite Hp0; by rewrite <-!app_assoc).
  assert (Hf1 : exists c1 r1, (l2 ++ rest) ++ 0 :: junk = c1 :: r1 /\ is_elem c1 = false).
  { destruct l2 as [|c1 l2']; [rewrite Hend by done; by exists 0, junk|]. apply Forall_cons_iff in H2 as [Hc1 _].
    eexists c1, _. split; [done|]. unfold is_elem, is_slash in *. by rewrite Hc1. }
  assert (Hf2 : exists c2 r2, rest ++ 0 :: junk = c2 :: r2 /\ is_slash c2 = false).
  { destruct Hr as [->|(c2 & r & -> & Hc2)]; [by exists 0, junk|]. by eexists c2, _. }
  destruct Hf1 as (c1 & r1 & Hf1 & Hc1), Hf2 as (c2 & r2 & Hf2 & Hc2). unfold skip_elem. cbv zeta.
  set (fuel := (1 + length path)%nat).
  assert (Hfuel : (length pre + length s0 + length e + length l2 < fuel)%nat).
  { unfold fuel. rewrite Hp0, !length_app. lia. }
  clearbody fuel. rewrite (bind_Done _ _ _ (length pre + length s0)%nat s).
  2:{ rewrite Hp0. unfold e. cbn [app]. apply skip_while_spec; [done| |lia].
      unfold is_elem in Hc. apply andb_prop in Hc as [Hc _]. by apply negb_true_iff in Hc. }
  rewrite (bind_Done _ _ _ c s).
  2:{ unfold index, get_at. by rewrite Hp1, lookup_app_r, length_app, Nat.sub_diag by (rewrite length_app; lia). }
  rewrite (proj2 (Z.eqb_neq c 0)) by (unfold is_elem in Hc; intros ->; by rewrite andb_false_r in Hc).
  rewrite (bind_Done _ _ _ (length pre + length s0 + length e)%nat s).
  2:{ rewrite Hp1, Hf1, <-length_app. apply skip_while_spec; [done|done|lia]. }
  replace (length pre + length s0 + length e - (length pre + length s0))%nat with (length e) by lia.
  replace (drop (length pre + length s0) path) with (e ++ (l2 ++ rest) ++ 0 :: junk)
    by (rewrite Hp1; symmetry; apply drop_app_length'; by rewrite length_app).
  destruct (set_name_steps name e ((l2 ++ rest) ++ 0 :: junk) Hn _ eq_refl) as (Hlt & Hlen & Hset).
  rewrite (bind_Done _ _ _ tt s) by (rewrite (proj2 (Nat.ltb_lt _ _)); [done|lia]).
  rewrite Hset, (bind_Done _ _ _ (length pre + length s0 + length e + length l2)%nat s).
  2:{ replace (length pre + length s0 + length e)%nat with (length ((pre ++ s0) ++ e)) by by rewrite !length_app.
      rewrite Hp2, Hf2. apply skip_while_spec; [done|done|lia]. }
  unfold ret. do 3 f_equal. rewrite !length_app. lia.
Qed.

(** [skip_elem] splits a path at its slashes.  On a terminated path it
    leaves the next element, cut to 29 bytes and terminated, in [name] and
    returns the position behind the slashes that follow it, from which the
    remaining elements are those of the path without the first; it returns 0
    and keeps [name] exactly when no element is left.  The position returned
    is that of the terminator exactly when the element was the last. *)
Theorem skip_elem_splits {S} (pre str junk name : list Z) (s : S) :
  length name = DIRSIZ -> Forall (fun c => c <> 0) str ->
  match elements str with
  | [] => skip_elem (pre ++ str ++ 0 :: junk) (length pre) name s = Done ((0%nat, name), s)
  | e :: es => exists l rest, str = l ++ rest /\ elements rest = es /\ (rest = [] <-> es = []) /\
      skip_elem (pre ++ str ++ 0 :: junk) (length pre) name s =
        Done (((length pre + length l)%nat, set_name name e), s)
  end.
Proof.
  intros Hn Hnz. destruct (path_split str Hnz) as [[Hs ->]|(s0 & e & l2 & rest & Hp)]; [by apply skip_elem_none|].
  destruct (path_parts_elements _ _ _ _ _ Hp) as [-> Hend]. exists (s0 ++ e ++ l2), rest. split_and!; try done.
  - rewrite (pp_str _ _ _ _ _ Hp). by rewrite <-!app_assoc.
  - by apply (skip_elem_some _ _ _ _ _ rest).
Qed.

(** ** Encodings *)

Lemma type_of_code t : type_of (type_code t) = Some t.
Proof. by destruct t. Qed.

Record dinode_ok (di : DiskInode) : Prop := {
  di_major : is_u16 (major di);
  di_minor : is_u16 (minor di);
  di_nlink : is_u16 (nlink di);
  di_size : is_u32 (size di);
  di_len : length (addrs di) = (NDIRECT + 2)%nat;
  di_addrs : Forall is_u32 (addrs di)
}.

Lemma length_dinode_bytes di : dinode_ok di -> length (dinode_bytes di) = 64%nat.
Proof.
  intros H. unfold dinode_bytes. rewrite !length_app, !length_u16_bytes, length_words_bytes.
  simpl. rewrite (di_len _ H). done.
Qed.

Lemma dinode_of_bytes di : dinode_ok di -> dinode_of (dinode_bytes di) = Some di.
Proof.
  intros H. unfold dinode_of, dinode_bytes.
  assert (Ht : is_u16 (type_code (typ di))) by (unfold is_u16; destruct (typ di); simpl; lia).
  destruct H as [H1 H2 H3 H4 H5 H6].
  assert (Hw : bytes_words 14 (words_bytes (size di :: addrs di)) = size di :: addrs di).
  { rewrite <-(app_nil_r (words_bytes _)). replace 14%nat with (length (size di :: addrs di))
      by (simpl; rewrite H5; done). apply bytes_words_bytes. by constructor. }
  pose proof (u16_bytes_two (type_code (typ di))) as (a0 & a1 & E0).
  pose proof (u16_bytes_two (major di)) as (b0 & b1 & E1).
  pose proof (u16_bytes_two (minor di)) as (c0 & c1 & E2).
  pose proof (u16_bytes_two (nlink di)) as (d0 & d1 & E3).
  rewrite E0, E1, E2, E3. cbn [app take drop]. rewrite ?drop_0, ?take_0.
  rewrite <-E0, <-E1, <-E2, <-E3, !bytes_u16_bytes by done. rewrite type_of_code, Hw. by destruct di.
Qed.

Lemma dirent_of_bytes de rest :
  is_u16 (de_inum de) -> length (de_name de) = DIRSIZ -> dirent_of (dirent_bytes de ++ rest) = de.
Proof.
  intros H1 H2. unfold dirent_of, dirent_bytes. rewrite <-app_assoc.
  rewrite take_app_length', drop_app_length', take_app_length' by (by rewrite ?length_u16_bytes).
  rewrite bytes_u16_bytes by done. by destruct de.
Qed.

(** Inodes in a block. *)
Lemma inode_offset_bound inum : 0 <= inum -> (inode_offset inum + 64 <= 4096)%nat.
Proof.
  intros H. unfold inode_offset, DINODE_SIZE. change IPB with 64.
  pose proof (Z.mod_pos_bound inum 64 ltac:(lia)). lia.
Qed.

Lemma read_dinode_own d inum di :
  0 <= inum -> length d = Z.to_nat BSIZE -> dinode_ok di ->
  read_dinode (splice (inode_offset inum) (dinode_bytes di) d) inum = Some di.
Proof.
  intros Hi Hd H. unfold read_dinode. change (Z.to_nat DINODE_SIZE) with 64%nat.
  rewrite <-(length_dinode_bytes di H), splice_read; [by apply dinode_of_bytes|].
  pose proof (inode_offset_bound inum Hi). change (Z.to_nat BSIZE) with 4096%nat in Hd. lia.
Qed.

Lemma take_drop_splice off src d off' n :
  (off + length src <= length d)%nat -> (off' + n <= off \/ off + length src <= off')%nat ->
  take n (drop off' (splice off src d)) = take n (drop off' d).
Proof.
  intros Hl Ho. apply list_eq. intros i. destruct (decide (i < n)%nat) as [Hi|Hi].
  - rewrite !lookup_take_lt, !lookup_drop by lia. apply splice_lookup_out; lia.
  - rewrite !lookup_take_ge by lia. done.
Qed.

Lemma read_dinode_other d inum inum' di :
  0 <= inum -> 0 <= inum' -> length d = Z.to_nat BSIZE -> dinode_ok di ->
  inum `mod` IPB <> inum' `mod` IPB ->
  read_dinode (splice (inode_offset inum) (dinode_bytes di) d) inum' = read_dinode d inum'.
Proof.
  intros Hi Hi' Hd H Hne. unfold read_dinode. change (Z.to_nat DINODE_SIZE) with 64%nat.
  pose proof (inode_offset_bound inum Hi). change (Z.to_nat BSIZE) with 4096%nat in Hd.
  rewrite take_drop_splice; rewrite ?length_dinode_bytes by done; [done|lia|].
  unfold inode_offset, DINODE_SIZE in *. change IPB with 64 in *.
  pose proof (Z.mod_pos_bound inum 64 ltac:(lia)). pose proof (Z.mod_pos_bound inum' 64 ltac:(lia)). lia.
Qed.

(** ** Operations inside a transaction *)

Section txn.
Context {B : Type} `{!BlockOps B} {HL : BlockLaws B} {U : Type} `{!UserCopy U} (sb : SuperBlock).
Implicit Types s : @fs B U.

Lemma wp_on_blk {A} (m : M B A) s (Q : A -> fs -> Prop) :
  wp m (blk s) (fun x b => Q x (mkFsState b (user s) (meta s) (data s))) -> wp (on_blk m) s Q.
Proof using Type. unfold wp, on_blk. by destruct (m (blk s)) as [[x b]| | | |]. Qed.

Lemma wp_get_slot s i x (Q : slot -> fs -> Prop) : data s !! i = Some x -> Q x s -> wp (get_slot i) s Q.
Proof using Type. intros Hx HQ. unfold get_slot. apply wp_bind, wp_get. by eapply wp_unwrap. Qed.

Lemma wp_get_meta s i x (Q : InodeMeta -> fs -> Prop) :
  meta s !! i = Some x -> Q x s -> wp (get_meta i) s Q.
Proof using Type. intros Hx HQ. unfold get_meta. apply wp_bind, wp_get. by eapply wp_unwrap. Qed.

Lemma wp_get_valid s i x v (Q : Z * Z -> fs -> Prop) :
  data s !! i = Some x -> s_valid x = Some v -> Q v s -> wp (get_valid i) s Q.
Proof using Type. intros Hx Hv HQ. eapply wp_bind, wp_get_slot; [done|]. by eapply wp_unwrap. Qed.

Lemma wp_get_dinode s i x (Q : DiskInode -> fs -> Prop) :
  data s !! i = Some x -> Q (s_dinode x) s -> wp (get_dinode i) s Q.
Proof using Type. intros Hx HQ. eapply wp_bind, wp_get_slot; [done|]. by apply wp_ret. Qed.

(** Taking, changing and releasing a buffer. *)
Lemma wp_blk_read {s t} b (Q : Bio.BufGuard -> fs -> Prop) :
  in_txn (blk s) t -> usable b -> t_held t !! b = None -> room 0 t ->
  (forall g b', Bio.gblockno g = b ->
     in_txn b' (mkTxn (t_view t) (<[b := g]> (t_held t)) (t_dirty t) (t_logged t)) ->
     Q g (mkFsState b' (user s) (meta s) (data s))) ->
  wp (on_blk (blk_read ROOTDEV b)) s Q.
Proof using Type.
  intros Ht Hu Hh Hr HQ. apply wp_on_blk. eapply wp_mono; [eapply law_read; [done|done|done|room_lia]|].
  intros g b' [Hg Hb]. by apply HQ.
Qed.

Lemma wp_blk_data {s t} b g (Q : block -> fs -> Prop) :
  in_txn (blk s) t -> t_held t !! b = Some g ->
  (forall b', in_txn b' t -> Q (t_view t b) (mkFsState b' (user s) (meta s) (data s))) ->
  wp (on_blk (blk_data g)) s Q.
Proof using Type.
  intros Ht Hh HQ. apply wp_on_blk. eapply wp_mono; [by eapply law_data|]. intros d b' [-> Hb].
  by apply HQ.
Qed.

Lemma wp_blk_set {s t} b g d (Q : unit -> fs -> Prop) :
  in_txn (blk s) t -> t_held t !! b = Some g ->
  (forall b', in_txn b' (mkTxn (upd (t_view t) b d) (t_held t) ({[b]} ∪ t_dirty t) (t_logged t)) ->
     Q tt (mkFsState b' (user s) (meta s) (data s))) ->
  wp (on_blk (blk_set g d)) s Q.
Proof using Type.
  intros Ht Hh HQ. apply wp_on_blk. eapply wp_mono; [by eapply law_set|]. intros [] b' Hb. by apply HQ.
Qed.

Lemma wp_blk_log {s t} b g (Q : unit -> fs -> Prop) :
  in_txn (blk s) t -> t_held t !! b = Some g -> (base.size (t_logged t) < capacity)%nat ->
  (forall b', in_txn b' (mkTxn (t_view t) (t_held t) (t_dirty t ∖ {[b]}) ({[b]} ∪ t_logged t)) ->
     Q tt (mkFsState b' (user s) (meta s) (data s))) ->
  wp (on_blk (blk_log g)) s Q.
Proof using Type.
  intros Ht Hh Hc HQ. apply wp_on_blk. eapply wp_mono; [by eapply law_log|]. intros [] b' Hb. by apply HQ.
Qed.

Lemma wp_blk_drop {s t} b g (Q : unit -> fs -> Prop) :
  in_txn (blk s) t -> t_held t !! b = Some g -> b ∉ t_dirty t ->
  (forall b', in_txn b' (mkTxn (t_view t) (delete b (t_held t)) (t_dirty t) (t_logged t)) ->
     Q tt (mkFsState b' (user s) (meta s) (data s))) ->
  wp (on_blk (blk_drop g)) s Q.
Proof using Type.
  intros Ht Hh Hd HQ. apply wp_on_blk. eapply wp_mono; [by eapply law_drop|]. intros [] b' Hb. by apply HQ.
Qed.

(** A block that can be taken: usable, and neither held nor changed. *)
Definition free_block (t : txn_state) (b : Z) : Prop :=
  usable b /\ t_held t !! b = None /\ b ∉ t_dirty t.

(** Read a block, look at it, and put it back. *)
Lemma wp_peek {A} s t b (k : block -> M fs A) (Q : A -> fs -> Prop) :
  in_txn (blk s) t -> free_block t b -> room 0 t ->
  (forall b', in_txn b' t -> wp (k (t_view t b)) (mkFsState b' (user s) (meta s) (data s)) Q) ->
  wp (let! g := on_blk (blk_read ROOTDEV b) in
      let! d := on_blk (blk_data g) in
      on_blk (blk_drop g) ;; k d) s Q.
Proof using Type.
  intros Ht (Hu & Hh & Hd) Hr HQ.
  eapply wp_bind, (wp_blk_read b); try done. intros g b1 _ H1.
  eapply wp_bind, (wp_blk_data b); [exact H1|apply lookup_insert_eq|]. intros b2 H2.
  eapply wp_bind, (wp_blk_drop b); [exact H2|apply lookup_insert_eq|done|]. intros b3 H3. simpl in H3.
  rewrite delete_insert_id in H3 by done. apply HQ. by destruct t.
Qed.

(** Read a block, replace it, log it and put it back. *)
Lemma wp_update s t b (f : block -> block) (Q : unit -> fs -> Prop) :
  in_txn (blk s) t -> free_block t b -> room 1 t ->
  (forall b', in_txn b' (mkTxn (upd (t_view t) b (f (t_view t b))) (t_held t) (t_dirty t)
                           ({[b]} ∪ t_logged t)) ->
     Q tt (mkFsState b' (user s) (meta s) (data s))) ->
  wp (let! g := on_blk (blk_read ROOTDEV b) in
      let! d := on_blk (blk_data g) in
      on_blk (blk_set g (f d)) ;;
      on_blk (blk_log g) ;;
      on_blk (blk_drop g)) s Q.
Proof using Type.
  intros Ht (Hu & Hh & Hd) Hr HQ.
  eapply wp_bind, (wp_blk_read b); [done|done|done|room_lia|]. intros g b1 _ H1.
  eapply wp_bind, (wp_blk_data b); [exact H1|apply lookup_insert_eq|]. intros b2 H2.
  eapply wp_bind, (wp_blk_set b); [exact H2|apply lookup_insert_eq|]. intros b3 H3.
  eapply wp_bind, (wp_blk_log b); [exact H3|apply lookup_insert_eq|room_lia|]. intros b4 H4.
  eapply (wp_blk_drop b); [exact H4|apply lookup_insert_eq|set_solver|]. intros b5 H5. simpl in *.
  rewrite delete_insert_id in H5 by done. apply HQ.
  by replace (({[b]} ∪ t_dirty t) ∖ {[b]}) with (t_dirty t) in H5 by set_solver.
Qed.

(** ** Inodes *)

(** The inode area that [mkfs] lays out. *)
Record inode_area (v : Z -> block) : Prop := {
  ia_start : 0 <= inodestart sb /\ inodestart sb + ninodes sb / IPB < 2 ^ 32;
  ia_block inum : 0 <= inum < ninodes sb ->
    usable (inode_block sb inum) /\ length (v (inode_block sb inum)) = Z.to_nat BSIZE /\
    ~ is_bitmap sb (inode_block sb inum)
}.

(** The inode [inum] of a view. *)
Definition disk_inode (v : Z -> block) (inum : Z) : option DiskInode :=
  read_dinode (v (inode_block sb inum)) inum.

Lemma inode_block_small v inum :
  inode_area v -> 0 <= inum < ninodes sb -> inode_block sb inum = inum / IPB + inodestart sb.
Proof using Type.
  intros [[H1 H2] _] Hi. unfold inode_block. change IPB with 64 in *.
  assert (0 <= inum / 64) by (apply Z.div_pos; lia).
  assert (inum / 64 <= ninodes sb / 64) by (apply Z.div_le_mono; lia).
  apply u32_add_small; lia.
Qed.

Lemma same_inode v inum inum' :
  inode_area v -> 0 <= inum < ninodes sb -> 0 <= inum' < ninodes sb ->
  inode_block sb inum = inode_block sb inum' -> inum `mod` IPB = inum' `mod` IPB -> inum = inum'.
Proof using Type.
  intros Hv H1 H2 Hb Hm. rewrite !(inode_block_small v) in Hb by done.
  rewrite (Z.div_mod inum IPB), (Z.div_mod inum' IPB) by done. lia.
Qed.

Definition store_inode (v : Z -> block) (inum : Z) (di : DiskInode) : Z -> block :=
  upd v (inode_block sb inum) (splice (inode_offset inum) (dinode_bytes di) (v (inode_block sb inum))).

Lemma disk_inode_store v inum di inum' :
  inode_area v -> dinode_ok di -> 0 <= inum < ninodes sb -> 0 <= inum' < ninodes sb ->
  disk_inode (store_inode v inum di) inum' = if decide (inum' = inum) then Some di else disk_inode v inum'.
Proof using Type.
  intros Hv Hd Hi Hi'. destruct (ia_block _ Hv inum Hi) as (_ & Hl & _). unfold disk_inode, store_inode.
  case_decide as E.
  - subst. rewrite upd_eq. apply read_dinode_own; [lia|done|done].
  - destruct (decide (inode_block sb inum' = inode_block sb inum)) as [Eb|Eb].
    + rewrite Eb, upd_eq. apply read_dinode_other; [lia|lia|done|done|].
      intros Hm. apply E. symmetry. by apply (same_inode v).
    + by rewrite upd_ne.
Qed.

Lemma length_store_inode v inum di b :
  inode_area v -> dinode_ok di -> 0 <= inum < ninodes sb ->
  length (store_inode v inum di b) = length (v b).
Proof using Type.
  intros Hv Hd Hi. destruct (ia_block _ Hv inum Hi) as (_ & Hl & _). unfold store_inode, upd.
  case_decide as E; [|done]. subst. apply length_splice. rewrite length_dinode_bytes, Hl by done.
  change (Z.to_nat BSIZE) with 4096%nat. apply inode_offset_bound. lia.
Qed.

Lemma inode_area_store v inum di :
  inode_area v -> dinode_ok di -> 0 <= inum < ninodes sb -> inode_area (store_inode v inum di).
Proof using Type.
  intros Hv Hd Hi. destruct (Hv) as [H1 H2]. split; [done|]. intros inum' Hi'.
  rewrite length_store_inode by done. auto.
Qed.

Lemma iupdate_spec s t i x inum (Q : unit -> fs -> Prop) :
  in_txn (blk s) t -> data s !! i = Some x -> s_valid x = Some (ROOTDEV, inum) ->
  free_block t (inode_block sb inum) -> room 1 t ->
  (forall b', in_txn b' (mkTxn (store_inode (t_view t) inum (s_dinode x)) (t_held t) (t_dirty t)
                           ({[inode_block sb inum]} ∪ t_logged t)) ->
     Q tt (mkFsState b' (user s) (meta s) (data s))) ->
  wp (iupdate sb i) s Q.
Proof using Type.
  intros Ht Hx Hv Hf Hr HQ. unfold iupdate. eapply wp_bind, wp_get_valid; [done|done|].
  eapply wp_bind, wp_get_dinode; [done|].
  apply (wp_update s t (inode_block sb inum)
    (fun d => splice (inode_offset inum) (dinode_bytes (s_dinode x)) d)); done.
Qed.

Lemma wp_set_slot s i x (Q : unit -> fs -> Prop) :
  Q tt (mkFsState (blk s) (user s) (meta s) (<[i := x]> (data s))) -> wp (set_slot i x) s Q.
Proof using Type. done. Qed.

Lemma wp_lock_slot s i x (Q : unit -> fs -> Prop) :
  data s !! i = Some x -> s_locked x = false ->
  Q tt (mkFsState (blk s) (user s) (meta s) (<[i := mkSlot true (s_valid x) (s_dinode x)]> (data s))) ->
  wp (lock_slot i) s Q.
Proof using Type. intros Hx Hl HQ. eapply wp_bind, wp_get_slot; [done|]. by rewrite Hl. Qed.

Lemma wp_unlock_slot s i x (Q : unit -> fs -> Prop) :
  data s !! i = Some x ->
  Q tt (mkFsState (blk s) (user s) (meta s) (<[i := mkSlot false (s_valid x) (s_dinode x)]> (data s))) ->
  wp (unlock_slot i) s Q.
Proof using Type. intros Hx HQ. by eapply wp_bind, wp_get_slot. Qed.

Lemma wp_set_dinode s i x di (Q : unit -> fs -> Prop) :
  data s !! i = Some x ->
  Q tt (mkFsState (blk s) (user s) (meta s) (<[i := mkSlot (s_locked x) (s_valid x) di]> (data s))) ->
  wp (set_dinode i di) s Q.
Proof using Type. intros Hx HQ. by eapply wp_bind, wp_get_slot. Qed.

Lemma wp_set_valid s i x v (Q : unit -> fs -> Prop) :
  data s !! i = Some x ->
  Q tt (mkFsState (blk s) (user s) (meta s) (<[i := mkSlot (s_locked x) v (s_dinode x)]> (data s))) ->
  wp (set_valid i v) s Q.
Proof using Type. intros Hx HQ. by eapply wp_bind, wp_get_slot. Qed.

(** [ilock] of an unlocked slot: the contents of a valid slot are kept, those
    of an invalid one are read from the inode area. *)
Definition loads (v : Z -> block) (x : slot) (inum : Z) (di : DiskInode) : Prop :=
  if s_valid x then s_dinode x = di else disk_inode v inum = Some di /\ typ di <> Empty.

Ltac slot_here := cbn [data]; apply list_lookup_insert_eq; rewrite ?length_insert; eapply lookup_lt_Some; eassumption.

Lemma ilock_spec s t ip x di (Q : unit -> fs -> Prop) :
  in_txn (blk s) t -> i_dev ip = ROOTDEV ->
  data s !! i_index ip = Some x -> s_locked x = false ->
  (forall v, s_valid x = Some v -> v = (ROOTDEV, i_inum ip)) ->
  loads (t_view t) x (i_inum ip) di ->
  free_block t (inode_block sb (i_inum ip)) -> room 1 t ->
  (forall b', in_txn b' t ->
     Q tt (mkFsState b' (user s) (meta s)
             (<[i_index ip := mkSlot true (Some (ROOTDEV, i_inum ip)) di]> (data s)))) ->
  wp (ilock sb ip) s Q.
Proof using Type.
  intros Ht Hdev Hx Hl Hv Hd (Hu & Hh & Hy) Hr HQ. unfold ilock. eapply wp_bind, wp_lock_slot; [done|done|].
  eapply wp_bind, wp_get_slot; [slot_here|].
  unfold loads in Hd. destruct (s_valid x) as [v|] eqn:Ev; cbn [s_valid].
  - apply wp_ret. rewrite (Hv v), Hd by done. by apply HQ.
  - rewrite Hdev. destruct Hd as [Hd Hty]. set (b := inode_block sb (i_inum ip)) in *.
    eapply wp_bind, wp_blk_read; [exact Ht|exact Hu|exact Hh|room_lia|]. intros g b1 Hg Hb1.
    eapply wp_bind, (wp_blk_data b g); [exact Hb1|apply lookup_insert_eq|]. intros b2 Hb2.
    cbn [t_view user meta data blk] in *. eapply wp_bind, wp_unwrap; [exact Hd|].
    eapply wp_bind, wp_set_dinode; [slot_here|].
    eapply wp_bind, (wp_blk_drop b g); [exact Hb2|apply lookup_insert_eq|done|]. intros b3 Hb3.
    rewrite decide_False by done. eapply wp_set_valid; [slot_here|].
    cbn in *. rewrite !list_insert_insert_eq. rewrite delete_insert_id in Hb3 by done.
    apply HQ. by destruct t.
Qed.

(** C11: an inode stored by [iupdate] is the one a later [ilock] finds: with
    the inode in a locked, valid slot [i], [iupdate] writes it into its block of
    the inode area, and [ilock] through any slot [j] that has been recycled in
    between (possibly [i] itself, whatever its old contents) reads back exactly
    the same type, device numbers, link count, size and addresses.  No other
    inode of the disk changes. *)
Theorem iupdate_ilock s t i j inum di old :
  in_txn (blk s) t -> inode_area (t_view t) -> 0 <= inum < ninodes sb ->
  data s !! i = Some (mkSlot true (Some (ROOTDEV, inum)) di) -> dinode_ok di -> typ di <> Empty ->
  (j < length (data s))%nat -> free_block t (inode_block sb inum) -> room 2 t ->
  wp (iupdate sb i ;; set_slot j (mkSlot false None old) ;; ilock sb (mkInode ROOTDEV inum j)) s
    (fun _ s' => data s' = <[j := mkSlot true (Some (ROOTDEV, inum)) di]> (data s) /\ meta s' = meta s /\
       exists t', in_txn (blk s') t' /\ inode_area (t_view t') /\
         forall inum', 0 <= inum' < ninodes sb ->
           disk_inode (t_view t') inum' = if decide (inum' = inum) then Some di else disk_inode (t_view t) inum').
Proof using Type.
  intros Ht Ha Hi Hx Hd Hty Hj Hf Hr. pose proof Hf as (Hu & Hh & Hy).
  eapply wp_bind, iupdate_spec; [exact Ht|exact Hx|done|done|room_lia|]. intros b1 H1.
  apply wp_bind, wp_set_slot. cbn [blk user meta data s_dinode] in *.
  eapply ilock_spec; [exact H1|done|by apply list_lookup_insert_eq|done|done| |done| |].
  - split; [|done]. cbn. by rewrite disk_inode_store, decide_True.
  - room_lia.
  - intros b2 H2. cbn. rewrite list_insert_insert_eq. split; [done|]. split; [done|].
    eexists. split; [exact H2|]. cbn. split; [by apply inode_area_store|].
    intros inum' Hi'. by apply disk_inode_store.
Qed.

End txn.

(** ** A sample file system

    The sample disk of the bitmap, an empty inode table with one slot taken. *)

Definition no_user : UserCopy unit := {|
  copy_to_user _ _ := panic "no process";
  copy_from_user _ _ := panic "no process"
|}.

Definition sample_fs (f : Log.fsys) (l : list slot) : fs :=
  mkFsState f tt (replicate NINODE meta_new) l.

Lemma sample_inode_area :
  inode_area (HL := Bmap.sample_laws) Bmap.sample_sb (Bio.disk_get Bmap.sample_disk).
Proof.
  split; [by vm_compute|]. intros inum Hi. cbn in Hi.
  assert (Hb : 32 <= inode_block Bmap.sample_sb inum < 36).
  { unfold inode_block. change IPB with 64. cbn.
    assert (0 <= inum / 64 < 4) by (split; [apply Z.div_pos|apply Z.div_lt_upper_bound]; lia).
    rewrite u32_add_small; lia. }
  split; [split; unfold is_u32, Log.in_log; lia|]. split.
  - unfold Bio.disk_get, Bmap.sample_disk. rewrite lookup_singleton_ne by lia.
    vm_compute. reflexivity.
  - intros ?%Bmap.sample_bitmap_block. lia.
Qed.

Lemma skip_elem_splits_witness :
  exists l rest, [47; 47; 98; 98; 47; 99] = l ++ rest /\ elements rest = [[99]] /\
    skip_elem ([47; 97] ++ [47; 47; 98; 98; 47; 99] ++ [0; 7]) 2 (replicate DIRSIZ 0) tt =
      Done (((2 + length l)%nat, set_name (replicate DIRSIZ 0) [98; 98]), tt).
Proof.
  destruct (skip_elem_splits [47; 97] [47; 47; 98; 98; 47; 99] [7] (replicate DIRSIZ 0) tt)
    as (l & rest & E1 & E2 & _ & E3); [reflexivity|by repeat constructor|].
  exists l, rest. split; [exact E1|]. split; [exact E2|exact E3].
Defined.

Definition sample_dinode : DiskInode :=
  mkDinode File 0 0 1 5000 (41 :: 42 :: replicate 11 0).

Lemma iupdate_ilock_witness :
  exists f, wp
    (iupdate Bmap.sample_sb 0 ;; set_slot 0 (mkSlot false None dinode_new) ;;
     ilock Bmap.sample_sb (mkInode ROOTDEV 70 0))
    (sample_fs f [mkSlot true (Some (ROOTDEV, 70)) sample_dinode])
    (fun _ s => data s = [mkSlot true (Some (ROOTDEV, 70)) sample_dinode]).
Proof.
  destruct (txn_begin 2 30 Log.sample_geometry Bmap.sample_disk Bmap.sample_disk_clean)
    as (f0 & f & _ & _ & _ & Ht).
  exists f. eapply wp_mono.
  - apply (iupdate_ilock (HL := Bmap.sample_laws) Bmap.sample_sb
      (sample_fs f [mkSlot true (Some (ROOTDEV, 70)) sample_dinode]) _ 0 0 70 sample_dinode dinode_new Ht
      sample_inode_area).
    + simpl. lia.
    + reflexivity.
    + split; [by vm_compute..|reflexivity|by repeat (constructor; [by vm_compute|])].
    + done.
    + simpl. lia.
    + split; [split; vm_compute; [split; congruence|intros [? ?]; congruence]|]. split; [reflexivity|set_solver].
    + vm_compute. lia.
  - intros [] s (Hs & _). exact Hs.
Defined.

End Fs.
