(* ===== verification/Inodes.v ===== *)
(** * The inode table

    The theory of [iget], [idup] and [iput] of [kernel/src/fs.rs] (modelled in
    [Fs.v]): an [Inode] value of the program is a handle on a slot of the table,
    and the invariant ties the reference counts to the handles alive. *)

From S2P Require Import Prelude Param Bytes Bio Log Blocks Bmap Fs.

Module Inodes.
Import Bmap Fs.

(** ** Handles and reference counts *)

Definition key (m : InodeMeta) : Z * Z := (m_dev m, m_inum m).
Definition ikey (ip : Inode) : Z * Z := (i_dev ip, i_inum ip).

(** The handles on slot [j]. *)
Definition refs (H : list Inode) (j : nat) : Z :=
  Z.of_nat (length (filter (fun ip => i_index ip = j) H)).

Lemma refs_cons ip H j : refs (ip :: H) j = (if decide (i_index ip = j) then 1 else 0) + refs H j.
Proof. unfold refs. rewrite filter_cons. case_decide; cbn [length]; lia. Qed.

Lemma refs_perm H H' j : H ≡ₚ H' -> refs H j = refs H' j.
Proof. intros E. unfold refs. by rewrite E. Qed.

Lemma refs_bound H j : 0 <= refs H j <= Z.of_nat (length H).
Proof. unfold refs. pose proof (length_filter (fun ip => i_index ip = j) H). lia. Qed.

Lemma refs_pos H ip : ip ∈ H -> 0 < refs H (i_index ip).
Proof.
  intros Hin. unfold refs. assert (Hf : ip ∈ filter (fun x => i_index x = i_index ip) H)
    by (by apply list_elem_of_filter).
  destruct (filter _ H); [by apply elem_of_nil in Hf|cbn [length]; lia].
Qed.

(** ** The scan of [iget] *)

(** The first entry for the inode, else the first unused entry. *)
Lemma iget_scan_found dev inum l k e j :
  iget_scan dev inum l k e = inl j ->
  exists m, (k <= j)%nat /\ l !! (j - k)%nat = Some m /\ key m = (dev, inum).
Proof.
  revert k e. induction l as [|m l IH]; intros k e; [done|]. cbn [iget_scan].
  destruct (Z.eqb_spec (m_dev m) dev), (Z.eqb_spec (m_inum m) inum); cbn [andb].
  1:{ intros [= <-]. exists m. rewrite Nat.sub_diag. split_and!; [lia|done|]. unfold key. congruence. }
  all: intros (m' & Hk & Hl & Hm)%IH; exists m'; split_and!; [lia| |done];
    replace (j - k)%nat with (S (j - S k)) by lia; done.
Qed.

Lemma iget_scan_absent dev inum l k e o :
  iget_scan dev inum l k e = inr o ->
  Forall (fun m => key m <> (dev, inum)) l /\
  match e with
  | Some _ => o = e
  | None =>
      match o with
      | Some j => exists m, (k <= j)%nat /\ l !! (j - k)%nat = Some m /\ refcnt m = 0
      | None => Forall (fun m => refcnt m <> 0) l
      end
  end.
Proof.
  revert k e. induction l as [|m l IH]; intros k e; cbn [iget_scan].
  { intros [= <-]. split; [constructor|]. by destruct e. }
  destruct ((m_dev m =? dev) && (m_inum m =? inum)) eqn:Em; [done|]. intros [Hf Ho]%IH. split.
  - constructor; [|done]. unfold key. intros [= <- <-]. by rewrite !Z.eqb_refl in Em.
  - destruct e as [j0|]; [done|]. destruct (Z.eqb_spec (refcnt m) 0) as [E|E].
    + subst o. exists m. rewrite Nat.sub_diag. split_and!; [lia|done|done].
    + destruct o as [j|]; [|by constructor]. destruct Ho as (m' & Hk & Hl & Hm). exists m'.
      split_and!; [lia| |done]. by replace (j - k)%nat with (S (j - S k)) by lia.
Qed.

Section table.
Context {B : Type} `{!BlockOps B} {HL : BlockLaws B} {U : Type} `{!UserCopy U} (sb : SuperBlock).
Implicit Types s : @fs B U.

(** What the last handle may leave behind: a slot that is not locked, whose inode
    is not loaded or still has a name. *)
Definition idle (x : slot) : Prop := s_locked x = false /\ (s_valid x = None \/ nlink (s_dinode x) <> 0).

(** The handles [H] are all that refer to the table: counts are exact, a
    handle names the inode its slot is for, no inode has two slots, a valid slot
    holds that inode's data, and a slot without handle is idle. *)
Record table_ok s (H : list Inode) : Prop := {
  to_len : length (data s) = length (meta s);
  to_refs j m : meta s !! j = Some m -> refcnt m = refs H j;
  to_handle ip : ip ∈ H -> i_inum ip <> 0 /\ exists m, meta s !! i_index ip = Some m /\ key m = ikey ip;
  to_unique j j' m m' : meta s !! j = Some m -> meta s !! j' = Some m' ->
    key m = key m' -> m_inum m <> 0 -> j = j';
  to_valid j m x k : meta s !! j = Some m -> data s !! j = Some x -> s_valid x = Some k -> k = key m;
  to_idle j x : data s !! j = Some x -> refs H j = 0 -> idle x
}.

Lemma table_slot s H j m : table_ok s H -> meta s !! j = Some m -> exists x, data s !! j = Some x.
Proof using Type.
  intros Ht Hm. apply lookup_lt_is_Some_2. rewrite (to_len _ _ Ht). by eapply lookup_lt_Some.
Qed.

Lemma table_perm s H H' : H ≡ₚ H' -> table_ok s H -> table_ok s H'.
Proof using Type.
  intros E []. split; try done.
  - intros j m Hm. rewrite <-(refs_perm _ _ j E). auto.
  - intros ip. rewrite <-E. auto.
  - intros j x. rewrite <-(refs_perm _ _ j E). eauto.
Qed.

(** Only the data of slots that are in use changes. *)
Lemma table_data s H s' :
  table_ok s H -> meta s' = meta s -> length (data s') = length (data s) ->
  (forall j x', data s' !! j = Some x' -> exists x, data s !! j = Some x /\
     (s_valid x' = s_valid x \/ exists m, meta s !! j = Some m /\ s_valid x' = Some (key m)) /\
     (refs H j = 0 -> x' = x)) -> table_ok s' H.
Proof using Type.
  intros [] Em El Hd. split; rewrite ?Em; try done.
  - congruence.
  - intros j m x' k Hm Hx' Hv. destruct (Hd j x' Hx') as (x & Hx & [E|(m' & Hm' & E)] & _); [|congruence].
    rewrite E in Hv. eauto.
  - intros j x' Hx' H0. destruct (Hd j x' Hx') as (x & Hx & _ & E). rewrite E by done. eauto.
Qed.

(** One more handle on slot [j]. *)
Lemma table_ref s H j m :
  table_ok s H -> meta s !! j = Some m -> m_inum m <> 0 -> Z.of_nat (length H) + 1 < 2 ^ 64 ->
  table_ok (mkFsState (blk s) (user s) (<[j := mkMeta (m_dev m) (m_inum m) (refcnt m ⊞ 1)]> (meta s)) (data s))
    (mkInode (m_dev m) (m_inum m) j :: H).
Proof using Type.
  intros [] Hm Hn Hb. pose proof (refs_bound H j) as Hrb. pose proof (lookup_lt_Some _ _ _ Hm) as Hlt.
  assert (Hkey : forall j' m', <[j := mkMeta (m_dev m) (m_inum m) (refcnt m ⊞ 1)]> (meta s) !! j' = Some m' ->
    exists m0, meta s !! j' = Some m0 /\ key m0 = key m' /\ refcnt m' = (if decide (j = j') then 1 else 0) + refcnt m0).
  { intros j' m'. destruct (decide (j = j')) as [<-|Hj].
    - rewrite list_lookup_insert_eq by done. intros [= <-]. exists m. split_and!; [done|done|].
      cbn. pose proof (to_refs0 j m Hm). rewrite usize_add_small; lia.
    - rewrite list_lookup_insert_ne by done. intros E. exists m'. split_and!; [done|done|lia]. }
  split; cbn [meta data].
  - by rewrite length_insert.
  - intros j' m' (m0 & Hm0 & _ & ->)%Hkey. rewrite refs_cons. cbn [i_index]. by rewrite (to_refs0 j').
  - intros ip [->|Hin]%elem_of_cons; cbn.
    + split; [done|]. eexists. split; [by apply list_lookup_insert_eq|done].
    + destruct (to_handle0 ip Hin) as (? & m0 & Hm0 & Hk). split; [done|].
      destruct (decide (j = i_index ip)) as [->|Hj].
      * eexists. split; [by apply list_lookup_insert_eq|]. rewrite <-Hk. by assert (m0 = m) as -> by congruence.
      * exists m0. by rewrite list_lookup_insert_ne.
  - intros j1 j2 m1 m2 (a & Ha & Ea & _)%Hkey (b & Hb' & Eb & _)%Hkey E1 E2.
    eapply to_unique0; [exact Ha|exact Hb'|congruence|]. unfold key in *. congruence.
  - intros j' m' x k (m0 & Hm0 & <- & _)%Hkey. eauto.
  - intros j' x Hx. rewrite refs_cons. pose proof (refs_bound H j'). case_decide; [lia|]. intros. eapply to_idle0; [done|lia].
Qed.

(** One handle less. *)
Lemma table_unref s H ip m :
  table_ok s (ip :: H) -> meta s !! i_index ip = Some m -> Z.of_nat (length H) + 1 < 2 ^ 64 ->
  (refcnt m = 1 -> forall x, data s !! i_index ip = Some x -> idle x) ->
  table_ok (mkFsState (blk s) (user s) (<[i_index ip := mkMeta (m_dev m) (m_inum m) (refcnt m ⊟ 1)]> (meta s)) (data s)) H.
Proof using Type.
  intros [] Hm Hb Hun. set (j := i_index ip) in *. pose proof (lookup_lt_Some _ _ _ Hm) as Hlt.
  pose proof (refs_bound H j) as Hrb. pose proof (to_refs0 j m Hm) as Er. rewrite refs_cons in Er.
  rewrite decide_True in Er by done.
  assert (Hkey : forall j' m', <[j := mkMeta (m_dev m) (m_inum m) (refcnt m ⊟ 1)]> (meta s) !! j' = Some m' ->
    exists m0, meta s !! j' = Some m0 /\ key m0 = key m' /\ refcnt m' = refs H j').
  { intros j' m'. destruct (decide (j = j')) as [<-|Hj].
    - rewrite list_lookup_insert_eq by done. intros [= <-]. exists m. split_and!; [done|done|].
      cbn. rewrite usize_sub_small; lia.
    - rewrite list_lookup_insert_ne by done. intros E. exists m'. split_and!; [done|done|].
      rewrite (to_refs0 j') by done. rewrite refs_cons, decide_False by done. lia. }
  split; cbn [meta data].
  - by rewrite length_insert.
  - by intros j' m' (m0 & Hm0 & _ & ->)%Hkey.
  - intros ip' Hin. destruct (to_handle0 ip' ltac:(by right)) as (? & m0 & Hm0 & Hk). split; [done|].
    destruct (decide (j = i_index ip')) as [E|Hj].
    + rewrite <-E in *. eexists. split; [by apply list_lookup_insert_eq|]. rewrite <-Hk.
      by assert (m0 = m) as -> by congruence.
    + exists m0. by rewrite list_lookup_insert_ne.
  - intros j1 j2 m1 m2 (a & Ha & Ea & _)%Hkey (b & Hb' & Eb & _)%Hkey E1 E2.
    eapply to_unique0; [exact Ha|exact Hb'|congruence|]. unfold key in *. congruence.
  - intros j' m' x k (m0 & Hm0 & <- & _)%Hkey. eauto.
  - intros j' x Hx Hz. destruct (decide (j = j')) as [<-|Hj].
    + apply Hun; [lia|done].
    + eapply to_idle0; [done|]. rewrite refs_cons, decide_False by done. lia.
Qed.

(** A slot that no handle refers to becomes the slot of the inode. *)
Lemma table_recycle s H j m x dev inum :
  table_ok s H -> meta s !! j = Some m -> data s !! j = Some x -> refcnt m = 0 -> inum <> 0 ->
  Forall (fun m => key m <> (dev, inum)) (meta s) ->
  table_ok (mkFsState (blk s) (user s) (<[j := mkMeta dev inum 1]> (meta s))
              (<[j := mkSlot false None (s_dinode x)]> (data s))) (mkInode dev inum j :: H).
Proof using Type.
  intros [] Hm Hx Hz Hn Hno. pose proof (lookup_lt_Some _ _ _ Hm) as Hlt.
  pose proof (lookup_lt_Some _ _ _ Hx) as Hlt'. rewrite (to_refs0 j) in Hz by done.
  assert (Hnew : forall j' m', j <> j' -> meta s !! j' = Some m' -> key m' <> (dev, inum))
    by (intros j' m' _ Hm'; by rewrite Forall_lookup in Hno; eapply Hno).
  split; cbn [meta data].
  - by rewrite !length_insert.
  - intros j' m'. rewrite refs_cons. cbn [i_index]. destruct (decide (j = j')) as [<-|Hj].
    + rewrite list_lookup_insert_eq by done. intros [= <-]. cbn. lia.
    + rewrite list_lookup_insert_ne by done. apply to_refs0.
  - intros ip [->|Hin]%elem_of_cons; cbn.
    + split; [done|]. eexists. split; [by apply list_lookup_insert_eq|done].
    + pose proof (refs_pos _ _ Hin). destruct (to_handle0 ip Hin) as (? & m0 & Hm0 & Hk). split; [done|].
      exists m0. rewrite list_lookup_insert_ne; [done|]. intros ->. lia.
  - intros j1 j2 m1 m2. destruct (decide (j = j1)) as [<-|H1], (decide (j = j2)) as [<-|H2]; [done|..].
    + rewrite list_lookup_insert_eq, list_lookup_insert_ne by done. intros [= <-] Hm2 E _.
      destruct (Hnew j2 m2 H2 Hm2). by rewrite <-E.
    + rewrite list_lookup_insert_ne, list_lookup_insert_eq by done. intros Hm1 [= <-] E _.
      by destruct (Hnew j1 m1 H1 Hm1).
    + rewrite !list_lookup_insert_ne by done. eauto.
  - intros j' m' x' k. destruct (decide (j = j')) as [<-|Hj].
    + rewrite !list_lookup_insert_eq by done. by intros _ [= <-].
    + rewrite !list_lookup_insert_ne by done. eauto.
  - intros j' x'. rewrite refs_cons. cbn [i_index]. pose proof (refs_bound H j'). case_decide as Hj; [lia|].
    rewrite list_lookup_insert_ne by done. intros Hx' Hr. eapply to_idle0; [done|lia].
Qed.

(** ** [iget], [idup] and [iput] *)

(** What a caller of [iget] sees: a handle on the inode, and nothing changed for
    the handles it had. *)
Definition got (dev inum : Z) s H (ip : Inode) s' : Prop :=
  ikey ip = (dev, inum) /\ table_ok s' (ip :: H) /\ blk s' = blk s /\ user s' = user s /\
  (forall ip', ip' ∈ H -> data s' !! i_index ip' = data s !! i_index ip') /\
  exists x, data s' !! i_index ip = Some x /\
    (refs H (i_index ip) = 0 -> idle x) /\ (data s' = data s \/ s_valid x = None).

(** The inode has a slot, or there is an unused one. *)
Definition available s H (dev inum : Z) : Prop :=
  exists j m, meta s !! j = Some m /\ (key m = (dev, inum) \/ refs H j = 0).

Lemma iget_spec s H dev inum :
  table_ok s H -> inum <> 0 -> Z.of_nat (length H) + 1 < 2 ^ 64 -> available s H dev inum ->
  wp (iget dev inum) s (got dev inum s H).
Proof using Type.
  intros Ht Hn Hb (j0 & m0 & Hm0 & Hor). unfold iget. apply wp_bind, wp_get.
  destruct (iget_scan dev inum (meta s) 0 None) as [j|o] eqn:Es.
  - apply iget_scan_found in Es as (m & _ & Hm & Hk). rewrite Nat.sub_0_r in Hm.
    injection Hk as <- <-. eapply wp_bind, wp_get_meta; [exact Hm|]. apply wp_bind, wp_modify, wp_ret.
    destruct (table_slot _ _ _ _ Ht Hm) as [x Hx]. split_and!; [done|by apply table_ref|done|done|done|].
    exists x. split_and!; [done|by apply (to_idle _ _ Ht)|by left].
  - apply iget_scan_absent in Es as [Hno Ho]. destruct o as [j|]; cycle 1.
    { exfalso. rewrite Forall_lookup in Hno, Ho. destruct Hor as [E|E]; [by eapply Hno|].
      eapply (Ho j0); [done|]. by rewrite (to_refs _ _ Ht j0). }
    destruct Ho as (m & _ & Hm & Hz). rewrite Nat.sub_0_r in Hm.
    destruct (table_slot _ _ _ _ Ht Hm) as [x Hx]. pose proof (lookup_lt_Some _ _ _ Hx) as Hlt.
    pose proof (to_refs _ _ Ht j m Hm) as Er. apply wp_bind, wp_ret, wp_bind, wp_modify.
    eapply wp_bind, wp_lock_slot; [exact Hx|eapply to_idle; [exact Ht|done|congruence]|].
    eapply wp_bind, wp_set_valid; [by apply list_lookup_insert_eq|].
    eapply wp_bind, wp_unlock_slot; [cbn; apply list_lookup_insert_eq; by rewrite length_insert|].
    apply wp_ret. cbn. rewrite !list_insert_insert_eq.
    split_and!; [done|by eapply table_recycle|done|done| |].
    + intros ip' Hin. pose proof (refs_pos _ _ Hin). cbn. apply list_lookup_insert_ne. intros ->. lia.
    + eexists. cbn. split_and!; [by apply list_lookup_insert_eq|by split; [|left]|by right].
Qed.

(** All slots in use, and none of them for the inode. *)
Lemma iget_full s H dev inum :
  table_ok s H -> ~ available s H dev inum ->
  iget dev inum s = Panic "called `Option::unwrap()` on a `None` value".
Proof using Type.
  intros Ht Hno. unfold iget, get, bind.
  destruct (iget_scan dev inum (meta s) 0 None) as [j|o] eqn:Es.
  - apply iget_scan_found in Es as (m & _ & Hm & Hk). rewrite Nat.sub_0_r in Hm. destruct Hno. exists j, m. auto.
  - apply iget_scan_absent in Es as [_ Ho]. destruct o as [j|]; [|done]. destruct Ho as (m & _ & Hm & Hz).
    rewrite Nat.sub_0_r in Hm. destruct Hno. exists j, m. split; [done|]. right.
    by rewrite <-(to_refs _ _ Ht j m Hm).
Qed.

Lemma idup_spec s H ip :
  table_ok s H -> ip ∈ H -> Z.of_nat (length H) + 1 < 2 ^ 64 ->
  wp (idup ip) s (fun ip' s' => ip' = ip /\ table_ok s' (ip :: H) /\
    blk s' = blk s /\ user s' = user s /\ data s' = data s).
Proof using Type.
  intros Ht Hin Hb. destruct (to_handle _ _ Ht ip Hin) as (Hn & m & Hm & Hk).
  destruct ip as [dev inum j]. unfold ikey in Hk. cbn in *. injection Hk as <- <-.
  unfold idup. eapply wp_bind, wp_get_meta; [exact Hm|]. apply wp_bind, wp_modify, wp_ret.
  split_and!; [done|by apply table_ref|done|done|done].
Qed.

(** Dropping a handle that is not the last one, or the last one of an inode
    that is not loaded or still has a name. *)
Lemma iput_spec s H ip :
  table_ok s (ip :: H) -> Z.of_nat (length H) + 1 < 2 ^ 64 ->
  (refs H (i_index ip) = 0 -> forall x, data s !! i_index ip = Some x -> idle x) ->
  wp (iput sb (i_index ip)) s (fun _ s' => table_ok s' H /\
    blk s' = blk s /\ user s' = user s /\ data s' = data s).
Proof using Type.
  intros Ht Hb Hlast. destruct (to_handle _ _ Ht ip ltac:(by left)) as (Hn & m & Hm & Hk).
  pose proof (to_refs _ _ Ht _ m Hm) as Er. rewrite refs_cons, decide_True in Er by done.
  unfold iput. eapply wp_bind, wp_get_meta; [exact Hm|]. apply wp_bind.
  eapply (wp_mono _ _ (fun _ s' => s' = s)).
  - destruct (Z.eqb_spec (refcnt m) 1) as [E1|_]; [|by apply wp_ret].
    destruct (table_slot _ _ _ _ Ht Hm) as [x Hx]. destruct (Hlast ltac:(lia) x Hx) as [Hl Hv].
    pose proof (lookup_lt_Some _ _ _ Hx) as Hlt.
    eapply wp_bind, wp_lock_slot; [exact Hx|done|]. eapply wp_bind, wp_get_slot; [by apply list_lookup_insert_eq|].
    cbn [s_valid s_dinode]. rewrite (proj2 (andb_false_iff _ _)).
    + eapply wp_unlock_slot; [by apply list_lookup_insert_eq|]. cbn. rewrite list_insert_insert_eq.
      destruct s as [b u mt d], x as [lk v di]. cbn in *. subst lk. f_equal. by apply list_insert_id.
    + destruct Hv as [-> |Hv]; [left; by rewrite bool_decide_eq_false_2 by (by intros [])|right; by apply Z.eqb_neq].
  - intros _ s' ->. eapply wp_bind, wp_get_meta; [exact Hm|]. apply wp_modify. split_and!; [|done|done|done].
    apply table_unref; [done|done|done|]. intros E x Hx. apply Hlast; [lia|done].
Qed.

End table.

(** ** The table at boot *)

Definition boot_fs : @fs Log.fsys unit :=
  mkFsState (Log.mkFs Log.log_new (Bio.io_init ∅)) tt (replicate NINODE meta_new) (replicate NINODE slot_new).

Lemma boot_table : table_ok boot_fs [].
Proof.
  split; unfold boot_fs; cbn [meta data].
  - by rewrite !length_replicate.
  - by intros j m [-> _]%lookup_replicate.
  - intros ip []%elem_of_nil.
  - by intros j j' m m' [-> _]%lookup_replicate.
  - by intros j m x k _ [-> _]%lookup_replicate.
  - intros j x [-> _]%lookup_replicate _. split; [done|by left].
Qed.

End Inodes.
