(* ===== verification/FsFile.v ===== *)
(** * File contents

    The theory of [bmap], [readi] and [writei] of [kernel/src/fs.rs] (modelled
    in [Fs.v]): the blocks of a file as places reached from its inode, the
    contents of a file as a byte for every offset, and the proofs that reading
    and writing through the block map, allocation included, implement reads and
    updates of those contents. *)

From S2P Require Import Prelude Param Bytes Bio Log Blocks Bmap Fs.

Module FsFile.
Import Bmap Fs.

(** ** The blocks of a file *)

(** Where an address of a file is stored: that of data block [k], of the
    indirect block, of the double-indirect block and of its [j]-th indirect
    block. *)
Inductive place := Data (k : Z) | Ind | DInd | Sub (j : Z).

#[export] Instance place_eq_dec : EqDecision place.
Proof. solve_decision. Defined.

Definition place_ok (p : place) : Prop :=
  match p with
  | Data k => 0 <= k < MAXFILE
  | Sub j => 0 <= j < NDINDIRECT
  | _ => True
  end.

Definition entry (v : Z -> block) (a k : Z) : Z := if a =? 0 then 0 else read_word (v a) k.
Definition addr (di : DiskInode) (k : nat) : Z := addrs di !!! k.

Definition addr_at (v : Z -> block) (di : DiskInode) (p : place) : Z :=
  match p with
  | Data k =>
      if k <? Z.of_nat NDIRECT then addr di (Z.to_nat k)
      else
        let k := k - Z.of_nat NDIRECT in
        if k <? NINDIRECT then entry v (addr di NDIRECT) k
        else
          let k := k - NINDIRECT in
          entry v (entry v (addr di (NDIRECT + 1)) (k / NDINDIRECT)) (k `mod` NDINDIRECT)
  | Ind => addr di NDIRECT
  | DInd => addr di (NDIRECT + 1)
  | Sub j => entry v (addr di (NDIRECT + 1)) j
  end.

(** The block in which the address of a place is found, if it is not the
    inode. *)
Definition parent (p : place) : option place :=
  match p with
  | Data k =>
      if k <? Z.of_nat NDIRECT then None
      else if k - Z.of_nat NDIRECT <? NINDIRECT then Some Ind
      else Some (Sub ((k - Z.of_nat NDIRECT - NINDIRECT) / NDINDIRECT))
  | Sub _ => Some DInd
  | _ => None
  end.

(** The slot of the inode in which the address of a place is found. *)
Definition inode_slot (p : place) : option nat :=
  match p with
  | Data k => if k <? Z.of_nat NDIRECT then Some (Z.to_nat k) else None
  | Ind => Some NDIRECT
  | DInd => Some (NDIRECT + 1)%nat
  | Sub _ => None
  end.

Lemma addr_at_slot v di p n : inode_slot p = Some n -> addr_at v di p = addr di n.
Proof. destruct p; simpl; case_bools; intros E; by simplify_eq. Qed.

Lemma inode_slot_inj p q n :
  place_ok p -> place_ok q -> inode_slot p = Some n -> inode_slot q = Some n -> p = q.
Proof.
  unfold inode_slot. change (Z.of_nat NDIRECT) with 11. change NDIRECT with 11%nat.
  destruct p, q; simpl; case_bools; intros; simplify_eq; first [done|f_equal; lia|lia].
Qed.

Lemma parent_ok p q : place_ok p -> parent p = Some q -> place_ok q.
Proof.
  destruct p as [k| | |j]; simpl; case_bools; intros Hk E; simplify_eq; simpl; try done.
  change NDIRECT with 11%nat in *. change MAXFILE with (11 + 1024 + 1024 * 1024) in Hk.
  change NDINDIRECT with 1024 in *. change NINDIRECT with 1024 in *.
  split; [apply Z.div_pos; lia|apply Z.div_lt_upper_bound; lia].
Qed.

(** A place in which no address is stored. *)
Definition is_data (p : place) : Prop := match p with Data _ => True | _ => False end.

Lemma parent_not_data p q : parent p = Some q -> ~ is_data q.
Proof. destruct p; simpl; case_bools; intros E; simplify_eq; simpl; tauto. Qed.

(** An address depends on its slot of the inode, or on its parent's address
    and contents. *)
Lemma addr_at_ext v di v' di' p :
  (forall n, inode_slot p = Some n -> addr di' n = addr di n) ->
  (forall q, parent p = Some q -> addr_at v' di' q = addr_at v di q /\
     (addr_at v di q <> 0 -> v' (addr_at v di q) = v (addr_at v di q))) ->
  addr_at v' di' p = addr_at v di p.
Proof.
  intros Hs Hp. destruct p as [k| | |j]; simpl in *.
  - destruct (k <? Z.of_nat NDIRECT); [by apply Hs|].
    destruct (k - Z.of_nat NDIRECT <? NINDIRECT); destruct (Hp _ eq_refl) as [E1 E2]; simpl in E1, E2.
    + unfold entry. rewrite E1. case_bool; [done|]. by rewrite E2.
    + rewrite E1. unfold entry at 1 3. case_bool; [done|]. by rewrite E2.
  - by apply Hs.
  - by apply Hs.
  - destruct (Hp _ eq_refl) as [E1 E2]. simpl in E1, E2. unfold entry. rewrite E1. case_bool; [done|]. by rewrite E2.
Qed.

(** ** Contents *)

(** The byte at an offset; a place without a block reads as zeros. *)
Definition fbyte (v : Z -> block) (di : DiskInode) (o : Z) : Z :=
  let a := addr_at v di (Data (o / BSIZE)) in
  if a =? 0 then 0 else v a !!! Z.to_nat (o `mod` BSIZE).

Definition fbytes (v : Z -> block) (di : DiskInode) (o n : Z) : list Z := fbyte v di <$> seqZ o n.

Lemma length_fbytes v di o n : length (fbytes v di o n) = Z.to_nat n.
Proof. unfold fbytes. by rewrite length_fmap, length_seqZ. Qed.

Lemma fbytes_app v di o n m :
  0 <= n -> 0 <= m -> fbytes v di o (n + m) = fbytes v di o n ++ fbytes v di (o + n) m.
Proof. intros Hn Hm. unfold fbytes. by rewrite seqZ_app, fmap_app. Qed.

Lemma fbytes_ext v di v' di' o n :
  (forall x, o <= x < o + n -> fbyte v di x = fbyte v' di' x) -> fbytes v di o n = fbytes v' di' o n.
Proof.
  intros H. unfold fbytes. apply list_fmap_ext. intros k x Hk%list_elem_of_lookup_2%elem_of_seqZ. apply H. lia.
Qed.

(** A piece of one block. *)
Lemma fbytes_block v di o n :
  0 <= o -> 0 <= n <= BSIZE - o `mod` BSIZE ->
  addr_at v di (Data (o / BSIZE)) <> 0 -> length (v (addr_at v di (Data (o / BSIZE)))) = Z.to_nat BSIZE ->
  fbytes v di o n = take (Z.to_nat n) (drop (Z.to_nat (o `mod` BSIZE)) (v (addr_at v di (Data (o / BSIZE))))).
Proof.
  intros Ho Hn Ha Hl. pose proof (Z.mod_pos_bound o BSIZE eq_refl) as Hm.
  assert (HB : 0 < BSIZE) by done. apply list_eq_same_length with (n := Z.to_nat n).
  - rewrite length_take, length_drop. lia.
  - apply length_fbytes.
  - intros i x y Hi. unfold fbytes. rewrite list_lookup_fmap, lookup_seqZ_lt by lia. simpl.
    rewrite lookup_take_lt, lookup_drop by lia. intros [= <-] Hy.
    unfold fbyte. assert (Hd : (o + Z.of_nat i) / BSIZE = o / BSIZE).
    { symmetry. apply (Z.div_unique _ _ _ (o `mod` BSIZE + Z.of_nat i)); [lia|].
      pose proof (Z.div_mod o BSIZE). lia. }
    assert (Hr : (o + Z.of_nat i) `mod` BSIZE = o `mod` BSIZE + Z.of_nat i).
    { symmetry. apply (Z.mod_unique _ _ (o / BSIZE)); [lia|]. pose proof (Z.div_mod o BSIZE). lia. }
    rewrite Hd, Hr. case_bool; [done|]. rewrite Z2Nat.inj_add, Nat2Z.id by lia.
    by apply list_lookup_total_correct.
Qed.

(** ** How many blocks a range touches *)

Definition span (o n : Z) : nat := if 0 <? n then Z.to_nat ((o + n - 1) / BSIZE - o / BSIZE + 1) else 0.

(** What one round of the loops covers. *)
Definition chunk (o n : Z) : Z := Z.min (BSIZE - o `mod` BSIZE) n.

Lemma chunk_bounds o n : 0 <= o -> 0 < n -> 0 < chunk o n <= n /\ chunk o n <= BSIZE - o `mod` BSIZE.
Proof. intros Ho Hn. unfold chunk. pose proof (Z.mod_pos_bound o BSIZE eq_refl). lia. Qed.

Lemma chunk_next o n :
  0 <= o -> chunk o n < n -> (o + chunk o n) / BSIZE = o / BSIZE + 1 /\ chunk o n = BSIZE - o `mod` BSIZE.
Proof.
  intros Ho Hn. unfold chunk in *. change BSIZE with 4096 in *. pose proof (Z.mod_pos_bound o 4096 eq_refl).
  rewrite Z.min_l by lia. split; [|done]. pose proof (Z.div_mod o 4096).
  symmetry. apply (Z.div_unique _ _ _ 0); lia.
Qed.

Lemma span_step o n : 0 <= o -> 0 < n -> span o n = S (span (o + chunk o n) (n - chunk o n)).
Proof.
  intros Ho Hn. pose proof (chunk_bounds o n Ho Hn) as [H1 H2]. unfold span. case_bool; [|lia].
  pose proof (Z.div_mod o BSIZE). assert (HB : 0 < BSIZE) by done.
  pose proof (Z.mod_pos_bound o BSIZE eq_refl). case_bool.
  - destruct (chunk_next o n) as [E _]; [lia..|]. rewrite E.
    replace (o + chunk o n + (n - chunk o n) - 1) with (o + n - 1) by lia.
    assert (o / BSIZE + 1 <= (o + n - 1) / BSIZE); [|lia].
    rewrite <-E. apply Z.div_le_mono; lia.
  - assert (E : (o + n - 1) / BSIZE = o / BSIZE).
    { symmetry. apply (Z.div_unique _ _ _ (o `mod` BSIZE + n - 1)); lia. }
    rewrite E. lia.
Qed.

Lemma span_rounds o n : 0 <= o -> (span o n <= rounds n)%nat.
Proof.
  intros Ho. unfold span, rounds. change BSIZE with 4096. case_bool; [|lia].
  apply Z2Nat.inj_le; [|apply Z.add_nonneg_nonneg; [apply Z.div_pos|]; lia|].
  - assert (o / 4096 <= (o + n - 1) / 4096) by (apply Z.div_le_mono; lia). lia.
  - pose proof (Z.div_mod o 4096). pose proof (Z.div_mod n 4096).
    pose proof (Z.mod_pos_bound o 4096 eq_refl). pose proof (Z.mod_pos_bound n 4096 eq_refl).
    assert ((o + n - 1) / 4096 < o / 4096 + n / 4096 + 2); [|lia].
    apply Z.div_lt_upper_bound; lia.
Qed.

Lemma span_bound o n m :
  0 <= o -> 0 < n -> o + n <= m * BSIZE -> o / BSIZE + Z.of_nat (span o n) <= m.
Proof.
  intros Ho Hn Hm. unfold span. case_bool; [|lia]. assert (HB : 0 < BSIZE) by done.
  assert (o / BSIZE <= (o + n - 1) / BSIZE) by (apply Z.div_le_mono; lia).
  assert ((o + n - 1) / BSIZE < m); [|lia]. apply Z.div_lt_upper_bound; lia.
Qed.

Lemma list_lookup_total_alt_eq (l l' : list Z) (n m : nat) : l !! n = l' !! m -> l !!! n = l' !!! m.
Proof. intros E. by rewrite !list_lookup_total_alt, E. Qed.

Lemma size_add_r (b : Z) (L : gset Z) : (base.size ({[b]} ∪ L) <= base.size L + 1)%nat.
Proof. pose proof (size_add b L). lia. Qed.

Lemma place_rule (P : place -> Prop) :
  (forall p, place_ok p -> (forall q, parent p = Some q -> P q) -> P p) -> forall p, place_ok p -> P p.
Proof.
  intros H. assert (Hi : P Ind) by by apply H.
  assert (Hd : P DInd) by by apply H.
  assert (Hs : forall j, place_ok (Sub j) -> P (Sub j)).
  { intros j Hj. apply H; [done|]. by intros q [= <-]. }
  intros [k| | |j] Hp; [|done|done|by apply Hs].
  apply H; [done|]. intros q Hq. pose proof (parent_ok _ _ Hp Hq).
  simpl in Hq. destruct (k <? Z.of_nat NDIRECT); [done|].
  destruct (k - Z.of_nat NDIRECT <? NINDIRECT); simplify_eq; auto.
Qed.

Section file.
Context {B : Type} `{!BlockOps B} {HL : BlockLaws B} {U : Type} `{!UserCopy U} (sb : SuperBlock).
Context (inum : Z) (i : nat).
Implicit Types (s : @fs B U) (v : Z -> block) (di : DiskInode) (p q : place).

(** ** Well-formed files *)

Record good_block v (a : Z) : Prop := {
  gb_usable : usable a;
  gb_range : 0 <= a < sb_size sb;
  gb_used : used sb v a = true;
  gb_bitmap : ~ is_bitmap sb a;
  gb_len : length (v a) = Z.to_nat BSIZE
}.

Record file_ok v di : Prop := {
  fo_dinode : dinode_ok di;
  fo_zero : used sb v 0 = true;
  fo_inum : 0 <= inum;
  fo_inode : good_block v (inode_block sb inum);
  fo_block p : place_ok p -> addr_at v di p <> 0 ->
    good_block v (addr_at v di p) /\ addr_at v di p <> inode_block sb inum;
  fo_inj p q : place_ok p -> place_ok q -> addr_at v di p <> 0 ->
    addr_at v di p = addr_at v di q -> p = q
}.

Lemma good_block_upd v a b d :
  ~ is_bitmap sb b -> length d = Z.to_nat BSIZE -> good_block v a -> good_block (upd v b d) a.
Proof using Type.
  intros Hb Hd [H1 H2 H3 H4 H5]. split; [done|done| |done|].
  - by rewrite used_upd.
  - unfold upd. by case_decide.
Qed.

(** Replacing a block that holds no address keeps the addresses. *)
Lemma addr_at_upd v di b d p :
  (forall q, place_ok q -> ~ is_data q -> addr_at v di q <> 0 -> addr_at v di q <> b) ->
  place_ok p -> addr_at (upd v b d) di p = addr_at v di p.
Proof using Type.
  intros Hb. revert p. apply (place_rule (fun p => addr_at (upd v b d) di p = addr_at v di p)).
  intros p Hp IH. apply addr_at_ext; [done|]. intros q Hq. split; [by apply IH|]. intros H0.
  apply upd_ne. apply Hb; [by eapply parent_ok|by eapply parent_not_data|done].
Qed.

Lemma file_ok_upd v di b d :
  file_ok v di -> ~ is_bitmap sb b -> length d = Z.to_nat BSIZE -> 0 <= 0 < sb_size sb ->
  (forall q, place_ok q -> ~ is_data q -> addr_at v di q <> 0 -> addr_at v di q <> b) ->
  file_ok (upd v b d) di.
Proof using Type.
  intros [H1 H2 Hi H3 H4 H5] Hb Hd H0 Hq. split.
  - done.
  - by rewrite used_upd.
  - done.
  - by apply good_block_upd.
  - intros p Hp. rewrite addr_at_upd by done. intros Hn. destruct (H4 p Hp Hn) as [? ?].
    split; [by apply good_block_upd|done].
  - intros p q Hp Hq'. rewrite !addr_at_upd by done. by apply H5.
Qed.

Lemma data_block_apart v di k q :
  file_ok v di -> place_ok (Data k) -> addr_at v di (Data k) <> 0 ->
  place_ok q -> ~ is_data q -> addr_at v di q <> addr_at v di (Data k).
Proof using Type.
  intros Hok Hk Hn Hq Hd E. apply Hd. by rewrite <-(fo_inj _ _ Hok (Data k) q).
Qed.

Lemma inode_block_apart v di q :
  file_ok v di -> place_ok q -> addr_at v di q <> 0 -> addr_at v di q <> inode_block sb inum.
Proof using Type. intros Hok Hq Hn. by apply Hok. Qed.

(** ** Allocating a direct block *)

Definition allocated v (bn : Z) : Z -> block := upd (set_used sb v bn) bn zero_block.
Definition with_addr di (k : nat) (a : Z) : DiskInode :=
  mkDinode (typ di) (major di) (minor di) (nlink di) (size di) (<[k := a]> (addrs di)).

Lemma allocated_other v bn b : b <> bn -> ~ is_bitmap sb b -> 0 <= bn < sb_size sb -> allocated v bn b = v b.
Proof using Type.
  intros Hb Hn Hr. unfold allocated, set_used. rewrite !upd_ne; [done| |done].
  intros ->. apply Hn. by exists bn.
Qed.

Section alloc.
Context v di (k : nat) (bn : Z) (Hok : file_ok v di) (Hlay : layout sb v) (Hlf : least_free sb v bn).
Context (Hk : (k < NDIRECT)%nat) (Hz : addr di k = 0).

Let Hrange : 0 <= bn < sb_size sb.
Proof. apply Hlf. Qed.
Let Hunused : used sb v bn = false.
Proof. apply Hlf. Qed.
Let Hfree : usable bn /\ ~ is_bitmap sb bn.
Proof. by apply (lay_free _ _ Hlay). Qed.

Lemma alloc_nonzero : bn <> 0.
Proof using Hok Hlay Hlf Hfree Hrange Hunused. clear Hk Hz. intros ->. pose proof (fo_zero _ _ Hok). congruence. Qed.

Lemma good_not_new a : good_block v a -> a <> bn.
Proof using Hok Hlay Hlf Hfree Hrange Hunused. clear Hk Hz. intros Ha ->. pose proof (gb_used _ _ Ha). congruence. Qed.

Lemma good_block_alloc a : good_block v a -> good_block (allocated v bn) a.
Proof using Hok Hlay Hlf Hfree Hrange Hunused. clear Hk Hz.
  intros Ha. pose proof (good_not_new _ Ha). destruct Ha as [H1 H2 H3 H4 H5]. split; [done|done| |done|].
  - unfold allocated. rewrite used_upd, used_set_used by tauto. by case_decide.
  - by rewrite allocated_other.
Qed.

Lemma good_block_new : good_block (allocated v bn) bn.
Proof using Hok Hlay Hlf Hfree Hrange Hunused. clear Hk Hz.
  split; [tauto|done| |tauto|].
  - unfold allocated. rewrite used_upd, used_set_used by tauto. by case_decide.
  - unfold allocated. rewrite upd_eq. apply (length_replicate (Z.to_nat BSIZE)).
Qed.

Lemma addr_insert n : addr (with_addr di k bn) n = if decide (n = k) then bn else addr di n.
Proof using Hok Hlay Hlf Hfree Hrange Hunused Hk Hz.
  unfold addr, with_addr. simpl. case_decide as E.
  - subst. apply list_lookup_total_insert_eq. rewrite (di_len _ (fo_dinode _ _ Hok)). lia.
  - by apply list_lookup_total_insert_ne.
Qed.

Lemma addr_at_alloc p :
  place_ok p ->
  addr_at (allocated v bn) (with_addr di k bn) p =
    if decide (p = Data (Z.of_nat k)) then bn else addr_at v di p.
Proof using Hok Hlay Hlf Hfree Hrange Hunused Hk Hz.
  assert (Hs : inode_slot (Data (Z.of_nat k)) = Some k).
  { simpl. rewrite Nat2Z.id. case_bool; [done|lia]. }
  assert (Hd : place_ok (Data (Z.of_nat k))) by (simpl; change MAXFILE with 1049611; unfold NDIRECT in *; lia).
  intros Hp. destruct (decide (p = Data (Z.of_nat k))) as [->|Hne].
  - rewrite (addr_at_slot _ _ _ k), addr_insert by done. by rewrite decide_True.
  - revert p Hp Hne. apply (place_rule (fun p => p <> Data (Z.of_nat k) -> _ p = _ p)).
    intros p Hp IH Hne. apply addr_at_ext.
    + intros n Hn. rewrite addr_insert. rewrite decide_False; [done|]. intros ->. by eapply Hne, inode_slot_inj.
    + intros q Hq. pose proof (parent_ok _ _ Hp Hq) as Hqo. split.
      * apply IH; [done|]. intros ->. by apply (parent_not_data _ _ Hq).
      * intros H0. destruct (fo_block _ _ Hok q Hqo H0) as [Hg _].
        apply allocated_other; [by apply good_not_new|apply Hg|done].
Qed.

Lemma addr_at_good p : place_ok p -> addr_at v di p <> 0 -> addr_at v di p <> bn.
Proof using Hok Hlay Hlf Hfree Hrange Hunused Hk Hz.
  intros Hp H0. apply good_not_new. by apply (fo_block _ _ Hok).
Qed.

Lemma file_ok_alloc : bn < 2 ^ 32 -> file_ok (allocated v bn) (with_addr di k bn).
Proof using Hok Hlay Hlf Hfree Hrange Hunused Hk Hz.
  intros H32. pose proof alloc_nonzero as Hnz. destruct (Hok) as [[D1 D2 D3 D4 D5 D6] H2 Hi H3 H4 H5]. split.
  - split; try done; simpl.
    + by rewrite length_insert.
    + apply Forall_insert; [done|split; lia].
  - unfold allocated. rewrite used_upd, used_set_used by (tauto || lia). case_decide; [done|].
    exact H2.
  - done.
  - by apply good_block_alloc.
  - intros p Hp. rewrite addr_at_alloc by done. case_decide as E.
    + intros _. split; [apply good_block_new|]. intros E'. by apply (good_not_new _ H3).
    + intros H0. destruct (H4 p Hp H0). split; [by apply good_block_alloc|done].
  - intros p q Hp Hq. rewrite !addr_at_alloc by done. case_decide as E1; case_decide as E2; intros H0 E.
    + congruence.
    + exfalso. apply (addr_at_good q Hq); [by rewrite <-E|done].
    + exfalso. by apply (addr_at_good p Hp).
    + by apply H5.
Qed.

Lemma fbyte_alloc o :
  0 <= o < MAXFILE * BSIZE -> fbyte (allocated v bn) (with_addr di k bn) o = fbyte v di o.
Proof using Hok Hlay Hlf Hfree Hrange Hunused Hk Hz.
  intros Ho. assert (Hp : place_ok (Data (o / BSIZE))).
  { split; [apply Z.div_pos; [lia|done]|apply Z.div_lt_upper_bound; [done|lia]]. }
  unfold fbyte. rewrite addr_at_alloc by done. case_decide as E.
  - replace (addr_at v di (Data (o / BSIZE))) with 0.
    + case_bool; [done|]. case_bool; [|done]. unfold allocated. rewrite upd_eq.
      apply (lookup_total_replicate_2 (Z.to_nat BSIZE)).
      pose proof (Z.mod_pos_bound o BSIZE eq_refl). lia.
    + rewrite E, <-Hz. symmetry. apply addr_at_slot. simpl. rewrite Nat2Z.id. case_bool; [done|lia].
  - case_bool; [done|]. rewrite allocated_other; [done|by apply addr_at_good| |done].
    by apply (fo_block _ _ Hok).
Qed.

End alloc.

(** ** Free blocks *)

Definition free_count v : nat := length (filter (fun x => used sb v x = false) (seqZ 0 (sb_size sb))).

Lemma least_free_below v (n : nat) :
  Z.of_nat n <= sb_size sb ->
  (forall x, 0 <= x < Z.of_nat n -> used sb v x = true) \/ exists bn, least_free sb v bn.
Proof using Type.
  induction n as [|n IH]; intros Hn; [left; lia|].
  destruct IH as [IH|?]; [lia| |by right]. destruct (used sb v (Z.of_nat n)) eqn:E.
  - left. intros x Hx. destruct (decide (x = Z.of_nat n)) as [->|]; [done|]. apply IH. lia.
  - right. exists (Z.of_nat n). split; [lia|]. split; [done|]. intros x Hx. apply IH. lia.
Qed.

Lemma free_count_least v : (0 < free_count v)%nat -> exists bn, least_free sb v bn.
Proof using Type.
  unfold free_count. intros Hf. destruct (filter _ _) as [|x l] eqn:E; [simpl in Hf; lia|].
  assert (Hx : x ∈ filter (fun x => used sb v x = false) (seqZ 0 (sb_size sb))).
  { rewrite E. apply list_elem_of_here. }
  apply list_elem_of_filter in Hx as [Hu Hx%elem_of_seqZ].
  destruct (least_free_below v (Z.to_nat (sb_size sb))) as [H|?]; [lia| |done].
  rewrite H in Hu by lia. done.
Qed.

Lemma free_count_alloc v bn :
  layout sb v -> least_free sb v bn -> free_count v = S (free_count (allocated v bn)).
Proof using Type.
  intros Hl (Hr & Hu & _). destruct (lay_free _ _ Hl bn Hr Hu) as [_ Hb]. unfold free_count.
  change (S (length ?l)) with (length (bn :: l)). apply Permutation_length, NoDup_Permutation.
  - apply NoDup_filter, NoDup_seqZ.
  - constructor; [|apply NoDup_filter, NoDup_seqZ]. rewrite list_elem_of_filter. intros [H _].
    revert H. unfold allocated. rewrite used_upd, used_set_used by done. by rewrite decide_True.
  - intros x. rewrite elem_of_cons, !list_elem_of_filter, !elem_of_seqZ. split.
    + intros [H1 H2]. destruct (decide (x = bn)); [by left|right]. split; [|done].
      unfold allocated. rewrite used_upd, used_set_used by (done || lia). by rewrite decide_False.
    + intros [->|[H1 H2]]; [split; [done|lia]|]. split; [|done]. revert H1.
      unfold allocated. rewrite used_upd, used_set_used by (done || lia). by case_decide.
Qed.

(** ** How an operation changes a file system *)

(** The file of slot [i] in an open transaction that holds no buffer. *)
Record file_at s (t : txn_state) di : Prop := {
  fa_txn : in_txn (blk s) t;
  fa_held : t_held t = ∅;
  fa_dirty : t_dirty t = ∅;
  fa_layout : layout sb (t_view t);
  fa_ok : file_ok (t_view t) di;
  fa_slot : exists lk, data s !! i = Some (mkSlot lk (Some (ROOTDEV, inum)) di)
}.

(** At most [a] blocks allocated and [w] more blocks logged; places keep
    their blocks and get new ones only from the free blocks; blocks in use that
    are not the file's keep their contents. *)
Record evolves (a w : nat) (t : txn_state) di (t' : txn_state) di' : Prop := {
  ev_log : (base.size (t_logged t') <= base.size (t_logged t) + w)%nat;
  ev_free : (free_count (t_view t) <= free_count (t_view t') + a)%nat;
  ev_used x : 0 <= x < sb_size sb -> used sb (t_view t) x = true -> used sb (t_view t') x = true;
  ev_meta : di' = mkDinode (typ di) (major di) (minor di) (nlink di) (size di) (addrs di');
  ev_keep p : place_ok p -> addr_at (t_view t) di p <> 0 ->
    addr_at (t_view t') di' p = addr_at (t_view t) di p;
  ev_new p : place_ok p -> addr_at (t_view t') di' p = addr_at (t_view t) di p \/
    0 <= addr_at (t_view t') di' p < sb_size sb /\ used sb (t_view t) (addr_at (t_view t') di' p) = false;
  ev_frame b : good_block (t_view t) b -> (forall p, place_ok p -> addr_at (t_view t) di p <> b) ->
    t_view t' b = t_view t b
}.

(** Outside the file: the reference counts and the other slots. *)
Definition elsewhere s s' : Prop :=
  meta s' = meta s /\ forall j, j <> i -> data s' !! j = data s !! j.

Definition same_bytes v di v' di' : Prop :=
  forall o, 0 <= o < MAXFILE * BSIZE -> fbyte v' di' o = fbyte v di o.

Lemma evolves_refl t di : evolves 0 0 t di t di.
Proof using Type. split; auto with lia. by destruct di. Qed.

Lemma evolves_used_frame a w t di t' di' b :
  evolves a w t di t' di' -> good_block (t_view t) b ->
  (forall p, place_ok p -> addr_at (t_view t) di p <> b) ->
  good_block (t_view t') b /\ forall p, place_ok p -> addr_at (t_view t') di' p <> b.
Proof using Type.
  intros He Hg Hp. split.
  - destruct (Hg) as [H1 H2 H3 H4 H5]. split; [done|done|by eapply ev_used|done|].
    by rewrite (ev_frame _ _ _ _ _ _ He).
  - intros p Hpo E. destruct (ev_new _ _ _ _ _ _ He p Hpo) as [E'|[_ E']].
    + apply (Hp p Hpo). congruence.
    + rewrite E, (gb_used _ _ Hg) in E'. done.
Qed.

Lemma evolves_trans a w a' w' t di t1 di1 t2 di2 :
  evolves a w t di t1 di1 -> evolves a' w' t1 di1 t2 di2 -> evolves (a + a') (w + w') t di t2 di2.
Proof using Type.
  intros H1 H2. split.
  - pose proof (ev_log _ _ _ _ _ _ H1). pose proof (ev_log _ _ _ _ _ _ H2). lia.
  - pose proof (ev_free _ _ _ _ _ _ H1). pose proof (ev_free _ _ _ _ _ _ H2). lia.
  - intros x Hx Hu. eapply ev_used; [exact H2|done|]. by eapply ev_used.
  - rewrite (ev_meta _ _ _ _ _ _ H2), (ev_meta _ _ _ _ _ _ H1). done.
  - intros p Hp H0. pose proof (ev_keep _ _ _ _ _ _ H1 p Hp H0) as E.
    rewrite (ev_keep _ _ _ _ _ _ H2); [done|done|congruence].
  - intros p Hp. destruct (ev_new _ _ _ _ _ _ H2 p Hp) as [->|[Hr Hu]]; [by eapply ev_new|].
    right. split; [done|]. destruct (used sb (t_view t) _) eqn:E; [|done].
    by rewrite (ev_used _ _ _ _ _ _ H1) in Hu.
  - intros b Hb Hp. destruct (evolves_used_frame _ _ _ _ _ _ _ H1 Hb Hp).
    rewrite (ev_frame _ _ _ _ _ _ H2) by done. by apply (ev_frame _ _ _ _ _ _ H1).
Qed.

Lemma same_bytes_trans v di v1 di1 v2 di2 :
  same_bytes v di v1 di1 -> same_bytes v1 di1 v2 di2 -> same_bytes v di v2 di2.
Proof using Type. intros H1 H2 o Ho. by rewrite H2, H1. Qed.

Lemma elsewhere_trans s s1 s2 : elsewhere s s1 -> elsewhere s1 s2 -> elsewhere s s2.
Proof using Type. intros [H1 H2] [H3 H4]. split; [congruence|]. intros j Hj. by rewrite H4, H2. Qed.

(** ** The block map *)

Lemma file_at_blk s t di b' u :
  file_at s t di -> in_txn b' t -> file_at (mkFsState b' u (meta s) (data s)) t di.
Proof using Type. intros [H1 H2 H3 H4 H5 H6] Hb. by split. Qed.

Lemma good_free_block s t di a : file_at s t di -> good_block (t_view t) a -> free_block t a.
Proof using Type.
  intros Hf Hg. split; [apply Hg|]. rewrite (fa_held _ _ _ Hf), (fa_dirty _ _ _ Hf).
  split; [apply lookup_empty|set_solver].
Qed.

Lemma wp_get_addr s t di n (Q : Z -> fs -> Prop) :
  file_at s t di -> (n < NDIRECT + 2)%nat -> Q (addr di n) s -> wp (get_addr i n) s Q.
Proof using Type.
  intros Hf Hn HQ. destruct (fa_slot _ _ _ Hf) as [lk Hs]. unfold get_addr.
  eapply wp_bind, wp_get_dinode; [exact Hs|]. simpl. eapply wp_unwrap; [|exact HQ].
  apply list_lookup_lookup_total_lt. by rewrite (di_len _ (fo_dinode _ _ (fa_ok _ _ _ Hf))).
Qed.

Lemma addr_or_alloc_mapped s t di n (Q : Z -> fs -> Prop) :
  file_at s t di -> (n < NDIRECT + 2)%nat -> addr di n <> 0 ->
  Q (addr di n) s -> wp (addr_or_alloc sb i n ROOTDEV) s Q.
Proof using Type.
  intros Hf Hn H0 HQ. unfold addr_or_alloc. eapply wp_bind, wp_get_addr; [done|done|].
  case_bool; [done|]. by apply wp_ret.
Qed.

Lemma entry_of_mapped s t di a k (Q : Z -> fs -> Prop) :
  file_at s t di -> good_block (t_view t) a -> entry (t_view t) a k <> 0 -> room 0 t ->
  (forall b', in_txn b' t -> Q (entry (t_view t) a k) (mkFsState b' (user s) (meta s) (data s))) ->
  wp (entry_of sb ROOTDEV a k) s Q.
Proof using Type.
  intros Hf Hg H0 Hr HQ. destruct (good_free_block _ _ _ _ Hf Hg) as (Hu & Hh & Hd).
  unfold entry in *. destruct (a =? 0) eqn:E; [done|]. unfold entry_of.
  eapply wp_bind, (wp_blk_read a); [apply Hf|done|done|done|]. intros g b1 _ H1.
  eapply wp_bind, (wp_blk_data a); [exact H1|apply lookup_insert_eq|]. intros b2 H2. cbn [t_view].
  cbv zeta. rewrite (proj2 (Z.eqb_neq _ _) H0). eapply wp_bind, wp_ret.
  eapply wp_bind, (wp_blk_drop a); [exact H2|apply lookup_insert_eq|done|]. intros b3 H3. cbn in H3 |- *.
  rewrite delete_insert_id in H3 by done. apply wp_ret, HQ. by destruct t.
Qed.

Lemma bmap_mapped s t di k (Q : Z -> fs -> Prop) :
  file_at s t di -> place_ok (Data k) -> addr_at (t_view t) di (Data k) <> 0 -> room 0 t ->
  (forall b', in_txn b' t ->
     Q (addr_at (t_view t) di (Data k)) (mkFsState b' (user s) (meta s) (data s))) ->
  wp (bmap sb i k) s Q.
Proof using Type.
  intros Hf Hk H0 Hr HQ. destruct (fa_slot _ _ _ Hf) as [lk Hs]. unfold bmap.
  eapply wp_bind, wp_get_valid; [exact Hs|done|]. pose proof Hk as Hk'. simpl in Hk'.
  change MAXFILE with (11 + 1024 + 1024 * 1024) in Hk'. pose proof (fo_block _ _ (fa_ok _ _ _ Hf)) as Hgood.
  unfold addr_at in H0, HQ. change (Z.of_nat NDIRECT) with 11 in *. destruct (Z.ltb_spec k 11).
  - eapply addr_or_alloc_mapped; [done|unfold NDIRECT; lia|done|]. specialize (HQ _ (fa_txn _ _ _ Hf)). by destruct s.
  - rewrite (usize_sub_small k 11) by lia. destruct (Z.ltb_spec (k - 11) NINDIRECT) as [Hl|Hl].
    + assert (Hi : addr di NDIRECT <> 0) by (intros E; apply H0; by rewrite E).
      eapply wp_bind, addr_or_alloc_mapped; [done|unfold NDIRECT; lia|done|].
      eapply entry_of_mapped; [done|by apply (Hgood Ind)|done..].
    + cbv zeta in H0, HQ. change NINDIRECT with 1024 in *. change NDINDIRECT with 1024 in *.
      rewrite (usize_sub_small (k - 11) 1024) by lia. set (o := k - 11 - 1024) in *.
      destruct (Z.ltb_spec o (1024 * 1024)); [|lia].
      assert (Hi : entry (t_view t) (addr di (NDIRECT + 1)) (o / 1024) <> 0)
        by (intros E; apply H0; by rewrite E).
      assert (Hd : addr di (NDIRECT + 1) <> 0) by (intros E; apply Hi; by rewrite E).
      assert (Hj : 0 <= o / 1024 < 1024)
        by (split; [apply Z.div_pos|apply Z.div_lt_upper_bound]; lia).
      eapply wp_bind, addr_or_alloc_mapped; [done|unfold NDIRECT; lia|done|].
      eapply wp_bind, entry_of_mapped; [done|by apply (Hgood DInd)|exact Hi|done|]. intros b1 Hb1.
      eapply entry_of_mapped; [by apply file_at_blk|by apply (Hgood (Sub _))|exact H0|done|]. done.
Qed.

Lemma allocated_evolves t di k bn L :
  file_ok (t_view t) di -> layout sb (t_view t) -> least_free sb (t_view t) bn ->
  (k < NDIRECT)%nat -> addr di k = 0 -> (base.size L <= base.size (t_logged t) + 2)%nat ->
  evolves 1 2 t di (mkTxn (allocated (t_view t) bn) (t_held t) (t_dirty t) L) (with_addr di k bn).
Proof using Type.
  intros Hok Hlay Hlf Hk Hz HL'. pose proof Hlf as (Hr & Hu & _).
  destruct (lay_free _ _ Hlay bn Hr Hu) as [_ Hb].
  assert (Hkp : forall v p, p = Data (Z.of_nat k) -> addr_at v di p = 0).
  { intros v p ->. rewrite <-Hz. apply addr_at_slot. simpl. rewrite Nat2Z.id. case_bool; [done|lia]. }
  split; cbn [t_view t_logged].
  - done.
  - rewrite (free_count_alloc _ bn) by done. lia.
  - intros x Hx Hux. unfold allocated. rewrite used_upd, used_set_used by done. by case_decide.
  - done.
  - intros p Hp H0. rewrite addr_at_alloc by done. case_decide as E; [|done]. by rewrite (Hkp _ _ E) in H0.
  - intros p Hp. rewrite addr_at_alloc by done. case_decide as E; [by right|by left].
  - intros b Hg _. apply allocated_other; [by eapply good_not_new|apply Hg|done].
Qed.

Lemma layout_allocated v bn : layout sb v -> least_free sb v bn -> layout sb (allocated v bn).
Proof using Type.
  intros Hl (Hr & Hu & _). apply layout_upd; [by apply layout_set_used|]. by apply (lay_free _ _ Hl).
Qed.

Lemma bmap_hole s t di k (Q : Z -> fs -> Prop) :
  file_at s t di -> 0 <= k < Z.of_nat NDIRECT -> addr di (Z.to_nat k) = 0 ->
  room 2 t -> (0 < free_count (t_view t))%nat ->
  (forall s' t' di', file_at s' t' di' -> evolves 1 2 t di t' di' ->
     same_bytes (t_view t) di (t_view t') di' -> addr_at (t_view t') di' (Data k) <> 0 ->
     elsewhere s s' -> user s' = user s -> Q (addr_at (t_view t') di' (Data k)) s') ->
  wp (bmap sb i k) s Q.
Proof using Type.
  intros Hf Hk Hz Hr Hfree HQ. destruct (fa_slot _ _ _ Hf) as [lk Hs].
  destruct (free_count_least _ Hfree) as [bn Hlf]. pose proof (fa_layout _ _ _ Hf) as Hlay.
  pose proof (fa_ok _ _ _ Hf) as Hok. assert (Hlt : (i < length (data s))%nat) by by eapply lookup_lt_Some.
  assert (Hkn : (Z.to_nat k < NDIRECT)%nat) by lia.
  unfold bmap. eapply wp_bind, wp_get_valid; [exact Hs|done|]. cbn beta iota.
  rewrite (proj2 (Z.ltb_lt k _)) by lia. unfold addr_or_alloc.
  eapply wp_bind, wp_get_addr; [done|unfold NDIRECT in *; lia|]. rewrite Hz. cbn [Z.eqb negb].
  eapply wp_bind, wp_on_blk, wp_mono.
  { apply alloc_spec; [apply Hf|done| |done|exact Hlf]. split_and!; rewrite ?(fa_held _ _ _ Hf), ?(fa_dirty _ _ _ Hf); set_solver. }
  intros r b1 [-> Hb1]. unfold set_addr. eapply wp_bind, wp_bind, wp_get_dinode; [exact Hs|].
  cbn [s_dinode]. eapply wp_bind, wp_assert.
  { apply Nat.ltb_lt. rewrite (di_len _ (fo_dinode _ _ Hok)). lia. }
  eapply wp_set_dinode; [exact Hs|]. apply wp_ret. cbn [s_locked s_valid blk user meta data].
  match goal with H : in_txn b1 ?t |- _ => set (t' := t) in * end.
  assert (E : addr_at (t_view t') (with_addr di (Z.to_nat k) bn) (Data k) = bn).
  { change (t_view t') with (allocated (t_view t) bn). rewrite addr_at_alloc; try done.
    - rewrite Z2Nat.id by lia. by rewrite decide_True.
    - simpl. change MAXFILE with 1049611. unfold NDIRECT in *. lia. }
  rewrite <-E at 1. apply HQ with (di' := with_addr di (Z.to_nat k) bn).
  - split; cbn; [done|apply Hf|apply Hf|by apply layout_allocated| |].
    + apply file_ok_alloc; try done. pose proof (lay_size _ _ Hlay). destruct Hlf. lia.
    + exists lk. by apply list_lookup_insert_eq.
  - apply allocated_evolves; try done. room_lia.
  - intros o Ho. by apply fbyte_alloc.
  - rewrite E. by eapply alloc_nonzero.
  - split; cbn; [done|]. intros j Hj. by apply list_lookup_insert_ne.
  - done.
Qed.

(** Allocation while the block [a] of addresses is held. *)
Lemma held_apart s t di a g :
  file_at s t di -> good_block (t_view t) a ->
  apart sb (mkTxn (t_view t) (<[a := g]> (t_held t)) (t_dirty t) (t_logged t)).
Proof using Type.
  intros Hf Hg. rewrite (fa_held _ _ _ Hf), (fa_dirty _ _ _ Hf). split_and!; cbn.
  - intros b Hb. rewrite lookup_insert_ne; [done|]. intros ->. by apply (gb_bitmap _ _ Hg).
  - intros bn Hr Hu. rewrite lookup_insert_ne; [done|]. intros ->. rewrite (gb_used _ _ Hg) in Hu. done.
  - set_solver.
Qed.

Lemma read_write_word d k x :
  length d = Z.to_nat BSIZE -> 0 <= k < NINDIRECT -> is_u32 x -> read_word (write_word d k x) k = x.
Proof using Type.
  intros Hd Hk Hx. change NINDIRECT with 1024 in Hk. change (Z.to_nat BSIZE) with 4096%nat in Hd.
  unfold read_word, write_word. rewrite <-(length_u32_bytes x), splice_read by lia. by apply bytes_u32_bytes.
Qed.

Lemma entry_of_hole s t di a k bn (Q : Z -> fs -> Prop) :
  file_at s t di -> good_block (t_view t) a -> a <> 0 -> 0 <= k < NINDIRECT ->
  entry (t_view t) a k = 0 -> room 3 t -> least_free sb (t_view t) bn ->
  (forall s' v' L, in_txn (blk s') (mkTxn v' ∅ ∅ L) -> entry v' a k = bn -> bn <> 0 ->
     used sb v' bn = true -> v' bn = zero_block -> data s' = data s -> Q 0 s') ->
  wp (entry_of sb ROOTDEV a k) s Q.
Proof using Type.
  intros Hf Hg Ha Hk H0 Hr Hlf HQ. destruct (good_free_block _ _ _ _ Hf Hg) as (Hu & Hh & Hd).
  pose proof (fa_layout _ _ _ Hf) as Hlay. pose proof (fa_ok _ _ _ Hf) as Hok.
  pose proof (fa_held _ _ _ Hf) as Hheld. pose proof (fa_dirty _ _ _ Hf) as Hdirty.
  assert (Hne : a <> bn) by (intros ->; destruct Hlf as (_ & E & _); rewrite (gb_used _ _ Hg) in E; done).
  unfold entry in H0. rewrite (proj2 (Z.eqb_neq _ _) Ha) in H0. unfold entry_of.
  eapply wp_bind, (wp_blk_read a); [apply Hf|done|done|room_lia|]. intros g b1 _ H1.
  eapply wp_bind, (wp_blk_data a); [exact H1|apply lookup_insert_eq|]. intros b2 H2. cbn [t_view blk].
  cbv zeta. rewrite H0. cbn [Z.eqb]. eapply wp_bind, wp_bind, wp_on_blk, wp_mono.
  { apply alloc_spec; [exact H2|done|by eapply held_apart| |exact Hlf].
    unfold room in *. cbn [t_held t_logged] in *. rewrite Hheld, insert_empty, map_size_singleton.
    rewrite Hheld, map_size_empty in Hr. lia. }
  intros r b3 [-> H3]. cbn [t_view t_held t_dirty t_logged] in H3.
  eapply wp_bind, (wp_blk_data a); [exact H3|apply lookup_insert_eq|]. intros b4 H4.
  eapply wp_bind, (wp_blk_set a); [exact H4|apply lookup_insert_eq|]. intros b5 H5.
  eapply (wp_blk_log a); [exact H5|apply lookup_insert_eq| |].
  { room_lia. }
  intros b6 H6. eapply wp_bind, (wp_blk_drop a); [exact H6|apply lookup_insert_eq|set_solver|]. intros b7 H7.
  cbn [t_view t_held t_dirty t_logged blk user meta data] in *. rewrite delete_insert_id, Hheld, Hdirty in H7 by done.
  replace (({[a]} ∪ ∅) ∖ {[a]}) with (∅ : gset Z) in H7 by set_solver.
  fold (allocated (t_view t) bn) in H7. pose proof (alloc_nonzero _ _ _ Hok Hlay Hlf) as Hbn.
  pose proof (good_block_new _ _ _ Hok Hlay Hlf) as Hnew. pose proof Hlf as (Hrange & _ & _).
  pose proof (lay_size _ _ Hlay). apply wp_ret. eapply HQ; [exact H7|..]; try done.
  - unfold entry. rewrite (proj2 (Z.eqb_neq _ _) Ha), upd_eq, allocated_other by (done || apply Hg).
    apply read_write_word; [apply Hg|done|split; lia].
  - rewrite used_upd; [apply Hnew|apply Hg|done].
  - rewrite upd_ne by done. unfold allocated. apply upd_eq.
Qed.

(** C12: [bmap] hands out block 0 for a new indirect block.  When the indirect
    block of a file exists and its entry for the block asked for is zero, [bmap]
    allocates a block, zeroes it and stores its number in the entry, but
    returns the zero that it had read: the caller goes on with block 0 of the
    disk instead of the new block. *)
Theorem bmap_indirect_stale s t di k :
  file_at s t di -> Z.of_nat NDIRECT <= k < Z.of_nat NDIRECT + NINDIRECT ->
  addr di NDIRECT <> 0 -> entry (t_view t) (addr di NDIRECT) (k - Z.of_nat NDIRECT) = 0 ->
  room 3 t -> (0 < free_count (t_view t))%nat ->
  wp (bmap sb i k) s (fun r s' => r = 0 /\ data s' = data s /\ exists v' L bn,
    in_txn (blk s') (mkTxn v' ∅ ∅ L) /\ bn <> 0 /\ used sb v' bn = true /\ v' bn = zero_block /\
    addr_at v' di (Data k) = bn).
Proof using Type.
  intros Hf Hk Ha H0 Hr Hfree. destruct (fa_slot _ _ _ Hf) as [lk Hs].
  destruct (free_count_least _ Hfree) as [bn Hlf]. change (Z.of_nat NDIRECT) with 11 in *.
  change NINDIRECT with 1024 in Hk. unfold bmap. eapply wp_bind, wp_get_valid; [exact Hs|done|].
  change (Z.of_nat NDIRECT) with 11. rewrite (proj2 (Z.ltb_ge _ _)), usize_sub_small by lia.
  cbv zeta. change NINDIRECT with 1024 at 1. rewrite (proj2 (Z.ltb_lt _ _)) by lia.
  eapply wp_bind, addr_or_alloc_mapped; [done|unfold NDIRECT; lia|done|].
  destruct (fo_block _ _ (fa_ok _ _ _ Hf) Ind I Ha) as [Hg _].
  eapply entry_of_hole; [done|exact Hg|done|change NINDIRECT with 1024; lia|done|done|exact Hlf|].
  intros s' v' L H1 H2 H3 H4 H5 H6. split_and!; [done|done|]. exists v', L, bn. split_and!; try done.
  unfold addr_at. change (Z.of_nat NDIRECT) with 11. rewrite (proj2 (Z.ltb_ge _ _)) by lia.
  cbv zeta. change NINDIRECT with 1024. by rewrite (proj2 (Z.ltb_lt _ _)) by lia.
Qed.

(** Whether a block has to be allocated, and how many of [m] blocks. *)
Definition hole v di (k : Z) : nat := if addr_at v di (Data k) =? 0 then 1 else 0.
Definition holes v di (k : Z) (m : nat) : nat := sum_list (hole v di <$> seqZ k (Z.of_nat m)).

(** A block that [bmap] finds or can allocate. *)
Definition backed v di (k : Z) : Prop := 0 <= k < Z.of_nat NDIRECT \/ addr_at v di (Data k) <> 0.

Lemma holes_step v di k m : holes v di k (S m) = (hole v di k + holes v di (k + 1) m)%nat.
Proof using Type.
  unfold holes. rewrite Nat2Z.inj_succ, seqZ_cons by lia. simpl.
  by rewrite Z.pred_succ, <-Z.add_1_r.
Qed.

Lemma holes_evolves a w t di t' di' k m :
  evolves a w t di t' di' -> 0 <= k -> k + Z.of_nat m <= MAXFILE ->
  (holes (t_view t') di' k m <= holes (t_view t) di k m)%nat.
Proof using Type.
  intros He. revert k. induction m as [|m IH]; intros k Hk Hm; [done|]. rewrite !holes_step.
  specialize (IH (k + 1) ltac:(lia) ltac:(lia)).
  pose proof (ev_keep _ _ _ _ _ _ He (Data k) ltac:(simpl; lia)) as Hkeep.
  assert (hole (t_view t') di' k <= hole (t_view t) di k)%nat; [|lia]. unfold hole.
  destruct (Z.eqb_spec (addr_at (t_view t) di (Data k)) 0) as [|H0]; [by case_bool; lia|].
  rewrite (Hkeep H0). by rewrite (proj2 (Z.eqb_neq _ _) H0).
Qed.

Lemma backed_evolves a w t di t' di' k :
  evolves a w t di t' di' -> place_ok (Data k) ->
  backed (t_view t) di k -> backed (t_view t') di' k.
Proof using Type.
  intros He Hk [?|H0]; [by left|right]. by rewrite (ev_keep _ _ _ _ _ _ He).
Qed.

Lemma evolves_weaken a w a' w' t di t' di' :
  (a <= a')%nat -> (w <= w')%nat -> evolves a w t di t' di' -> evolves a' w' t di t' di'.
Proof using Type. intros Ha Hw [H1 H2 H3 H4 H5 H6 H7]. split; try done; lia. Qed.

Lemma bmap_spec s t di k (Q : Z -> fs -> Prop) :
  file_at s t di -> place_ok (Data k) -> backed (t_view t) di k ->
  room (2 * hole (t_view t) di k) t -> (hole (t_view t) di k <= free_count (t_view t))%nat ->
  (forall s' t' di', file_at s' t' di' ->
     evolves (hole (t_view t) di k) (2 * hole (t_view t) di k) t di t' di' ->
     same_bytes (t_view t) di (t_view t') di' -> addr_at (t_view t') di' (Data k) <> 0 ->
     elsewhere s s' -> user s' = user s -> Q (addr_at (t_view t') di' (Data k)) s') ->
  wp (bmap sb i k) s Q.
Proof using Type.
  intros Hf Hk Hb Hr Hh HQ. unfold hole in *. destruct (Z.eqb_spec (addr_at (t_view t) di (Data k)) 0) as [E|E].
  - destruct Hb as [Hb|Hb]; [|done]. eapply bmap_hole; [done|done| |done|lia|done].
    rewrite <-E. symmetry. apply addr_at_slot. simpl. by rewrite (proj2 (Z.ltb_lt k _)) by lia.
  - eapply bmap_mapped; [done|done|done|done|]. intros b' Hb'.
    apply HQ; [by apply file_at_blk|apply evolves_refl|done|done|done|done].
Qed.

(** What the loops of [readi] and [writei] need for the bytes [o] to [o + n]
    when every block takes [w] entries of the log. *)
Record ready (w : nat) s (t : txn_state) di (o n : Z) : Prop := {
  rd_file : file_at s t di;
  rd_range : 0 <= o /\ 0 <= n /\ o + n <= MAXFILE * BSIZE;
  rd_backed k : o / BSIZE <= k < o / BSIZE + Z.of_nat (span o n) -> backed (t_view t) di k;
  rd_room : room (2 * holes (t_view t) di (o / BSIZE) (span o n) + w * span o n) t;
  rd_free : (holes (t_view t) di (o / BSIZE) (span o n) <= free_count (t_view t))%nat
}.

Lemma ready_first w s t di o n :
  ready w s t di o n -> 0 < n ->
  place_ok (Data (o / BSIZE)) /\ backed (t_view t) di (o / BSIZE) /\
  room (2 * hole (t_view t) di (o / BSIZE) + w) t /\
  (hole (t_view t) di (o / BSIZE) <= free_count (t_view t))%nat.
Proof using Type.
  intros [Hf (H1 & H2 & H3) Hb Hr Hfree] Hn. pose proof (span_step o n H1 Hn) as E.
  pose proof (span_bound o n _ H1 Hn H3). rewrite E in *. rewrite holes_step in Hr, Hfree.
  assert (0 <= o / BSIZE) by (apply Z.div_pos; [lia|done]).
  split; [simpl; lia|]. split; [apply Hb; lia|]. split; [|lia]. unfold room in *. lia.
Qed.

Lemma room_evolves a w m s t di s' t' di' :
  room (w + m) t -> file_at s t di -> file_at s' t' di' -> evolves a w t di t' di' -> room m t'.
Proof using Type.
  intros Hr Hf Hf' He. pose proof (ev_log _ _ _ _ _ _ He). unfold room in *.
  rewrite (fa_held _ _ _ Hf) in Hr. rewrite (fa_held _ _ _ Hf'). rewrite map_size_empty in *. lia.
Qed.

(** The blocks behind the first one of a range. *)
Lemma next_blocks o n :
  0 <= o -> 0 < n ->
  span (o + chunk o n) (n - chunk o n) = 0%nat \/ (o + chunk o n) / BSIZE = o / BSIZE + 1.
Proof using Type.
  intros Ho Hn. destruct (decide (chunk o n < n)); [right; by apply chunk_next|left].
  unfold span. case_bool; [lia|done].
Qed.

Lemma holes_rest a w t di t' di' o n :
  0 <= o -> 0 < n -> o + n <= MAXFILE * BSIZE -> evolves a w t di t' di' ->
  (hole (t_view t) di (o / BSIZE) +
   holes (t_view t') di' ((o + chunk o n) / BSIZE) (span (o + chunk o n) (n - chunk o n)) <=
   holes (t_view t) di (o / BSIZE) (span o n))%nat.
Proof using Type.
  intros Ho Hn Hm He. pose proof (span_bound o n _ Ho Hn Hm) as Hsb.
  assert (H0 : 0 <= o / BSIZE) by (apply Z.div_pos; [lia|done]).
  rewrite (span_step o n Ho Hn) in *. rewrite holes_step.
  destruct (next_blocks o n Ho Hn) as [->| ->]; [apply Nat.add_le_mono_l, Nat.le_0_l|].
  apply Nat.add_le_mono_l. eapply holes_evolves; [exact He|lia|lia].
Qed.

Lemma ready_next w s t di o n s' t' di' :
  ready w s t di o n -> 0 < n -> file_at s' t' di' ->
  evolves (hole (t_view t) di (o / BSIZE)) (2 * hole (t_view t) di (o / BSIZE) + w) t di t' di' ->
  ready w s' t' di' (o + chunk o n) (n - chunk o n).
Proof using Type.
  intros [Hf (H1 & H2 & H3) Hb Hr Hfree] Hn Hf' He. pose proof (span_step o n H1 Hn) as E.
  pose proof (span_bound o n _ H1 Hn H3) as Hsb. destruct (chunk_bounds o n H1 Hn) as [Hc1 Hc2].
  pose proof (holes_rest _ _ _ _ _ _ _ _ H1 Hn H3 He) as Hh.
  pose proof (ev_log _ _ _ _ _ _ He). pose proof (ev_free _ _ _ _ _ _ He). split.
  - done.
  - lia.
  - intros k Hk. assert (0 <= o / BSIZE) by (apply Z.div_pos; [lia|done]).
    destruct (next_blocks o n H1 Hn) as [Hm|Hm]; [lia|]. rewrite Hm in Hk.
    eapply backed_evolves; [exact He|simpl; lia|]. apply Hb. lia.
  - unfold room in *. rewrite (fa_held _ _ _ Hf'). rewrite (fa_held _ _ _ Hf) in Hr.
    rewrite map_size_empty in *.
    assert (w * span o n = w + w * span (o + chunk o n) (n - chunk o n))%nat by (rewrite E; lia). lia.
  - lia.
Qed.

(** ** Reading *)

(** [P bs u]: the user memory [u] after the bytes [bs] were delivered. *)
Definition receives (dst : buffer) (P : list Z -> U -> Prop) : Prop :=
  forall acc bs u, P acc u ->
    match dst with
    | Kernel _ => P (acc ++ bs) u
    | User va => wp (copy_to_user (va ⊞ Z.of_nat (length acc)) bs) u (fun _ u' => P (acc ++ bs) u')
    end.

Lemma either_copy_out_spec s dst P acc bs (Q : unit -> fs -> Prop) :
  receives dst P -> P acc (user s) ->
  (forall u, P (acc ++ bs) u -> Q tt (mkFsState (blk s) u (meta s) (data s))) ->
  wp (either_copy_out dst (Z.of_nat (length acc)) bs) s Q.
Proof using Type.
  intros Hd Hp HQ. specialize (Hd acc bs (user s) Hp). unfold either_copy_out. destruct dst as [l|va].
  - apply wp_ret. specialize (HQ _ Hd). by destruct s.
  - unfold on_user, wp in *. destruct (copy_to_user _ _ _) as [[[] u]| | | |]; try done. by apply HQ.
Qed.

(** The bytes [o] to [o + n] of the file, whose holes are filled on the way. *)
Definition has_read s (t : txn_state) di (o n : Z) s' : Prop :=
  let h := holes (t_view t) di (o / BSIZE) (span o n) in
  exists t' di', file_at s' t' di' /\ evolves h (2 * h) t di t' di' /\
    same_bytes (t_view t) di (t_view t') di' /\ elsewhere s s'.

Lemma has_read_none s t di o : file_at s t di -> has_read s t di o 0 s.
Proof using Type.
  intros Hf. exists t, di. change (holes _ _ _ _) with 0%nat. by split_and!; [|apply evolves_refl|..].
Qed.

Lemma has_read_step s t di o n s1 t1 di1 s2 :
  0 <= o -> 0 < n -> o + n <= MAXFILE * BSIZE ->
  let h := hole (t_view t) di (o / BSIZE) in
  evolves h (2 * h) t di t1 di1 -> same_bytes (t_view t) di (t_view t1) di1 -> elsewhere s s1 ->
  has_read s1 t1 di1 (o + chunk o n) (n - chunk o n) s2 -> has_read s t di o n s2.
Proof using Type.
  intros Ho Hn Hm h He Hb Hs (t2 & di2 & Hf & He2 & Hb2 & Hs2). exists t2, di2. split; [done|].
  pose proof (holes_rest _ _ _ _ _ _ _ _ Ho Hn Hm He). split.
  - eapply evolves_weaken; [| |by eapply evolves_trans]; lia.
  - split; [by eapply same_bytes_trans|by eapply elsewhere_trans].
Qed.

Lemma MAXFILE_usize : MAXFILE * BSIZE < 2 ^ 64.
Proof using Type. reflexivity. Qed.

Lemma data_good s t di k :
  file_at s t di -> place_ok (Data k) -> addr_at (t_view t) di (Data k) <> 0 ->
  good_block (t_view t) (addr_at (t_view t) di (Data k)).
Proof using Type. intros Hf Hk H0. by apply (fo_block _ _ (fa_ok _ _ _ Hf)). Qed.

Lemma readi_loop_spec dst P fuel s t di o n acc :
  receives dst P -> ready 0 s t di o n -> (span o n <= fuel)%nat ->
  Z.of_nat (length acc) + n < 2 ^ 64 -> P acc (user s) ->
  wp (readi_loop sb fuel i ROOTDEV dst (Z.of_nat (length acc)) o n acc) s (fun r s' =>
    r = acc ++ fbytes (t_view t) di o n /\ P r (user s') /\ has_read s t di o n s').
Proof using Type.
  intros Hd. revert s t di o n acc. induction fuel as [|fuel IH]; intros s t di o n acc Hrd Hfuel Hacc HP;
    pose proof (rd_range _ _ _ _ _ _ Hrd) as (Ho & Hn & Hm); unfold readi_loop; fold (readi_loop sb);
    destruct (Z.ltb_spec 0 n) as [Hpos|Hz].
  1: { rewrite span_step in Hfuel by lia. lia. }
  1, 3: assert (n = 0) as -> by lia; apply wp_ret; rewrite app_nil_r;
    split_and!; [done|done|apply has_read_none, Hrd].
  destruct (ready_first _ _ _ _ _ _ Hrd Hpos) as (Hk & Hb & Hr & Hfree).
  destruct (chunk_bounds o n Ho Hpos) as [Hc1 Hc2]. fold (chunk o n).
  eapply wp_bind, bmap_spec; [apply Hrd|done|done|by rewrite Nat.add_0_r in Hr|done|].
  intros s1 t1 di1 Hf1 He1 Hsb Ha1 Hs1 Hu1. pose proof (data_good _ _ _ _ Hf1 Hk Ha1) as Hg.
  destruct (good_free_block _ _ _ _ Hf1 Hg) as (_ & Hh & Hdt). set (a := addr_at _ _ _) in *.
  eapply wp_bind, (wp_blk_read a); [apply Hf1|apply Hg|done| |].
  { eapply room_evolves; [exact Hr|apply Hrd|done|done]. }
  intros g b2 _ H2.
  eapply wp_bind, (wp_blk_data a); [exact H2|apply lookup_insert_eq|]. intros b3 H3. cbn [t_view].
  cbv zeta. unfold a. rewrite <-(fbytes_block (t_view t1) di1 o (chunk o n)) by (done || lia || apply Hg).
  rewrite (fbytes_ext _ _ (t_view t) di) by (intros x Hx; apply Hsb; lia).
  eapply wp_bind, either_copy_out_spec; [done|cbn [user]; by rewrite Hu1|]. intros u HPu.
  eapply wp_bind, (wp_blk_drop a); [exact H3|apply lookup_insert_eq|done|]. intros b4 H4.
  cbn [blk user meta data t_held t_view t_dirty t_logged] in *. rewrite delete_insert_id in H4 by done.
  assert (Hb4 : in_txn b4 t1) by by destruct t1. pose proof (file_at_blk _ _ _ _ u Hf1 Hb4) as Hf4.
  pose proof MAXFILE_usize. rewrite !usize_add_small, usize_sub_small by lia.
  replace (Z.of_nat (length acc) + chunk o n) with (Z.of_nat (length (acc ++ fbytes (t_view t) di o (chunk o n))))
    by (rewrite length_app, length_fbytes; lia).
  eapply wp_mono; [apply IH; [by eapply ready_next; [..|rewrite Nat.add_0_r]| |rewrite length_app, length_fbytes; lia|done]|].
  - rewrite span_step in Hfuel by lia. lia.
  - intros r s5 (-> & HP5 & Hread).
    rewrite (fbytes_ext (t_view t1) di1 (t_view t) di) in HP5 |- * by (intros x Hx; apply Hsb; lia).
    rewrite <-app_assoc, <-fbytes_app in HP5 |- * by lia. rewrite Zplus_minus in HP5 |- *.
    split_and!; [done|done|]. by eapply has_read_step; [..|exact Hread].
Qed.

(** ** Writing *)

(** [bs] is what the source delivers. *)
Definition supplies (src : buffer) (bs : list Z) : Prop :=
  match src with
  | Kernel l => exists l', l = bs ++ l'
  | User va => forall (pos n : nat) u, (pos + n <= length bs)%nat ->
      copy_from_user (va ⊞ Z.of_nat pos) (Z.of_nat n) u = Done (take n (drop pos bs), u)
  end.

Lemma either_copy_in_spec s src bs pos n (Q : list Z -> fs -> Prop) :
  supplies src bs -> 0 <= pos -> 0 <= n -> pos + n <= Z.of_nat (length bs) ->
  Q (take (Z.to_nat n) (drop (Z.to_nat pos) bs)) s ->
  wp (either_copy_in src pos n) s Q.
Proof using Type.
  intros Hs Hp Hn Hl HQ. unfold either_copy_in. destruct src as [l|va]; simpl in Hs.
  - destruct Hs as [l' ->]. apply wp_ret. rewrite drop_app_le, take_app_le; [done|rewrite length_drop; lia|lia].
  - unfold on_user, wp. specialize (Hs (Z.to_nat pos) (Z.to_nat n) (user s)).
    rewrite !Z2Nat.id in Hs by lia. rewrite Hs by lia. by destruct s.
Qed.

Lemma free_count_upd v b d : ~ is_bitmap sb b -> free_count (upd v b d) = free_count v.
Proof using Type.
  intros Hb. unfold free_count. f_equal. apply filter_ext_in.
  intros x Hx%elem_of_seqZ. rewrite used_upd by (done || lia). done.
Qed.

(** Replacing a data block. *)
Lemma data_write t di k d L :
  file_ok (t_view t) di -> layout sb (t_view t) -> place_ok (Data k) ->
  let a := addr_at (t_view t) di (Data k) in
  a <> 0 -> length d = Z.to_nat BSIZE -> (base.size L <= base.size (t_logged t) + 1)%nat ->
  let v' := upd (t_view t) a d in
  evolves 0 1 t di (mkTxn v' (t_held t) (t_dirty t) L) di /\ file_ok v' di /\ layout sb v' /\
  forall p, place_ok p -> addr_at v' di p = addr_at (t_view t) di p.
Proof using Type.
  intros Hok Hlay Hk a Ha Hd HL'. destruct (fo_block _ _ Hok (Data k) Hk Ha) as [Hg _].
  assert (Haddr : forall p, place_ok p -> addr_at (upd (t_view t) a d) di p = addr_at (t_view t) di p).
  { intros p Hp. apply addr_at_upd; [|done]. intros q Hq Hdq _. by apply data_block_apart. }
  split_and!; [split; cbn [t_view t_logged]| | |done].
  - done.
  - rewrite free_count_upd; [lia|apply Hg].
  - intros x Hx. rewrite used_upd; [done|apply Hg|done].
  - by destruct di.
  - intros p Hp _. by apply Haddr.
  - intros p Hp. left. by apply Haddr.
  - intros b _ Hb. apply upd_ne. intros ->. by apply (Hb (Data k)).
  - apply file_ok_upd; [done|apply Hg|done| |].
    + pose proof (gb_range _ _ Hg). lia.
    + intros q Hq Hdq _. by apply data_block_apart.
  - apply layout_upd; [done|apply Hg].
Qed.

(** The contents after writing [bs] at [o]. *)
Definition wrote v di v' di' (o : Z) (bs : list Z) : Prop :=
  forall x, 0 <= x < MAXFILE * BSIZE ->
    fbyte v' di' x = if decide (o <= x < o + Z.of_nat (length bs)) then bs !!! Z.to_nat (x - o) else fbyte v di x.

Lemma place_of_offset x : 0 <= x < MAXFILE * BSIZE -> place_ok (Data (x / BSIZE)).
Proof using Type.
  intros Hx. split; [apply Z.div_pos; [lia|done]|apply Z.div_lt_upper_bound; [done|lia]].
Qed.

(** The offsets of the same block as [o]. *)
Lemma same_block o x :
  0 <= o -> 0 <= x -> x / BSIZE = o / BSIZE -> x - o = x `mod` BSIZE - o `mod` BSIZE.
Proof using Type.
  intros Ho Hx E. rewrite (Z.div_mod x BSIZE), (Z.div_mod o BSIZE) at 1 by done. rewrite E. lia.
Qed.

Lemma in_block o x n :
  0 <= o -> n <= BSIZE - o `mod` BSIZE -> o <= x < o + n -> x / BSIZE = o / BSIZE.
Proof using Type.
  intros Ho Hn Hx. symmetry. apply (Z.div_unique _ _ _ (x - o + o `mod` BSIZE)).
  - pose proof (Z.mod_pos_bound o BSIZE eq_refl). lia.
  - pose proof (Z.div_mod o BSIZE ltac:(done)). lia.
Qed.

Lemma fbyte_splice v di o bs :
  let a := addr_at v di (Data (o / BSIZE)) in
  let v' := upd v a (splice (Z.to_nat (o `mod` BSIZE)) bs (v a)) in
  0 <= o < MAXFILE * BSIZE -> a <> 0 -> Z.of_nat (length bs) <= BSIZE - o `mod` BSIZE ->
  length (v a) = Z.to_nat BSIZE ->
  (forall p, place_ok p -> addr_at v di p <> 0 -> addr_at v di p = a -> p = Data (o / BSIZE)) ->
  (forall p, place_ok p -> addr_at v' di p = addr_at v di p) -> wrote v di v' di o bs.
Proof using Type.
  intros a v' Ho Ha Hl Hlen Hinj Haddr x Hx. pose proof (place_of_offset _ Hx) as Hpx.
  pose proof (Z.mod_pos_bound o BSIZE eq_refl). pose proof (Z.mod_pos_bound x BSIZE eq_refl).
  unfold fbyte. rewrite Haddr by done. destruct (decide (x / BSIZE = o / BSIZE)) as [E|E].
  - rewrite E. fold a. rewrite (proj2 (Z.eqb_neq a 0) Ha). unfold v'. rewrite upd_eq.
    pose proof (same_block o x ltac:(lia) ltac:(lia) E). case_decide as Hd; apply list_lookup_total_alt_eq.
    + rewrite splice_lookup_in by lia. f_equal. lia.
    + rewrite splice_lookup_out by lia. done.
  - rewrite decide_False by (intros Hd; eapply E, in_block; [|done|done]; lia).
    case_bool; [done|]. unfold v'. rewrite upd_ne; [done|]. intros E'. apply E.
    by injection (Hinj _ Hpx ltac:(done) E').
Qed.

Lemma fbyte_write v di o bs :
  let a := addr_at v di (Data (o / BSIZE)) in
  let v' := upd v a (splice (Z.to_nat (o `mod` BSIZE)) bs (v a)) in
  file_ok v di -> 0 <= o < MAXFILE * BSIZE -> a <> 0 -> Z.of_nat (length bs) <= BSIZE - o `mod` BSIZE ->
  (forall p, place_ok p -> addr_at v' di p = addr_at v di p) -> wrote v di v' di o bs.
Proof using Type.
  intros a v' Hok Ho Ha Hl Haddr. pose proof (place_of_offset _ Ho) as Hpo.
  apply fbyte_splice; [done|done|done| | |done].
  - by apply (fo_block _ _ Hok).
  - intros p Hp H0 E. by eapply fo_inj.
Qed.

Lemma wrote_then v di v1 di1 v2 di2 o bs bs' :
  wrote v di v1 di1 o bs -> wrote v1 di1 v2 di2 (o + Z.of_nat (length bs)) bs' ->
  wrote v di v2 di2 o (bs ++ bs').
Proof using Type.
  intros H1 H2 x Hx. rewrite H2, H1 by done. rewrite length_app.
  repeat case_decide; try lia; try done; apply list_lookup_total_alt_eq.
  - rewrite lookup_app_r by lia. f_equal. lia.
  - by rewrite lookup_app_l by lia.
Qed.

Lemma same_bytes_wrote v di v1 di1 v2 di2 o bs :
  same_bytes v di v1 di1 -> wrote v1 di1 v2 di2 o bs -> wrote v di v2 di2 o bs.
Proof using Type. intros H1 H2 x Hx. by rewrite H2, H1. Qed.

(** One round of [writei] once the block [a] is known. *)
Lemma write_block {A} s t di src bs pos n o (k : M fs A) (Q : A -> fs -> Prop) :
  file_at s t di -> 0 <= o < MAXFILE * BSIZE -> supplies src bs ->
  0 <= pos -> 0 <= n <= BSIZE - o `mod` BSIZE -> pos + n <= Z.of_nat (length bs) -> room 1 t ->
  let a := addr_at (t_view t) di (Data (o / BSIZE)) in
  let piece := take (Z.to_nat n) (drop (Z.to_nat pos) bs) in
  a <> 0 ->
  (forall s' t', file_at s' t' di -> evolves 0 1 t di t' di -> wrote (t_view t) di (t_view t') di o piece ->
     elsewhere s s' -> user s' = user s -> wp k s' Q) ->
  wp (let! g := on_blk (blk_read ROOTDEV a) in
      let! bs := either_copy_in src pos n in
      let! d := on_blk (blk_data g) in
      on_blk (blk_set g (splice (Z.to_nat (o `mod` BSIZE)) bs d)) ;;
      on_blk (blk_log g) ;;
      on_blk (blk_drop g) ;; k) s Q.
Proof using Type.
  intros Hf Ho Hs Hp Hn Hl Hr a piece Ha HQ. pose proof (place_of_offset _ Ho) as Hk.
  pose proof (data_good _ _ _ _ Hf Hk Ha) as Hg. fold a in Hg. pose proof (Z.mod_pos_bound o BSIZE eq_refl).
  destruct (good_free_block _ _ _ _ Hf Hg) as (Hu & Hh & Hd).
  assert (Hpl : Z.of_nat (length piece) = n) by (unfold piece; rewrite length_take, length_drop; lia).
  eapply wp_bind, (wp_blk_read a); [apply Hf|done|done|room_lia|]. intros g b1 _ H1.
  eapply wp_bind, either_copy_in_spec; [done|done|lia|done|]. fold piece.
  eapply wp_bind, (wp_blk_data a); [exact H1|apply lookup_insert_eq|]. intros b2 H2.
  eapply wp_bind, (wp_blk_set a); [exact H2|apply lookup_insert_eq|]. intros b3 H3.
  eapply wp_bind, (wp_blk_log a); [exact H3|apply lookup_insert_eq|room_lia|]. intros b4 H4.
  eapply wp_bind, (wp_blk_drop a); [exact H4|apply lookup_insert_eq|set_solver|]. intros b5 H5.
  cbn [blk user meta data t_held t_view t_dirty t_logged] in *. rewrite delete_insert_id in H5 by done.
  rewrite (fa_held _ _ _ Hf), (fa_dirty _ _ _ Hf) in H5.
  destruct (data_write t di (o / BSIZE) (splice (Z.to_nat (o `mod` BSIZE)) piece (t_view t a))
    ({[a]} ∪ t_logged t)) as (He & Hok & Hlay & Haddr); [apply Hf|apply Hf|done|done| |apply size_add_r|].
  { rewrite length_splice; [apply Hg|]. rewrite (gb_len _ _ Hg). lia. }
  fold a in He, Hok, Hlay, Haddr. eapply HQ.
  - split; cbn; [exact H5|done|set_solver|done|done|apply Hf].
  - rewrite (fa_held _ _ _ Hf), (fa_dirty _ _ _ Hf) in He. destruct He. by split.
  - apply fbyte_write; [apply Hf|done|done|lia|done].
  - done.
  - done.
Qed.

(** Every block of the range has an address. *)
Definition filled v di (o n : Z) : Prop :=
  forall k, o / BSIZE <= k < o / BSIZE + Z.of_nat (span o n) -> addr_at v di (Data k) <> 0.

Lemma filled_step v di v' di' o n :
  0 <= o -> 0 < n -> addr_at v di (Data (o / BSIZE)) <> 0 ->
  addr_at v' di' (Data (o / BSIZE)) = addr_at v di (Data (o / BSIZE)) ->
  filled v' di' (o + chunk o n) (n - chunk o n) -> filled v' di' o n.
Proof using Type.
  intros Ho Hn Ha E Hf k Hk. rewrite span_step in Hk by done.
  destruct (decide (k = o / BSIZE)) as [->|Hne]; [congruence|]. apply Hf.
  destruct (next_blocks o n Ho Hn); lia.
Qed.

Definition has_written s (t : txn_state) di (o : Z) (bs : list Z) s' : Prop :=
  let n := Z.of_nat (length bs) in
  let h := holes (t_view t) di (o / BSIZE) (span o n) in
  exists t' di', file_at s' t' di' /\ evolves h (2 * h + span o n) t di t' di' /\
    wrote (t_view t) di (t_view t') di' o bs /\ filled (t_view t') di' o n /\
    elsewhere s s' /\ user s' = user s.

Lemma has_written_step s t di o bs c s1 t1 di1 s2 :
  let n := Z.of_nat (length bs) in
  let h := hole (t_view t) di (o / BSIZE) in
  0 <= o -> 0 < n -> o + n <= MAXFILE * BSIZE -> c = chunk o n ->
  evolves h (2 * h + 1) t di t1 di1 -> wrote (t_view t) di (t_view t1) di1 o (take (Z.to_nat c) bs) ->
  addr_at (t_view t1) di1 (Data (o / BSIZE)) <> 0 -> elsewhere s s1 -> user s1 = user s ->
  has_written s1 t1 di1 (o + c) (drop (Z.to_nat c) bs) s2 -> has_written s t di o bs s2.
Proof using Type.
  intros n h Ho Hn Hm -> He Hw Ha Hs Hu (t2 & di2 & Hf & He2 & Hw2 & Hf2 & Hs2 & Hu2).
  destruct (chunk_bounds o n Ho Hn) as [Hc1 Hc2]. exists t2, di2. split; [done|].
  pose proof (holes_rest _ _ _ _ _ _ _ _ Ho Hn Hm He) as Hh. pose proof (span_step o n Ho Hn) as Hsp.
  rewrite length_drop in He2, Hf2.
  replace (Z.of_nat (length bs - Z.to_nat (chunk o n))) with (n - chunk o n) in He2, Hf2 by lia.
  split_and!; [|..|congruence].
  - eapply evolves_weaken; [| |eapply evolves_trans; [exact He|exact He2]]; fold n; lia.
  - rewrite <-(take_drop (Z.to_nat (chunk o n)) bs). eapply wrote_then; [done|].
    rewrite length_take, Nat.min_l by lia. by rewrite Z2Nat.id by lia.
  - eapply filled_step; [done|done|exact Ha| |done]. eapply ev_keep; [exact He2| |done].
    apply place_of_offset. lia.
  - by eapply elsewhere_trans.
Qed.

Lemma writei_loop_spec src bs fuel s t di o pos :
  let n := Z.of_nat (length bs) - pos in
  supplies src bs -> ready 1 s t di o n -> (span o n <= fuel)%nat -> 0 <= pos -> Z.of_nat (length bs) < 2 ^ 64 ->
  wp (writei_loop sb fuel i ROOTDEV src pos o n) s (fun r s' =>
    r = o + n /\ has_written s t di o (drop (Z.to_nat pos) bs) s').
Proof using Type.
  intros n Hs Hrd Hfuel Hpos Hlen. subst n. revert s t di o pos Hrd Hfuel Hpos.
  induction fuel as [|fuel IH]; intros s t di o pos Hrd Hfuel Hpos; set (n := Z.of_nat (length bs) - pos) in *;
    pose proof (rd_range _ _ _ _ _ _ Hrd) as (Ho & Hn & Hm); unfold writei_loop; fold (writei_loop sb);
    destruct (Z.ltb_spec 0 n) as [Hn0|Hz].
  1: { rewrite span_step in Hfuel by lia. lia. }
  1, 3: apply wp_ret; rewrite drop_ge by lia; split; [lia|]; exists t, di; simpl;
    split_and!; [apply Hrd|apply evolves_refl| |intros k Hk; unfold span in Hk; simpl in Hk; lia|done|done];
    intros x Hx; rewrite decide_False by (simpl; lia); done.
  destruct (ready_first _ _ _ _ _ _ Hrd Hn0) as (Hk & Hb & Hr & Hfree).
  destruct (chunk_bounds o n Ho Hn0) as [Hc1 Hc2]. rewrite Z.min_comm. fold (chunk o n).
  eapply wp_bind, bmap_spec; [apply Hrd|done|done|room_lia|done|].
  intros s1 t1 di1 Hf1 He1 Hsb Ha1 Hs1 Hu1.
  eapply write_block; [exact Hf1|lia|exact Hs|done|lia|lia| |done|].
  { eapply room_evolves; [exact Hr|apply Hrd|done|done]. }
  intros s2 t2 Hf2 He2 Hw2 Hs2 Hu2. pose proof MAXFILE_usize.
  rewrite !usize_add_small, usize_sub_small by lia.
  assert (He : evolves (hole (t_view t) di (o / BSIZE)) (2 * hole (t_view t) di (o / BSIZE) + 1) t di t2 di1).
  { eapply evolves_weaken; [| |by eapply evolves_trans]; lia. }
  pose proof (ready_next _ _ _ _ _ _ _ _ _ Hrd Hn0 Hf2 He) as Hrd2.
  assert (E : n - chunk o n = Z.of_nat (length bs) - (pos + chunk o n)) by lia.
  pose proof (span_step o n Ho Hn0) as Hsp. rewrite E in *.
  assert (Hd : Z.of_nat (length (drop (Z.to_nat pos) bs)) = n) by (rewrite length_drop; lia).
  eapply wp_mono; [apply IH; [exact Hrd2|lia|lia]|]. intros r s3 [-> Hw3]. split; [lia|].
  rewrite Z2Nat.inj_add, <-drop_drop in Hw3 by lia.
  eapply has_written_step; [..|exact Hw3]; rewrite ?Hd; try done.
  - eapply same_bytes_wrote; [exact Hsb|done].
  - by rewrite (ev_keep _ _ _ _ _ _ He2).
  - by eapply elsewhere_trans.
  - congruence.
Qed.

(** ** The inode after a write *)

Definition with_size di (z : Z) : DiskInode :=
  mkDinode (typ di) (major di) (minor di) (nlink di) z (addrs di).

Lemma addr_at_size v di z p : addr_at v (with_size di z) p = addr_at v di p.
Proof using Type. by destruct p. Qed.

Lemma file_ok_size v di z : is_u32 z -> file_ok v di -> file_ok v (with_size di z).
Proof using Type.
  intros Hz [[D1 D2 D3 D4 D5 D6] H2 H3 H4 H5 H6]. split; [by split|done|done|done|..].
  - intros p. rewrite addr_at_size. apply H5.
  - intros p q. rewrite !addr_at_size. apply H6.
Qed.

Lemma evolves_view_inode t di :
  file_ok (t_view t) di -> forall p, place_ok p ->
  addr_at (store_inode sb (t_view t) inum di) di p = addr_at (t_view t) di p.
Proof using Type.
  intros Hok p Hp. apply addr_at_upd; [|done]. intros q Hq _ H0. by apply inode_block_apart.
Qed.

Lemma iupdate_file s t di (Q : unit -> fs -> Prop) :
  file_at s t di -> room 1 t ->
  (forall s' t', file_at s' t' di -> t_view t' = store_inode sb (t_view t) inum di ->
     same_bytes (t_view t) di (t_view t') di -> disk_inode sb (t_view t') inum = Some di ->
     (forall p, place_ok p -> addr_at (t_view t') di p = addr_at (t_view t) di p) ->
     elsewhere s s' -> user s' = user s -> room 0 t' -> Q tt s') ->
  wp (iupdate sb i) s Q.
Proof using Type.
  intros Hf Hr HQ. destruct (fa_slot _ _ _ Hf) as [lk Hs]. pose proof (fa_ok _ _ _ Hf) as Hok.
  pose proof (fo_inode _ _ Hok) as Hg. pose proof (evolves_view_inode _ _ Hok) as Haddr.
  pose proof (fo_inum _ _ Hok) as Hi. pose proof (fo_dinode _ _ Hok) as Hdi.
  eapply iupdate_spec; [apply Hf|exact Hs|done|by eapply good_free_block|done|]. cbn [s_dinode].
  intros b' Hb. match type of Hb with in_txn _ ?t1 => apply (HQ _ t1) end.
  - split; cbn; [exact Hb|apply Hf|apply Hf| | |by exists lk].
    + apply layout_upd; [apply Hf|apply Hg].
    + apply file_ok_upd; [done|apply Hg| | |].
      * rewrite length_splice; [apply Hg|]. rewrite (gb_len _ _ Hg), length_dinode_bytes by done.
        change (Z.to_nat BSIZE) with 4096%nat. by apply inode_offset_bound.
      * pose proof (gb_range _ _ Hg). lia.
      * intros q Hq _ H0. by apply inode_block_apart.
  - done.
  - intros o Ho. cbn. unfold fbyte. rewrite Haddr by by apply place_of_offset.
    case_bool; [done|]. unfold store_inode. rewrite upd_ne; [done|].
    apply inode_block_apart; [done|by apply place_of_offset|done].
  - unfold disk_inode, store_inode. cbn. rewrite upd_eq. apply read_dinode_own; [done|apply Hg|done].
  - done.
  - done.
  - done.
  - room_lia.
Qed.

(** ** [readi] and [writei] *)

Lemma readi_spec dst P s t di o n :
  receives dst P -> P [] (user s) -> 0 <= o <= size di -> 0 <= n -> o + n < 2 ^ 64 ->
  let n' := Z.min n (size di - o) in
  ready 0 s t di o n' ->
  wp (readi sb i dst o n) s (fun r s' => r = Ok (n', fbytes (t_view t) di o n') /\
    P (fbytes (t_view t) di o n') (user s') /\ has_read s t di o n' s').
Proof using Type.
  intros Hd HP Ho Hn Hl n' Hrd. destruct (fa_slot _ _ _ (rd_file _ _ _ _ _ _ Hrd)) as [lk Hs].
  pose proof (di_size _ (fo_dinode _ _ (fa_ok _ _ _ (rd_file _ _ _ _ _ _ Hrd)))) as Hsz. unfold is_u32 in Hsz.
  unfold readi. eapply wp_bind, wp_get_valid; [exact Hs|done|]. cbn beta iota.
  rewrite (proj2 (checked_add_Some o n (o + n))) by done.
  eapply wp_bind, wp_get_dinode; [exact Hs|]. cbn [s_dinode].
  assert (E : (if size di <? o + n then size di ⊟ o else n) = n').
  { unfold n'. case_bool; [rewrite usize_sub_small by lia|]; lia. }
  rewrite E. eapply wp_bind, wp_mono.
  - apply (readi_loop_spec dst P (rounds n') s t di o n' []); try done; [apply span_rounds; lia|simpl; lia].
  - intros r s' (-> & HP' & Hread). by apply wp_ret.
Qed.

(** C10: [readi] reads the file.  For an offset within the file it returns
    [min n (size - offset)] bytes, which are those of the file at that offset,
    delivered to the kernel buffer or to user memory.  Every block of the range must be
    a direct one or already mapped, and there must be enough free blocks and room in the log:
    direct blocks that the file does not have yet are allocated and read as zeros (a missing
    block behind an indirect one is read as block 0 of the disk, see [bmap_indirect_stale]).  The contents and the
    size of the file are unchanged, and no block in use that is not the
    file's changes.  When [offset + n] overflows it fails and changes nothing. *)
Theorem readi_reads dst P s t di o n :
  receives dst P -> P [] (user s) -> 0 <= o <= size di -> 0 <= n ->
  ready 0 s t di o (Z.min n (size di - o)) ->
  (o + n < 2 ^ 64 ->
   wp (readi sb i dst o n) s (fun r s' => exists bs,
     bs = fbytes (t_view t) di o (Z.min n (size di - o)) /\ r = Ok (Z.min n (size di - o), bs) /\
     P bs (user s') /\ elsewhere s s' /\ exists t' di', file_at s' t' di' /\ size di' = size di /\
     same_bytes (t_view t) di (t_view t') di' /\
     forall b, good_block (t_view t) b -> (forall p, place_ok p -> addr_at (t_view t) di p <> b) ->
       t_view t' b = t_view t b)) /\
  (2 ^ 64 <= o + n -> readi sb i dst o n s = Done (Err "", s)).
Proof using Type.
  intros Hd HP Ho Hn Hrd. split; intros Hl.
  - eapply wp_mono; [by apply (readi_spec dst P)|].
    intros r s' (-> & HP' & t' & di' & Hf & He & Hb & Hs). eexists. split; [done|]. split_and!; [done|done|done|].
    exists t', di'. split_and!; [done|by rewrite (ev_meta _ _ _ _ _ _ He)|done|apply (ev_frame _ _ _ _ _ _ He)].
  - destruct (fa_slot _ _ _ (rd_file _ _ _ _ _ _ Hrd)) as [lk Hs]. unfold readi, get_valid, get_slot, get, bind.
    rewrite Hs. simpl. by rewrite (proj2 (checked_add_None o n)).
Qed.

Lemma file_at_size s t di z :
  file_at s t di -> is_u32 z ->
  wp (set_dinode i (with_size di z)) s (fun _ s' =>
    file_at s' t (with_size di z) /\ elsewhere s s' /\ user s' = user s).
Proof using Type.
  intros [H1 H2 H3 H4 H5 [lk Hs]] Hz. eapply wp_set_dinode; [exact Hs|]. cbn.
  assert (Hlt : (i < length (data s))%nat) by by eapply lookup_lt_Some. split.
  - split; cbn; [done|done|done|done|by apply file_ok_size|]. exists lk. by apply list_lookup_insert_eq.
  - split; [|done]. split; [done|]. intros j Hj. by apply list_lookup_insert_ne.
Qed.

(** Extending the size and storing the inode. *)
Lemma writei_tail s t di e (Q : result unit -> fs -> Prop) :
  file_at s t di -> room 1 t -> is_u32 e ->
  (forall s' t' di', file_at s' t' di' -> di' = with_size di (Z.max (size di) e) ->
     t_view t' = store_inode sb (t_view t) inum di' -> same_bytes (t_view t) di (t_view t') di' ->
     disk_inode sb (t_view t') inum = Some di' -> (forall p, place_ok p -> addr_at (t_view t') di' p = addr_at (t_view t) di p) ->
     elsewhere s s' -> user s' = user s -> room 0 t' -> Q (Ok tt) s') ->
  wp (let! di := get_dinode i in
      (if size di <? e then
         assert (e <? 2 ^ 32) "TryFromIntError" ;;
         set_dinode i (mkDinode (typ di) (major di) (minor di) (nlink di) e (addrs di))
       else ret tt) ;;
      iupdate sb i ;; ret (Ok tt)) s Q.
Proof using Type.
  intros Hf Hr He HQ. destruct (fa_slot _ _ _ Hf) as [lk Hs]. eapply wp_bind, wp_get_dinode; [exact Hs|].
  cbn [s_dinode]. set (di1 := with_size di (Z.max (size di) e)).
  eapply wp_bind, (wp_mono _ _ (fun _ s1 => file_at s1 t di1 /\ elsewhere s s1 /\ user s1 = user s)).
  - destruct (Z.ltb_spec (size di) e) as [Hlt|Hge].
    + apply wp_bind, wp_assert; [apply Z.ltb_lt; unfold is_u32 in He; lia|].
      unfold di1. rewrite Z.max_r by lia. by apply file_at_size.
    + apply wp_ret. unfold di1. rewrite Z.max_l by lia. by destruct di.
  - intros [] s1 (Hf1 & Hs1 & Hu1). eapply wp_bind, iupdate_file; [exact Hf1|done|].
    intros s2 t2 Hf2 Hv2 Hb2 Hd2 Ha2 Hs2 Hu2 Hr2. apply wp_ret. eapply HQ; try done.
    + by eapply elsewhere_trans.
    + congruence.
Qed.

(** The file system after [writei]. *)
Definition written s (t : txn_state) di (o : Z) (bs : list Z) s' (t' : txn_state) di' : Prop :=
  file_at s' t' di' /\ size di' = Z.max (size di) (o + Z.of_nat (length bs)) /\
  wrote (t_view t) di (t_view t') di' o bs /\ filled (t_view t') di' o (Z.of_nat (length bs)) /\
  disk_inode sb (t_view t') inum = Some di' /\ elsewhere s s' /\ user s' = user s /\ room 0 t' /\
  (forall b, good_block (t_view t) b -> (forall p, place_ok p -> addr_at (t_view t) di p <> b) ->
    b <> inode_block sb inum -> t_view t' b = t_view t b) /\
  di' = mkDinode (typ di) (major di) (minor di) (nlink di) (size di') (addrs di') /\
  forall p, place_ok p -> addr_at (t_view t) di p <> 0 -> addr_at (t_view t') di' p = addr_at (t_view t) di p.

Lemma writei_spec src bs s t di o (Q : result unit -> fs -> Prop) :
  let n := Z.of_nat (length bs) in
  supplies src bs -> 0 <= o <= size di -> o + n < 2 ^ 32 -> ready 1 s t di o n ->
  room (2 * holes (t_view t) di (o / BSIZE) (span o n) + span o n + 1) t ->
  (forall s' t' di', written s t di o bs s' t' di' -> Q (Ok tt) s') ->
  wp (writei sb i src o n) s Q.
Proof using Type.
  intros n Hsrc Ho Hl Hrd Hr HQ. pose proof (rd_file _ _ _ _ _ _ Hrd) as Hf.
  pose proof (rd_range _ _ _ _ _ _ Hrd) as (_ & Hn & Hm). destruct (fa_slot _ _ _ Hf) as [lk Hs].
  unfold writei. eapply wp_bind, wp_get_valid; [exact Hs|done|]. cbn beta iota.
  eapply wp_bind, wp_get_dinode; [exact Hs|]. cbn [s_dinode]. rewrite (proj2 (Z.ltb_ge _ _)) by lia.
  rewrite (proj2 (checked_add_Some o n (o + n))) by lia. rewrite (proj2 (Z.ltb_ge _ _)) by lia.
  eapply wp_bind, wp_mono.
  { pose proof (writei_loop_spec src bs (rounds n) s t di o 0 Hsrc) as Hloop. rewrite Z.sub_0_r in Hloop.
    apply Hloop; [done|apply span_rounds; lia|done|lia]. }
  intros e s1 [-> (t1 & di1 & Hf1 & He & Hw & Hfill & Hs1 & Hu1)]. change (drop (Z.to_nat 0) bs) with bs in *.
  fold n in He, Hfill. eapply writei_tail; [exact Hf1| |split; lia|].
  { eapply room_evolves; [exact Hr|exact Hf|exact Hf1|exact He]. }
  intros s2 t2 di2 Hf2 Hd2 Hv2 Hb2 Hdisk Ha2 Hs2 Hu2 Hr2. apply (HQ s2 t2 di2). split_and!; try done.
  - rewrite Hd2. cbn. by rewrite (ev_meta _ _ _ _ _ _ He).
  - intros x Hx. rewrite Hb2 by done. by apply Hw.
  - intros k Hk. rewrite Ha2; [by apply Hfill|]. destruct (decide (0 < n)) as [Hp|Hp].
    + pose proof (span_bound o n MAXFILE ltac:(lia) Hp Hm).
      assert (0 <= o / BSIZE) by (apply Z.div_pos; [lia|done]). simpl. fold n in Hk. lia.
    + unfold span in Hk. fold n in Hk. rewrite (proj2 (Z.ltb_ge 0 n)) in Hk by lia. lia.
  - by eapply elsewhere_trans.
  - congruence.
  - intros b Hb Hp Hbi. rewrite Hv2. unfold store_inode. rewrite upd_ne by done.
    by apply (ev_frame _ _ _ _ _ _ He).
  - rewrite Hd2, (ev_meta _ _ _ _ _ _ He). done.
  - intros p Hp H0. rewrite Ha2 by done. by apply (ev_keep _ _ _ _ _ _ He).
Qed.

Lemma holes_filled v di o n : filled v di o n -> holes v di (o / BSIZE) (span o n) = 0%nat.
Proof using Type.
  unfold filled. generalize (o / BSIZE), (span o n). intros k m. revert k.
  induction m as [|m IH]; intros k H; [done|]. rewrite holes_step, IH by (intros k' Hk'; apply H; lia).
  unfold hole. rewrite (proj2 (Z.eqb_neq _ _)); [done|]. apply H. lia.
Qed.

Lemma fbytes_wrote v di v' di' o bs :
  0 <= o -> o + Z.of_nat (length bs) <= MAXFILE * BSIZE -> wrote v di v' di' o bs ->
  fbytes v' di' o (Z.of_nat (length bs)) = bs.
Proof using Type.
  intros Ho Hl Hw. apply list_eq_same_length with (n := length bs).
  - done.
  - rewrite length_fbytes. lia.
  - intros j x y Hj. unfold fbytes. rewrite list_lookup_fmap, lookup_seqZ_lt by lia. simpl.
    rewrite Hw by lia. rewrite decide_True by lia. intros [= <-] Hy.
    apply list_lookup_total_correct. rewrite <-Hy. f_equal. lia.
Qed.

(** C9: a write is what is read back.  [writei] of the bytes [bs] at an
    offset that is at most the size of the file, up to an end below 2^32, succeeds when every block of the range
    is a direct one or already mapped (for a missing block behind an indirect one see
    [bmap_indirect_stale]) and there are enough free blocks and room in the log:
    the file is extended to cover them, its bytes outside the range keep their
    values, holes and the area past the old size included, the inode on disk is
    the one in memory, and no block in use changes that is neither the file's nor
    its inode's; blocks the file had and the inode's other fields are kept.  A
    [readi] of the same range then returns exactly [bs]. *)
Theorem writei_readi src bs s t di o :
  let n := Z.of_nat (length bs) in
  supplies src bs -> 0 <= o <= size di -> o + n < 2 ^ 32 -> ready 1 s t di o n ->
  room (2 * holes (t_view t) di (o / BSIZE) (span o n) + span o n + 1) t ->
  wp (let! w := writei sb i src o n in
      let! s1 := get in
      let! r := readi sb i (Kernel []) o n in
      ret (w, s1, r)) s (fun '(w, s1, r) _ => w = Ok tt /\ r = Ok (n, bs) /\
        exists t1 di1, written s t di o bs s1 t1 di1).
Proof using Type.
  intros n Hsrc Ho Hl Hrd Hr. eapply wp_bind, writei_spec; try done.
  intros s1 t1 di1 Hw. apply wp_bind, wp_get. pose proof Hw as (Hf1 & Hsz & Hb & Hfill & _ & _ & _ & Hr0 & _).
  pose proof (rd_range _ _ _ _ _ _ Hrd) as (_ & _ & Hm). fold n in Hfill, Hsz.
  assert (Hmin : Z.min n (size di1 - o) = n) by lia.
  eapply wp_bind, wp_mono.
  - apply (readi_spec (Kernel []) (fun _ _ => True) s1 t1 di1 o n); [by intros acc bs1 u|done|lia|lia|lia|].
    rewrite Hmin. split; [done|lia|..].
    + intros k Hk. right. by apply Hfill.
    + rewrite holes_filled by done. by rewrite Nat.mul_0_r, Nat.mul_0_l.
    + rewrite holes_filled by done. lia.
  - intros r s2 (-> & _ & _). apply wp_ret. rewrite Hmin. unfold n. rewrite (fbytes_wrote (t_view t) di) by (done || lia).
    split_and!; [done|done|]. by exists t1, di1.
Qed.

End file.

(** ** A sample file

    Inode 70 of the sample disk in slot 0: ten bytes long, with an indirect
    block (36) whose entries are zero, and no data block. *)

Definition sample_inode : DiskInode := mkDinode File 0 0 1 10 (replicate 11 0 ++ [36; 0]).
Definition sample_state (f : Log.fsys) : @fs Log.fsys unit :=
  sample_fs f [mkSlot true (Some (ROOTDEV, 70)) sample_inode].
Definition sample_view : Z -> block := Bio.disk_get Bmap.sample_disk.

Lemma read_word_zero k : 0 <= k < NINDIRECT -> read_word zero_block k = 0.
Proof.
  intros Hk. change NINDIRECT with 1024 in Hk. unfold read_word.
  assert (E : zero_block = replicate 4096 0) by reflexivity.
  rewrite E, drop_replicate, take_replicate, Nat.min_l by lia. reflexivity.
Qed.

Lemma sample_view_zero b : b <> 40 -> sample_view b = zero_block.
Proof.
  intros Hb. unfold sample_view, Bio.disk_get, Bmap.sample_disk. by rewrite lookup_singleton_ne.
Qed.

Lemma sample_addr p :
  place_ok p -> addr_at sample_view sample_inode p = if decide (p = Ind) then 36 else 0.
Proof.
  intros Hp. destruct p as [k| | |j]; [|done|done|done]. simpl in Hp. cbn [addr_at]. rewrite decide_False by done.
  change (Z.of_nat NDIRECT) with 11. destruct (Z.ltb_spec k 11) as [Hlt|Hge].
  - unfold addr, sample_inode. cbn [addrs]. rewrite list_lookup_total_alt, lookup_app_l by (rewrite length_replicate; lia).
    by rewrite lookup_replicate_2 by lia.
  - cbv zeta. change (addr sample_inode NDIRECT) with 36. change (addr sample_inode (NDIRECT + 1)) with 0.
    case_bool; [|done]. unfold entry. cbn [Z.eqb]. rewrite sample_view_zero by done. apply read_word_zero. lia.
Qed.

Lemma sample_good b :
  32 <= b < 40 -> good_block (HL := Bmap.sample_laws) Bmap.sample_sb sample_view b.
Proof.
  intros Hb. split.
  - split; unfold is_u32, Log.in_log; lia.
  - simpl. lia.
  - unfold sample_view. rewrite Bmap.sample_used by lia. apply bool_decide_eq_true_2. lia.
  - intros ?%Bmap.sample_bitmap_block. lia.
  - rewrite sample_view_zero by lia. apply (length_replicate (Z.to_nat BSIZE)).
Qed.

Lemma sample_file_ok :
  file_ok (HL := Bmap.sample_laws) Bmap.sample_sb 70 sample_view sample_inode.
Proof.
  split.
  - split; [by vm_compute..|reflexivity|by repeat (constructor; [by vm_compute|])].
  - vm_compute. reflexivity.
  - done.
  - apply sample_good. vm_compute. split; congruence.
  - intros p Hp. rewrite sample_addr by done. case_decide; [|done]. intros _.
    split; [by apply sample_good|]. vm_compute. congruence.
  - intros p q Hp Hq. rewrite !sample_addr by done. repeat case_decide; congruence.
Qed.

Lemma sample_file_at f :
  in_txn (BlockLaws := Bmap.sample_laws) f (mkTxn sample_view ∅ ∅ ∅) ->
  file_at (HL := Bmap.sample_laws) Bmap.sample_sb 70 0 (sample_state f) (mkTxn sample_view ∅ ∅ ∅) sample_inode.
Proof.
  intros Ht. split; [done|done|done|exact Bmap.sample_layout|exact sample_file_ok|]. by exists true.
Qed.

Lemma sample_free : free_count Bmap.sample_sb sample_view = 59%nat.
Proof. vm_compute. reflexivity. Qed.

Lemma sample_ready w f o n :
  in_txn (BlockLaws := Bmap.sample_laws) f (mkTxn sample_view ∅ ∅ ∅) ->
  0 <= o -> 0 < n -> o + n <= BSIZE -> (w <= 2)%nat ->
  ready (HL := Bmap.sample_laws) Bmap.sample_sb 70 0 w (sample_state f) (mkTxn sample_view ∅ ∅ ∅) sample_inode o n.
Proof.
  intros Ht Ho Hn Hl Hw. assert (E : o / BSIZE = 0) by (apply Z.div_small; lia).
  assert (Hs : span o n = 1%nat).
  { unfold span. rewrite E, (proj2 (Z.ltb_lt 0 n)), (Z.div_small (o + n - 1)) by lia. done. }
  split; rewrite ?Hs, ?E; cbn [t_view].
  - by apply sample_file_at.
  - split_and!; [done|lia|]. change (MAXFILE * BSIZE) with 4299206656. change BSIZE with 4096 in Hl. lia.
  - intros k Hk. left. change (Z.of_nat NDIRECT) with 11. lia.
  - assert (Eh : holes sample_view sample_inode 0 1 = 1%nat) by reflexivity. rewrite Eh.
    assert (Hr : room (BlockLaws0 := Bmap.sample_laws) 29 (mkTxn sample_view ∅ ∅ ∅)) by (vm_compute; lia).
    unfold room in *. lia.
  - rewrite sample_free. assert (Eh : holes sample_view sample_inode 0 1 = 1%nat) by reflexivity. rewrite Eh. lia.
Qed.

Lemma readi_reads_witness :
  exists f, wp (readi (UserCopy0 := no_user) Bmap.sample_sb 0 (Kernel []) 4 20) (sample_state f)
    (fun r _ => r = Ok (6, [0; 0; 0; 0; 0; 0])).
Proof.
  destruct (txn_begin 2 30 Log.sample_geometry Bmap.sample_disk Bmap.sample_disk_clean)
    as (f0 & f & _ & _ & _ & Ht).
  exists f. eapply wp_mono.
  - apply (readi_reads (HL := Bmap.sample_laws) (UserCopy0 := no_user) Bmap.sample_sb 70 0 (Kernel [])
      (fun _ _ => True) (sample_state f) (mkTxn sample_view ∅ ∅ ∅) sample_inode 4 20).
    + by intros acc bs u.
    + done.
    + simpl. lia.
    + lia.
    + apply sample_ready; [exact Ht|first [lia|by vm_compute]..].
    + lia.
  - intros r s (bs & -> & -> & _). vm_compute. reflexivity.
Defined.

Lemma writei_readi_witness :
  exists f, wp (let! w := writei (UserCopy0 := no_user) Bmap.sample_sb 0 (Kernel [7; 8; 9]) 10 3 in
                let! s1 := get in
                let! r := readi (UserCopy0 := no_user) Bmap.sample_sb 0 (Kernel []) 10 3 in
                ret (w, s1, r)) (sample_state f)
    (fun x _ => x.2 = Ok (3, [7; 8; 9])).
Proof.
  destruct (txn_begin 2 30 Log.sample_geometry Bmap.sample_disk Bmap.sample_disk_clean)
    as (f0 & f & _ & _ & _ & Ht).
  exists f. eapply wp_mono.
  - apply (writei_readi (HL := Bmap.sample_laws) (UserCopy0 := no_user) Bmap.sample_sb 70 0 (Kernel [7; 8; 9])
      [7; 8; 9] (sample_state f) (mkTxn sample_view ∅ ∅ ∅) sample_inode 10).
    + by exists [].
    + simpl. lia.
    + simpl. lia.
    + apply sample_ready; [exact Ht|first [lia|by vm_compute]..].
    + assert (E : holes sample_view sample_inode (10 / BSIZE) (span 10 (Z.of_nat (length [7; 8; 9]))) = 1%nat)
        by reflexivity.
      cbn [t_view]. rewrite E. vm_compute. lia.
  - intros [[w s1] r] s (_ & Hr & _). exact Hr.
Defined.

Lemma bmap_indirect_stale_witness :
  exists f, wp (bmap Bmap.sample_sb 0 20) (sample_state f) (fun r _ => r = 0).
Proof.
  destruct (txn_begin 2 30 Log.sample_geometry Bmap.sample_disk Bmap.sample_disk_clean)
    as (f0 & f & _ & _ & _ & Ht).
  exists f. eapply wp_mono.
  - apply (bmap_indirect_stale (HL := Bmap.sample_laws) Bmap.sample_sb 70 0 (sample_state f)
      (mkTxn sample_view ∅ ∅ ∅) sample_inode 20).
    + apply sample_file_at. exact Ht.
    + vm_compute. split; congruence.
    + vm_compute. congruence.
    + apply (sample_addr (Data 20)). vm_compute. split; congruence.
    + vm_compute. lia.
    + cbn [t_view]. rewrite sample_free. lia.
  - intros r s (Hr & _). exact Hr.
Defined.

End FsFile.
