(* ===== verification/Trunc.v ===== *)
(** * Giving inodes back

    The theory of [itrunc] and of the last [iput] of an inode without links in
    [kernel/src/fs.rs] (modelled in [Fs.v]), which frees the inode and its blocks on disk, and
    the theorem on the reference counts of the inode table. *)

From S2P Require Import Prelude Param Bytes Bio Log Blocks Bmap Fs Inodes FsFile.

Module Trunc.
Import Bmap Fs Inodes FsFile.

Section trunc.
Context {B : Type} `{!BlockOps B} {HL : BlockLaws B} {U : Type} `{!UserCopy U} (sb : SuperBlock).
Implicit Types (s : @fs B U) (v : Z -> block) (di : DiskInode).

(** ** Freeing a list of blocks *)

Definition cleared v (l : list Z) : Z -> block := foldl (clear_used sb) v l.
Definition bitmaps (l : list Z) : gset Z := list_to_set (bmap_block sb <$> l).

Lemma cleared_snoc v l b : cleared v (l ++ [b]) = clear_used sb (cleared v l) b.
Proof using Type. unfold cleared. by rewrite foldl_app. Qed.
Lemma bitmaps_snoc l b : bitmaps (l ++ [b]) = {[bmap_block sb b]} ∪ bitmaps l.
Proof using Type. unfold bitmaps. rewrite fmap_app, list_to_set_app_L. cbn. set_solver. Qed.

Lemma cleared_layout v l :
  layout sb v -> Forall (good_block sb v) l -> layout sb (cleared v l) /\
  forall x, 0 <= x < sb_size sb -> used sb (cleared v l) x = used sb v x && bool_decide (x ∉ l).
Proof using Type.
  intros Hl. induction l as [|b l IH] using rev_ind; intros Hg.
  { split; [done|]. intros x _. rewrite bool_decide_true by apply not_elem_of_nil. by rewrite andb_true_r. }
  apply Forall_app in Hg as [Hg Hb]. apply Forall_cons in Hb as [Hb _]. destruct (IH Hg) as [Hl' Hu].
  rewrite cleared_snoc. destruct Hb as [H1 H2 _ H4 _]. split; [by apply layout_clear_used|].
  intros x Hx. rewrite used_clear_used by done. case_decide as E.
  - subst. rewrite bool_decide_false; [by rewrite andb_false_r|]. set_solver.
  - rewrite Hu by done. f_equal. apply bool_decide_ext. set_solver.
Qed.

Lemma cleared_other v l b : Forall (good_block sb v) l -> ~ is_bitmap sb b -> cleared v l b = v b.
Proof using Type.
  intros Hg Hb. induction l as [|a l IH] using rev_ind; [done|].
  apply Forall_app in Hg as [Hg Ha]. apply Forall_cons in Ha as [Ha _]. rewrite cleared_snoc. unfold clear_used.
  rewrite upd_ne; [by apply IH|]. intros ->. apply Hb. exists a. split; [apply Ha|done].
Qed.

(** The transaction when the blocks [l] of [v] have been freed, with the buffers [h] held. *)
Definition freeing v (h : gmap Z Bio.BufGuard) (L : gset Z) (l : list Z) : txn_state :=
  mkTxn (cleared v l) h ∅ (bitmaps l ∪ L).

Lemma free_next v h L l bn b :
  layout sb v -> Forall (good_block sb v) l -> good_block sb v bn -> bn ∉ l ->
  (forall x, is_Some (h !! x) -> good_block sb v x /\ x ∉ l) ->
  room 1 (freeing v h L l) -> in_txn b (freeing v h L l) ->
  wp (free sb ROOTDEV bn) b (fun _ b' => in_txn b' (freeing v h L (l ++ [bn]))).
Proof using Type.
  intros Hl Hg Hb Hn Hh Hr Ht. destruct (cleared_layout v l Hl Hg) as [Hl' Hu].
  eapply wp_mono; [apply free_spec; [exact Ht|exact Hl'| |exact Hr|apply Hb|]|].
  - split_and!; cbn.
    + intros x Hx. apply eq_None_not_Some. intros Hs. by apply (gb_bitmap _ _ _ (proj1 (Hh x Hs))).
    + intros x Hx Hux. apply eq_None_not_Some. intros Hs. destruct (Hh x Hs) as [Hgx Hnx].
      rewrite Hu, (gb_used _ _ _ Hgx), bool_decide_true in Hux by done. done.
    + set_solver.
  - cbn. rewrite Hu by apply Hb. by rewrite (gb_used _ _ _ Hb), bool_decide_true.
  - intros [] b' H. unfold freeing. rewrite cleared_snoc, bitmaps_snoc, <-(assoc_L (∪)). exact H.
Qed.

(** ** The blocks that [itrunc] frees *)

Definition live {X} (f : X -> Z) (ks : list X) : list Z := filter (fun a => a <> 0) (f <$> ks).

Lemma live_cons {X} (f : X -> Z) k ks : live f (k :: ks) = if decide (f k <> 0) then f k :: live f ks else live f ks.
Proof using Type. unfold live. by rewrite fmap_cons, filter_cons. Qed.
Lemma live_app {X} (f : X -> Z) ks ks' : live f (ks ++ ks') = live f ks ++ live f ks'.
Proof using Type. unfold live. by rewrite fmap_app, filter_app. Qed.

Lemma live_ext {X Y} (f : X -> Z) (g : Y -> Z) (h : Y -> X) ks :
  (forall k, k ∈ ks -> f (h k) = g k) -> live f (h <$> ks) = live g ks.
Proof using Type.
  intros E. induction ks as [|k ks IH]; [done|]. cbn [fmap list_fmap]. rewrite !live_cons, E by left.
  rewrite IH by (intros k' Hk; apply E; by right). done.
Qed.

Lemma elem_of_live {X} (f : X -> Z) ks a : a ∈ live f ks <-> a <> 0 /\ exists k, k ∈ ks /\ f k = a.
Proof using Type.
  unfold live. rewrite list_elem_of_filter, list_elem_of_fmap. split; intros [H1 (k & H2 & H3)]; (split; [done|]); exists k; done.
Qed.

Lemma live_NoDup {X} (f : X -> Z) ks :
  NoDup ks -> (forall k k', k ∈ ks -> k' ∈ ks -> f k <> 0 -> f k = f k' -> k = k') -> NoDup (live f ks).
Proof using Type.
  induction 1 as [|k ks Hk _ IH]; intros Hinj; [constructor|]. rewrite live_cons.
  assert (NoDup (live f ks)) by (apply IH; intros; apply Hinj; try (by right); done).
  case_decide as E; [|done]. constructor; [|done]. intros (_ & k' & Hk' & E')%elem_of_live.
  apply Hk. rewrite (Hinj k k'); [done|by left|by right|done|done].
Qed.

(** Direct blocks, the blocks behind the indirect block, and that block; not those behind the
    double-indirect one. *)
Definition singles : list place :=
  (Data ∘ Z.of_nat <$> seq 0 NDIRECT) ++ ((fun k => Data (Z.of_nat NDIRECT + k)) <$> seqZ 0 NINDIRECT) ++ [Ind].
Definition freed_blocks v di : list Z := live (addr_at v di) singles.

Lemma singles_ok p : p ∈ singles -> place_ok p.
Proof using Type.
  unfold singles. rewrite !elem_of_app, !list_elem_of_fmap.
  intros [(k & -> & Hk%elem_of_seq)|[(k & -> & Hk%elem_of_seqZ)|Hp]].
  - change (0 <= Z.of_nat k < MAXFILE). change MAXFILE with 1049611. change NDIRECT with 11%nat in Hk. lia.
  - change (0 <= Z.of_nat NDIRECT + k < MAXFILE). change MAXFILE with 1049611. change (Z.of_nat NDIRECT) with 11.
    change NINDIRECT with 1024 in Hk. lia.
  - apply list_elem_of_singleton in Hp as ->. done.
Qed.

Lemma singles_NoDup : NoDup singles.
Proof using Type.
  unfold singles. apply NoDup_app. split_and!.
  - apply NoDup_fmap_2; [|apply NoDup_seq]. intros x y E. injection E. lia.
  - intros p (k & -> & Hk%elem_of_seq)%list_elem_of_fmap [(k' & E & Hk'%elem_of_seqZ)%list_elem_of_fmap|Hp]%elem_of_app.
    + injection E as E. change NDIRECT with 11%nat in *. lia.
    + by apply list_elem_of_singleton in Hp.
  - apply NoDup_app. split_and!; [|intros p (k & -> & _)%list_elem_of_fmap Hp; by apply list_elem_of_singleton in Hp|apply NoDup_singleton].
    apply NoDup_fmap_2; [|apply NoDup_seqZ]. intros x y E. injection E. lia.
Qed.

Lemma freed_blocks_split v di :
  freed_blocks v di = live (addr di) (seq 0 NDIRECT) ++
    (if addr di NDIRECT =? 0 then [] else live (read_word (v (addr di NDIRECT))) (seqZ 0 NINDIRECT) ++ [addr di NDIRECT]).
Proof using Type.
  unfold freed_blocks, singles. rewrite !live_app.
  change (live (addr_at v di) (Data ∘ Z.of_nat <$> seq 0 NDIRECT)) with (live (addr di) (seq 0 NDIRECT)). f_equal.
  rewrite (live_ext _ (fun k => entry v (addr di NDIRECT) k)).
  - unfold entry. destruct (Z.eqb_spec (addr di NDIRECT) 0) as [E|E]; cbn [live fmap list_fmap addr_at].
    + rewrite live_cons, decide_False by (cbn [addr_at]; auto). rewrite app_nil_r. unfold live.
        induction (seqZ 0 NINDIRECT) as [|k ks IH]; [done|]. rewrite fmap_cons, filter_cons, decide_False by auto. exact IH.
    + by rewrite live_cons, decide_True by done.
  - intros k Hk%elem_of_seqZ. change (Z.of_nat NDIRECT) with 11. cbn [addr_at]. change (Z.of_nat NDIRECT) with 11.
      rewrite (proj2 (Z.ltb_ge _ _)) by lia. replace (11 + k - 11) with k by lia.
      by rewrite (proj2 (Z.ltb_lt _ _)) by lia.
Qed.

Lemma freed_blocks_ok inum v di :
  file_ok sb inum v di -> Forall (good_block sb v) (freed_blocks v di) /\ NoDup (freed_blocks v di).
Proof using Type.
  intros Hok. split.
  - apply Forall_forall. intros a (Ha & p & Hp & <-)%elem_of_live. apply (fo_block _ _ _ _ Hok p); [by apply singles_ok|done].
  - apply live_NoDup; [apply singles_NoDup|]. intros p q Hp Hq. apply (fo_inj _ _ _ _ Hok); by apply singles_ok.
Qed.

(** ** The loops of [itrunc] *)

Section loops.
Context (i : nat) (inum : Z) (u : U) (mt : list InodeMeta) (D : list slot) (v : Z -> block) (L : gset Z) (full : list Z).
Hypothesis (Hi : (i < length D)%nat) (Hlay : layout sb v) (Hgood : Forall (good_block sb v) full) (Hdup : NoDup full).
Hypothesis (Hroom : (2 + base.size (bitmaps full ∪ L) <= capacity)%nat).

(** The state while the blocks are freed. *)
Definition during (b : B) di : @fs B U := mkFsState b u mt (<[i := mkSlot true (Some (ROOTDEV, inum)) di]> D).

Lemma during_slot b di : data (during b di) !! i = Some (mkSlot true (Some (ROOTDEV, inum)) di).
Proof using Hi. by apply list_lookup_insert_eq. Qed.

Lemma during_set b di di' (Q : unit -> fs -> Prop) : Q tt (during b di') -> wp (set_dinode i di') (during b di) Q.
Proof using Hi.
  intros HQ. eapply wp_set_dinode; [apply during_slot|]. cbn. by rewrite list_insert_insert_eq.
Qed.

Lemma free_during l x h b di (Q : unit -> fs -> Prop) :
  l ++ [x] `prefix_of` full -> (base.size h <= 1)%nat -> (forall y, is_Some (h !! y) -> good_block sb v y /\ y ∉ l) ->
  in_txn b (freeing v h L l) ->
  (forall b', in_txn b' (freeing v h L (l ++ [x])) -> Q tt (during b' di)) ->
  wp (on_blk (free sb ROOTDEV x)) (during b di) Q.
Proof using Hi Hlay Hgood Hdup Hroom.
  intros [rest ->] Hs Hh Ht HQ. apply wp_on_blk. rewrite <-(assoc_L (++)) in *. cbn [app] in *.
  apply Forall_app in Hgood as [G1 [G2 _]%Forall_cons]. apply NoDup_app in Hdup as (_ & N & _).
  eapply wp_mono; [apply (free_next v h L l x b); try done|intros [] b' Hb; by apply HQ].
  - intros Hx. apply (N x Hx). left.
  - unfold room, freeing. cbn. assert (base.size (bitmaps l ∪ L) <= base.size (bitmaps (l ++ x :: rest) ∪ L))%nat; [|lia].
    apply subseteq_size. unfold bitmaps. rewrite fmap_app, list_to_set_app_L. set_solver.
Qed.

Definition zeroed (ks : list nat) (a : list Z) : list Z := foldl (fun a k => <[k := 0]> a) a ks.
Definition with_addrs di (a : list Z) : DiskInode := mkDinode (typ di) (major di) (minor di) (nlink di) (Fs.size di) a.

Lemma direct_loop ks l b di :
  (forall k, k ∈ ks -> (k < length (addrs di))%nat) -> NoDup ks ->
  (forall k, k ∈ ks -> 0 <= addr di k) -> l ++ live (addr di) ks `prefix_of` full ->
  in_txn b (freeing v ∅ L l) ->
  wp (mfor ks (itrunc_direct sb i ROOTDEV)) (during b di) (fun _ s' => exists b',
    s' = during b' (with_addrs di (zeroed ks (addrs di))) /\ in_txn b' (freeing v ∅ L (l ++ live (addr di) ks))).
Proof using Hi Hlay Hgood Hdup Hroom.
  revert l b di. induction ks as [|k ks IH]; intros l b di Hlen Hnd Hpos Hpre Ht.
  { apply wp_ret. exists b. rewrite app_nil_r. split; [by destruct di|done]. }
  apply NoDup_cons in Hnd as [Hk Hnd]. cbn [mfor]. apply wp_bind. unfold itrunc_direct, get_addr.
  eapply wp_bind, wp_bind, wp_get_dinode; [apply during_slot|]. cbn [s_dinode].
  assert (Hkl : addrs di !! k = Some (addr di k)) by (unfold addr; apply list_lookup_lookup_total_lt, Hlen; left).
  eapply wp_unwrap; [exact Hkl|]. rewrite live_cons in Hpre |- *. pose proof (Hpos k ltac:(left)) as Hp.
  assert (Hrec : forall l' b', l' ++ live (addr di) ks `prefix_of` full -> in_txn b' (freeing v ∅ L l') ->
    wp (mfor ks (itrunc_direct sb i ROOTDEV)) (during b' (with_addrs di (<[k := 0]> (addrs di)))) (fun _ s' => exists b2,
      s' = during b2 (with_addrs di (zeroed (k :: ks) (addrs di))) /\ in_txn b2 (freeing v ∅ L (l' ++ live (addr di) ks)))).
  { intros l' b' Hpre' Ht'. set (dj := with_addrs di _).
    assert (Hsame : forall k', k' ∈ ks -> addr dj k' = addr di k').
    { intros k' Hk'. unfold addr, dj, with_addrs. cbn [addrs]. apply list_lookup_total_insert_ne. by intros ->. }
    assert (Hlive : live (addr dj) ks = live (addr di) ks) by (rewrite <-(list_fmap_id ks) at 1; by apply live_ext).
    rewrite <-Hlive in Hpre' |- *. apply (IH l' b' dj); try done.
    - intros k' Hk'. unfold dj, with_addrs. cbn [addrs]. rewrite length_insert. apply Hlen. by right.
    - intros k' Hk'. rewrite Hsame by done. apply Hpos. by right. }
  case_decide as E.
  - rewrite (proj2 (Z.ltb_lt _ _)) by lia. change (addr di k :: live (addr di) ks) with ([addr di k] ++ live (addr di) ks) in *.
    rewrite (assoc_L (++)) in Hpre |- *.
    eapply wp_bind, free_during; [etrans; [by apply prefix_app_r|exact Hpre]|by rewrite map_size_empty; lia| |exact Ht|].
    { intros y [? Hy]. by rewrite lookup_empty in Hy. }
    intros b' Hb'. unfold set_addr. eapply wp_bind, wp_get_dinode; [apply during_slot|]. cbn [s_dinode].
    apply wp_bind, wp_assert; [apply Nat.ltb_lt, Hlen; left|]. apply during_set. by apply Hrec.
  - rewrite (proj2 (Z.ltb_ge _ _)) by lia. apply wp_ret.
    assert (di = with_addrs di (<[k := 0]> (addrs di))) as Edi.
    { rewrite list_insert_id; [by destruct di|]. rewrite Hkl. f_equal. lia. }
    rewrite Edi at 1. by apply Hrec.
Qed.

Lemma entries_loop a g ks l b di :
  good_block sb v a -> l ++ live (read_word (v a)) ks ++ [a] `prefix_of` full ->
  in_txn b (freeing v {[a := g]} L l) ->
  wp (mfor ks (fun k =>
       let! d := on_blk (blk_data g) in
       let bn := read_word d k in
       if negb (bn =? 0) then on_blk (free sb ROOTDEV bn) else ret tt)) (during b di) (fun _ s' => exists b',
    s' = during b' di /\ in_txn b' (freeing v {[a := g]} L (l ++ live (read_word (v a)) ks))).
Proof using Hi Hlay Hgood Hdup Hroom.
  intros Ha. revert l b. induction ks as [|k ks IH]; intros l b Hpre Ht.
  { apply wp_ret. exists b. by rewrite app_nil_r. }
  assert (Hal : a ∉ l /\ Forall (good_block sb v) l).
  { destruct Hpre as [rest E]. rewrite E in Hdup, Hgood. rewrite <-!(assoc_L (++)) in Hdup, Hgood. apply Forall_app in Hgood as [G _].
    split; [|done]. apply NoDup_app in Hdup as (_ & N & _). intros Hin. apply (N a Hin). rewrite !elem_of_app. right. left. left. }
  destruct Hal as [Hal Hgl]. cbn [mfor]. apply wp_bind.
  eapply wp_bind, (wp_blk_data (t := freeing v {[a := g]} L l) a); [exact Ht|apply lookup_singleton_eq|].
  intros b1 Ht1. cbn [t_view freeing]. rewrite (cleared_other v l a Hgl (gb_bitmap _ _ _ Ha)). cbv zeta.
  change (mkFsState b1 _ _ _) with (during b1 di). rewrite live_cons in Hpre |- *.
  case_decide as E.
  - rewrite (proj2 (Z.eqb_neq _ _)) by done. cbn [negb].
    change (read_word (v a) k :: live (read_word (v a)) ks) with ([read_word (v a) k] ++ live (read_word (v a)) ks) in *.
    rewrite <-(assoc_L (++)), (assoc_L (++) l) in Hpre. rewrite (assoc_L (++) l).
    eapply free_during; [etrans; [by apply prefix_app_r|exact Hpre]|by rewrite map_size_singleton| |exact Ht1|].
    { intros y [z Hy]. apply lookup_singleton_Some in Hy as [<- _]. done. }
    intros b2 Ht2. by apply IH.
  - rewrite (proj2 (Z.eqb_eq _ _)) by lia. cbn [negb]. apply wp_ret. by apply IH.
Qed.

End loops.

Lemma zeroed_prefix n a : (n <= length a)%nat -> zeroed (seq 0 n) a = replicate n 0 ++ drop n a.
Proof using Type.
  induction n as [|n IH]; intros Hn; [done|]. unfold zeroed in *. rewrite seq_S, foldl_app, IH by lia. cbn [foldl].
  rewrite insert_app_r_alt by (by rewrite length_replicate). rewrite length_replicate, Nat.add_0_l, Nat.sub_diag.
  destruct (drop n a) as [|x r] eqn:Ed; [apply (f_equal length) in Ed; rewrite length_drop in Ed; cbn in Ed; lia|].
  replace r with (drop (S n) a); [|by rewrite <-Nat.add_1_r, <-drop_drop, Ed].
  change (replicate n 0 ++ [0] ++ drop (S n) a = replicate (S n) 0 ++ drop (S n) a).
  by rewrite (replicate_S_end n 0), <-(assoc_L (++)).
Qed.

(** The inode that is left: no block but the double-indirect one, and size 0. *)
Definition truncated di : DiskInode :=
  mkDinode (typ di) (major di) (minor di) (nlink di) 0 (replicate (NDIRECT + 1) 0 ++ drop (NDIRECT + 1) (addrs di)).

Lemma truncated_ok di : dinode_ok di -> dinode_ok (truncated di).
Proof using Type.
  intros [H1 H2 H3 _ H5 H6]. split; cbn [major minor nlink Fs.size addrs truncated]; try done.
  - rewrite length_app, length_replicate, length_drop, H5. done.
  - apply Forall_app. split; [by apply Forall_replicate|by apply Forall_drop].
Qed.

(** Room for the bitmap blocks of the file and for its inode. *)
Definition trunc_room inum (t : txn_state) di : Prop :=
  (2 + base.size ({[inode_block sb inum]} ∪ (bitmaps (freed_blocks (t_view t) di) ∪ t_logged t)) <= capacity)%nat.

Definition emptied inum v di (di' : DiskInode) : Z -> block := store_inode sb (cleared v (freed_blocks v di)) inum di'.

Section itrunc.
Context (i : nat) (inum : Z) (u : U) (mt : list InodeMeta) (D : list slot) (v : Z -> block) (L : gset Z) (di : DiskInode).
Hypothesis (Hi : (i < length D)%nat) (Hlay : layout sb v) (Hok : file_ok sb inum v di).
Hypothesis (Hroom : (2 + base.size ({[inode_block sb inum]} ∪ (bitmaps (freed_blocks v di) ∪ L)) <= capacity)%nat).
Notation during := (during i inum u mt D).
Notation all := (freed_blocks v di).

Lemma all_room : (2 + base.size (bitmaps all ∪ L) <= capacity)%nat.
Proof using Hi Hlay Hok Hroom.
  assert (base.size (bitmaps all ∪ L) <= base.size ({[inode_block sb inum]} ∪ (bitmaps all ∪ L)))%nat; [|lia].
  apply subseteq_size. set_solver.
Qed.

Lemma addr_nonneg k : (k <= NDIRECT)%nat -> 0 <= addr di k.
Proof using Hi Hlay Hok Hroom.
  intros Hk. pose proof (di_addrs _ (fo_dinode _ _ _ _ Hok)) as Hf. rewrite Forall_lookup in Hf.
  assert (is_u32 (addr di k)) as [? _]; [|done]. apply (Hf k), list_lookup_lookup_total_lt.
  rewrite (di_len _ (fo_dinode _ _ _ _ Hok)). lia.
Qed.

(** The indirect block and what it points to. *)
Lemma indirect_freed b dj (Q : unit -> fs -> Prop) :
  let a := addr di NDIRECT in
  (length (addrs dj) = NDIRECT + 2)%nat -> addr dj NDIRECT = a -> in_txn b (freeing v ∅ L (live (addr di) (seq 0 NDIRECT))) ->
  (forall b', in_txn b' (freeing v ∅ L all) -> Q tt (during b' (with_addrs dj (<[NDIRECT := 0]> (addrs dj))))) ->
  wp (if 0 <? a then
        let! g := on_blk (blk_read ROOTDEV a) in
        mfor (seqZ 0 NINDIRECT) (fun k =>
          let! d := on_blk (blk_data g) in
          let bn := read_word d k in
          if negb (bn =? 0) then on_blk (free sb ROOTDEV bn) else ret tt) ;;
        on_blk (blk_drop g) ;;
        on_blk (free sb ROOTDEV a) ;;
        set_addr i NDIRECT 0
      else ret tt) (during b dj) Q.
Proof using Hi Hlay Hok Hroom.
  intros a Hlen Ea Ht HQ. destruct (freed_blocks_ok inum v di Hok) as [Hgood Hdup]. pose proof all_room as Hr.
  pose proof (addr_nonneg NDIRECT ltac:(lia)) as Hpos. fold a in Hpos.
  pose proof (freed_blocks_split v di) as Hsplit. fold a in Hsplit. destruct (Z.ltb_spec 0 a) as [Hlt|Hge].
  2:{ assert (a = 0) as E0 by lia. rewrite E0, Z.eqb_refl, app_nil_r in Hsplit. apply wp_ret.
      assert (Edj : dj = with_addrs dj (<[NDIRECT := 0]> (addrs dj))).
      { rewrite list_insert_id; [by destruct dj|]. rewrite <-E0, <-Ea. unfold addr. apply list_lookup_lookup_total_lt. lia. }
      rewrite Edj. apply HQ. by rewrite Hsplit. }
  rewrite (proj2 (Z.eqb_neq a 0)) in Hsplit by lia. set (l0 := live (addr di) (seq 0 NDIRECT)) in *.
  set (l1 := live _ (seqZ 0 NINDIRECT)) in *.
  assert (Ha : good_block sb v a) by (rewrite Forall_forall in Hgood; apply Hgood; rewrite Hsplit, !elem_of_app; right; right; left).
  rewrite Hsplit in Hgood, Hdup.
  assert (Hgood0 : Forall (good_block sb v) l0) by (by apply Forall_app in Hgood as [? _]).
  assert (Hnin : a ∉ l0 ++ l1).
  { rewrite (assoc_L (++)) in Hdup. apply NoDup_app in Hdup as (_ & N & _). intros Hin. apply (N a Hin). left. }
  eapply wp_bind, (wp_blk_read (t := freeing v ∅ L l0) a); [exact Ht|apply Ha|apply lookup_empty| |].
  { unfold room, freeing. cbn [t_held t_logged]. rewrite map_size_empty.
    assert (base.size (bitmaps l0 ∪ L) <= base.size (bitmaps all ∪ L))%nat; [|lia].
    apply subseteq_size. rewrite Hsplit. unfold bitmaps. rewrite fmap_app, list_to_set_app_L. set_solver. }
  intros g b1 _ Ht1. change (mkFsState b1 _ _ _) with (during b1 dj).
  change (in_txn b1 (freeing v {[a := g]} L l0)) in Ht1. rewrite Hsplit in Hr.
  apply wp_bind. eapply wp_mono.
  { apply (entries_loop i inum u mt D v L _ Hi Hlay Hgood Hdup Hr a g (seqZ 0 NINDIRECT) l0 b1 dj Ha); [done|exact Ht1]. }
  intros _ s2 (b2 & -> & Ht2). eapply wp_bind, (wp_blk_drop (t := freeing v {[a := g]} L (l0 ++ l1)) a);
    [exact Ht2|apply lookup_singleton_eq|cbn; set_solver|].
  intros b3 Ht3. change (mkFsState b3 _ _ _) with (during b3 dj).
  cbn [t_view t_held t_dirty t_logged freeing] in Ht3. rewrite delete_singleton_eq in Ht3.
  eapply wp_bind, (free_during i inum u mt D v L _ Hi Hlay Hgood Hdup Hr (l0 ++ l1) a ∅ b3 dj);
    [by rewrite (assoc_L (++))|by rewrite map_size_empty; lia|intros y [? Hy]; by rewrite lookup_empty in Hy|exact Ht3|].
  intros b4 Ht4. unfold set_addr. eapply wp_bind, wp_get_dinode; [by apply during_slot|]. cbn [s_dinode].
  apply wp_bind, wp_assert; [apply Nat.ltb_lt; lia|]. apply during_set; [done|]. apply HQ.
  rewrite Hsplit, (assoc_L (++)). exact Ht4.
Qed.

Lemma zeroed_all :
  let dj := with_addrs di (zeroed (seq 0 NDIRECT) (addrs di)) in
  <[NDIRECT := 0]> (addrs dj) = addrs (truncated di) /\ length (addrs dj) = (NDIRECT + 2)%nat /\ addr dj NDIRECT = addr di NDIRECT.
Proof using Hi Hlay Hok Hroom.
  pose proof (di_len _ (fo_dinode _ _ _ _ Hok)) as Hlen. unfold with_addrs, addr, truncated. cbn [addrs]. split_and!.
  - rewrite <-zeroed_prefix by lia. unfold zeroed. by rewrite Nat.add_1_r, seq_S, foldl_app.
  - rewrite zeroed_prefix by lia. rewrite length_app, length_replicate, length_drop. lia.
  - rewrite zeroed_prefix by lia. rewrite list_lookup_total_alt, lookup_app_r by (by rewrite length_replicate).
    rewrite length_replicate, lookup_drop, Nat.sub_diag, Nat.add_0_r. by rewrite list_lookup_total_alt.
Qed.

Lemma itrunc_spec b (Q : unit -> fs -> Prop) :
  in_txn b (mkTxn v ∅ ∅ L) ->
  (forall b', in_txn b' (mkTxn (emptied inum v di (truncated di)) ∅ ∅ ({[inode_block sb inum]} ∪ (bitmaps all ∪ L))) ->
     Q tt (during b' (truncated di))) ->
  wp (itrunc sb i) (during b di) Q.
Proof using Hi Hlay Hok Hroom.
  intros Ht HQ. destruct (freed_blocks_ok inum v di Hok) as [Hgood Hdup]. destruct zeroed_all as (Ez & Elen & Ea).
  unfold itrunc. eapply wp_bind, wp_get_valid; [by apply during_slot|done|]. apply wp_bind. eapply wp_mono.
  { apply (direct_loop i inum u mt D v L all Hi Hlay Hgood Hdup all_room (seq 0 NDIRECT) [] b di).
    - intros k Hk%elem_of_seq. rewrite (di_len _ (fo_dinode _ _ _ _ Hok)). lia.
    - apply NoDup_seq.
    - intros k Hk%elem_of_seq. apply addr_nonneg. lia.
    - rewrite freed_blocks_split. by apply prefix_app_r.
    - unfold freeing. change (bitmaps []) with (∅ : gset Z). rewrite (left_id_L ∅ (∪)). exact Ht. }
  intros _ s1 (b1 & -> & Ht1). unfold get_addr. eapply wp_bind, wp_bind, wp_get_dinode; [by apply during_slot|]. cbn [s_dinode].
  eapply wp_unwrap; [apply list_lookup_lookup_total_lt; lia|]. apply wp_bind.
  change (_ !!! NDIRECT) with (addr (with_addrs di (zeroed (seq 0 NDIRECT) (addrs di))) NDIRECT). rewrite Ea.
  apply indirect_freed; [done|done|exact Ht1|]. intros b2 Ht2.
  eapply wp_bind, wp_get_dinode; [by apply during_slot|]. cbn [s_dinode]. apply wp_bind, during_set; [done|].
  rewrite Ez. cbn [with_addrs typ major minor nlink addrs].
  change (mkDinode _ _ _ _ 0 _) with (truncated di).
  eapply iupdate_spec; [exact Ht2|by apply during_slot|done| | |intros b3 Ht3; by apply HQ].
  - split; [apply (gb_usable _ _ _ (fo_inode _ _ _ _ Hok))|]. split; [apply lookup_empty|cbn; set_solver].
  - unfold room, freeing. cbn [t_held t_logged]. rewrite map_size_empty. pose proof all_room. lia.
Qed.

End itrunc.

(** ** The last handle of an inode without links *)

Lemma table_invalidate s H j x (b : B) (u : U) di :
  table_ok s H -> data s !! j = Some x ->
  table_ok (mkFsState b u (meta s) (<[j := mkSlot false None di]> (data s))) H.
Proof using Type.
  intros [] Hx. pose proof (lookup_lt_Some _ _ _ Hx) as Hlt. split; cbn [meta data]; try done.
  - by rewrite length_insert.
  - intros j' m y k Hm. destruct (decide (j = j')) as [<-|Hj]; [|rewrite list_lookup_insert_ne by done; eauto].
    rewrite list_lookup_insert_eq by done. by intros [= <-].
  - intros j' y. destruct (decide (j = j')) as [<-|Hj]; [|rewrite list_lookup_insert_ne by done; eauto].
    rewrite list_lookup_insert_eq by done. intros [= <-] _. split; [done|by left].
Qed.

(** The inode that [iput] leaves on disk. *)
Definition removed di : DiskInode :=
  mkDinode Empty (major di) (minor di) (nlink di) 0 (addrs (truncated di)).

Lemma removed_ok di : dinode_ok di -> dinode_ok (removed di).
Proof using Type. intros [? ? ? ? ? ?]%truncated_ok. by split. Qed.

(** [iput] has freed the inode of [ip], which was [di], and its blocks: nothing else on disk
    changes, and its slot holds no inode. *)
Record given_back (ip : Inode) di s (t : txn_state) s' (t' : txn_state) : Prop := {
  gi_txn : in_txn (blk s') t' /\ t_held t' = ∅ /\ t_dirty t' = ∅;
  gi_layout : layout sb (t_view t');
  gi_inode : disk_inode sb (t_view t') (i_inum ip) = Some (removed di);
  gi_inodes inum : inode_area sb (t_view t) -> 0 <= i_inum ip < ninodes sb -> 0 <= inum < ninodes sb -> inum <> i_inum ip ->
    disk_inode sb (t_view t') inum = disk_inode sb (t_view t) inum;
  gi_used b : 0 <= b < sb_size sb ->
    used sb (t_view t') b = used sb (t_view t) b && bool_decide (b ∉ freed_blocks (t_view t) di);
  gi_other b : ~ is_bitmap sb b -> b <> inode_block sb (i_inum ip) -> t_view t' b = t_view t b;
  gi_logged : t_logged t' = {[inode_block sb (i_inum ip)]} ∪ (bitmaps (freed_blocks (t_view t) di) ∪ t_logged t);
  gi_user : user s' = user s;
  gi_slot : exists dj, data s' = <[i_index ip := mkSlot false None dj]> (data s)
}.

(** The disk after both writes of the inode. *)
Lemma emptied_twice inum v di :
  layout sb v -> file_ok sb inum v di ->
  let v' := store_inode sb (emptied inum v di (truncated di)) inum (removed di) in
  layout sb v' /\ disk_inode sb v' inum = Some (removed di) /\
  (forall k, inode_area sb v -> 0 <= inum < ninodes sb -> 0 <= k < ninodes sb -> k <> inum -> disk_inode sb v' k = disk_inode sb v k) /\
  (forall b, 0 <= b < sb_size sb -> used sb v' b = used sb v b && bool_decide (b ∉ freed_blocks v di)) /\
  (forall b, ~ is_bitmap sb b -> b <> inode_block sb inum -> v' b = v b).
Proof using Type.
  intros Hl Hok. destruct (freed_blocks_ok inum v di Hok) as [Hg _]. destruct (cleared_layout v _ Hl Hg) as [Hl' Hu].
  pose proof (fo_inode _ _ _ _ Hok) as Hi. pose proof (gb_bitmap _ _ _ Hi) as Hb. pose proof (fo_inum _ _ _ _ Hok) as H0.
  pose proof (fo_dinode _ _ _ _ Hok) as Hd. pose proof (truncated_ok _ Hd) as Hd1. pose proof (removed_ok _ Hd) as Hd2.
  assert (Ho : forall b, ~ is_bitmap sb b -> cleared v (freed_blocks v di) b = v b) by (intros b; by apply cleared_other).
  cbv zeta. split_and!.
  - by repeat apply layout_upd.
  - unfold disk_inode, store_inode at 1. rewrite upd_eq. apply read_dinode_own; [done| |done].
    unfold emptied, store_inode. rewrite upd_eq, Ho by done. rewrite length_splice; [apply Hi|].
    rewrite (gb_len _ _ _ Hi), length_dinode_bytes by done. change (Z.to_nat BSIZE) with 4096%nat. by apply inode_offset_bound.
  - intros k Ha Hin Hk Hne.
    assert (Ha' : inode_area sb (cleared v (freed_blocks v di))).
    { destruct Ha as [A1 A2]. split; [done|]. intros j Hj. destruct (A2 j Hj) as (B1 & B2 & B3). by rewrite Ho. }
    unfold emptied. rewrite disk_inode_store, decide_False by (try apply inode_area_store; done).
    rewrite disk_inode_store, decide_False by done. unfold disk_inode. rewrite Ho; [done|]. by apply (ia_block _ _ Ha).
  - intros b Hbr. unfold emptied, store_inode. rewrite !used_upd by done. by apply Hu.
  - intros b Hnb Hne. unfold emptied, store_inode. rewrite !upd_ne by done. by apply Ho.
Qed.

Lemma iput_removes s H ip t di :
  table_ok s (ip :: H) -> Z.of_nat (length H) + 1 < 2 ^ 64 -> refs H (i_index ip) = 0 ->
  data s !! i_index ip = Some (mkSlot false (Some (ROOTDEV, i_inum ip)) di) -> nlink di = 0 ->
  file_at sb (i_inum ip) (i_index ip) s t di -> trunc_room (i_inum ip) t di ->
  wp (iput sb (i_index ip)) s (fun _ s' => table_ok s' H /\ exists t', given_back ip di s t s' t').
Proof using Type.
  intros Ht Hb Hr Hx Hn Hf Hroom. set (i := i_index ip) in *. set (inum := i_inum ip) in *.
  pose proof (lookup_lt_Some _ _ _ Hx) as Hlt. pose proof (fa_ok _ _ _ _ _ _ Hf) as Hok. pose proof (fa_layout _ _ _ _ _ _ Hf) as Hlay.
  destruct (to_handle _ _ Ht ip ltac:(by left)) as (_ & m & Hm & _). fold i in Hm.
  pose proof (to_refs _ _ Ht _ m Hm) as Er. rewrite refs_cons, decide_True, Hr in Er by done.
  destruct (emptied_twice inum (t_view t) di Hlay Hok) as (V1 & V2 & V3 & V4 & V5).
  unfold iput. eapply wp_bind, wp_get_meta; [exact Hm|]. apply wp_bind. rewrite Er. cbn [Z.add Z.eqb Pos.eqb].
  eapply wp_bind, wp_lock_slot; [exact Hx|done|]. eapply wp_bind, wp_get_slot; [by apply list_lookup_insert_eq|].
  cbn [s_valid s_dinode]. rewrite bool_decide_true by done. rewrite Hn. cbn [andb Z.eqb].
  change (mkFsState (blk s) _ _ _) with (during i inum (user s) (meta s) (data s) (blk s) di).
  assert (Htx : in_txn (blk s) (mkTxn (t_view t) ∅ ∅ (t_logged t))).
  { pose proof (fa_txn _ _ _ _ _ _ Hf) as Hin. destruct t as [w hd dt lg]. cbn.
    by rewrite <-(fa_held _ _ _ _ _ _ Hf), <-(fa_dirty _ _ _ _ _ _ Hf). }
  eapply wp_bind, itrunc_spec; [done|exact Hlay|exact Hok|exact Hroom|exact Htx|]. intros b1 Ht1.
  eapply wp_bind, wp_get_dinode; [by apply during_slot|]. cbn [s_dinode]. apply wp_bind, during_set; [done|].
  cbn [major minor nlink Fs.size truncated addrs]. change (mkDinode Empty _ _ _ 0 _) with (removed di).
  eapply wp_bind, iupdate_spec; [exact Ht1|by apply during_slot|done| | |].
  { split; [apply (gb_usable _ _ _ (fo_inode _ _ _ _ Hok))|]. split; [apply lookup_empty|cbn; set_solver]. }
  { unfold room. cbn [t_held t_logged]. rewrite map_size_empty. unfold trunc_room in Hroom. lia. }
  intros b2 Ht2. cbn [t_view t_held t_dirty t_logged s_dinode] in Ht2.
  eapply wp_bind, wp_set_valid; [by apply during_slot|]. cbn [during data].
  rewrite list_insert_insert_eq. eapply wp_unlock_slot; [by apply list_lookup_insert_eq|]. cbn [blk user meta data s_valid s_dinode].
  rewrite list_insert_insert_eq. eapply wp_bind, wp_get_meta; [exact Hm|]. apply wp_modify. cbn [blk user meta data]. split.
  - refine (table_unref (mkFsState b2 (user s) (meta s) _) H ip m _ Hm Hb _).
    + by eapply table_invalidate.
    + intros _ x. change (<[i := mkSlot false None (removed di)]> (data s) !! i = Some x -> idle x).
      rewrite list_lookup_insert_eq by done. intros [= <-]. split; [done|by left].
  - match type of Ht2 with in_txn _ ?t2 => exists t2 end. split; [|exact V1|exact V2|exact V3|exact V4|exact V5| |done|by eexists].
    + split_and!; [exact Ht2|done|done].
    + cbn [t_logged]. clear. set_solver.
Qed.


End trunc.

(** ** A file that is removed

    Inode 70 of the sample disk, with its indirect block 36, has no name left; its one handle is
    on slot 0. *)

Definition gone_inode : DiskInode := mkDinode File 0 0 0 10 (replicate 11 0 ++ [36; 0]).
Definition gone_handle : Inode := mkInode ROOTDEV 70 0.
Definition gone_state (f : Log.fsys) : @fs Log.fsys unit :=
  mkFsState f tt (mkMeta ROOTDEV 70 1 :: replicate 49 meta_new)
    (mkSlot false (Some (ROOTDEV, 70)) gone_inode :: replicate 49 slot_new).

Lemma gone_table f : table_ok (gone_state f) [gone_handle].
Proof.
  split; unfold gone_state; cbn [meta data].
  - reflexivity.
  - intros [|j] m; [by intros [= <-]|]. by intros [-> _]%lookup_replicate.
  - intros ip ->%list_elem_of_singleton. split; [done|]. by eexists.
  - intros [|j] [|j'] m m'; [done|..].
    + intros [= <-] [-> _]%lookup_replicate. done.
    + intros [-> _]%lookup_replicate [= <-]. done.
    + by intros [-> _]%lookup_replicate.
  - intros [|j] m x k; [by intros [= <-] [= <-] [= <-]|]. by intros _ [-> _]%lookup_replicate.
  - intros [|j] x; [done|]. intros [-> _]%lookup_replicate _. split; [done|by left].
Qed.

Lemma gone_file_at f :
  in_txn (BlockLaws := Bmap.sample_laws) f (mkTxn sample_view ∅ ∅ ∅) ->
  file_at (HL := Bmap.sample_laws) Bmap.sample_sb 70 0 (gone_state f) (mkTxn sample_view ∅ ∅ ∅) gone_inode.
Proof.
  intros Ht. split; [done|done|done|exact Bmap.sample_layout| |by exists false].
  assert (E : forall p, addr_at sample_view gone_inode p = addr_at sample_view sample_inode p) by (by intros []).
  destruct sample_file_ok as [_ H2 H3 H4 H5 H6]. split; [|done|done|done|..].
  - split; [by vm_compute..|reflexivity|by repeat (constructor; [by vm_compute|])].
  - intros p. rewrite E. apply H5.
  - intros p q. rewrite !E. apply H6.
Qed.

Lemma gone_freed : freed_blocks sample_view gone_inode = [36].
Proof. vm_compute. reflexivity. Qed.


End Trunc.
