(* ===== verification/Dirs.v ===== *)
(** * Directories

    The theory of [dirlookup] and [dirlink] of [kernel/src/fs.rs] (modelled in
    [Fs.v]): a directory is a file of 32-byte entries, which implements a partial
    map from names to inode numbers. *)

From S2P Require Import Prelude Param Bytes Bio Log Blocks Bmap Fs Inodes FsFile.

Module Dirs.
Import Bmap Fs Inodes FsFile.

(** ** Names *)

Definition nonzero (c : Z) : bool := negb (c =? 0).

(** The name in a fixed-size field, if it is terminated. *)
Definition cname (l : list Z) : option (list Z) :=
  if decide (0 ∈ l) then Some (take_while nonzero l) else None.

Lemma cname_cons c l :
  cname (c :: l) = if c =? 0 then Some [] else cons c <$> cname l.
Proof.
  unfold cname. cbn [take_while]. unfold nonzero at 1. destruct (Z.eqb_spec c 0) as [->|Hc]; cbn [negb].
  - by rewrite decide_True by left.
  - destruct (decide (0 ∈ l)) as [Hin|Hin]; [by rewrite decide_True by (by right)|].
    rewrite decide_False; [done|]. intros [?|?]%elem_of_cons; [congruence|done].
Qed.

(** The comparison of [dirlookup]. *)
Lemma name_eq_spec a b : name_eq a b = true <-> is_Some (cname a) /\ cname a = cname b.
Proof.
  revert b. induction a as [|x a IH]; intros [|y b]; cbn [name_eq].
  - split; [done|]. intros [[c Hc] _]. unfold cname in Hc. by rewrite decide_False in Hc by apply not_elem_of_nil.
  - split; [done|]. intros [[c Hc] _]. unfold cname in Hc. by rewrite decide_False in Hc by apply not_elem_of_nil.
  - split; [done|]. intros [[c Hc] E]. rewrite E in Hc. unfold cname in Hc.
    by rewrite decide_False in Hc by apply not_elem_of_nil.
  - rewrite !cname_cons. destruct (Z.eqb_spec x y) as [->|Hxy]; cbn [negb].
    + destruct (Z.eqb_spec y 0); [naive_solver|]. rewrite IH. destruct (cname a), (cname b); cbn; naive_solver.
    + split; [done|]. intros [[c Hc] E]. destruct (Z.eqb_spec x 0), (Z.eqb_spec y 0); subst; try done;
        destruct (cname a), (cname b); cbn in *; congruence.
Qed.

Lemma cname_copy old name :
  length old = length name -> is_Some (cname name) -> cname (copy_name old name) = cname name.
Proof.
  revert old. induction name as [|c name IH]; intros [|o old]; cbn [copy_name length]; try done.
  intros [= Hl]. rewrite !cname_cons. destruct (Z.eqb_spec c 0); [done|]. intros Hs. f_equal. apply IH; [done|].
  destruct (cname name); [by eexists|by destruct Hs].
Qed.

Lemma length_copy_name old name : length (copy_name old name) = length old.
Proof.
  revert name. induction old as [|o old IH]; intros [|c name]; cbn [copy_name length]; try done.
  destruct (c =? 0); [done|]. by rewrite IH.
Qed.

(** ** Directories as maps *)

(** The entry in use for a name. *)
Definition matches (name : list Z) (de : DirEnt) : Prop :=
  de_inum de <> 0 /\ name_eq (de_name de) name = true.

#[global] Instance matches_dec name de : Decision (matches name de).
Proof. unfold matches. apply _. Defined.

(** What a directory says about a name: its inode number. *)
Definition dir_get (l : list DirEnt) (name : list Z) : option Z :=
  (fun x => de_inum x.2) <$> list_find (matches name) l.

Lemma matches_cname name de :
  matches name de <-> de_inum de <> 0 /\ is_Some (cname name) /\ cname (de_name de) = cname name.
Proof. unfold matches. rewrite name_eq_spec. split; intros (? & Hs & E); rewrite E in *; done. Qed.

Lemma dir_get_filter l name : dir_get l name = de_inum <$> head (filter (matches name) l).
Proof.
  unfold dir_get. induction l as [|de l IH]; [done|]. cbn [list_find]. rewrite filter_cons.
  case_decide; [done|]. rewrite <-IH. by destruct (list_find _ l) as [[k x]|].
Qed.

(** A new entry, in place of one that is not in use or at the end. *)
Lemma dir_get_put l1 old l2 e name :
  Forall (fun x => de_inum x = 0) old -> de_inum e <> 0 -> is_Some (cname name) -> cname (de_name e) = cname name ->
  dir_get (l1 ++ old ++ l2) name = None ->
  forall name', dir_get (l1 ++ e :: l2) name' =
    if decide (cname name' = cname name) then Some (de_inum e) else dir_get (l1 ++ old ++ l2) name'.
Proof.
  intros Hold He Hs Hc Hno name'.
  assert (Hfold : filter (matches name') old = []).
  { clear -Hold. induction Hold as [|x l Hx _ IH]; [done|]. rewrite filter_cons, decide_False; [done|]. by intros [? _]. }
  rewrite !dir_get_filter in *. rewrite !filter_app, filter_cons in *. rewrite Hfold. cbn [app].
  case_decide as Hm; destruct (decide (cname name' = cname name)) as [E|E].
  - assert (Hl1 : filter (matches name') l1 = []); [|by rewrite Hl1].
    rewrite (list_filter_iff (matches name') (matches name)) by (intros x; by rewrite !matches_cname, E).
    destruct (filter (matches name) l1); [done|by cbn in Hno].
  - apply matches_cname in Hm as (_ & _ & Hm). congruence.
  - destruct Hm. apply matches_cname. rewrite E. done.
  - done.
Qed.

(** The number of the first entry that is not in use, or of the next one. *)
Definition first_free (l : list DirEnt) : nat :=
  match list_find (fun de => de_inum de = 0) l with Some (k, _) => k | None => length l end.

(** The entry at an offset of a file, and all of them. *)
Definition dirent_at (v : Z -> block) (di : DiskInode) (off : Z) : DirEnt :=
  dirent_of (fbytes v di off DE_SIZE).
Definition dirents (v : Z -> block) (di : DiskInode) : list DirEnt :=
  dirent_at v di <$> step_by 0 (size di) DE_SIZE.

Lemma length_dirent_at v di off : length (de_name (dirent_at v di off)) = DIRSIZ.
Proof.
  unfold dirent_at, dirent_of. cbn [de_name]. rewrite length_take, length_drop, length_fbytes. done.
Qed.

(** An entry lies in one block. *)
Definition entry_off (off : Z) : Prop := 0 <= off /\ off `mod` DE_SIZE = 0.

Lemma entry_block off : entry_off off -> off / BSIZE * BSIZE <= off /\ off + DE_SIZE <= (off / BSIZE + 1) * BSIZE.
Proof.
  intros [H0 Hm]. change DE_SIZE with 32 in *. change BSIZE with 4096.
  pose proof (Z.div_mod off 4096 ltac:(lia)). pose proof (Z.mod_pos_bound off 4096 ltac:(lia)).
  pose proof (Z.div_mod off 32 ltac:(lia)).
  assert (off `mod` 4096 <= 4096 - 32); [|lia].
  assert (off `mod` 4096 = 32 * (off / 32 - 128 * (off / 4096))) by lia. lia.
Qed.

Lemma entry_span off : entry_off off -> span off DE_SIZE = 1%nat.
Proof.
  intros Ho. pose proof (entry_block off Ho) as [H1 H2]. unfold span. change (0 <? DE_SIZE) with true. cbv iota.
  change DE_SIZE with 32 in *. change BSIZE with 4096 in *.
  assert (E : (off + 32 - 1) / 4096 = off / 4096) by (symmetry; apply (Z.div_unique _ _ _ (off + 31 - off / 4096 * 4096)); lia).
  rewrite E. lia.
Qed.

Section dir.
Context {B : Type} `{!BlockOps B} {HL : BlockLaws B} {U : Type} `{!UserCopy U} (sb : SuperBlock).
Context (inum : Z) (i : nat).
Implicit Types (s : @fs B U) (v : Z -> block) (di : DiskInode).

(** A directory in slot [i]: whole entries, all of its blocks present. *)
Record dir_at s (t : txn_state) di : Prop := {
  da_file : file_at sb inum i s t di;
  da_room : room 0 t;
  da_typ : typ di = Directory;
  da_size : size di `mod` DE_SIZE = 0 /\ size di <= MAXFILE * BSIZE;
  da_filled k : 0 <= k -> k * BSIZE < size di -> addr_at (t_view t) di (Data k) <> 0
}.

(** Nothing a reader can see has changed. *)
Definition same_dir (t : txn_state) di (t' : txn_state) di' : Prop :=
  evolves sb 0 0 t di t' di' /\ same_bytes (t_view t) di (t_view t') di'.

Lemma same_dir_refl t di : same_dir t di t di.
Proof using Type. split; [apply evolves_refl|done]. Qed.

Lemma same_dir_trans t di t1 di1 t2 di2 :
  same_dir t di t1 di1 -> same_dir t1 di1 t2 di2 -> same_dir t di t2 di2.
Proof using Type.
  intros [E1 B1] [E2 B2]. split; [apply (evolves_trans sb 0 0 0 0 t di t1 di1 t2 di2 E1 E2)|by eapply same_bytes_trans].
Qed.

Lemma same_dir_size t di t' di' : same_dir t di t' di' -> size di' = size di /\ typ di' = typ di.
Proof using Type. intros [E _]. rewrite (ev_meta _ _ _ _ _ _ _ E). by split. Qed.

Lemma same_dirent t di t' di' off :
  same_dir t di t' di' -> 0 <= off -> off + DE_SIZE <= MAXFILE * BSIZE ->
  dirent_at (t_view t') di' off = dirent_at (t_view t) di off.
Proof using Type.
  intros [_ Hb] H0 Hm. unfold dirent_at. f_equal. apply fbytes_ext. intros x Hx. apply Hb.
  change DE_SIZE with 32 in *. lia.
Qed.

Lemma dir_off s t di off :
  dir_at s t di -> off ∈ step_by 0 (size di) DE_SIZE -> entry_off off /\ off + DE_SIZE <= size di.
Proof using Type.
  intros Hd [Hr Hm]%elem_of_step_by; [|done]. rewrite Z.sub_0_r in Hm. split; [split; [lia|done]|].
  destruct (da_size _ _ _ Hd) as [Hs _]. change DE_SIZE with 32 in *.
  pose proof (Z.div_mod off 32 ltac:(lia)). pose proof (Z.div_mod (size di) 32 ltac:(lia)). lia.
Qed.

Lemma same_dirents s t di t' di' :
  dir_at s t di -> same_dir t di t' di' -> dirents (t_view t') di' = dirents (t_view t) di.
Proof using Type.
  intros Hd Hs. unfold dirents. rewrite (proj1 (same_dir_size _ _ _ _ Hs)). apply list_fmap_ext.
  intros k off Hoff%list_elem_of_lookup_2. destruct (dir_off _ _ _ _ Hd Hoff) as [[H0 _] Hle].
  eapply same_dirent; [done|done|]. pose proof (da_size _ _ _ Hd). lia.
Qed.

Lemma dir_at_same s t di s' t' di' :
  dir_at s t di -> file_at sb inum i s' t' di' -> same_dir t di t' di' -> dir_at s' t' di'.
Proof using Type.
  intros [D1 D2 D3 D4 D5] Hf Hs. destruct (same_dir_size _ _ _ _ Hs) as [Es Et]. split.
  - done.
  - eapply (room_evolves sb inum i 0 0); [exact D2|exact D1|exact Hf|apply Hs].
  - congruence.
  - by rewrite Es.
  - intros k Hk Hlt. rewrite Es in Hlt. rewrite (ev_keep _ _ _ _ _ _ _ (proj1 Hs)); [by apply D5| |by apply D5].
    cbn. change BSIZE with 4096 in *. destruct D4 as [_ D4]. lia.
Qed.

(** ** Reading an entry *)

Lemma entry_ready s t di off :
  dir_at s t di -> entry_off off -> off + DE_SIZE <= size di -> ready sb inum i 0 s t di off DE_SIZE.
Proof using Type.
  intros Hd Ho Hle. pose proof (entry_block off Ho) as [Hb _]. destruct Ho as [H0 Hm].
  assert (Hq : 0 <= off / BSIZE) by (by apply Z.div_pos).
  assert (Hfill : filled (t_view t) di off DE_SIZE).
  { intros k Hk. rewrite entry_span in Hk by by split. assert (k = off / BSIZE) as -> by lia.
    apply (da_filled _ _ _ Hd); [done|]. change DE_SIZE with 32 in *. lia. }
  split.
  - apply Hd.
  - pose proof (da_size _ _ _ Hd). change DE_SIZE with 32 in *. lia.
  - intros k Hk. right. by apply Hfill.
  - rewrite holes_filled by done. rewrite Nat.mul_0_r. apply (da_room _ _ _ Hd).
  - rewrite holes_filled by done. lia.
Qed.

Lemma read_dirent_spec s t di off de :
  dir_at s t di -> entry_off off -> off + DE_SIZE <= size di ->
  wp (read_dirent sb i off de) s (fun r s' => r = Ok (dirent_at (t_view t) di off) /\
    user s' = user s /\ elsewhere i s s' /\ exists t' di', dir_at s' t' di' /\ same_dir t di t' di').
Proof using Type.
  intros Hd Ho Hle. pose proof (entry_ready _ _ _ _ Hd Ho Hle) as Hrd.
  assert (Emin : Z.min DE_SIZE (size di - off) = DE_SIZE) by lia. rewrite <-Emin in Hrd.
  unfold read_dirent. eapply wp_bind, wp_mono.
  - apply (readi_spec sb inum i (Kernel []) (fun _ u => u = user s) s t di off DE_SIZE);
      [by intros acc bs u|done|destruct Ho; change DE_SIZE with 32 in *; lia|done| |exact Hrd].
    pose proof (da_size _ _ _ Hd) as [_ Hmax]. pose proof MAXFILE_usize. lia.
  - rewrite Emin. intros r s' (-> & Hu & Hread). apply wp_ret. split.
    + reflexivity.
    + destruct Hread as (t' & di' & Hf & He & Hb & Hel). split_and!; [done|done|]. exists t', di'.
      assert (Hs : same_dir t di t' di').
      { split; [|done]. rewrite holes_filled in He; [done|]. intros k Hk. rewrite entry_span in Hk by done.
        assert (k = off / BSIZE) as -> by lia. pose proof (entry_block off Ho) as [Hbl _]. destruct Ho as [H0 _].
        apply (da_filled _ _ _ Hd); [by apply Z.div_pos|]. change DE_SIZE with 32 in *. lia. }
      split; [by eapply dir_at_same|done].
Qed.

(** ** Looking up a name *)

(** Reading the directory keeps the table, as long as the directory has a handle. *)
Lemma table_elsewhere s t di s' t' di' H :
  table_ok s H -> 0 < refs H i -> file_at sb inum i s t di -> file_at sb inum i s' t' di' ->
  elsewhere i s s' -> table_ok s' H.
Proof using Type.
  intros Ht Hi Hf Hf' [Em Ed]. destruct (fa_slot _ _ _ _ _ _ Hf) as [lk Hs], (fa_slot _ _ _ _ _ _ Hf') as [lk' Hs'].
  eapply table_data; [exact Ht|done| |].
  - apply Nat.le_antisymm; apply Nat.nlt_ge; intros Hlt; apply lookup_lt_is_Some_2 in Hlt as [x Hx];
      (destruct (decide (length (data s) = i)) as [E|E]; destruct (decide (length (data s') = i)) as [E'|E']);
      try (apply lookup_lt_Some in Hs; lia); try (apply lookup_lt_Some in Hs'; lia).
    + rewrite Ed in Hx by done. apply lookup_lt_Some in Hx. lia.
    + rewrite <-Ed in Hx by done. apply lookup_lt_Some in Hx. lia.
  - intros j x' Hx'. destruct (decide (j = i)) as [->|Hj].
    + rewrite Hs' in Hx'. injection Hx' as <-. eexists. split; [exact Hs|]. split; [by left|lia].
    + rewrite Ed in Hx' by done. exists x'. split; [done|]. split; [by left|done].
Qed.

Lemma refs_handle H j : 0 < refs H j -> exists ip, ip ∈ H /\ i_index ip = j.
Proof using Type.
  unfold refs. destruct (filter (fun ip => i_index ip = j) H) as [|ip l] eqn:E; cbn; [lia|]. intros _.
  assert (Hin : ip ∈ filter (fun ip => i_index ip = j) H) by (rewrite E; by left).
  apply list_elem_of_filter in Hin as [? ?]. eauto.
Qed.

Lemma dir_at_got s t di H dev n ip s' :
  dir_at s t di -> 0 < refs H i -> got dev n s H ip s' -> dir_at s' t di.
Proof using Type.
  intros [[F1 F2 F3 F4 F5 F6] D2 D3 D4 D5] (ip' & Hin & Hidx)%refs_handle (_ & _ & Eb & _ & Ed & _).
  split; try done. split; try done; [by rewrite Eb|]. rewrite <-Hidx, Ed by done. by rewrite Hidx.
Qed.

(** The answer for the entries at [offs]. *)
Definition found s (t : txn_state) di H (name : list Z) (offs : list Z) (r : option (Inode * Z)) s' : Prop :=
  exists t' di', dir_at s' t' di' /\ same_dir t di t' di' /\ user s' = user s /\
  match list_find (matches name) (dirent_at (t_view t) di <$> offs) with
  | None => r = None /\ table_ok s' H /\ meta s' = meta s /\ elsewhere i s s'
  | Some (k, de) => exists ip off, r = Some (ip, off) /\ offs !! k = Some off /\
      ikey ip = (ROOTDEV, de_inum de) /\ table_ok s' (ip :: H) /\
      (refs H (i_index ip) = 0 -> forall x, data s' !! i_index ip = Some x -> idle x)
  end.

Lemma found_later s t di H name off offs r s1 t1 di1 s' :
  dir_at s t di -> same_dir t di t1 di1 -> user s1 = user s -> elsewhere i s s1 ->
  Forall (fun o => 0 <= o /\ o + DE_SIZE <= MAXFILE * BSIZE) offs ->
  ~ matches name (dirent_at (t_view t) di off) ->
  found s1 t1 di1 H name offs r s' -> found s t di H name (off :: offs) r s'.
Proof using Type.
  intros Hd Hs1 Hu Hel Hoffs Hno (t' & di' & Hd' & Hs & Hu' & Hm). exists t', di'.
  split_and!; [done|by eapply same_dir_trans|congruence|].
  assert (E : dirent_at (t_view t1) di1 <$> offs = dirent_at (t_view t) di <$> offs).
  { apply list_fmap_ext. intros k o Ho. rewrite Forall_lookup in Hoffs. destruct (Hoffs k o Ho).
    by eapply same_dirent. }
  rewrite E in Hm. rewrite fmap_cons. cbn [list_find]. rewrite decide_False by done.
  destruct (list_find _ _) as [[k de]|]; cbn.
  - destruct Hm as (ip & o & -> & Ho & Hk & Ht). by exists ip, o.
  - destruct Hm as (-> & Ht & Em & He). split_and!; [done|done|by rewrite Em, (proj1 Hel)|by eapply elsewhere_trans].
Qed.

Lemma dirlookup_loop_spec H name offs : forall s t di de,
  dir_at s t di -> table_ok s H -> 0 < refs H i -> Z.of_nat (length H) + 1 < 2 ^ 64 ->
  Forall (fun o => entry_off o /\ o + DE_SIZE <= size di) offs ->
  (forall k de, list_find (matches name) (dirent_at (t_view t) di <$> offs) = Some (k, de) ->
     available s H ROOTDEV (de_inum de)) ->
  wp (dirlookup_loop sb i ROOTDEV name de offs) s (found s t di H name offs).
Proof using Type.
  induction offs as [|off offs IH]; intros s t di de Hd Ht Hi Hb Hoffs Hav; cbn [dirlookup_loop].
  { apply wp_ret. exists t, di. split_and!; [done|apply same_dir_refl|done|]. cbn. by split_and!. }
  apply Forall_cons_iff in Hoffs as [[Ho Hle] Hoffs].
  eapply wp_bind, wp_mono; [by apply read_dirent_spec|]. intros r s1 (-> & Hu & Hel & t1 & di1 & Hd1 & Hs1).
  pose proof (table_elsewhere _ _ _ _ _ _ H Ht Hi (da_file _ _ _ Hd) (da_file _ _ _ Hd1) Hel) as Ht1.
  set (e := dirent_at (t_view t) di off) in *.
  pose proof (da_size _ _ _ Hd) as [_ Hmax].
  assert (Hrange : Forall (fun o => 0 <= o /\ o + DE_SIZE <= MAXFILE * BSIZE) offs)
    by (eapply Forall_impl; [exact Hoffs|]; intros o [[? _] ?]; lia).
  assert (Hrest : ~ matches name e -> wp (dirlookup_loop sb i ROOTDEV name e offs) s1 (found s t di H name (off :: offs))).
  { intros Hno. eapply wp_mono; [apply (IH s1 t1 di1); try done|].
    - by rewrite (proj1 (same_dir_size _ _ _ _ Hs1)).
    - intros k d Hf. unfold available. rewrite (proj1 Hel). apply (Hav (S k) d).
      assert (E : dirent_at (t_view t1) di1 <$> offs = dirent_at (t_view t) di <$> offs).
      { apply list_fmap_ext. intros k' o Hk'. rewrite Forall_lookup in Hrange. destruct (Hrange k' o Hk').
        by eapply same_dirent. }
      rewrite E in Hf. rewrite fmap_cons. cbn [list_find]. rewrite decide_False by done. by rewrite Hf.
    - intros r' s' Hf. by eapply found_later. }
  destruct (Z.eqb_spec (de_inum e) 0) as [Hz|Hz]; [apply Hrest; by intros [? _]|].
  destruct (name_eq (de_name e) name) eqn:En; [|apply Hrest; intros [_ ?]; congruence].
  assert (Hm : list_find (matches name) (dirent_at (t_view t) di <$> off :: offs) = Some (0%nat, e))
    by (rewrite fmap_cons; cbn [list_find]; by rewrite decide_True by done).
  eapply wp_bind, wp_mono; [apply (iget_spec s1 H); [done|done|done|]|].
  { unfold available. rewrite (proj1 Hel). by apply (Hav 0%nat e). }
  intros ip s2 Hg. apply wp_ret. exists t1, di1.
  split_and!; [by eapply dir_at_got|done|destruct Hg as (_ & _ & _ & -> & _); done|].
  rewrite Hm. exists ip, off. destruct Hg as (Hk & Ht2 & _ & _ & _ & x & Hx & Hid & _). split_and!; try done.
  intros Hz0 x' Hx'. assert (x' = x) as -> by congruence. auto.
Qed.

Lemma dirlookup_spec s t di H name :
  dir_at s t di -> table_ok s H -> 0 < refs H i -> Z.of_nat (length H) + 1 < 2 ^ 64 ->
  (forall n, dir_get (dirents (t_view t) di) name = Some n -> available s H ROOTDEV n) ->
  wp (dirlookup sb i name) s (found s t di H name (step_by 0 (size di) DE_SIZE)).
Proof using Type.
  intros Hd Ht Hi Hb Hav. destruct (fa_slot _ _ _ _ _ _ (da_file _ _ _ Hd)) as [lk Hs]. unfold dirlookup.
  eapply wp_bind, wp_get_valid; [exact Hs|done|]. cbn beta iota.
  eapply wp_bind, wp_get_dinode; [exact Hs|]. cbn [s_dinode].
  rewrite decide_False by (intros Hn; by apply Hn, Hd).
  apply dirlookup_loop_spec; try done.
  - apply Forall_forall. intros off Hoff. by apply (dir_off s t di).
  - intros k de Hf. apply Hav. unfold dir_get, dirents. by rewrite Hf.
Qed.

(** ** Adding a name *)

(** Where [dirlink] puts an entry: the first one not in use, or the end. *)
Definition free_place (t : txn_state) di (offs : list Z) (off : Z) : Prop :=
  match list_find (fun de => de_inum de = 0) (dirent_at (t_view t) di <$> offs) with
  | Some (k, _) => offs !! k = Some off
  | None => off = size di
  end.

Lemma available_loop_spec offs : forall s t di de,
  dir_at s t di -> Forall (fun o => entry_off o /\ o + DE_SIZE <= size di) offs -> length (de_name de) = DIRSIZ ->
  wp (available_loop sb i (size di) de offs) s (fun r s' => exists off de', r = Ok (off, de') /\
    length (de_name de') = DIRSIZ /\ free_place t di offs off /\ user s' = user s /\ elsewhere i s s' /\
    exists t' di', dir_at s' t' di' /\ same_dir t di t' di').
Proof using Type.
  induction offs as [|off offs IH]; intros s t di de Hd Hoffs Hlen; cbn [available_loop].
  { apply wp_ret. exists (size di), de. split_and!; try done. exists t, di. split; [done|apply same_dir_refl]. }
  apply Forall_cons_iff in Hoffs as [[Ho Hle] Hoffs].
  eapply wp_bind, wp_mono; [by apply read_dirent_spec|]. intros r s1 (-> & Hu & Hel & t1 & di1 & Hd1 & Hs1).
  pose proof (length_dirent_at (t_view t) di off) as Hl1. set (e := dirent_at (t_view t) di off) in *.
  destruct (Z.eqb_spec (de_inum e) 0) as [Hz|Hz].
  - apply wp_ret. exists off, e. split_and!; try done; [|by exists t1, di1].
    unfold free_place. rewrite fmap_cons. cbn [list_find]. by rewrite decide_True.
  - rewrite <-(proj1 (same_dir_size _ _ _ _ Hs1)). eapply wp_mono; [apply (IH s1 t1 di1); [done| |done]|].
    { by rewrite (proj1 (same_dir_size _ _ _ _ Hs1)). }
    intros r s2 (off' & de' & -> & Hl & Hfree & Hu2 & Hel2 & t2 & di2 & Hd2 & Hs2). exists off', de'.
    split_and!; [done|done| |congruence|by eapply elsewhere_trans|exists t2, di2; split; [done|by eapply same_dir_trans]].
    unfold free_place in *. rewrite fmap_cons. cbn [list_find]. rewrite decide_False by done.
    assert (E : dirent_at (t_view t1) di1 <$> offs = dirent_at (t_view t) di <$> offs).
    { apply list_fmap_ext. intros k o Hk. rewrite Forall_lookup in Hoffs. destruct (Hoffs k o Hk) as [[? _] ?].
      pose proof (da_size _ _ _ Hd). eapply same_dirent; [done|done|lia]. }
    rewrite E in Hfree. rewrite (proj1 (same_dir_size _ _ _ _ Hs1)) in Hfree.
    by destruct (list_find _ _) as [[k x]|].
Qed.

(** The offsets before and after the new entry. *)
Lemma free_place_split s t di off :
  dir_at s t di -> free_place t di (step_by 0 (size di) DE_SIZE) off ->
  entry_off off /\ off <= size di /\
  exists l1 old l2, step_by 0 (size di) DE_SIZE = l1 ++ old ++ l2 /\
    l1 = take (first_free (dirents (t_view t) di)) (step_by 0 (size di) DE_SIZE) /\
    l2 = drop (S (first_free (dirents (t_view t) di))) (step_by 0 (size di) DE_SIZE) /\
    step_by 0 (Z.max (size di) (off + DE_SIZE)) DE_SIZE = l1 ++ off :: l2 /\
    Forall (fun o => de_inum (dirent_at (t_view t) di o) = 0) old /\
    Forall (fun o => o <> off) (l1 ++ l2).
Proof using Type.
  intros Hd Hf. pose proof (da_size _ _ _ Hd) as [Hs _]. pose proof (di_size _ (fo_dinode _ _ _ _ (fa_ok _ _ _ _ _ _ (da_file _ _ _ Hd)))) as Hu.
  unfold free_place in Hf. unfold first_free, dirents. destruct (list_find _ _) as [[k e]|] eqn:E.
  - apply list_find_Some in E as (He & Hz & _). rewrite list_lookup_fmap, Hf in He. injection He as <-.
    assert (Hin : off ∈ step_by 0 (size di) DE_SIZE) by by eapply list_elem_of_lookup_2.
    destruct (dir_off _ _ _ _ Hd Hin) as [Ho Hle]. split_and!; [done|change DE_SIZE with 32 in *; lia|].
    exists (take k (step_by 0 (size di) DE_SIZE)), [off], (drop (S k) (step_by 0 (size di) DE_SIZE)).
    rewrite Z.max_l by lia. pose proof (take_drop_middle _ _ _ Hf) as Em. split_and!; [done|done|done|done|by constructor|].
    pose proof (NoDup_step_by 0 (size di) DE_SIZE ltac:(done)) as Hnd. rewrite <-Em in Hnd.
    apply NoDup_app in Hnd as (_ & Hn1 & [Hn2 _]%NoDup_cons). apply Forall_app. split; apply Forall_forall.
    + intros o Ho1 ->. apply (Hn1 off Ho1). by left.
    + intros o Ho2 ->. done.
  - subst off. split; [split; [apply Hu|done]|]. split; [lia|].
    exists (step_by 0 (size di) DE_SIZE), [], []. rewrite !app_nil_r, length_fmap. split_and!; [done|by rewrite take_ge|by rewrite drop_ge by lia| |constructor|].
    + change DE_SIZE with 32 in *. rewrite Z.max_r by lia. unfold step_by. rewrite !Z.sub_0_r.
      pose proof (Z.div_mod (size di) 32 ltac:(lia)) as Hq. unfold is_u32 in Hu.
      assert (E1 : (size di + 32 - 1) / 32 = size di / 32) by (symmetry; apply (Z.div_unique _ _ _ 31); lia).
      assert (E2 : (size di + 32 + 32 - 1) / 32 = size di / 32 + 1) by (symmetry; apply (Z.div_unique _ _ _ 31); lia).
      rewrite E1, E2, seqZ_app, fmap_app by lia. f_equal.
      rewrite seqZ_cons by lia. cbn. f_equal. lia.
    + apply Forall_forall. intros o [Hr _]%elem_of_step_by; [lia|done].
Qed.

(** What [dirlink] needs to write an entry: space in the log, a free block and, at
    the end, a place that [bmap] can allocate. *)
Record can_grow (t : txn_state) di : Prop := {
  cg_room : room 4 t;
  cg_free : (1 <= free_count sb (t_view t))%nat;
  cg_size : size di + DE_SIZE <= MAXFILE * BSIZE /\ size di + DE_SIZE < 2 ^ 32;
  cg_backed : backed (t_view t) di (size di / BSIZE)
}.

Lemma can_grow_same s t di s' t' di' :
  can_grow t di -> dir_at s t di -> dir_at s' t' di' -> same_dir t di t' di' -> can_grow t' di'.
Proof using Type.
  intros [G1 G2 [G3 G4] G5] Hd Hd' Hs. destruct (same_dir_size _ _ _ _ Hs) as [Es _]. destruct (Hs) as [He _].
  pose proof (di_size _ (fo_dinode _ _ _ _ (fa_ok _ _ _ _ _ _ (da_file _ _ _ Hd)))) as [Hu _]. split.
  - eapply (room_evolves sb inum i 0 0 4); [exact G1|apply Hd|apply Hd'|done].
  - pose proof (ev_free _ _ _ _ _ _ _ He). lia.
  - by rewrite Es.
  - rewrite Es. eapply backed_evolves; [exact He| |done]. apply place_of_offset. change DE_SIZE with 32 in *. lia.
Qed.

Lemma hole_le v di off : entry_off off -> (holes v di (off / BSIZE) (span off DE_SIZE) <= 1)%nat.
Proof using Type.
  intros Ho. rewrite entry_span, holes_step by done. unfold hole. change (holes v di (off / BSIZE + 1) 0) with 0%nat. case_bool; lia.
Qed.

(** Writing an entry at a free place. *)
Lemma write_ready s t di off :
  dir_at s t di -> can_grow t di -> entry_off off -> off <= size di ->
  (off < size di -> off + DE_SIZE <= size di) -> ready sb inum i 1 s t di off DE_SIZE.
Proof using Type.
  intros Hd [G1 G2 [G3 _] G5] Ho Hle Hin. pose proof (hole_le (t_view t) di off Ho) as Hh.
  pose proof (entry_block off Ho) as [Hb _]. split.
  - apply Hd.
  - destruct Ho. change DE_SIZE with 32 in *. lia.
  - intros k Hk. rewrite entry_span in Hk by done. assert (k = off / BSIZE) as -> by lia.
    destruct (decide (off = size di)) as [->|Hne]; [done|]. right. destruct Ho as [H0 _].
    apply (da_filled _ _ _ Hd); [by apply Z.div_pos|lia].
  - rewrite (entry_span off Ho) in *. unfold room in *. lia.
  - lia.
Qed.

(** The directory after the write. *)
Lemma dir_written s t di off de s' t' di' :
  dir_at s t di -> can_grow t di -> free_place t di (step_by 0 (size di) DE_SIZE) off ->
  is_u16 (de_inum de) -> length (de_name de) = DIRSIZ ->
  written sb inum i s t di off (dirent_bytes de) s' t' di' ->
  dir_at s' t' di' /\ exists l1 old l2, dirents (t_view t) di = l1 ++ old ++ l2 /\
    l1 = take (first_free (dirents (t_view t) di)) (dirents (t_view t) di) /\
    l2 = drop (S (first_free (dirents (t_view t) di))) (dirents (t_view t) di) /\
    Forall (fun x => de_inum x = 0) old /\ dirents (t_view t') di' = l1 ++ de :: l2.
Proof using Type.
  intros Hd [_ _ [G3 _] _] Hfp Hu Hl (Hf & Hsz & Hw & Hfill & _ & _ & _ & Hr & _ & Hmeta & Hkeep).
  destruct (free_place_split _ _ _ _ Hd Hfp) as (Ho & Hle & o1 & oo & o2 & E1 & T1 & T2 & E2 & Hold & Hne).
  assert (Hlen : length (dirent_bytes de) = 32%nat) by (unfold dirent_bytes; by rewrite length_app, length_u16_bytes, Hl).
  rewrite Hlen in *. change (Z.of_nat 32) with DE_SIZE in *.
  pose proof (da_size _ _ _ Hd) as [Hm Hmax]. destruct Ho as [H0 Hom]. split.
  - split; [done|done| | |].
    + rewrite Hmeta. apply Hd.
    + rewrite Hsz. split; [|lia]. destruct (Z.max_spec (size di) (off + DE_SIZE)) as [[_ ->]|[_ ->]]; [|done].
      change DE_SIZE with 32 in *. rewrite Z.add_mod, Hom by lia. done.
    + intros k Hk Hlt. destruct (decide (k * BSIZE < size di)) as [Hin|Hin].
      * rewrite Hkeep; [by apply (da_filled _ _ _ Hd)| |by apply (da_filled _ _ _ Hd)]. cbn. change BSIZE with 4096 in *. lia.
      * apply Hfill. rewrite entry_span by by split. pose proof (entry_block off ltac:(by split)).
        change BSIZE with 4096 in *. change DE_SIZE with 32 in *. lia.
  - exists (dirent_at (t_view t) di <$> o1), (dirent_at (t_view t) di <$> oo), (dirent_at (t_view t) di <$> o2).
    split_and!; [unfold dirents; by rewrite E1, !fmap_app|by rewrite T1, fmap_take|by rewrite T2, fmap_drop|by apply Forall_fmap|].
    assert (Hall : Forall (fun o => entry_off o /\ o + DE_SIZE <= size di) (o1 ++ o2)).
    { apply Forall_forall. intros o Hin. apply (dir_off s t); [done|]. rewrite E1. set_solver. }
    assert (Heq : forall o, o ∈ o1 ++ o2 -> dirent_at (t_view t') di' o = dirent_at (t_view t) di o).
    { intros o Hin. rewrite Forall_forall in Hall, Hne. destruct (Hall o Hin) as [[Ho0 Homod] Hole]. specialize (Hne o Hin).
      unfold dirent_at. f_equal. apply fbytes_ext. intros x Hx. change DE_SIZE with 32 in *. rewrite Hw by lia. apply decide_False.
      rewrite Hlen. pose proof (Z.div_mod o 32 ltac:(lia)). pose proof (Z.div_mod off 32 ltac:(lia)). lia. }
    unfold dirents. rewrite Hsz, E2, fmap_app, fmap_cons. f_equal; [|f_equal].
    + apply list_fmap_ext. intros k o Hk. apply Heq. apply elem_of_app. left. by eapply list_elem_of_lookup_2.
    + unfold dirent_at. pose proof (fbytes_wrote (t_view t) di (t_view t') di' off (dirent_bytes de) H0) as Hfb.
      rewrite Hlen in Hfb. change (Z.of_nat 32) with DE_SIZE in Hfb. rewrite Hfb; [|lia|done].
      rewrite <-(app_nil_r (dirent_bytes de)). by apply dirent_of_bytes.
    + apply list_fmap_ext. intros k o Hk. apply Heq. apply elem_of_app. right. by eapply list_elem_of_lookup_2.
Qed.

(** The entries [l] with [name] added: the first entry not in use is the new one, or else it is
    appended; every other entry stays where it is. *)
Record added (l l' : list DirEnt) (name : list Z) (n : Z) : Prop := {
  ad_put : exists e, l' = take (first_free l) l ++ e :: drop (S (first_free l)) l /\
    de_inum e = n /\ cname (de_name e) = cname name;
  ad_get name' : dir_get l' name' = if decide (cname name' = cname name) then Some n else dir_get l name'
}.

Lemma added_find l l' name n :
  added l l' name n -> n <> 0 -> is_Some (cname name) -> dir_get l name = None ->
  exists e, list_find (matches name) l' = Some (first_free l, e).
Proof using Type.
  intros [(e & -> & Hn & Hc) _] H0 Hs Hno. exists e. unfold dir_get in Hno.
  destruct (list_find (matches name) l) as [?|] eqn:E; [done|]. apply list_find_None in E.
  assert (Hk : (first_free l <= length l)%nat).
  { unfold first_free. destruct (list_find _ l) as [[k x]|] eqn:Ek; [|done].
    apply list_find_Some in Ek as (Ek%lookup_lt_Some & _). lia. }
  rewrite list_find_app_r by (by apply list_find_None, Forall_take).
  cbn [list_find]. rewrite decide_True by (apply matches_cname; split; [congruence|done]).
  cbn. by rewrite length_take_le.
Qed.

Lemma step_by_lookup n k off : step_by 0 n DE_SIZE !! k = Some off -> off = Z.of_nat k * DE_SIZE.
Proof using Type.
  unfold step_by. rewrite list_lookup_fmap. intros (x & Hx & ->)%fmap_Some_1. apply lookup_seqZ in Hx as [-> _]. lia.
Qed.

Lemma found_none s t di H name offs r s' :
  found s t di H name offs r s' -> list_find (matches name) (dirent_at (t_view t) di <$> offs) = None ->
  r = None /\ table_ok s' H /\ user s' = user s /\ elsewhere i s s' /\
  exists t' di', dir_at s' t' di' /\ same_dir t di t' di'.
Proof using Type.
  intros (t' & di' & Hd' & Hs & Hu & Hm) E. rewrite E in Hm. destruct Hm as (-> & Ht & _ & Hel).
  split_and!; try done. by exists t', di'.
Qed.

(** Storing an entry at a free place. *)
Lemma put_entry s t di off e (Q : result unit -> fs -> Prop) :
  dir_at s t di -> can_grow t di -> free_place t di (step_by 0 (size di) DE_SIZE) off ->
  is_u16 (de_inum e) -> length (de_name e) = DIRSIZ ->
  (forall s' t' di' l1 old l2, dir_at s' t' di' -> elsewhere i s s' -> user s' = user s ->
     disk_inode sb (t_view t') inum = Some di' ->
     dirents (t_view t) di = l1 ++ old ++ l2 -> l1 = take (first_free (dirents (t_view t) di)) (dirents (t_view t) di) ->
     l2 = drop (S (first_free (dirents (t_view t) di))) (dirents (t_view t) di) -> Forall (fun x => de_inum x = 0) old ->
     dirents (t_view t') di' = l1 ++ e :: l2 -> Q (Ok tt) s') ->
  wp (writei sb i (Kernel (dirent_bytes e)) off DE_SIZE) s Q.
Proof using Type.
  intros Hd Hg Hfp Hu Hle HQ.
  assert (En : DE_SIZE = Z.of_nat (length (dirent_bytes e)))
    by (unfold dirent_bytes; by rewrite length_app, length_u16_bytes, Hle).
  destruct (free_place_split _ _ _ _ Hd Hfp) as (Ho & Hole & _).
  assert (Hin : off < size di -> off + DE_SIZE <= size di).
  { intros Hlt. apply (dir_off s t di); [done|]. apply elem_of_step_by; [done|]. rewrite Z.sub_0_r. destruct Ho. split; [lia|done]. }
  pose proof (write_ready _ _ _ _ Hd Hg Ho Hole Hin) as Hrd. pose proof (hole_le (t_view t) di off Ho) as Hh.
  rewrite En. apply (writei_spec sb inum i (Kernel (dirent_bytes e)) (dirent_bytes e) s t di off).
  - exists []. by rewrite app_nil_r.
  - destruct Ho. lia.
  - rewrite <-En. destruct (cg_size _ _ Hg). lia.
  - by rewrite <-En.
  - rewrite <-En. rewrite (entry_span off Ho) in *. pose proof (cg_room _ _ Hg). unfold room in *. lia.
  - intros s3 t3 di3 Hw.
    destruct (dir_written _ _ _ _ _ _ _ _ Hd Hg Hfp Hu Hle Hw) as (Hd3 & d1 & dold & d2 & Ea & T1 & T2 & Hold & Eb).
    destruct Hw as (_ & _ & _ & _ & Hdisk & Hel3 & Hu3 & _). by eapply HQ.
Qed.

Lemma dirlink_spec s t di H name n (Q : result unit -> fs -> Prop) :
  dir_at s t di -> table_ok s H -> 0 < refs H i -> Z.of_nat (length H) + 1 < 2 ^ 64 -> can_grow t di ->
  length name = DIRSIZ -> is_Some (cname name) -> 0 < n < 2 ^ 16 ->
  dir_get (dirents (t_view t) di) name = None ->
  (forall s' t' di', dir_at s' t' di' -> table_ok s' H -> elsewhere i s s' -> user s' = user s ->
     disk_inode sb (t_view t') inum = Some di' ->
     added (dirents (t_view t) di) (dirents (t_view t') di') name n -> Q (Ok tt) s') ->
  wp (dirlink sb i name n) s Q.
Proof using Type.
  intros Hd Ht Hi Hb Hg Hl Hcn Hn Hno HQ.
  destruct (fa_slot _ _ _ _ _ _ (da_file _ _ _ Hd)) as [lk Hs]. unfold dirlink.
  eapply wp_bind, wp_get_dinode; [exact Hs|]. cbn [s_dinode]. rewrite decide_False by (intros Hty; by apply Hty, Hd).
  assert (Hlf : list_find (matches name) (dirents (t_view t) di) = None)
    by (unfold dir_get in Hno; by destruct (list_find _ _)).
  eapply wp_bind, wp_mono; [apply (dirlookup_spec s t di H name); [done|done|done|done|congruence]|].
  intros r s1 (-> & Ht1 & Hu1 & Hel1 & t1 & di1 & Hd1 & Hs1)%found_none; [|exact Hlf].
  pose proof (can_grow_same _ _ _ _ _ _ Hg Hd Hd1 Hs1) as Hg1. pose proof (same_dirents _ _ _ _ _ Hd Hs1) as Ed1.
  destruct (fa_slot _ _ _ _ _ _ (da_file _ _ _ Hd1)) as [lk1 Hsl1].
  unfold find_available_dirent_offset. eapply wp_bind. eapply wp_bind, wp_get_dinode; [exact Hsl1|]. cbn [s_dinode].
  eapply wp_mono; [apply (available_loop_spec _ s1 t1 di1); [done| |done]|].
  { apply Forall_forall. intros off Hoff. by apply (dir_off s1 t1 di1). }
  intros r s2 (off & de & -> & Hlde & Hfp & Hu2 & Hel2 & t2 & di2 & Hd2 & Hs2).
  pose proof (can_grow_same _ _ _ _ _ _ Hg1 Hd1 Hd2 Hs2) as Hg2. pose proof (same_dirents _ _ _ _ _ Hd1 Hs2) as Ed2.
  pose proof (table_elsewhere _ _ _ _ _ _ H Ht1 Hi (da_file _ _ _ Hd1) (da_file _ _ _ Hd2) Hel2) as Ht2.
  assert (Hfp2 : free_place t2 di2 (step_by 0 (size di2) DE_SIZE) off).
  { unfold free_place in *. change (dirent_at (t_view t2) di2 <$> _) with (dirents (t_view t2) di2). rewrite Ed2.
    by rewrite (proj1 (same_dir_size _ _ _ _ Hs2)). }
  cbn beta iota. apply wp_bind, wp_assert; [apply Z.ltb_lt; lia|]. apply wp_bind.
  eapply put_entry; [done|done|done|cbn; unfold is_u16; lia|cbn; by rewrite length_copy_name|].
  intros s3 t3 di3 d1 dold d2 Hd3 Hel3 Hu3 Hdisk Ea T1 T2 Hold Eb. apply wp_ret. apply (HQ s3 t3 di3); [done| | | |done|].
  - eapply (table_elsewhere s2 t2 di2); [done|done|apply Hd2|apply Hd3|done].
  - eapply elsewhere_trans; [exact Hel1|]. by eapply elsewhere_trans.
  - congruence.
  - assert (Hce : cname (copy_name (de_name de) name) = cname name) by (apply cname_copy; [congruence|done]).
    rewrite Ed2, Ed1 in Ea, T1, T2. split; [eexists; split_and!; [by rewrite Eb, T1, T2|done|done]|].
    intros name'. rewrite Ea, Eb. rewrite Ea in Hno. apply dir_get_put; [done|cbn; lia|done|done|done].
Qed.

(** The offset of the entry found. *)
Lemma found_some s t di H name n r s' :
  dir_at s t di -> found s t di H name (step_by 0 (size di) DE_SIZE) r s' ->
  dir_get (dirents (t_view t) di) name = Some n ->
  exists ip off t' di', r = Some (ip, off) /\ ikey ip = (ROOTDEV, n) /\ table_ok s' (ip :: H) /\
    (exists k e, list_find (matches name) (dirents (t_view t) di) = Some (k, e) /\ off = Z.of_nat k * DE_SIZE) /\ dir_at s' t' di' /\ same_dir t di t' di' /\ user s' = user s /\
    (refs H (i_index ip) = 0 -> forall x, data s' !! i_index ip = Some x -> idle x).
Proof using Type.
  intros Hd (t' & di' & Hd' & Hs & Hu & Hm) Hg. unfold dir_get, dirents in Hg.
  destruct (list_find _ _) as [[k de]|] eqn:E; [|done]. injection Hg as <-.
  destruct Hm as (ip & off & -> & Hoff & Hk & Ht & Hidle). exists ip, off, t', di'. split_and!; try done.
  exists k, de. split; [done|]. by eapply step_by_lookup.
Qed.

(** C30: a directory is a map from names to inodes.  Let the directory consist of whole
    entries with all its blocks present, and let it be able to grow: room in the log, a free
    block on the disk, and a block at its end that is direct or already mapped (a missing
    block behind an indirect one is not found by [bmap]).  Then adding a name that is
    not there ([dirlink]) succeeds, stores the inode of the directory on disk, puts the new entry
    in the first one that is not in use or else at the end, with all other entries left in
    their places, and makes exactly that name resolve to the inode: every other name
    resolves as before, whatever bytes followed the old names.  Looking it
    up ([dirlookup]) then returns a handle on that inode and the offset of that entry.  A second attempt
    to add it fails with the directory and all handles as they were. *)
Theorem dirlink_dirlookup s t di H name n :
  dir_at s t di -> table_ok s H -> 0 < refs H i -> Z.of_nat (length H) + 1 < 2 ^ 64 -> can_grow t di ->
  length name = DIRSIZ -> is_Some (cname name) -> 0 < n < 2 ^ 16 ->
  dir_get (dirents (t_view t) di) name = None -> available s H ROOTDEV n ->
  wp (dirlink sb i name n) s (fun r s' => r = Ok tt /\ exists t' di', dir_at s' t' di' /\ table_ok s' H /\
    disk_inode sb (t_view t') inum = Some di' /\
    added (dirents (t_view t) di) (dirents (t_view t') di') name n /\
    wp (dirlookup sb i name) s' (fun o s2 => exists ip off, o = Some (ip, off) /\ ikey ip = (ROOTDEV, n) /\
      off = Z.of_nat (first_free (dirents (t_view t) di)) * DE_SIZE /\ table_ok s2 (ip :: H)) /\
    forall n', wp (dirlink sb i name n') s' (fun r s2 => r = Err "dirent already present" /\ table_ok s2 H /\
      exists t2 di2, dir_at s2 t2 di2 /\ same_dir t' di' t2 di2)).
Proof using Type.
  intros Hd Ht Hi Hb Hg Hl Hcn Hn Hno Hav. eapply dirlink_spec; try done.
  intros s1 t1 di1 Hd1 Ht1 Hel Hu Hdisk Hadd. split; [done|]. exists t1, di1.
  assert (Hget : dir_get (dirents (t_view t1) di1) name = Some n) by (rewrite (ad_get _ _ _ _ Hadd); by rewrite decide_True).
  assert (Hav1 : forall m, dir_get (dirents (t_view t1) di1) name = Some m -> available s1 H ROOTDEV m).
  { intros m Hm. assert (m = n) as -> by congruence. unfold available. by rewrite (proj1 Hel). }
  split_and!; [done|done|done|done| |].
  - eapply wp_mono; [by apply (dirlookup_spec s1 t1 di1 H name)|]. intros r s2 Hf.
    destruct (found_some _ _ _ _ _ _ _ _ Hd1 Hf Hget) as (ip & off & t2 & di2 & -> & Hk & Ht2 & (k & e & Hfk & ->) & _).
    destruct (added_find _ _ _ _ Hadd ltac:(lia) Hcn Hno) as [e' He]. rewrite Hfk in He. injection He as -> _. eexists ip, _. by split_and!.
  - intros n'. destruct (fa_slot _ _ _ _ _ _ (da_file _ _ _ Hd1)) as [lk Hs]. unfold dirlink.
    eapply wp_bind, wp_get_dinode; [exact Hs|]. cbn [s_dinode]. rewrite decide_False by (intros Hty; by apply Hty, Hd1).
    eapply wp_bind, wp_mono; [by apply (dirlookup_spec s1 t1 di1 H name)|]. intros r s2 Hf.
    destruct (found_some _ _ _ _ _ _ _ _ Hd1 Hf Hget) as (ip & off & t2 & di2 & -> & Hk & Ht2 & _ & Hd2 & Hs2 & _ & Hid).
    cbn beta iota. eapply wp_bind, wp_mono; [by apply (iput_spec sb s2 H ip)|]. intros [] s3 (Ht3 & Eb & _ & Ed).
    apply wp_ret. split_and!; [done|done|]. exists t2, di2. split; [|done].
    destruct Hd2 as [[F1 F2 F3 F4 F5 F6] D2 D3 D4 D5]. split; try done. split; try done; [by rewrite Eb|by rewrite Ed].
Qed.

End dir.

(** ** A sample directory

    Inode 70 of the sample disk as an empty directory, in slot 0 of the table. *)

Definition sample_dir : DiskInode := mkDinode Directory 0 0 1 0 (replicate 11 0 ++ [36; 0]).
Definition sample_handle : Inode := mkInode ROOTDEV 70 0.
Definition sample_root (f : Log.fsys) : @fs Log.fsys unit :=
  mkFsState f tt (mkMeta ROOTDEV 70 1 :: replicate 49 meta_new)
    (mkSlot true (Some (ROOTDEV, 70)) sample_dir :: replicate 49 slot_new).

Lemma addr_at_addrs v di di' p : addrs di = addrs di' -> addr_at v di p = addr_at v di' p.
Proof. intros E. destruct p; cbn; unfold addr; by rewrite E. Qed.

Lemma sample_dir_at f :
  in_txn (BlockLaws := Bmap.sample_laws) f (mkTxn sample_view ∅ ∅ ∅) ->
  dir_at (HL := Bmap.sample_laws) Bmap.sample_sb 70 0 (sample_root f) (mkTxn sample_view ∅ ∅ ∅) sample_dir.
Proof.
  intros Ht. assert (Ea : forall p, addr_at sample_view sample_dir p = addr_at sample_view sample_inode p)
    by (intros p; by apply addr_at_addrs).
  destruct sample_file_ok as [_ S2 S3 S4 S5 S6]. split; [split|..]; try done; cbn [t_view].
  - exact Bmap.sample_layout.
  - split; [|done|done|done|intros p; rewrite Ea; apply S5|intros p q; rewrite !Ea; apply S6].
    split; [by vm_compute..|reflexivity|by repeat (constructor; [by vm_compute|])].
  - by exists true.
  - vm_compute. lia.
  - intros k Hk Hlt. cbn in Hlt. change BSIZE with 4096 in Hlt. lia.
Qed.

Lemma sample_table f : table_ok (sample_root f) [sample_handle].
Proof.
  assert (Hm : forall j m, meta (sample_root f) !! j = Some m -> j = 0%nat /\ m = mkMeta ROOTDEV 70 1 \/ j <> 0%nat /\ m = meta_new)
    by (intros [|j] m; cbn [sample_root meta]; [by intros [= <-]; left|rewrite lookup_cons_ne_0 by done; by intros [-> _]%lookup_replicate; right]).
  assert (Hx : forall j x, data (sample_root f) !! j = Some x ->
    j = 0%nat /\ x = mkSlot true (Some (ROOTDEV, 70)) sample_dir \/ j <> 0%nat /\ x = slot_new)
    by (intros [|j] x; cbn [sample_root data]; [by intros [= <-]; left|rewrite lookup_cons_ne_0 by done; by intros [-> _]%lookup_replicate; right]).
  assert (Hr : forall j, refs [sample_handle] j = if decide (j = 0%nat) then 1 else 0) by (by intros [|j]).
  split.
  - done.
  - intros j m [[-> ->]|[Hj ->]]%Hm; rewrite Hr; [done|by rewrite decide_False].
  - intros ip ->%list_elem_of_singleton. split; [done|]. by eexists.
  - intros j j' m m' [[-> ->]|[Hj ->]]%Hm [[-> ->]|[Hj' ->]]%Hm; done.
  - intros j m x k [[-> ->]|[Hj ->]]%Hm [[? ->]|[? ->]]%Hx; try done. by intros [= <-].
  - intros j x [[-> ->]|[Hj ->]]%Hx; rewrite Hr; [done|]. intros _. split; [done|by left].
Qed.

Definition sample_name : list Z := [104; 105] ++ replicate 28 0.

Lemma dirlink_dirlookup_witness :
  exists f, wp (dirlink (UserCopy0 := no_user) Bmap.sample_sb 0 sample_name 9) (sample_root f) (fun r _ => r = Ok tt).
Proof.
  destruct (txn_begin 2 30 Log.sample_geometry Bmap.sample_disk Bmap.sample_disk_clean) as (f0 & f & _ & _ & _ & Ht).
  exists f. eapply wp_mono.
  - apply (dirlink_dirlookup (HL := Bmap.sample_laws) (UserCopy0 := no_user) Bmap.sample_sb 70 0 (sample_root f)
      (mkTxn sample_view ∅ ∅ ∅) sample_dir [sample_handle] sample_name 9).
    + by apply sample_dir_at.
    + apply sample_table.
    + by vm_compute.
    + cbn. lia.
    + split; cbn [t_view]; [vm_compute; lia|rewrite sample_free; lia|by vm_compute|]. left. by vm_compute.
    + reflexivity.
    + by eexists.
    + lia.
    + reflexivity.
    + exists 1%nat, meta_new. split; [reflexivity|by right].
  - intros r s (-> & _). done.
Defined.

End Dirs.
