(* ===== verification/Mkfs.v ===== *)
(** * Building the initial file system

    Models [mkfs/src/main.rs]: the program that lays out the disk image,
    creates the root directory, copies the user programs into it and writes the
    bitmap.  The image is a function from sectors to blocks; the proofs use the
    theory of files of [FsFile.v], and show that the image is one that the
    kernel's components accept. *)

From S2P Require Import Prelude Param Bytes Bio Log Blocks Bmap Fs FsFile.

Module Mkfs.
Import Bmap Fs FsFile.

(** ** Layout of the image *)

Definition FSSIZE : Z := 200000.
Definition MAXOPBLOCKS : Z := 10.
Definition LOGSIZE : Z := 3 * MAXOPBLOCKS.
Definition NINODES : Z := 200.
Definition NBITMAP : Z := FSSIZE / (BSIZE * 8) + 1.
Definition NINODEBLOCKS : Z := NINODES / IPB + 1.
Definition NLOG : Z := LOGSIZE.
Definition NMETA : Z := 2 + NLOG + NINODEBLOCKS + NBITMAP.
Definition NBLOCKS : Z := FSSIZE - NMETA.

Definition SB : SuperBlock :=
  mkSb 0x10203040 FSSIZE NBLOCKS NINODES NLOG 2 (2 + NLOG) (2 + NLOG + NINODEBLOCKS).

(** ** The image and its counters *)

Record img := mkImg { disk : Z -> block; FREE_INODE : Z; FREE_BLOCK : Z }.

Definition wsect (sec : Z) (buf : block) : M img unit :=
  modify (fun s => mkImg (upd (disk s) sec buf) (FREE_INODE s) (FREE_BLOCK s)).
Definition rsect (sec : Z) : M img block := let! s := get in ret (disk s sec).

(** [FREE_BLOCK as u32] and [FREE_BLOCK += 1] *)
Definition next_block : M img Z :=
  let! s := get in
  put (mkImg (disk s) (FREE_INODE s) (FREE_BLOCK s ⊞ 1)) ;;
  ret (wrap 32 (FREE_BLOCK s)).

Fixpoint write_zeroes (secs : list Z) : M img unit :=
  match secs with
  | [] => ret tt
  | i :: secs => wsect i zero_block ;; write_zeroes secs
  end.

Definition winode (inum : Z) (di : DiskInode) : M img unit :=
  let bn := inode_block SB inum in
  let! buf := rsect bn in
  wsect bn (splice (inode_offset inum) (dinode_bytes di) buf).

(** The type field is a plain [u16] here; only types of the enumeration are
    ever stored. *)
Definition rinode (inum : Z) : M img DiskInode :=
  let bn := inode_block SB inum in
  let! buf := rsect bn in
  unwrap (read_dinode buf inum) "invalid InodeType".

Definition ialloc (t : InodeType) : M img Z :=
  let! s := get in
  let inum := FREE_INODE s in
  put (mkImg (disk s) (u32_add inum 1) (FREE_BLOCK s)) ;;
  winode inum (mkDinode t 0 0 1 0 (replicate (NDIRECT + 2) 0)) ;;
  ret inum.

(** ** [iappend] *)

(** An address in the inode, allocated if it is zero. *)
Definition inode_addr (di : DiskInode) (k : nat) : M img (DiskInode * Z) :=
  let a := addrs di !!! k in
  if a =? 0 then
    let! bn := next_block in
    ret (mkDinode (typ di) (major di) (minor di) (nlink di) (size di) (<[k := bn]> (addrs di)), bn)
  else ret (di, a).

(** An entry of a block of addresses, allocated and written back if it is zero. *)
Definition block_addr (a k : Z) : M img Z :=
  let! buf := rsect a in
  let bn := read_word buf k in
  if bn =? 0 then
    let! s := get in
    wsect a (write_word buf k (wrap 32 (FREE_BLOCK s))) ;;
    next_block
  else ret bn.

(** The block number of file block [fbn]. *)
Definition lookup_block (di : DiskInode) (fbn : Z) : M img (DiskInode * Z) :=
  if fbn <? Z.of_nat NDIRECT then inode_addr di (Z.to_nat fbn)
  else if fbn <? Z.of_nat NDIRECT + NINDIRECT then
    let! '(di, a) := inode_addr di NDIRECT in
    let! bn := block_addr a (fbn - Z.of_nat NDIRECT) in
    ret (di, bn)
  else
    let! '(di, a) := inode_addr di (NDIRECT + 1) in
    let! ind := block_addr a ((fbn - Z.of_nat NDIRECT - NINDIRECT) / NDINDIRECT) in
    let! bn := block_addr ind ((fbn - Z.of_nat NDIRECT - NINDIRECT) `mod` NDINDIRECT) in
    ret (di, bn).

Fixpoint iappend_loop (fuel : nat) (di : DiskInode) (src : list Z) (off n : Z) : M img (DiskInode * Z) :=
  if 0 <? n then
    match fuel with
    | O => out_of_fuel
    | S fuel =>
        let fbn := off / BSIZE in
        assert (fbn <? MAXFILE) "fbn < MAXFILE" ;;
        let! '(di, bn) := lookup_block di fbn in
        let n1 := Z.min n ((fbn + 1) * BSIZE - off) in
        let! buf := rsect bn in
        wsect bn (splice (Z.to_nat (off - fbn * BSIZE)) (take (Z.to_nat n1) src) buf) ;;
        iappend_loop fuel di (drop (Z.to_nat n1) src) (off + n1) (n - n1)
    end
  else ret (di, off).

Definition iappend (inum : Z) (src : list Z) (n : Z) : M img unit :=
  let! di := rinode inum in
  let! '(di, off) := iappend_loop (rounds n) di src (size di) n in
  winode inum (mkDinode (typ di) (major di) (minor di) (nlink di) (wrap 32 off) (addrs di)).

(** ** The bitmap *)

Definition balloc (used : Z) : M img unit :=
  assert (used <? BSIZE * 8) "used < BSIZE * 8" ;;
  wsect (bmapstart SB) (foldl mark zero_block (seqZ 0 used)).

(** ** [main] *)

(** The file name behind the last slash, without a leading underscore. *)
Definition short_name (path : list Z) : M img (list Z) :=
  let base := reverse (take_while (fun c => negb (c =? SLASH)) (reverse path)) in
  let! c := index base 0 in
  ret (if c =? 95 then drop 1 base else base).

(** [while f.read(&mut buf) > 0]: whole blocks, the last one over what the
    buffer held before.  A read takes as many bytes as the buffer and the file have; a host that
    returns fewer would leave more old bytes. *)
Fixpoint copy_file (fuel : nat) (inum : Z) (buf contents : list Z) : M img unit :=
  match contents with
  | [] => ret tt
  | _ =>
      match fuel with
      | O => out_of_fuel
      | S fuel =>
          let buf := splice 0 (take (Z.to_nat BSIZE) contents) buf in
          iappend inum buf BSIZE ;;
          copy_file fuel inum buf (drop (Z.to_nat BSIZE) contents)
      end
  end.

Definition add_program (root : Z) (path contents : list Z) : M img unit :=
  let! name := short_name path in
  let! inum := ialloc File in
  assert (Nat.leb (length name) DIRSIZ) "index out of bounds" ;;
  let de := mkDirEnt (wrap 16 inum) (splice 0 name (replicate DIRSIZ 0)) in
  iappend root (dirent_bytes de) DE_SIZE ;;
  copy_file (length contents) inum zero_block contents.

Fixpoint add_programs (root : Z) (progs : list (list Z * list Z)) : M img unit :=
  match progs with
  | [] => ret tt
  | (path, contents) :: progs => add_program root path contents ;; add_programs root progs
  end.

(** The end of [main]: rounding the size of the root directory and writing
    the bitmap. *)
Definition finish (root : Z) : M img unit :=
  let! di := rinode root in
  winode root (mkDinode (typ di) (major di) (minor di) (nlink di)
                 (wrap 32 ((size di / BSIZE + 1) * BSIZE)) (addrs di)) ;;
  let! s := get in
  assert (FREE_BLOCK s <? 2 ^ 16) "TryFromIntError" ;;
  balloc (FREE_BLOCK s).

Definition main (progs : list (list Z * list Z)) : M img unit :=
  write_zeroes (seqZ 0 FSSIZE) ;;
  wsect 1 (splice 0 (super_bytes SB) zero_block) ;;
  let! root := ialloc Directory in
  assert (root =? ROOTINO) "ROOTINO" ;;
  iappend root (dirent_bytes (mkDirEnt (wrap 16 root) dot_name)) DE_SIZE ;;
  iappend root (dirent_bytes (mkDirEnt (wrap 16 root) dotdot_name)) DE_SIZE ;;
  add_programs root progs ;;
  finish root.

(** The program starts on a fresh file. *)
Definition img_new : img := mkImg (fun _ => zero_block) 1 NMETA.

(** ** Where an address is stored *)

(** In a slot of the inode, or at an index of the block of another place. *)
Definition spot (p : place) : nat + place * Z :=
  match p with
  | Data k =>
      if k <? Z.of_nat NDIRECT then inl (Z.to_nat k)
      else if k - Z.of_nat NDIRECT <? NINDIRECT then inr (Ind, k - Z.of_nat NDIRECT)
      else inr (Sub ((k - Z.of_nat NDIRECT - NINDIRECT) / NDINDIRECT),
                (k - Z.of_nat NDIRECT - NINDIRECT) `mod` NDINDIRECT)
  | Ind => inl NDIRECT
  | DInd => inl (NDIRECT + 1)%nat
  | Sub j => inr (DInd, j)
  end.

Lemma addr_at_spot v di p :
  addr_at v di p = match spot p with inl n => addr di n | inr (q, k) => entry v (addr_at v di q) k end.
Proof.
  destruct p as [k| | |j]; [|done|done|done]. unfold spot, addr_at at 1.
  destruct (k <? Z.of_nat NDIRECT); [done|]. by destruct (k - Z.of_nat NDIRECT <? NINDIRECT).
Qed.

Lemma spot_parent p q k : spot p = inr (q, k) -> parent p = Some q /\ ~ is_data q.
Proof.
  destruct p as [k'| | |j]; [|done|done|].
  - simpl. destruct (k' <? Z.of_nat NDIRECT); [done|].
    destruct (k' - Z.of_nat NDIRECT <? NINDIRECT); intros [= <- <-]; split; simpl; tauto.
  - simpl. intros [= <- <-]. split; simpl; tauto.
Qed.

Lemma spot_index p q k : place_ok p -> spot p = inr (q, k) -> 0 <= k < NINDIRECT /\ place_ok q.
Proof.
  intros Hp E. split; [|by eapply parent_ok, spot_parent]. destruct p as [k'| | |j]; [|done|done|].
  - simpl in Hp, E. change (Z.of_nat NDIRECT) with 11 in *. change NINDIRECT with 1024 in *.
    change NDINDIRECT with 1024 in *. destruct (Z.ltb_spec k' 11); [done|].
    destruct (Z.ltb_spec (k' - 11) 1024); simplify_eq; [lia|]. apply Z.mod_pos_bound. lia.
  - simpl in *. by simplify_eq.
Qed.

Lemma spot_slot p n : place_ok p -> spot p = inl n -> (n < NDIRECT + 2)%nat /\ inode_slot p = Some n.
Proof.
  intros Hp. destruct p as [k| | |j]; simpl in *; change (Z.of_nat NDIRECT) with 11;
    change NDIRECT with 11%nat; try (intros [= <-]; split; [lia|done]); [|done].
  destruct (Z.ltb_spec k 11); [intros [= <-]; split; [lia|done]|]. by case_bool.
Qed.

Lemma spot_inj p q : place_ok p -> place_ok q -> spot p = spot q -> p = q.
Proof.
  intros Hp Hq E. destruct (spot q) as [n|[r k]] eqn:Eq.
  - apply spot_slot in Eq as [_ Eq]; [|done]. apply spot_slot in E as [_ E]; [|done].
    by eapply inode_slot_inj.
  - revert E Eq. unfold spot. change (Z.of_nat NDIRECT) with 11. change NINDIRECT with 1024.
    change NDINDIRECT with 1024. destruct p, q; case_bools; intros; simplify_eq; try done; f_equal; try lia.
    Z.div_mod_to_equations. lia.
Qed.

(** ** Files of the image *)

(** Blocks are handed out in order: those from [fb] on are unused and zero,
    and the file has its own among those behind the metadata. *)
Record file_img (v : Z -> block) (di : DiskInode) (fb : Z) : Prop := {
  im_dinode : dinode_ok di;
  im_len b : length (v b) = Z.to_nat BSIZE;
  im_zero b : fb <= b -> v b = zero_block;
  im_fb : NMETA <= fb < 2 ^ 32;
  im_range p : place_ok p -> addr_at v di p <> 0 -> NMETA <= addr_at v di p < fb;
  im_inj p q : place_ok p -> place_ok q -> addr_at v di p <> 0 -> addr_at v di p = addr_at v di q -> p = q
}.

Lemma read_write_other d k k' x :
  length d = Z.to_nat BSIZE -> 0 <= k < NINDIRECT -> 0 <= k' < NINDIRECT -> k <> k' ->
  read_word (write_word d k x) k' = read_word d k'.
Proof.
  intros Hd Hk Hk' Hne. change NINDIRECT with 1024 in *. change (Z.to_nat BSIZE) with 4096%nat in Hd.
  unfold read_word, write_word. rewrite take_drop_splice; rewrite ?length_u32_bytes; [done|lia|lia].
Qed.

Lemma length_write_word d k x :
  length d = Z.to_nat BSIZE -> 0 <= k < NINDIRECT -> length (write_word d k x) = Z.to_nat BSIZE.
Proof.
  intros Hd Hk. change NINDIRECT with 1024 in *. unfold write_word.
  rewrite length_splice; [done|]. rewrite length_u32_bytes, Hd. change (Z.to_nat BSIZE) with 4096%nat. lia.
Qed.

(** Storing an address in its place. *)
Definition set_place (v : Z -> block) (di : DiskInode) (p : place) (n : Z) : (Z -> block) * DiskInode :=
  match spot p with
  | inl k => (v, with_addr di k n)
  | inr (q, k) =>
      let a := addr_at v di q in (upd v a (write_word (v a) k n), di)
  end.

(** The new block is the next one, and the block that holds its address exists. *)
Definition can_set (v : Z -> block) (di : DiskInode) (p : place) : Prop :=
  place_ok p /\ addr_at v di p = 0 /\
  forall q k, spot p = inr (q, k) -> addr_at v di q <> 0.

Section set.
Context (v : Z -> block) (di : DiskInode) (p : place) (fb : Z).
Context (Himg : file_img v di fb) (Hset : can_set v di p).
Let v' := (set_place v di p fb).1.
Let di' := (set_place v di p fb).2.

Lemma set_addr_slot n : addr di' n = (if decide (spot p = inl n) then fb else addr di n).
Proof using Himg Hset.
  destruct Hset as (Hp & _). unfold di', set_place. destruct (spot p) as [k|[q k]] eqn:E; cbn.
  - destruct (spot_slot p k Hp E) as [Hk _]. unfold addr, with_addr. cbn. case_decide as En.
    + injection En as <-. apply list_lookup_total_insert_eq. by rewrite (di_len _ (im_dinode _ _ _ Himg)).
    + apply list_lookup_total_insert_ne. congruence.
  - by rewrite decide_False.
Qed.

Lemma set_view b : (forall q k, spot p = inr (q, k) -> b <> addr_at v di q) -> v' b = v b.
Proof using Type.
  intros Hb. unfold v', set_place. destruct (spot p) as [k|[q k]]; [done|]. cbn. apply upd_ne. by eapply Hb.
Qed.

(** The block that holds the address of [p], if it is not the inode. *)
Lemma set_parent q k : spot p = inr (q, k) ->
  v' (addr_at v di q) = write_word (v (addr_at v di q)) k fb /\ NMETA <= addr_at v di q < fb /\
  0 <= k < NINDIRECT /\ place_ok q.
Proof using Himg Hset.
  intros E. destruct Hset as (Hp & _ & Hpar). destruct (spot_index _ _ _ Hp E) as [Hk Hq].
  split_and!; [|by apply (im_range _ _ _ Himg); [|by eapply Hpar]..|lia|lia|done].
  unfold v', set_place. rewrite E. cbn. by rewrite upd_eq.
Qed.

Lemma set_fresh b : fb <= b -> v' b = zero_block.
Proof using Himg Hset.
  intros Hb. rewrite set_view; [by apply (im_zero _ _ _ Himg)|]. intros q k E.
  destruct (set_parent q k E) as (_ & ? & _). lia.
Qed.

(** Entries other than that of [p] keep their values. *)
Lemma set_entry q r k :
  place_ok q -> q <> p -> spot q = inr (r, k) -> entry v' (addr_at v di r) k = entry v (addr_at v di r) k.
Proof using Himg Hset.
  intros Hq Hne Es. destruct Hset as (Hp & _ & Hpar). destruct (spot_index _ _ _ Hq Es) as [Hk Hr].
  unfold entry. case_bool; [done|]. destruct (spot p) as [m|[r2 k2]] eqn:Ep.
  - rewrite set_view; [done|]. intros r' k'. by rewrite Ep.
  - destruct (set_parent r2 k2 Ep) as (Ev & _ & Hk2 & Hr2).
    destruct (decide (addr_at v di r = addr_at v di r2)) as [E|E].
    + assert (r = r2) as <- by by apply (im_inj _ _ _ Himg). rewrite Ev.
      apply read_write_other; [apply Himg|done|done|]. intros ->. apply Hne, spot_inj; [done|done|]. congruence.
    + rewrite set_view; [done|]. intros r' k'. rewrite Ep. congruence.
Qed.

Lemma set_addr_at q : place_ok q -> addr_at v' di' q = if decide (q = p) then fb else addr_at v di q.
Proof using Himg Hset.
  revert q. apply (place_rule (fun q => addr_at v' di' q = if decide (q = p) then fb else addr_at v di q)).
  pose proof Hset as (Hp & Hz & Hpar). pose proof (im_fb _ _ _ Himg) as Hfb. change NMETA with 43 in Hfb.
  intros q Hq IH. rewrite (addr_at_spot v' di' q), (addr_at_spot v di q).
  destruct (spot q) as [n|[r k]] eqn:Es.
  - rewrite set_addr_slot, <-Es. destruct (decide (q = p)) as [->|Hne]; [by rewrite decide_True|].
    rewrite decide_False; [done|]. intros E. by apply Hne, spot_inj.
  - destruct (spot_parent _ _ _ Es) as [Hpr Hnd]. destruct (spot_index _ _ _ Hq Es) as [Hk Hr].
    rewrite (IH r Hpr). destruct (decide (r = p)) as [->|Hrp].
    + rewrite decide_False by (intros ->; by eapply Hpar).
      rewrite Hz. unfold entry. cbn [Z.eqb]. rewrite (proj2 (Z.eqb_neq fb 0)) by lia.
      rewrite set_fresh by lia. by apply read_word_zero.
    + destruct (decide (q = p)) as [->|Hne]; [|by apply (set_entry q)].
      destruct (set_parent r k Es) as (Ev & Hra & _). unfold entry. change NMETA with 43 in Hra.
      rewrite (proj2 (Z.eqb_neq _ 0)), Ev by lia. apply read_write_word; [apply Himg|done|]. split; lia.
Qed.

Lemma set_img : fb + 1 < 2 ^ 32 -> file_img v' di' (fb + 1).
Proof using Himg Hset.
  intros H32. destruct (Himg) as [D1 D2 D3 D4 D5 D6]. pose proof Hset as (Hp & _).
  change NMETA with 43 in *. split; change NMETA with 43.
  - unfold di', set_place. destruct (spot p) as [k|[q k]]; [|done]. destruct D1. split; cbn; try done.
    + by rewrite length_insert.
    + apply Forall_insert; [done|]. split; lia.
  - intros b. unfold v', set_place. destruct (spot p) as [k|[q k]] eqn:E; [done|]. cbn. unfold upd.
    case_decide; [|done]. apply length_write_word; [done|]. by eapply spot_index.
  - intros b Hb. apply set_fresh. lia.
  - lia.
  - intros q Hq. rewrite set_addr_at by done. case_decide; [lia|]. intros H0. specialize (D5 q Hq H0). lia.
  - intros q r Hq Hr. rewrite !set_addr_at by done. repeat case_decide; intros Hn E; try congruence.
    + exfalso. specialize (D5 r Hr). lia.
    + exfalso. specialize (D5 q Hq). lia.
    + by apply D6.
Qed.

Lemma set_fbyte o : 0 <= o < MAXFILE * BSIZE -> fbyte v' di' o = fbyte v di o.
Proof using Himg Hset.
  intros Ho. pose proof (place_of_offset _ Ho) as Hpl. pose proof Hset as (Hp & Hz & _).
  pose proof (im_fb _ _ _ Himg) as Hfb. change NMETA with 43 in Hfb.
  unfold fbyte. rewrite set_addr_at by done. case_decide as E.
  - rewrite E, Hz, (proj2 (Z.eqb_neq fb 0)) by lia. cbn. rewrite set_fresh by lia.
    apply (lookup_total_replicate_2 (Z.to_nat BSIZE)). pose proof (Z.mod_pos_bound o BSIZE eq_refl). lia.
  - case_bool; [done|]. rewrite set_view; [done|]. intros q k Es E'.
    destruct (spot_parent _ _ _ Es) as [_ Hnd]. destruct (spot_index _ _ _ Hp Es) as [_ Hq].
    apply Hnd. by rewrite <-(im_inj _ _ _ Himg _ q Hpl Hq).
Qed.

End set.

(** ** Growing a file *)

(** At most [n] blocks taken, for places without one; the other blocks in
    use keep their contents. *)
Record grows (n : Z) (s : img) (di : DiskInode) (s' : img) (di' : DiskInode) : Prop := {
  gr_img : file_img (disk s') di' (FREE_BLOCK s');
  gr_free : FREE_BLOCK s <= FREE_BLOCK s' <= FREE_BLOCK s + n;
  gr_inode : FREE_INODE s' = FREE_INODE s;
  gr_meta : di' = mkDinode (typ di) (major di) (minor di) (nlink di) (size di) (addrs di');
  gr_keep p : place_ok p -> addr_at (disk s) di p <> 0 -> addr_at (disk s') di' p = addr_at (disk s) di p;
  gr_new p : place_ok p -> addr_at (disk s') di' p = addr_at (disk s) di p \/ FREE_BLOCK s <= addr_at (disk s') di' p;
  gr_frame b : b < FREE_BLOCK s ->
    (forall p, place_ok p -> addr_at (disk s) di p <> 0 -> addr_at (disk s) di p <> b) -> disk s' b = disk s b
}.

Lemma img_grows_refl s di : file_img (disk s) di (FREE_BLOCK s) -> grows 0 s di s di.
Proof. intros H. split; auto with lia. by destruct di. Qed.

Lemma grows_weaken n m s di s' di' : n <= m -> grows n s di s' di' -> grows m s di s' di'.
Proof. intros Hn [H1 H2 H3 H4 H5 H6 H7]. split; try done. lia. Qed.

Lemma img_grows_trans n m s di s1 di1 s2 di2 :
  grows n s di s1 di1 -> grows m s1 di1 s2 di2 -> grows (n + m) s di s2 di2.
Proof.
  intros H1 H2. pose proof (gr_free _ _ _ _ _ H1). pose proof (gr_free _ _ _ _ _ H2). split.
  - apply H2.
  - lia.
  - rewrite (gr_inode _ _ _ _ _ H2). apply H1.
  - rewrite (gr_meta _ _ _ _ _ H2), (gr_meta _ _ _ _ _ H1). done.
  - intros p Hp Hn. pose proof (gr_keep _ _ _ _ _ H1 p Hp Hn).
    rewrite (gr_keep _ _ _ _ _ H2); [done|done|congruence].
  - intros p Hp. destruct (gr_new _ _ _ _ _ H2 p Hp) as [->|?]; [by eapply gr_new|right; lia].
  - intros b Hb Hp. rewrite (gr_frame _ _ _ _ _ H2); [by eapply gr_frame|lia|].
    intros p Hpo Hn E. destruct (gr_new _ _ _ _ _ H1 p Hpo) as [E'|?]; [|lia].
    apply (Hp p Hpo); congruence.
Qed.

Definition same_contents (s : img) (di : DiskInode) (s' : img) (di' : DiskInode) : Prop :=
  same_bytes (disk s) di (disk s') di'.

Lemma set_grows s di p :
  file_img (disk s) di (FREE_BLOCK s) -> can_set (disk s) di p -> FREE_BLOCK s + 1 < 2 ^ 32 ->
  let s' := mkImg (set_place (disk s) di p (FREE_BLOCK s)).1 (FREE_INODE s) (FREE_BLOCK s + 1) in
  let di' := (set_place (disk s) di p (FREE_BLOCK s)).2 in
  grows 1 s di s' di' /\ same_contents s di s' di' /\ addr_at (disk s') di' p = FREE_BLOCK s.
Proof.
  intros Himg Hset H32 s' di'. pose proof Hset as (Hp & Hz & Hpar). split_and!; [split|..]; cbn [disk FREE_BLOCK FREE_INODE s'].
  - by apply set_img.
  - lia.
  - done.
  - unfold di', set_place. destruct (spot p) as [k|[q k]]; [done|]. by destruct di.
  - intros q Hq H0. rewrite set_addr_at by done. case_decide; congruence.
  - intros q Hq. rewrite set_addr_at by done. case_decide; [by right|by left].
  - intros b Hb Hq. apply set_view. intros q k E. pose proof (spot_index _ _ _ Hp E) as [_ Hqo].
    intros ->. apply (Hq q Hqo); [by eapply Hpar|done].
  - intros o Ho. by apply set_fbyte.
  - rewrite set_addr_at by done. by rewrite decide_True.
Qed.

(** What a lookup of the place [p] yields. *)
Definition found (n : Z) (p : place) (s : img) (di : DiskInode) (a : Z) (s' : img) (di' : DiskInode) : Prop :=
  grows n s di s' di' /\ same_contents s di s' di' /\ a = addr_at (disk s') di' p /\ a <> 0.

Lemma next_block_spec s (Q : Z -> img -> Prop) :
  NMETA <= FREE_BLOCK s -> FREE_BLOCK s + 1 < 2 ^ 32 ->
  Q (FREE_BLOCK s) (mkImg (disk s) (FREE_INODE s) (FREE_BLOCK s + 1)) -> wp next_block s Q.
Proof.
  intros H1 H2 HQ. change NMETA with 43 in H1. apply wp_bind, wp_get, wp_bind, wp_put, wp_ret.
  by rewrite usize_add_small, wrap_small by lia.
Qed.

Lemma inode_addr_spec s di p k :
  file_img (disk s) di (FREE_BLOCK s) -> place_ok p -> spot p = inl k -> FREE_BLOCK s + 1 < 2 ^ 32 ->
  wp (inode_addr di k) s (fun '(di', a) s' => found 1 p s di a s' di').
Proof.
  intros Himg Hp Es H32. assert (Ea : addr_at (disk s) di p = addrs di !!! k) by by rewrite addr_at_spot, Es.
  unfold inode_addr. cbv zeta. rewrite <-Ea. destruct (Z.eqb_spec (addr_at (disk s) di p) 0) as [E|E].
  - assert (Hset : can_set (disk s) di p) by (split_and!; [done|done|]; intros q k'; by rewrite Es).
    destruct (set_grows s di p Himg Hset H32) as (Hg & Hs & Ha). pose proof (im_fb _ _ _ Himg) as Hfb.
    unfold set_place in Hg, Hs, Ha. rewrite Es in Hg, Hs, Ha. cbn [fst snd] in *.
    apply wp_bind, next_block_spec; [lia|done|]. apply wp_ret. split_and!; [done|done|done|].
    change NMETA with 43 in Hfb. lia.
  - apply wp_ret. split_and!; [|done|done|done]. eapply grows_weaken, img_grows_refl; [lia|done].
Qed.

Lemma block_addr_spec s di p q k :
  file_img (disk s) di (FREE_BLOCK s) -> place_ok p -> spot p = inr (q, k) ->
  addr_at (disk s) di q <> 0 -> FREE_BLOCK s + 1 < 2 ^ 32 ->
  wp (block_addr (addr_at (disk s) di q) k) s (fun a s' => found 1 p s di a s' di).
Proof.
  intros Himg Hp Es Hq H32. pose proof (im_fb _ _ _ Himg) as Hfb.
  assert (Ea : addr_at (disk s) di p = read_word (disk s (addr_at (disk s) di q)) k).
  { rewrite addr_at_spot, Es. unfold entry. by rewrite (proj2 (Z.eqb_neq _ _)). }
  unfold block_addr, rsect. apply wp_bind, wp_bind, wp_get, wp_ret. cbv zeta. rewrite <-Ea.
  destruct (Z.eqb_spec (addr_at (disk s) di p) 0) as [E|E].
  - assert (Hset : can_set (disk s) di p) by (split_and!; [done|done|]; intros q' k'; rewrite Es; intros [= <- <-]; done).
    destruct (set_grows s di p Himg Hset H32) as (Hg & Hs & Ha).
    unfold set_place in Hg, Hs, Ha. rewrite Es in Hg, Hs, Ha. cbn [fst snd] in *.
    apply wp_bind, wp_get, wp_bind, wp_modify. change NMETA with 43 in Hfb. rewrite wrap_small by lia.
    apply next_block_spec; cbn; [change NMETA with 43; lia|lia|]. split_and!; [done|done|done|lia].
  - apply wp_ret. split_and!; [|done|done|done]. eapply grows_weaken, img_grows_refl; [lia|done].
Qed.

Lemma found_then n m q p s di a s1 di1 b s2 di2 :
  found n q s di a s1 di1 -> found m p s1 di1 b s2 di2 -> found (n + m) p s di b s2 di2.
Proof.
  intros (H1 & H2 & _) (H3 & H4 & H5 & H6). split_and!; [by eapply img_grows_trans| |done|done].
  by eapply same_bytes_trans.
Qed.

Lemma found_weaken n m p s di a s' di' : n <= m -> found n p s di a s' di' -> found m p s di a s' di'.
Proof. intros Hn (H1 & H2 & H3 & H4). split_and!; try done. by eapply grows_weaken. Qed.

Lemma lookup_block_spec s di k :
  file_img (disk s) di (FREE_BLOCK s) -> place_ok (Data k) -> FREE_BLOCK s + 3 < 2 ^ 32 ->
  wp (lookup_block di k) s (fun '(di', a) s' => found 3 (Data k) s di a s' di').
Proof.
  intros Himg Hk H32. unfold lookup_block. pose proof (eq_refl (spot (Data k))) as Es.
  unfold spot at 2 in Es. destruct (Z.ltb_spec k (Z.of_nat NDIRECT)).
  - eapply wp_mono; [eapply inode_addr_spec; [done|done|exact Es|lia]|].
    intros [di' a] s' Hf. eapply found_weaken; [|exact Hf]; lia.
  - replace (k <? Z.of_nat NDIRECT + NINDIRECT) with (k - Z.of_nat NDIRECT <? NINDIRECT)
      by (destruct (Z.ltb_spec (k - Z.of_nat NDIRECT) NINDIRECT);
          destruct (Z.ltb_spec k (Z.of_nat NDIRECT + NINDIRECT)); lia || done).
    destruct (k - Z.of_nat NDIRECT <? NINDIRECT).
    + eapply wp_bind, wp_mono; [eapply (inode_addr_spec s di Ind); [done|done|done|lia]|].
      intros [di1 a] s1 Hf1. pose proof Hf1 as (Hg1 & _ & -> & Ha). pose proof (gr_free _ _ _ _ _ Hg1).
      eapply wp_bind, wp_mono; [eapply (block_addr_spec s1 di1 (Data k) Ind); [apply Hg1|done|exact Es|done|lia]|].
      intros b s2 Hf2. apply wp_ret. eapply found_weaken, found_then; [|exact Hf1|exact Hf2]. lia.
    + set (j := (k - Z.of_nat NDIRECT - NINDIRECT) / NDINDIRECT) in *.
      assert (Hj : place_ok (Sub j)) by by eapply spot_index.
      eapply wp_bind, wp_mono; [eapply (inode_addr_spec s di DInd); [done|done|done|lia]|].
      intros [di1 a] s1 Hf1. pose proof Hf1 as (Hg1 & _ & -> & Ha). pose proof (gr_free _ _ _ _ _ Hg1).
      eapply wp_bind, wp_mono; [eapply (block_addr_spec s1 di1 (Sub j) DInd); [apply Hg1|done|done|done|lia]|].
      intros b s2 Hf2. pose proof Hf2 as (Hg2 & _ & -> & Hb). pose proof (gr_free _ _ _ _ _ Hg2).
      eapply wp_bind, wp_mono; [eapply (block_addr_spec s2 di1 (Data k) (Sub j)); [apply Hg2|done|exact Es|done|lia]|].
      intros c s3 Hf3. apply wp_ret. eapply found_weaken, found_then; [|eapply found_then; [exact Hf1|exact Hf2]|exact Hf3]. lia.
Qed.

(** ** Appending *)

(** Writing a piece into a data block of the file. *)
Lemma write_piece s di o bs :
  file_img (disk s) di (FREE_BLOCK s) -> 0 <= o < MAXFILE * BSIZE ->
  let a := addr_at (disk s) di (Data (o / BSIZE)) in
  a <> 0 -> Z.of_nat (length bs) <= BSIZE - o `mod` BSIZE ->
  let s' := mkImg (upd (disk s) a (splice (Z.to_nat (o `mod` BSIZE)) bs (disk s a))) (FREE_INODE s) (FREE_BLOCK s) in
  grows 0 s di s' di /\ wrote (disk s) di (disk s') di o bs.
Proof.
  intros Himg Ho a Ha Hl s'. pose proof (place_of_offset _ Ho) as Hpo. destruct (Himg) as [D1 D2 D3 D4 D5 D6].
  pose proof (D5 _ Hpo Ha) as Har. fold a in Har. pose proof (Z.mod_pos_bound o BSIZE eq_refl).
  assert (Haddr : forall p, place_ok p -> addr_at (disk s') di p = addr_at (disk s) di p).
  { intros p Hp. apply addr_at_upd; [|done]. intros q Hq Hnd H0 E. apply Hnd. by rewrite <-(D6 _ _ Hpo Hq Ha). }
  split; [split|]; cbn [disk FREE_BLOCK FREE_INODE s']; auto with lia.
  - split; try done.
    + intros b. unfold upd. case_decide; [|done]. rewrite length_splice; [done|]. rewrite D2. lia.
    + intros b Hb. rewrite upd_ne by lia. auto.
    + intros p Hp. rewrite Haddr by done. auto.
    + intros p q Hp Hq. rewrite !Haddr by done. auto.
  - by destruct di.
  - intros b Hb Hp. apply upd_ne. intros ->. by apply (Hp (Data (o / BSIZE))).
  - apply fbyte_splice; try done. intros p Hp H0 E. by apply D6.
Qed.

Lemma block_rest o : (o / BSIZE + 1) * BSIZE - o = BSIZE - o `mod` BSIZE /\ o - o / BSIZE * BSIZE = o `mod` BSIZE.
Proof. pose proof (Z.div_mod o BSIZE ltac:(done)). lia. Qed.

Lemma iappend_loop_spec fuel s di src o :
  let n := Z.of_nat (length src) in
  file_img (disk s) di (FREE_BLOCK s) -> 0 <= o -> o + n <= MAXFILE * BSIZE ->
  FREE_BLOCK s + 3 * Z.of_nat (span o n) < 2 ^ 32 -> (span o n <= fuel)%nat ->
  wp (iappend_loop fuel di src o n) s (fun '(di', off) s' => off = o + n /\
    grows (3 * Z.of_nat (span o n)) s di s' di' /\ wrote (disk s) di (disk s') di' o src).
Proof.
  cbv zeta. revert s di src o. induction fuel as [|fuel IH]; intros s di src o Himg Ho Hm H32 Hfuel;
    set (n := Z.of_nat (length src)) in *; unfold iappend_loop; fold iappend_loop; destruct (Z.ltb_spec 0 n) as [Hn|Hn].
  1: { rewrite span_step in Hfuel by lia. lia. }
  1, 3: apply wp_ret; split; [lia|]; split;
    [eapply grows_weaken, img_grows_refl; [|done]; lia|intros x Hx; rewrite decide_False by lia; done].
  pose proof (span_step o n Ho Hn) as Hsp. destruct (chunk_bounds o n Ho Hn) as [Hc1 Hc2].
  assert (Hpo : 0 <= o < MAXFILE * BSIZE) by lia. pose proof (place_of_offset _ Hpo) as Hpl.
  destruct (block_rest o) as [Er1 Er2]. cbv zeta. rewrite Er1, Er2, Z.min_comm. fold (chunk o n).
  apply wp_bind, wp_assert; [apply Z.ltb_lt; simpl in Hpl; lia|].
  eapply wp_bind, wp_mono; [apply lookup_block_spec; [done|done|lia]|].
  intros [di1 a] s1 (Hg1 & Hs1 & -> & Ha). pose proof (gr_free _ _ _ _ _ Hg1).
  unfold rsect at 1. apply wp_bind, wp_bind, wp_get, wp_ret. apply wp_bind, wp_modify.
  set (piece := take (Z.to_nat (chunk o n)) src).
  assert (Hpc : Z.of_nat (length piece) = chunk o n) by (unfold piece; rewrite length_take; lia).
  assert (Hrest : Z.of_nat (length (drop (Z.to_nat (chunk o n)) src)) = n - chunk o n) by (rewrite length_drop; lia).
  destruct (write_piece s1 di1 o piece (gr_img _ _ _ _ _ Hg1) Hpo Ha ltac:(lia)) as [Hg2 Hw2].
  match type of Hg2 with grows _ _ _ ?s _ => set (s2 := s) in * end.
  rewrite <-Hrest. eapply wp_mono; [apply IH; rewrite ?Hrest; [apply Hg2|lia|lia| |lia]|].
  { cbn. rewrite Hsp in H32. lia. }
  intros [di3 off] s3 (-> & Hg3 & Hw3). rewrite Hrest in *. split; [lia|]. split.
  - eapply grows_weaken, img_grows_trans; [|eapply img_grows_trans; [exact Hg1|exact Hg2]|exact Hg3]. lia.
  - unfold piece in *. rewrite <-(take_drop (Z.to_nat (chunk o n)) src). eapply wrote_then.
    + eapply same_bytes_wrote; [exact Hs1|exact Hw2].
    + rewrite Hpc. exact Hw3.
Qed.

(** ** The whole image *)

Definition super_block : block := splice 0 (super_bytes SB) zero_block.

(** The blocks before the data: boot, super block, log and bitmap. *)
Definition meta_block (b : Z) : block := if b =? 1 then super_block else zero_block.
Definition is_inode_block (b : Z) : Prop := inodestart SB <= b < bmapstart SB.

(** The state of the image while it is filled: the inodes of [files] with
    their blocks, which no two of them share. *)
Record image (s : img) (files : gmap Z DiskInode) : Prop := {
  ig_len b : length (disk s b) = Z.to_nat BSIZE;
  ig_zero b : FREE_BLOCK s <= b -> disk s b = zero_block;
  ig_free : NMETA <= FREE_BLOCK s < 2 ^ 32;
  ig_inode : 1 <= FREE_INODE s <= NINODES;
  ig_meta b : 0 <= b < NMETA -> ~ is_inode_block b -> disk s b = meta_block b;
  ig_new inum : FREE_INODE s <= inum < NINODES -> disk_inode SB (disk s) inum = Some dinode_new;
  ig_file inum di : files !! inum = Some di ->
    0 < inum < FREE_INODE s /\ disk_inode SB (disk s) inum = Some di /\
    file_img (disk s) di (FREE_BLOCK s);
  ig_apart inum inum' di di' p q :
    files !! inum = Some di -> files !! inum' = Some di' -> inum <> inum' ->
    place_ok p -> place_ok q -> addr_at (disk s) di p <> 0 ->
    addr_at (disk s) di p <> addr_at (disk s) di' q
}.

Lemma inode_blocks inum : 0 <= inum < NINODES -> is_inode_block (inode_block SB inum) /\
  inode_block SB inum = inum / IPB + inodestart SB.
Proof.
  intros Hi. change NINODES with 200 in Hi. unfold is_inode_block, inode_block. change IPB with 64.
  change (inodestart SB) with 32. change (bmapstart SB) with 36.
  assert (0 <= inum / 64 < 4) by (split; [apply Z.div_pos|apply Z.div_lt_upper_bound]; lia).
  rewrite u32_add_small by lia. lia.
Qed.

(** A file whose blocks are untouched is untouched. *)
Lemma addr_at_same v v' di :
  (forall p, place_ok p -> addr_at v di p <> 0 -> v' (addr_at v di p) = v (addr_at v di p)) ->
  forall p, place_ok p -> addr_at v' di p = addr_at v di p.
Proof.
  intros Hv. apply (place_rule (fun p => addr_at v' di p = addr_at v di p)). intros p Hp IH.
  apply addr_at_ext; [done|]. intros q Hq. split; [by apply IH|]. intros H0. apply Hv; [by eapply parent_ok|done].
Qed.

Lemma file_img_same v v' di fb fb' :
  (forall p, place_ok p -> addr_at v di p <> 0 -> v' (addr_at v di p) = v (addr_at v di p)) ->
  (forall b, length (v' b) = Z.to_nat BSIZE) -> (forall b, fb' <= b -> v' b = zero_block) ->
  fb <= fb' < 2 ^ 32 -> file_img v di fb -> file_img v' di fb' /\ same_bytes v di v' di.
Proof.
  intros Hv Hl Hz Hfb [D1 D2 D3 D4 D5 D6]. pose proof (addr_at_same v v' di Hv) as Ha. split.
  - split; try done; [lia|..].
    + intros p Hp. rewrite Ha by done. intros H0. specialize (D5 p Hp H0). lia.
    + intros p q Hp Hq. rewrite !Ha by done. apply D6; done.
  - intros o Ho. pose proof (place_of_offset _ Ho). unfold fbyte. rewrite Ha by done.
    case_bool; [done|]. by rewrite Hv.
Qed.

Lemma disk_inode_same v v' inum :
  v' (inode_block SB inum) = v (inode_block SB inum) -> disk_inode SB v' inum = disk_inode SB v inum.
Proof. intros E. unfold disk_inode. by rewrite E. Qed.

(** [winode] replaces one inode. *)
Lemma winode_view inum di s (Q : unit -> img -> Prop) :
  Q tt (mkImg (store_inode SB (disk s) inum di) (FREE_INODE s) (FREE_BLOCK s)) -> wp (winode inum di) s Q.
Proof. intros HQ. unfold winode, rsect. apply wp_bind, wp_bind, wp_get, wp_ret, wp_modify. exact HQ. Qed.

Lemma store_inode_length v inum di b :
  (forall b, length (v b) = Z.to_nat BSIZE) -> 0 <= inum -> dinode_ok di ->
  length (store_inode SB v inum di b) = Z.to_nat BSIZE.
Proof.
  intros Hl Hi Hd. unfold store_inode, upd. case_decide; [|done].
  rewrite length_splice; [done|]. rewrite length_dinode_bytes, Hl by done.
  change (Z.to_nat BSIZE) with 4096%nat. by apply inode_offset_bound.
Qed.

Lemma disk_inode_stored v inum di inum' :
  (forall b, length (v b) = Z.to_nat BSIZE) -> dinode_ok di ->
  0 <= inum < NINODES -> 0 <= inum' < NINODES ->
  disk_inode SB (store_inode SB v inum di) inum' = if decide (inum' = inum) then Some di else disk_inode SB v inum'.
Proof.
  intros Hl Hd Hi Hi'. unfold disk_inode, store_inode. case_decide as E.
  - subst. rewrite upd_eq. apply read_dinode_own; [lia|done|done].
  - destruct (decide (inode_block SB inum' = inode_block SB inum)) as [Eb|Eb].
    + rewrite Eb, upd_eq. apply read_dinode_other; [lia|lia|done|done|].
      intros Hmod. apply E. rewrite (proj2 (inode_blocks inum Hi)), (proj2 (inode_blocks inum' Hi')) in Eb.
      rewrite (Z.div_mod inum IPB), (Z.div_mod inum' IPB) by done. lia.
    + by rewrite upd_ne.
Qed.

Lemma file_img_size v di fb z : is_u32 z -> file_img v di fb -> file_img v (with_size di z) fb.
Proof.
  intros Hz [[A1 A2 A3 A4 A5 A6] D2 D3 D4 D5 D6]. by split.
Qed.

Lemma fbyte_size v di z o : fbyte v (with_size di z) o = fbyte v di o.
Proof. done. Qed.

(** The inode of a file is stored: its blocks and those of the others stay. *)
Lemma store_inode_data v inum di b :
  0 <= inum < NINODES -> NMETA <= b \/ ~ is_inode_block b -> store_inode SB v inum di b = v b.
Proof.
  intros Hi Hb. destruct (inode_blocks inum Hi) as [Hib _]. apply upd_ne. intros ->.
  destruct Hb as [Hb|Hb]; [|done]. unfold is_inode_block in Hib. change NMETA with 43 in Hb.
  change (bmapstart SB) with 36 in Hib. lia.
Qed.

(** A file of the image after another one has grown and been stored. *)
Lemma other_file s files inum di n s1 di1 di2 j dj :
  image s files -> files !! inum = Some di -> files !! j = Some dj -> j <> inum ->
  grows n s di s1 di1 -> dinode_ok di2 ->
  file_img (store_inode SB (disk s1) inum di2) dj (FREE_BLOCK s1) /\
  same_bytes (disk s) dj (store_inode SB (disk s1) inum di2) dj /\
  forall p, place_ok p -> addr_at (store_inode SB (disk s1) inum di2) dj p = addr_at (disk s) dj p.
Proof.
  intros Hi Hf Hj Hne Hg Hd2. destruct (ig_file _ _ Hi _ _ Hf) as (Hin & _ & _).
  destruct (ig_file _ _ Hi _ _ Hj) as (_ & _ & Himg). pose proof (ig_inode _ _ Hi).
  pose proof (gr_img _ _ _ _ _ Hg) as [_ L1 Z1 F1 _ _]. pose proof (gr_free _ _ _ _ _ Hg) as Hfree.
  assert (Hv : forall p, place_ok p -> addr_at (disk s) dj p <> 0 ->
    store_inode SB (disk s1) inum di2 (addr_at (disk s) dj p) = disk s (addr_at (disk s) dj p)).
  { intros p Hp H0. pose proof (im_range _ _ _ Himg p Hp H0).
    rewrite store_inode_data by (lia || (left; lia)). apply (gr_frame _ _ _ _ _ Hg); [lia|].
    intros q Hq Hn E. symmetry in E. revert E. by apply (ig_apart _ _ Hi j inum). }
  destruct (file_img_same (disk s) (store_inode SB (disk s1) inum di2) dj (FREE_BLOCK s) (FREE_BLOCK s1))
    as [H1 H2]; [exact Hv| | |lia|exact Himg|].
  - intros b. apply store_inode_length; [done|lia|done].
  - intros b Hb. rewrite store_inode_data by (lia || (left; lia)). by apply Z1.
  - split_and!; [done|done|]. by apply addr_at_same.
Qed.

(** The new blocks of a file are shared with no other. *)
Lemma image_apart s files inum di n s1 di1 di2 j j' dj dj' p q :
  image s files -> files !! inum = Some di -> grows n s di s1 di1 -> dinode_ok di2 ->
  (forall p, place_ok p -> addr_at (store_inode SB (disk s1) inum di2) di2 p = addr_at (disk s1) di1 p) ->
  <[inum := di2]> files !! j = Some dj -> <[inum := di2]> files !! j' = Some dj' -> j <> j' ->
  place_ok p -> place_ok q ->
  let v2 := store_inode SB (disk s1) inum di2 in
  addr_at v2 dj p <> 0 -> addr_at v2 dj p <> addr_at v2 dj' q.
Proof.
  intros Hi Hf Hg Hd2 Ha2 Hj Hj' Hne Hp Hq v2.
  assert (Hmix : forall k dk p q, files !! k = Some dk -> k <> inum -> place_ok p -> place_ok q ->
    addr_at v2 dk q <> 0 -> addr_at v2 di2 p <> addr_at v2 dk q).
  { intros k dk p' q' Hk Hki Hp' Hq'. destruct (other_file s files inum di n s1 di1 di2 k dk) as (_ & _ & Eo); try done.
    unfold v2. rewrite Eo, Ha2 by done. intros H0 E. destruct (ig_file _ _ Hi _ _ Hk) as (_ & _ & Himgk).
    pose proof (im_range _ _ _ Himgk q' Hq' H0). destruct (gr_new _ _ _ _ _ Hg p' Hp') as [E'|?]; [|lia].
    rewrite E' in E. symmetry in E. revert E. by apply (ig_apart _ _ Hi k inum). }
  destruct (decide (j = inum)) as [->|Hj1], (decide (j' = inum)) as [->|Hj2]; [done|..].
  - rewrite lookup_insert_eq in Hj. injection Hj as <-. rewrite lookup_insert_ne in Hj' by done.
    intros H0 E. by apply (Hmix j' dj' p q); try rewrite <-E.
  - rewrite lookup_insert_eq in Hj'. injection Hj' as <-. rewrite lookup_insert_ne in Hj by done.
    intros H0 E. by apply (Hmix j dj q p).
  - rewrite lookup_insert_ne in Hj, Hj' by done.
    destruct (other_file s files inum di n s1 di1 di2 j dj) as (_ & _ & E1); try done.
    destruct (other_file s files inum di n s1 di1 di2 j' dj') as (_ & _ & E2); try done.
    unfold v2. rewrite E1, E2 by done. by apply (ig_apart _ _ Hi j j').
Qed.

(** The image after file [inum] has grown from [di] and been stored as [di2]. *)
Lemma image_stored s files inum di n s1 di1 z :
  image s files -> files !! inum = Some di -> grows n s di s1 di1 -> is_u32 z ->
  let di2 := with_size di1 z in
  let s2 := mkImg (store_inode SB (disk s1) inum di2) (FREE_INODE s1) (FREE_BLOCK s1) in
  image s2 (<[inum := di2]> files) /\ same_bytes (disk s1) di1 (disk s2) di2.
Proof.
  intros Hi Hf Hg Hz di2 s2. destruct (ig_file _ _ Hi _ _ Hf) as (Hin & _ & Himg0).
  pose proof (ig_inode _ _ Hi) as Hni. pose proof (gr_img _ _ _ _ _ Hg) as Himg1.
  pose proof (gr_free _ _ _ _ _ Hg) as Hfree. pose proof (gr_inode _ _ _ _ _ Hg) as Hfi.
  pose proof (file_img_size _ _ _ z Hz Himg1) as Himg2. fold di2 in Himg2.
  pose proof (im_dinode _ _ _ Himg2) as Hd2. pose proof (ig_free _ _ Hi) as Hfb.
  assert (Hin2 : 0 <= inum < NINODES) by lia.
  assert (Hlen : forall b, length (disk s2 b) = Z.to_nat BSIZE).
  { intros b. apply store_inode_length; [apply Himg1|lia|done]. }
  assert (Hzero : forall b, FREE_BLOCK s2 <= b -> disk s2 b = zero_block).
  { intros b Hb. cbn in *. rewrite store_inode_data by (done || (left; lia)). by apply (im_zero _ _ _ Himg1). }
  destruct (file_img_same (disk s1) (disk s2) di2 (FREE_BLOCK s1) (FREE_BLOCK s1)) as [Hself Hsame];
    [|done|done|pose proof (im_fb _ _ _ Himg1); lia|done|].
  { intros p Hp H0. pose proof (im_range _ _ _ Himg2 p Hp H0). apply store_inode_data; [done|left; lia]. }
  assert (Hino : forall j, 0 <= j < NINODES -> disk_inode SB (disk s1) j = disk_inode SB (disk s) j).
  { intros j Hj. apply disk_inode_same, (gr_frame _ _ _ _ _ Hg); destruct (inode_blocks j Hj) as [[Hb1 Hb2] _];
      change (bmapstart SB) with 36 in Hb2; change NMETA with 43 in *; [lia|].
    intros p Hp H0 E. pose proof (im_range _ _ _ Himg0 p Hp H0) as Hr. change NMETA with 43 in Hr. lia. }
  split; [|done]. split.
  - done.
  - done.
  - cbn. pose proof (im_fb _ _ _ Himg1). lia.
  - cbn. by rewrite Hfi.
  - intros b Hb Hnb. cbn. rewrite store_inode_data by auto. rewrite (gr_frame _ _ _ _ _ Hg).
    + by apply (ig_meta _ _ Hi).
    + lia.
    + intros p Hp H0 E. pose proof (im_range _ _ _ Himg0 p Hp H0). lia.
  - intros j Hj. cbn in Hj. rewrite Hfi in Hj. cbn. rewrite disk_inode_stored by (done || lia || apply Himg1).
    rewrite decide_False, Hino by lia. by apply (ig_new _ _ Hi).
  - intros j dj. cbn [FREE_INODE s2]. rewrite Hfi. destruct (decide (j = inum)) as [->|Hne].
    + rewrite lookup_insert_eq. intros [= <-]. split_and!; [lia|lia| |done].
      cbn. rewrite disk_inode_stored by (done || apply Himg1). by rewrite decide_True.
    + rewrite lookup_insert_ne by done. intros Hj. destruct (ig_file _ _ Hi _ _ Hj) as (Hjn & Hjd & _).
      destruct (other_file s files inum di n s1 di1 di2 j dj) as (Hoth & _ & _); try done.
      split_and!; [lia|lia| |done]. cbn. rewrite disk_inode_stored by (done || lia || apply Himg1).
      rewrite decide_False, Hino by (done || lia). done.
  - intros j j' dj dj' p q Hj Hj' Hne Hp Hq.
    apply (image_apart s files inum di n s1 di1 di2 j j' dj dj' p q); try done.
    intros r0 Hr0. rewrite <-(addr_at_size (disk s1) di1 z). revert r0 Hr0.
    apply (addr_at_same (disk s1) _ di2). intros r Hr H0. apply store_inode_data; [done|left].
    by apply (im_range _ _ _ Himg2).
Qed.

(** What [iappend] does to the image. *)
Record appended (s : img) (files : gmap Z DiskInode) (inum : Z) (di : DiskInode) (src : list Z)
    (s' : img) (di' : DiskInode) : Prop := {
  ap_image : image s' (<[inum := di']> files);
  ap_meta : di' = mkDinode (typ di) (major di) (minor di) (nlink di) (size di + Z.of_nat (length src)) (addrs di');
  ap_wrote : wrote (disk s) di (disk s') di' (size di) src;
  ap_inode : FREE_INODE s' = FREE_INODE s;
  ap_free : FREE_BLOCK s' <= FREE_BLOCK s + 3 * Z.of_nat (span (size di) (Z.of_nat (length src)));
  ap_other j dj : files !! j = Some dj -> j <> inum -> same_bytes (disk s) dj (disk s') dj
}.

Lemma iappend_spec s files inum di src :
  let n := Z.of_nat (length src) in
  image s files -> files !! inum = Some di -> size di + n < 2 ^ 32 -> size di + n <= MAXFILE * BSIZE ->
  FREE_BLOCK s + 3 * Z.of_nat (span (size di) n) < 2 ^ 32 ->
  wp (iappend inum src n) s (fun _ s' => exists di', appended s files inum di src s' di').
Proof.
  intros n Hi Hf H32 Hm Hfb. destruct (ig_file _ _ Hi _ _ Hf) as (Hin & Hd & Himg).
  pose proof (di_size _ (im_dinode _ _ _ Himg)) as Hsz. unfold is_u32 in Hsz.
  unfold iappend, rinode, rsect. apply wp_bind, wp_bind, wp_bind, wp_get, wp_ret.
  eapply wp_unwrap; [exact Hd|]. eapply wp_bind, wp_mono.
  { apply (iappend_loop_spec (rounds n) s di src (size di)); try done; [lia|apply span_rounds; lia]. }
  intros [di1 off] s1 (-> & Hg & Hw). fold n. rewrite wrap_small by lia.
  pose proof (gr_free _ _ _ _ _ Hg) as Hfree. fold n in Hfree.
  assert (Hz : is_u32 (size di + n)) by (split; lia).
  destruct (image_stored s files inum di _ s1 di1 (size di + n) Hi Hf Hg Hz) as [Hi2 Hs2].
  apply winode_view. exists (with_size di1 (size di + n)). split; cbn [FREE_INODE FREE_BLOCK disk] in *.
  - exact Hi2.
  - unfold with_size. rewrite (gr_meta _ _ _ _ _ Hg). done.
  - intros x Hx. rewrite Hs2 by done. by apply Hw.
  - apply Hg.
  - fold n. lia.
  - intros j dj Hj Hne. eapply other_file; try done. apply (im_dinode _ _ _ (file_img_size _ _ _ _ Hz (gr_img _ _ _ _ _ Hg))).
Qed.

(** [iappend] appends.  In an image whose files have their own blocks,
    appending bytes to one of them, through direct, indirect and double-indirect
    blocks as needed, extends that file by exactly these bytes, keeps its earlier
    contents, stores its inode, and changes no byte of any other file; the
    blocks taken are fresh ones. *)
Theorem iappend_appends s files inum di src :
  image s files -> files !! inum = Some di ->
  let n := Z.of_nat (length src) in
  size di + n < 2 ^ 32 -> size di + n <= MAXFILE * BSIZE ->
  FREE_BLOCK s + 3 * Z.of_nat (span (size di) n) < 2 ^ 32 ->
  wp (iappend inum src n) s (fun _ s' => exists di', image s' (<[inum := di']> files) /\
    size di' = size di + n /\ disk_inode SB (disk s') inum = Some di' /\
    fbytes (disk s') di' 0 (size di') = fbytes (disk s) di 0 (size di) ++ src /\
    forall j dj, files !! j = Some dj -> j <> inum ->
      disk_inode SB (disk s') j = Some dj /\ same_bytes (disk s) dj (disk s') dj).
Proof.
  intros Hi Hf n H32 Hm Hfb. eapply wp_mono; [by apply iappend_spec|]. intros [] s' (di' & [A1 A2 A3 A4 A5 A6]).
  destruct (ig_file _ _ Hi _ _ Hf) as (_ & _ & Himg). pose proof (di_size _ (im_dinode _ _ _ Himg)) as [Hsz _].
  exists di'. destruct (ig_file _ _ A1 inum di') as (_ & Hd & _); [apply lookup_insert_eq|].
  assert (Hsize : size di' = size di + n) by by rewrite A2. split_and!; [done|done|done|..].
  - rewrite Hsize, fbytes_app by lia. f_equal.
    + apply fbytes_ext. intros x Hx. rewrite A3 by lia. rewrite decide_False by lia. done.
    + rewrite Z.add_0_l. by apply (fbytes_wrote (disk s) di).
  - intros j dj Hj Hne. split; [|by eapply A6]. destruct (ig_file _ _ A1 j dj) as (_ & Hdj & _); [|done].
    by rewrite lookup_insert_ne.
Qed.

(** ** New inodes *)

Definition fresh_inode (t : InodeType) : DiskInode := mkDinode t 0 0 1 0 (replicate (NDIRECT + 2) 0).

Lemma addr_at_fresh v t p : place_ok p -> addr_at v (fresh_inode t) p = 0.
Proof.
  assert (Ha : forall n, (n < NDIRECT + 2)%nat -> addr (fresh_inode t) n = 0).
  { intros n Hn. by apply lookup_total_replicate_2. }
  revert p. apply (place_rule (fun p => addr_at v (fresh_inode t) p = 0)). intros p Hp IH.
  rewrite addr_at_spot. destruct (spot p) as [n|[q k]] eqn:E; [by apply Ha; eapply spot_slot|].
  destruct (spot_parent _ _ _ E) as [Hq _]. by rewrite (IH q Hq).
Qed.

Lemma fresh_inode_ok t : dinode_ok (fresh_inode t).
Proof.
  split; try (cbn; unfold is_u16, is_u32; lia). by repeat (constructor; [split; lia|]).
Qed.

Lemma ialloc_spec s files t :
  image s files -> FREE_INODE s < NINODES ->
  wp (ialloc t) s (fun inum s' => inum = FREE_INODE s /\ image s' (<[inum := fresh_inode t]> files) /\
    FREE_INODE s' = FREE_INODE s + 1 /\ FREE_BLOCK s' = FREE_BLOCK s /\ files !! inum = None /\
    forall j dj, files !! j = Some dj -> same_bytes (disk s) dj (disk s') dj).
Proof.
  intros Hi Hlt. pose proof (ig_inode _ _ Hi) as Hni. pose proof (ig_free _ _ Hi) as Hfb. change NINODES with 200 in *.
  set (inum := FREE_INODE s) in *. assert (Hin : 0 <= inum < NINODES) by (change NINODES with 200; lia).
  pose proof (fresh_inode_ok t) as Hok. assert (Hnone : files !! inum = None).
  { destruct (files !! inum) as [di|] eqn:E; [|done]. destruct (ig_file _ _ Hi _ _ E) as (? & _). lia. }
  unfold ialloc. apply wp_bind, wp_get, wp_bind, wp_put. fold inum. rewrite u32_add_small by lia.
  apply wp_bind, winode_view, wp_ret. cbn [disk FREE_INODE FREE_BLOCK]. fold (fresh_inode t).
  set (v' := store_inode SB (disk s) inum (fresh_inode t)).
  assert (Hlen : forall b, length (v' b) = Z.to_nat BSIZE) by (intros b; apply store_inode_length; [apply Hi|lia|done]).
  assert (Hzero : forall b, FREE_BLOCK s <= b -> v' b = zero_block).
  { intros b Hb. unfold v'. rewrite store_inode_data by (done || (left; lia)). by apply Hi. }
  assert (Hkeep : forall j dj, files !! j = Some dj -> forall p, place_ok p -> addr_at (disk s) dj p <> 0 ->
    v' (addr_at (disk s) dj p) = disk s (addr_at (disk s) dj p)).
  { intros j dj Hj p Hp H0. destruct (ig_file _ _ Hi _ _ Hj) as (_ & _ & Himg).
    pose proof (im_range _ _ _ Himg p Hp H0). apply store_inode_data; [done|left; lia]. }
  split_and!; [done| |done|done|done|].
  - split; cbn [disk FREE_INODE FREE_BLOCK]; try done.
    + change NINODES with 200. lia.
    + intros b Hb Hnb. unfold v'. rewrite store_inode_data by auto. by apply (ig_meta _ _ Hi).
    + intros j Hj. unfold v'. rewrite disk_inode_stored by (done || lia || apply Hi).
      rewrite decide_False by lia. apply (ig_new _ _ Hi). lia.
    + intros j dj. destruct (decide (j = inum)) as [->|Hne].
      * rewrite lookup_insert_eq. intros [= <-]. split_and!; [lia|lia| |].
        -- unfold v'. rewrite disk_inode_stored by (done || apply Hi). by rewrite decide_True.
        -- split; try done; intros p; [intros Hp|intros q Hp Hq]; by rewrite addr_at_fresh.
      * rewrite lookup_insert_ne by done. intros Hj. destruct (ig_file _ _ Hi _ _ Hj) as (Hjn & Hjd & Himg).
        split_and!; [lia|lia| |eapply (file_img_same (disk s) v' dj (FREE_BLOCK s)); [by eapply Hkeep|done|done|lia|done]].
        unfold v'. rewrite disk_inode_stored by (done || lia || apply Hi). by rewrite decide_False.
    + intros j j' dj dj' p q Hj Hj' Hne Hp Hq.
      destruct (decide (j = inum)) as [->|Hj1]; [rewrite lookup_insert_eq in Hj; injection Hj as <-; by rewrite addr_at_fresh|].
      rewrite lookup_insert_ne in Hj by done.
      rewrite (addr_at_same (disk s) v' dj) by (done || by eapply Hkeep).
      destruct (decide (j' = inum)) as [->|Hj2]; [rewrite lookup_insert_eq in Hj'; injection Hj' as <-; by rewrite addr_at_fresh|].
      rewrite lookup_insert_ne in Hj' by done.
      rewrite (addr_at_same (disk s) v' dj') by (done || by eapply Hkeep). by apply (ig_apart _ _ Hi j j').
  - intros j dj Hj. destruct (ig_file _ _ Hi _ _ Hj) as (_ & _ & Himg).
    eapply (file_img_same (disk s) v' dj (FREE_BLOCK s) (FREE_BLOCK s)); [by eapply Hkeep|done|done|lia|done].
Qed.

(** ** Files with their contents *)

Definition is_file (s : img) (files : gmap Z DiskInode) (inum : Z) (t : InodeType) (bs : list Z) : Prop :=
  exists di, files !! inum = Some di /\ typ di = t /\ size di = Z.of_nat (length bs) /\
    size di <= MAXFILE * BSIZE /\ fbytes (disk s) di 0 (size di) = bs /\
    forall x, size di <= x < MAXFILE * BSIZE -> fbyte (disk s) di x = 0.

(** Every file but [inum] keeps its contents. *)
Definition others_kept (s : img) (files : gmap Z DiskInode) (inum : Z) (s' : img) (files' : gmap Z DiskInode) : Prop :=
  forall j t bs, j <> inum -> is_file s files j t bs -> is_file s' files' j t bs.

Lemma is_file_same s files s' files' j t bs :
  is_file s files j t bs ->
  (forall di, files !! j = Some di -> files' !! j = Some di /\ same_bytes (disk s) di (disk s') di) ->
  is_file s' files' j t bs.
Proof.
  intros (di & H1 & H2 & H3 & H4 & H5 & H0) H. destruct (H di H1) as [H6 H7]. exists di. split_and!; try done.
  - rewrite <-H5. apply fbytes_ext. intros x Hx. apply H7. lia.
  - intros x Hx. rewrite H7 by lia. by apply H0.
Qed.

Lemma iappend_file s files inum t bs src :
  let n := Z.of_nat (length src) in
  image s files -> is_file s files inum t bs ->
  Z.of_nat (length bs) + n < 2 ^ 32 -> Z.of_nat (length bs) + n <= MAXFILE * BSIZE ->
  FREE_BLOCK s + 3 * Z.of_nat (span (Z.of_nat (length bs)) n) < 2 ^ 32 ->
  wp (iappend inum src n) s (fun _ s' => exists files', image s' files' /\
    is_file s' files' inum t (bs ++ src) /\ others_kept s files inum s' files' /\
    FREE_INODE s' = FREE_INODE s /\
    FREE_BLOCK s' <= FREE_BLOCK s + 3 * Z.of_nat (span (Z.of_nat (length bs)) n)).
Proof.
  intros n Hi (di & H1 & H2 & H3 & H4 & H5 & H0) H32 Hm Hfb. rewrite <-H3 in H32, Hm, Hfb |- *.
  eapply wp_mono; [by apply (iappend_spec s files inum di src)|]. intros [] s' (di' & [A1 A2 A3 A4 A5 A6]).
  exists (<[inum := di']> files). split_and!; [done| | |done|done].
  - exists di'. rewrite lookup_insert_eq, length_app. assert (Hs : size di' = size di + n) by by rewrite A2.
    split_and!; [done|by rewrite A2|unfold n in *; lia|lia| |].
    + rewrite Hs, fbytes_app by lia. f_equal.
      * rewrite <-H5. apply fbytes_ext. intros x Hx. rewrite A3 by lia. by rewrite decide_False by lia.
      * rewrite Z.add_0_l. apply (fbytes_wrote (disk s) di); [lia|lia|done].
    + intros x Hx. rewrite A3, decide_False by lia. apply H0. lia.
  - intros j t' bs' Hne Hf. eapply is_file_same; [done|]. intros dj Hj. rewrite lookup_insert_ne by done.
    split; [done|by eapply A6].
Qed.

(** Appends that stay within a block take at most three blocks. *)
Lemma span_one o n : 0 <= o -> 0 < n -> n <= BSIZE - o `mod` BSIZE -> span o n = 1%nat.
Proof.
  intros Ho Hn Hl. unfold span. rewrite (proj2 (Z.ltb_lt 0 n)) by lia.
  rewrite (in_block o (o + n - 1) n) by lia. rewrite Z.sub_diag. done.
Qed.

Lemma span_block k : span (k * BSIZE) BSIZE = 1%nat \/ k < 0.
Proof.
  destruct (Z.le_gt_cases 0 k) as [Hk|]; [left|by right].
  apply span_one; [change BSIZE with 4096; lia|done|]. rewrite Z_mod_mult. lia.
Qed.

Lemma span_dirent k : 0 <= k -> span (k * DE_SIZE) DE_SIZE = 1%nat.
Proof.
  intros Hk. apply span_one; [unfold DE_SIZE; lia|done|]. change DE_SIZE with 32. change BSIZE with (32 * 128).
  rewrite (Z.mul_comm k 32), Z.mul_mod_distr_l by lia. pose proof (Z.mod_pos_bound k 128 ltac:(lia)). lia.
Qed.

(** The contents that [copy_file] writes: whole buffers. *)
Fixpoint padded (fuel : nat) (buf c : list Z) : list Z :=
  match c, fuel with
  | [], _ | _, O => []
  | _, S fuel =>
      let buf := splice 0 (take (Z.to_nat BSIZE) c) buf in
      buf ++ padded fuel buf (drop (Z.to_nat BSIZE) c)
  end.

Definition nblocks_of (c : list Z) : Z := (Z.of_nat (length c) + BSIZE - 1) / BSIZE.

Lemma nblocks_nonneg c : 0 <= nblocks_of c.
Proof. apply Z.div_pos; [|done]. change BSIZE with 4096. lia. Qed.

Lemma nblocks_step c : c <> [] -> nblocks_of c = 1 + nblocks_of (drop (Z.to_nat BSIZE) c).
Proof.
  intros Hc. assert (0 < Z.of_nat (length c)) by (destruct c; [done|simpl; lia]).
  unfold nblocks_of. rewrite length_drop. change (Z.to_nat BSIZE) with 4096%nat. change BSIZE with 4096.
  destruct (Nat.le_gt_cases (length c) 4096) as [Hl|Hl].
  - replace (length c - 4096)%nat with 0%nat by lia. rewrite (Z.div_small (Z.of_nat 0 + 4096 - 1)) by lia.
    symmetry. apply (Z.div_unique _ _ _ (Z.of_nat (length c) - 1)); lia.
  - rewrite Nat2Z.inj_sub by lia.
    replace (Z.of_nat (length c) + 4096 - 1) with (Z.of_nat (length c) - Z.of_nat 4096 + 4096 - 1 + 1 * 4096) by lia.
    rewrite Z.div_add by lia. lia.
Qed.

Lemma length_buffer c buf :
  length buf = Z.to_nat BSIZE -> length (splice 0 (take (Z.to_nat BSIZE) c) buf) = Z.to_nat BSIZE.
Proof. intros Hb. rewrite length_splice; [done|]. rewrite length_take. lia. Qed.

Lemma padded_prefix fuel buf c :
  length buf = Z.to_nat BSIZE -> (length c <= fuel)%nat -> take (length c) (padded fuel buf c) = c.
Proof.
  revert buf c. induction fuel as [|fuel IH]; intros buf c Hb Hc; destruct c as [|x c]; try done; [simpl in Hc; lia|].
  unfold padded; fold padded. set (l := x :: c) in *. set (buf' := splice 0 (take (Z.to_nat BSIZE) l) buf).
  assert (Hb' : length buf' = Z.to_nat BSIZE) by by apply length_buffer.
  assert (Htake : take (length (take (Z.to_nat BSIZE) l)) buf' = take (Z.to_nat BSIZE) l).
  { unfold buf', splice. rewrite take_0, app_nil_l. by rewrite take_app_length. }
  rewrite length_take in Htake. change (Z.to_nat BSIZE) with 4096%nat in *.
  destruct (Nat.le_gt_cases (length l) 4096) as [Hl|Hl].
  - rewrite take_app_le by lia. rewrite Nat.min_r in Htake by lia. rewrite Htake. by apply take_ge.
  - rewrite take_app_ge, Hb' by lia. rewrite Nat.min_l, (take_ge buf') in Htake by lia. rewrite Htake.
    rewrite <-(length_drop l 4096), IH; [apply take_drop|by rewrite <-Htake|]. rewrite length_drop. simpl in Hc. simpl. lia.
Qed.

Lemma others_kept_trans s files inum s1 files1 s2 files2 :
  others_kept s files inum s1 files1 -> others_kept s1 files1 inum s2 files2 -> others_kept s files inum s2 files2.
Proof. intros H1 H2 j t bs Hne Hf. apply H2; [done|]. by apply H1. Qed.

Lemma copy_file_spec fuel inum s files buf c bs k :
  image s files -> is_file s files inum File bs -> length buf = Z.to_nat BSIZE ->
  Z.of_nat (length bs) = k * BSIZE -> (length c <= fuel)%nat ->
  (k + nblocks_of c) * BSIZE < 2 ^ 32 -> k + nblocks_of c <= MAXFILE ->
  FREE_BLOCK s + 3 * nblocks_of c < 2 ^ 32 ->
  wp (copy_file fuel inum buf c) s (fun _ s' => exists files', image s' files' /\
    is_file s' files' inum File (bs ++ padded fuel buf c) /\ others_kept s files inum s' files' /\
    FREE_INODE s' = FREE_INODE s /\ FREE_BLOCK s' <= FREE_BLOCK s + 3 * nblocks_of c).
Proof.
  revert s files buf c bs k. induction fuel as [|fuel IH]; intros s files buf c bs k Hi Hf Hb Hbs Hc H32 Hm Hfb;
    (destruct c as [|x c]; [apply wp_ret; exists files; rewrite app_nil_r; split_and!; [done|done|by intros ????|done|];
       pose proof (nblocks_nonneg []); lia|]); [simpl in Hc; lia|].
  unfold copy_file, padded; fold copy_file padded. set (l := x :: c) in *.
  assert (Hl : l <> []) by done. rewrite (nblocks_step l Hl) in *. pose proof (nblocks_nonneg (drop (Z.to_nat BSIZE) l)).
  set (buf' := splice 0 (take (Z.to_nat BSIZE) l) buf).
  assert (Hb' : length buf' = Z.to_nat BSIZE) by by apply length_buffer.
  assert (HB : BSIZE = Z.of_nat (length buf')) by (rewrite Hb'; done). cbv zeta.
  assert (Hk : 0 <= k) by (change BSIZE with 4096 in Hbs; lia).
  destruct (span_block k) as [Hsp|]; [|lia]. assert (HB0 : BSIZE = 4096) by done.
  eapply wp_bind, wp_mono.
  { pose proof (iappend_file s files inum File bs buf' Hi Hf) as Happ. cbv zeta in Happ.
    rewrite <-HB, Hbs, Hsp in Happ. apply Happ; nia. }
  intros [] s1 (files1 & Hi1 & Hf1 & Ho1 & Hn1 & Hb1).
  eapply wp_mono; [apply (IH s1 files1 buf' _ (bs ++ buf') (k + 1)); try done|].
  - rewrite length_app, Nat2Z.inj_add, Hbs, <-HB. lia.
  - rewrite length_drop. change (Z.to_nat BSIZE) with 4096%nat. simpl in Hc |- *. lia.
  - nia.
  - lia.
  - lia.
  - intros [] s2 (files2 & Hi2 & Hf2 & Ho2 & Hn2 & Hb2). exists files2. rewrite app_assoc.
    split_and!; [done|done|by eapply others_kept_trans|congruence|lia].
Qed.

(** ** The programs *)

Definition base_name (path : list Z) : list Z :=
  reverse (take_while (fun c => negb (c =? SLASH)) (reverse path)).
Definition prog_name (path : list Z) : list Z :=
  let base := base_name path in
  match base with [] => [] | c :: l => if c =? 95 then l else base end.

Definition prog_ok (path : list Z) : Prop := base_name path <> [] /\ (length (prog_name path) <= DIRSIZ)%nat.

Definition prog_entry (inum : Z) (path : list Z) : DirEnt :=
  mkDirEnt inum (splice 0 (prog_name path) (replicate DIRSIZ 0)).

(** The blocks, in units of three, that the programs can take. *)
Definition budget (progs : list (list Z * list Z)) : Z :=
  foldr (fun p n => 1 + nblocks_of p.2 + n) 0 progs.

Lemma short_name_spec path s : prog_ok path -> short_name path s = Done (prog_name path, s).
Proof.
  intros [Hb _]. unfold short_name, prog_name. fold (base_name path).
  destruct (base_name path) as [|c l]; [done|]. unfold index, get_at. cbn. by destruct (c =? 95).
Qed.

Lemma length_entry inum path : prog_ok path -> length (dirent_bytes (prog_entry inum path)) = Z.to_nat DE_SIZE.
Proof.
  intros [_ Hl]. unfold dirent_bytes, prog_entry. rewrite length_app. cbn [de_inum de_name].
  rewrite length_splice by (rewrite length_replicate; lia). unfold u16_bytes.
  rewrite length_replicate. pose proof (length_Z_to_little_endian 2 8 inum). change (Z.to_nat DE_SIZE) with 32%nat.
  change DIRSIZ with 30%nat. lia.
Qed.

Lemma length_concat_entries es :
  Forall (fun e => length (dirent_bytes e) = Z.to_nat DE_SIZE) es ->
  Z.of_nat (length (concat (dirent_bytes <$> es))) = Z.of_nat (length es) * DE_SIZE.
Proof.
  induction 1 as [|e es He _ IH]; [done|]. rewrite fmap_cons. cbn [concat length]. rewrite length_app, He.
  change (Z.to_nat DE_SIZE) with 32%nat in *. change DE_SIZE with 32 in *. lia.
Qed.

(** The image with the root directory [es] and the programs' contents. *)
Record built (s : img) (files : gmap Z DiskInode) (es : list DirEnt) (progs : list (list Z * list Z)) : Prop := {
  bt_image : image s files;
  bt_root : is_file s files ROOTINO Directory (concat (dirent_bytes <$> es));
  bt_entries : Forall (fun e => length (dirent_bytes e) = Z.to_nat DE_SIZE) es;
  bt_prog i path c : progs !! i = Some (path, c) ->
    is_file s files (2 + Z.of_nat i) File (padded (length c) zero_block c)
}.

Lemma is_file_inode s files inum t bs : image s files -> is_file s files inum t bs -> 0 < inum < FREE_INODE s.
Proof. intros Hi (di & Hf & _). by destruct (ig_file _ _ Hi _ _ Hf). Qed.

(** Appending an entry to the root directory. *)
Lemma append_entry s files es progs e :
  built s files es progs -> length (dirent_bytes e) = Z.to_nat DE_SIZE ->
  Z.of_nat (length es) < 2 ^ 16 -> FREE_BLOCK s + 3 < 2 ^ 32 ->
  wp (iappend ROOTINO (dirent_bytes e) DE_SIZE) s (fun _ s' => exists files',
    built s' files' (es ++ [e]) progs /\ others_kept s files ROOTINO s' files' /\
    FREE_INODE s' = FREE_INODE s /\ FREE_BLOCK s' <= FREE_BLOCK s + 3).
Proof.
  intros [H1 H2 H3 H5] He Hes Hfb. pose proof (length_concat_entries es H3) as Hl.
  pose proof (iappend_file s files ROOTINO Directory (concat (dirent_bytes <$> es)) (dirent_bytes e) H1 H2) as Happ.
  cbv zeta in Happ. rewrite He, Hl in Happ. change (Z.of_nat (Z.to_nat DE_SIZE)) with DE_SIZE in Happ.
  rewrite span_dirent in Happ by lia. eapply wp_mono.
  - apply Happ; change DE_SIZE with 32; [lia|change (MAXFILE * BSIZE) with 4299206656; lia|lia].
  - intros [] s' (files' & Hi & Hf & Ho & Hn & Hb). exists files'. split_and!; [|done|done|lia]. split.
    + done.
    + rewrite fmap_app, concat_app. cbn. by rewrite app_nil_r.
    + apply Forall_app. split; [done|]. by constructor.
    + intros i path c Hi'. apply Ho; [|by eapply H5]. unfold ROOTINO. lia.
Qed.

Lemma is_file_fresh s files inum t :
  files !! inum = Some (fresh_inode t) -> is_file s files inum t [].
Proof.
  intros H. exists (fresh_inode t). split_and!; [done|done|done|done|done|]. intros x Hx. unfold fbyte.
  by rewrite addr_at_fresh by by apply place_of_offset.
Qed.

Lemma built_ialloc s files es progs t :
  built s files es progs -> FREE_INODE s < NINODES ->
  wp (ialloc t) s (fun inum s' => exists files', inum = FREE_INODE s /\ built s' files' es progs /\
    is_file s' files' inum t [] /\ FREE_INODE s' = FREE_INODE s + 1 /\ FREE_BLOCK s' = FREE_BLOCK s).
Proof.
  intros [H1 H2 H3 H5] Hlt. eapply wp_mono; [by apply ialloc_spec|].
  intros inum s' (-> & Hi & Hn & Hb & Hnone & Hsame). exists (<[FREE_INODE s := fresh_inode t]> files).
  assert (Hkeep : forall j t' bs, is_file s files j t' bs -> is_file s' (<[FREE_INODE s := fresh_inode t]> files) j t' bs).
  { intros j t' bs Hf. eapply is_file_same; [done|]. intros di Hj. split; [|by eapply Hsame].
    rewrite lookup_insert_ne; [done|]. intros <-. congruence. }
  split_and!; [done| |by apply is_file_fresh, lookup_insert_eq|done|done].
  split; [done|by apply Hkeep|done|]. intros i path c Hc. by eapply Hkeep, H5.
Qed.

Lemma add_program_spec s files es progs path c :
  built s files es progs -> prog_ok path -> FREE_INODE s = 2 + Z.of_nat (length progs) ->
  2 + Z.of_nat (length progs) < NINODES -> Z.of_nat (length es) < 2 ^ 16 ->
  FREE_BLOCK s + 3 * (1 + nblocks_of c) < 32768 ->
  wp (add_program ROOTINO path c) s (fun _ s' => exists files',
    built s' files' (es ++ [prog_entry (2 + Z.of_nat (length progs)) path]) (progs ++ [(path, c)]) /\
    FREE_INODE s' = FREE_INODE s + 1 /\ FREE_BLOCK s' <= FREE_BLOCK s + 3 * (1 + nblocks_of c)).
Proof.
  intros Hbt Hok Hn Hlt Hes Hfb. pose proof (nblocks_nonneg c). change NINODES with 200 in *.
  pose proof (ig_free _ _ (bt_image _ _ _ _ Hbt)) as Hfb0. change NMETA with 43 in Hfb0.
  unfold add_program. erewrite <-Hn. eapply wp_bind, wp_Done; [by apply short_name_spec|].
  eapply wp_bind, wp_mono; [apply (built_ialloc s files es progs); [done|change NINODES with 200; lia]|].
  intros inum s1 (files1 & -> & Hbt1 & Hf1 & Hn1 & Hb1). apply wp_bind, wp_assert.
  { apply Nat.leb_le. apply Hok. }
  cbv zeta. rewrite wrap_small by lia. fold (prog_entry (FREE_INODE s) path).
  eapply wp_bind, wp_mono; [apply (append_entry s1 files1 es progs); [done|by apply length_entry|done|lia]|].
  intros [] s2 (files2 & Hbt2 & Ho2 & Hn2 & Hb2).
  assert (Hf2 : is_file s2 files2 (FREE_INODE s) File []).
  { apply Ho2; [|done]. unfold ROOTINO. lia. }
  eapply wp_mono; [apply (copy_file_spec (length c) (FREE_INODE s) s2 files2 zero_block c [] 0); try done|].
  - apply Hbt2.
  - change BSIZE with 4096. lia.
  - change MAXFILE with 1049611. lia.
  - lia.
  - intros [] s3 (files3 & Hi3 & Hf3 & Ho3 & Hn3 & Hb3). exists files3. split_and!; [|congruence|lia].
    destruct Hbt2 as [A1 A2 A3 A5]. split.
    + done.
    + apply Ho3; [unfold ROOTINO; lia|done].
    + done.
    + intros i path' c' Hc'. destruct (decide (i < length progs)%nat) as [Hlt'|Hge].
      * rewrite lookup_app_l in Hc' by done. apply Ho3; [lia|by eapply A5].
      * rewrite lookup_app_r in Hc' by lia. apply list_lookup_singleton_Some in Hc' as [Hz [= <- <-]].
        replace (2 + Z.of_nat i) with (FREE_INODE s) by lia. done.
Qed.

(** The directory entries of the programs, with inode numbers from [k] on. *)
Fixpoint entries_from (k : Z) (progs : list (list Z * list Z)) : list DirEnt :=
  match progs with
  | [] => []
  | (path, _) :: progs => prog_entry k path :: entries_from (k + 1) progs
  end.

Lemma budget_nonneg progs : 0 <= budget progs.
Proof.
  unfold budget. induction progs as [|[p c] progs IH]; cbn [foldr snd]; [lia|]. pose proof (nblocks_nonneg c). lia.
Qed.

Lemma add_programs_spec progs s files es before :
  built s files es before -> Forall (fun p => prog_ok p.1) progs ->
  FREE_INODE s = 2 + Z.of_nat (length before) ->
  2 + Z.of_nat (length before) + Z.of_nat (length progs) <= NINODES ->
  Z.of_nat (length es) + Z.of_nat (length progs) < 2 ^ 16 ->
  FREE_BLOCK s + 3 * budget progs < 32768 ->
  wp (add_programs ROOTINO progs) s (fun _ s' => exists files',
    built s' files' (es ++ entries_from (2 + Z.of_nat (length before)) progs) (before ++ progs) /\
    FREE_BLOCK s' <= FREE_BLOCK s + 3 * budget progs).
Proof.
  revert s files es before. induction progs as [|[path c] progs IH]; intros s files es before Hbt Hok Hn Hlt Hes Hfb.
  - apply wp_ret. exists files. rewrite !app_nil_r. split; [done|]. cbn. lia.
  - apply Forall_cons_iff in Hok as [Hp Hok]. cbn [budget foldr snd fst] in *. fold (budget progs) in *.
    pose proof (budget_nonneg progs).
    cbn [length] in *. pose proof (nblocks_nonneg c).
    eapply wp_bind, wp_mono; [apply (add_program_spec s files es before path c); try done; lia|].
    intros [] s1 (files1 & Hbt1 & Hn1 & Hb1). eapply wp_mono.
    + eapply (IH s1 files1 _ (before ++ [(path, c)])); [exact Hbt1|done|..]; rewrite ?length_app; cbn [length]; lia.
    + intros [] s2 (files2 & Hbt2 & Hb2). exists files2. split; [|lia].
      rewrite <-!app_assoc, length_app in Hbt2. cbn [length app] in Hbt2.
      replace (2 + Z.of_nat (length before + 1)) with (2 + Z.of_nat (length before) + 1) in Hbt2 by lia. exact Hbt2.
Qed.

(** ** The first blocks *)

Lemma write_zeroes_spec secs s :
  (forall b, disk s b = zero_block) ->
  wp (write_zeroes secs) s (fun _ s' => (forall b, disk s' b = zero_block) /\
    FREE_INODE s' = FREE_INODE s /\ FREE_BLOCK s' = FREE_BLOCK s).
Proof.
  revert s. induction secs as [|i secs IH]; intros s Hs; [by apply wp_ret|].
  apply wp_bind, wp_modify. eapply wp_mono; [apply IH|done]. intros b. cbn. unfold upd. by case_decide.
Qed.

Lemma dinode_new_zero inum : 0 <= inum -> read_dinode zero_block inum = Some dinode_new.
Proof.
  intros Hi. unfold read_dinode. pose proof (inode_offset_bound inum Hi).
  assert (E : zero_block = replicate 4096 0) by reflexivity.
  rewrite E, drop_replicate, take_replicate. change (Z.to_nat DINODE_SIZE) with 64%nat.
  rewrite Nat.min_l by lia. reflexivity.
Qed.

Lemma image_start s :
  (forall b, disk s b = meta_block b) -> FREE_INODE s = 1 -> FREE_BLOCK s = NMETA -> image s ∅.
Proof.
  intros Hd Hn Hb. split; rewrite ?Hn, ?Hb; try done.
  - intros b. rewrite Hd. unfold meta_block. case_bool; [|apply (length_replicate (Z.to_nat BSIZE))].
    unfold super_block. rewrite length_splice; [apply (length_replicate (Z.to_nat BSIZE))|].
    change (length zero_block) with (length (replicate (Z.to_nat BSIZE) 0)). rewrite length_replicate.
    unfold super_bytes. rewrite length_words_bytes. cbn [length]. change (Z.to_nat BSIZE) with 4096%nat. lia.
  - intros b Hb'. rewrite Hd. unfold meta_block. change NMETA with 43 in Hb'. case_bool; [lia|done].
  - intros inum Hi. change NINODES with 200 in Hi. unfold disk_inode.
    destruct (inode_blocks inum) as [[H1 H2] _]; [change NINODES with 200; lia|]. rewrite Hd. unfold meta_block.
    change (inodestart SB) with 32 in H1. case_bool; [lia|]. apply dinode_new_zero. lia.
Qed.

(** ** The bitmap and the end of [main] *)

Lemma bitmap_marks (n : nat) :
  Z.of_nat n <= BPB ->
  let d := foldl mark zero_block (seqZ 0 (Z.of_nat n)) in
  length d = Z.to_nat BSIZE /\ forall x, 0 <= x < BPB -> bit_set d x = bool_decide (x < Z.of_nat n).
Proof.
  induction n as [|n IH]; intros Hn.
  - split; [apply (length_replicate (Z.to_nat BSIZE))|]. intros x Hx. change (foldl _ _ _) with zero_block.
    rewrite bool_decide_eq_false_2 by lia.
    unfold bit_set, byte_at. assert (E : zero_block = replicate 4096 0) by reflexivity.
    rewrite E, lookup_total_replicate_2; [done|].
    assert (0 <= x / 8 < 4096); [|lia]. unfold BPB, BSIZE in Hx. split; [apply Z.div_pos; lia|].
    apply Z.div_lt_upper_bound; lia.
  - destruct IH as [Hl IH]; [lia|]. cbv zeta. rewrite seqZ_S, foldl_app, Z.add_0_l. cbn [foldl].
    split; [unfold mark; by rewrite length_insert|]. intros x Hx.
    rewrite (bit_set_mark _ Hl) by lia. rewrite IH by done.
    case_decide as E; [by rewrite bool_decide_eq_true_2 by lia|]. apply bool_decide_ext. lia.
Qed.

(** What the kernel finds on the finished image. *)
Record finished (v : Z -> block) (fb : Z) (es : list DirEnt) (progs : list (list Z * list Z)) : Prop := {
  fi_super : super_of (v 1) = Some SB;
  fi_log : Log.header_of (v (logstart SB)) = Log.header_new;
  fi_free : NMETA <= fb < 32768;
  fi_len b : length (v b) = Z.to_nat BSIZE;
  fi_bitmap x : 0 <= x < FSSIZE -> used SB v x = bool_decide (x < fb);
  fi_root : exists di, disk_inode SB v ROOTINO = Some di /\ typ di = Directory /\ file_img v di fb /\
    Z.of_nat (length es) * DE_SIZE <= size di < 2 ^ 32 /\
    fbytes v di 0 (Z.of_nat (length es) * DE_SIZE) = concat (dirent_bytes <$> es) /\
    forall x, Z.of_nat (length es) * DE_SIZE <= x < size di -> fbyte v di x = 0;
  fi_prog i path c : progs !! i = Some (path, c) ->
    exists di, disk_inode SB v (2 + Z.of_nat i) = Some di /\ typ di = File /\ file_img v di fb /\
      Z.of_nat (length c) <= size di /\ fbytes v di 0 (Z.of_nat (length c)) = c
}.

Definition with_bitmap (v : Z -> block) (fb : Z) : Z -> block :=
  upd v (bmapstart SB) (foldl mark zero_block (seqZ 0 fb)).

Lemma balloc_used s files fb :
  image s files -> NMETA <= fb < 32768 ->
  (forall b, length (with_bitmap (disk s) fb b) = Z.to_nat BSIZE) /\
  forall x, 0 <= x < FSSIZE -> used SB (with_bitmap (disk s) fb) x = bool_decide (x < fb).
Proof.
  intros Hi Hfb. change NMETA with 43 in Hfb. assert (HBPB : BPB = 32768) by done.
  pose proof (bitmap_marks (Z.to_nat fb) ltac:(lia)) as [Hl Hbit]. rewrite Z2Nat.id in Hl, Hbit by lia. split.
  - intros b. unfold with_bitmap, upd. case_decide; [done|apply Hi].
  - intros x Hx. change FSSIZE with 200000 in Hx. unfold used, bmap_block.
    assert (Hd : 0 <= x / BPB < 7) by (rewrite HBPB; split; [apply Z.div_pos|apply Z.div_lt_upper_bound]; lia).
    pose proof (mod_BPB x). pose proof (Z.div_mod x BPB ltac:(done)).
    rewrite u32_add_small by (change (bmapstart SB) with 36; lia). unfold with_bitmap.
    destruct (decide (x / BPB = 0)) as [E|E].
    + rewrite E, Z.add_0_l, upd_eq, Hbit by done. apply bool_decide_ext. rewrite E in *. lia.
    + rewrite upd_ne by lia. rewrite (ig_meta _ _ Hi).
      * unfold meta_block. change (bmapstart SB) with 36. case_bool; [lia|].
        destruct (bitmap_marks 0 ltac:(lia)) as [_ Hb0]. change (foldl _ _ _) with zero_block in Hb0.
        rewrite Hb0 by done. rewrite !bool_decide_eq_false_2; [done|rewrite HBPB in *; lia|lia].
      * change NMETA with 43. change (bmapstart SB) with 36. lia.
      * unfold is_inode_block. change (bmapstart SB) with 36. lia.
Qed.

(** The files are not affected by the bitmap. *)
Lemma with_bitmap_file s files fb inum di :
  image s files -> files !! inum = Some di -> FREE_BLOCK s = fb -> fb < 32768 ->
  disk_inode SB (with_bitmap (disk s) fb) inum = Some di /\ file_img (with_bitmap (disk s) fb) di fb /\
  same_bytes (disk s) di (with_bitmap (disk s) fb) di.
Proof.
  intros Hi Hf Hfb Hlt. destruct (ig_file _ _ Hi _ _ Hf) as (Hin & Hd & Himg). pose proof (ig_inode _ _ Hi).
  pose proof (ig_free _ _ Hi) as Hfree. rewrite Hfb in *. change NMETA with 43 in Hfree. split.
  - rewrite <-Hd. apply disk_inode_same, upd_ne. destruct (inode_blocks inum) as [[_ ?] _]; lia.
  - destruct (balloc_used s files fb Hi) as [Hl _]; [change NMETA with 43; lia|].
    eapply file_img_same; [..|exact Himg].
    + intros p Hp H0. apply upd_ne. pose proof (im_range _ _ _ Himg p Hp H0) as Hr. change NMETA with 43 in Hr.
      change (bmapstart SB) with 36. lia.
    + done.
    + intros b Hb. unfold with_bitmap. rewrite upd_ne by (change (bmapstart SB) with 36; lia). apply Hi. lia.
    + lia.
Qed.

Lemma super_of_bytes : super_of super_block = Some SB.
Proof. vm_compute. reflexivity. Qed.

Lemma zero_header : Log.header_of zero_block = Log.header_new.
Proof. vm_compute. reflexivity. Qed.

Lemma fbytes_take v di m n : 0 <= m <= n -> fbytes v di 0 m = take (Z.to_nat m) (fbytes v di 0 n).
Proof.
  intros Hm. replace n with (m + (n - m)) by lia. rewrite fbytes_app, take_app_length'; [done| |lia|lia].
  by rewrite length_fbytes.
Qed.

(** A program of the image, after the root inode and the bitmap were written. *)
Lemma finish_prog s files fb inum c :
  image s files -> is_file s files inum File (padded (length c) zero_block c) -> FREE_BLOCK s = fb -> fb < 32768 ->
  let v := with_bitmap (disk s) fb in
  exists di, disk_inode SB v inum = Some di /\ typ di = File /\ file_img v di fb /\
    Z.of_nat (length c) <= size di /\ fbytes v di 0 (Z.of_nat (length c)) = c.
Proof.
  intros Hi (di & P1 & P2 & P3 & P4 & P5 & _) Hfb Hlt v.
  destruct (with_bitmap_file s files fb inum di) as (B1 & B2 & B3); try done.
  pose proof (padded_prefix (length c) zero_block c (length_replicate (Z.to_nat BSIZE) 0) ltac:(lia)) as Hpre.
  assert (Hlc : Z.of_nat (length c) <= size di).
  { pose proof (f_equal length Hpre) as E. rewrite length_take in E. lia. }
  exists di. split_and!; [done|done|done|done|]. rewrite (fbytes_ext v di (disk s) di) by (intros x Hx; apply B3; lia).
  rewrite (fbytes_take _ _ _ (size di)), P5, Nat2Z.id by lia. exact Hpre.
Qed.

(** The root directory, whose size is rounded up to [z]. *)
Lemma finish_root s files fb di z es :
  image s (<[ROOTINO := with_size di z]> files) -> FREE_BLOCK s = fb -> fb < 32768 -> typ di = Directory ->
  Z.of_nat (length es) * DE_SIZE <= z < 2 ^ 32 ->
  (forall x, 0 <= x < 2 ^ 32 -> fbyte (disk s) di x = default 0 (concat (dirent_bytes <$> es) !! Z.to_nat x)) ->
  Z.of_nat (length (concat (dirent_bytes <$> es))) = Z.of_nat (length es) * DE_SIZE ->
  let v := with_bitmap (disk s) fb in
  exists di', disk_inode SB v ROOTINO = Some di' /\ typ di' = Directory /\ file_img v di' fb /\
    Z.of_nat (length es) * DE_SIZE <= size di' < 2 ^ 32 /\
    fbytes v di' 0 (Z.of_nat (length es) * DE_SIZE) = concat (dirent_bytes <$> es) /\
    forall x, Z.of_nat (length es) * DE_SIZE <= x < size di' -> fbyte v di' x = 0.
Proof.
  intros Hi Hfb Hlt Ht Hz Hc Hl v. destruct (with_bitmap_file s _ fb ROOTINO (with_size di z) Hi) as (B1 & B2 & B3);
    [apply lookup_insert_eq|done|done|]. assert (HM : MAXFILE * BSIZE = 4299206656) by done.
  assert (Hv : forall x, 0 <= x < 2 ^ 32 ->
    fbyte v (with_size di z) x = default 0 (concat (dirent_bytes <$> es) !! Z.to_nat x)).
  { intros x Hx. rewrite B3 by lia. by apply Hc. }
  exists (with_size di z). split_and!; [done|done|done|apply Hz|apply Hz|..].
  - apply list_eq_same_length with (n := length (concat (dirent_bytes <$> es))); [done|rewrite length_fbytes; lia|].
    intros j x y Hj. unfold fbytes. rewrite list_lookup_fmap, lookup_seqZ_lt by lia. cbn.
    rewrite Hv by lia. intros [= <-] Hy. replace (Z.to_nat (0 + Z.of_nat j)) with j by lia. by rewrite Hy.
  - intros x Hx. cbn in Hx. rewrite Hv by lia. rewrite lookup_ge_None_2; [done|]. lia.
Qed.

Lemma is_file_bytes s di bs x :
  size di = Z.of_nat (length bs) -> fbytes (disk s) di 0 (size di) = bs ->
  (forall x, size di <= x < MAXFILE * BSIZE -> fbyte (disk s) di x = 0) -> 0 <= x < MAXFILE * BSIZE ->
  fbyte (disk s) di x = default 0 (bs !! Z.to_nat x).
Proof.
  intros Hs Hc Hz Hx. destruct (decide (x < size di)).
  - rewrite <-Hc. unfold fbytes. rewrite list_lookup_fmap, lookup_seqZ_lt by lia. cbn. f_equal. lia.
  - rewrite lookup_ge_None_2 by lia. apply Hz. lia.
Qed.

Lemma finish_spec s files es progs :
  built s files es progs -> Z.of_nat (length es) < 2 ^ 16 -> FREE_BLOCK s < 32768 ->
  wp (finish ROOTINO) s (fun _ s' => finished (disk s') (FREE_BLOCK s') es progs).
Proof.
  intros [Hi (di & Hf & Ht & Hs & Hm & Hc & Hz) He Hp] Hes Hfb. pose proof (length_concat_entries es He) as Hl.
  destruct (ig_file _ _ Hi _ _ Hf) as (Hin & Hd & Himg). pose proof (ig_free _ _ Hi) as Hfree.
  change DE_SIZE with 32 in Hl. set (z := (size di / BSIZE + 1) * BSIZE).
  assert (Hz32 : size di < z < 2 ^ 32).
  { unfold z. change BSIZE with 4096. pose proof (Z.div_mod (size di) 4096 ltac:(lia)).
    pose proof (Z.mod_pos_bound (size di) 4096 ltac:(lia)). lia. }
  unfold finish, rinode, rsect. apply wp_bind, wp_bind, wp_bind, wp_get, wp_ret. eapply wp_unwrap; [exact Hd|].
  fold z. rewrite wrap_small by lia. apply wp_bind, winode_view. fold (with_size di z).
  destruct (image_stored s files ROOTINO di 0 s di z Hi Hf (img_grows_refl _ _ Himg) ltac:(split; lia)) as [Hi2 Hs2].
  match type of Hi2 with image ?s' _ => set (s2 := s') in * end.
  apply wp_bind, wp_get, wp_bind, wp_assert; [apply Z.ltb_lt; cbn; lia|].
  apply wp_bind, wp_assert; [apply Z.ltb_lt; cbn; change BSIZE with 4096; lia|]. apply wp_modify.
  cbn [FREE_BLOCK FREE_INODE s2]. fold (with_bitmap (disk s2) (FREE_BLOCK s)). cbn [disk].
  destruct (balloc_used s2 _ (FREE_BLOCK s) Hi2 ltac:(lia)) as [Hlen Hused].
  assert (Hmeta : forall b, b = 1 \/ b = 2 -> with_bitmap (disk s2) (FREE_BLOCK s) b = meta_block b).
  { intros b Hb. unfold with_bitmap. rewrite upd_ne by (change (bmapstart SB) with 36; lia).
    apply (ig_meta _ _ Hi2); [change NMETA with 43; lia|]. unfold is_inode_block. change (inodestart SB) with 32. lia. }
  split; [rewrite Hmeta by auto; apply super_of_bytes| |lia|exact Hlen|exact Hused| |].
  - change (logstart SB) with 2. rewrite Hmeta by auto. apply zero_header.
  - apply (finish_root s2 files (FREE_BLOCK s) di z es); try done; [change DE_SIZE with 32; lia|].
    assert (HM : MAXFILE * BSIZE = 4299206656) by done. intros x Hx.
    rewrite <-(is_file_bytes s di) by (done || lia). apply Hs2. lia.
  - intros i path c Hi'. eapply finish_prog; [exact Hi2| |done|done]. eapply is_file_same; [by eapply Hp|].
    intros dj Hj. rewrite lookup_insert_ne by (unfold ROOTINO; lia). split; [done|].
    eapply (other_file s files ROOTINO di 0 s di (with_size di z)); try done; [unfold ROOTINO; lia|by apply img_grows_refl|].
    apply (im_dinode _ _ _ (file_img_size _ _ _ z ltac:(split; lia) Himg)).
Qed.

(** The entries of the root directory. *)
Definition root_entries (progs : list (list Z * list Z)) : list DirEnt :=
  mkDirEnt ROOTINO dot_name :: mkDirEnt ROOTINO dotdot_name :: entries_from 2 progs.

Lemma length_root_entries progs : length (root_entries progs) = (2 + length progs)%nat.
Proof.
  cbn. do 2 f_equal. generalize 2. induction progs as [|[p c] progs IH]; intros k; [done|]. cbn. by rewrite IH.
Qed.

Lemma root_entries_length progs :
  Forall (fun p => prog_ok p.1) progs ->
  Forall (fun e => length (dirent_bytes e) = Z.to_nat DE_SIZE) (root_entries progs).
Proof.
  intros Hok. do 2 (constructor; [done|]). generalize 2.
  induction Hok as [|[p c] progs Hp Hok IH]; intros k; [constructor|]. constructor; [|apply IH].
  by apply length_entry.
Qed.

Lemma main_spec progs :
  Forall (fun p => prog_ok p.1) progs -> 2 + Z.of_nat (length progs) <= NINODES ->
  NMETA + 3 * (2 + budget progs) < 32768 ->
  wp (main progs) img_new (fun _ s => finished (disk s) (FREE_BLOCK s) (root_entries progs) progs).
Proof.
  intros Hok Hn Hb. pose proof (budget_nonneg progs) as Hb0. unfold main.
  eapply wp_bind, wp_mono; [by apply write_zeroes_spec|]. intros [] s0 (Hd & Hi0 & Hf0).
  apply wp_bind, wp_modify. fold super_block.
  set (s1 := mkImg (upd (disk s0) 1 super_block) (FREE_INODE s0) (FREE_BLOCK s0)).
  assert (Himg : image s1 ∅).
  { apply image_start; [|done|done]. intros b. cbn. unfold upd, meta_block.
    case_decide as E; [by rewrite E|]. by rewrite (proj2 (Z.eqb_neq _ _) E), Hd. }
  eapply wp_bind, wp_mono; [apply (ialloc_spec s1 ∅ Directory Himg); cbn; by rewrite Hi0|].
  intros root s2 (Er & Hi2 & Hn2 & Hb2 & _ & _). cbn in Er, Hn2, Hb2. rewrite Hi0 in Er, Hn2. rewrite Hf0 in Hb2.
  change (FREE_INODE img_new) with 1 in *. change (FREE_BLOCK img_new) with NMETA in Hb2. subst root.
  apply wp_bind, wp_assert; [done|].
  assert (Hbt : built s2 (<[1 := fresh_inode Directory]> ∅) [] []).
  { split; [done|by apply is_file_fresh, lookup_insert_eq|constructor|done]. }
  change NMETA with 43 in *. change NINODES with 200 in Hn. change (wrap 16 1) with ROOTINO.
  eapply wp_bind, wp_mono; [apply (append_entry _ _ _ _ _ Hbt); [done|done|lia]|].
  intros [] s3 (files3 & Hbt3 & _ & Hn3 & Hb3).
  eapply wp_bind, wp_mono; [apply (append_entry _ _ _ _ _ Hbt3); [done|done|lia]|].
  intros [] s4 (files4 & Hbt4 & _ & Hn4 & Hb4). cbn [app] in Hbt4.
  eapply wp_bind, wp_mono; [apply (add_programs_spec progs s4 files4 _ [] Hbt4); try done; cbn [length];
    change NINODES with 200; lia|].
  intros [] s5 (files5 & Hbt5 & Hb5). apply (finish_spec s5 files5); [done| |lia].
  pose proof (length_root_entries progs) as Hle. cbn in *. lia.
Qed.

(** C14: [mkfs] builds the file system it was asked for.  With at most 198
    programs whose names fit and whose contents fit below block 32768, [main]
    ends without a panic, and on the image: the super block and an empty log are
    in place; the bitmap marks exactly the blocks in front of the first one not
    handed out; inode 1 is a directory with the entries [.], [..] and one for
    every program, followed by empty entries; and inode [2 + i] is a file that
    starts with the contents of the [i]-th program. *)
Theorem mkfs_builds progs :
  Forall (fun p => prog_ok p.1) progs -> 2 + Z.of_nat (length progs) <= NINODES ->
  NMETA + 3 * (2 + budget progs) < 32768 ->
  wp (main progs) img_new (fun _ s => finished (disk s) (FREE_BLOCK s) (root_entries progs) progs).
Proof. apply main_spec. Qed.

(** An image with an empty root directory, and one program [_cat] to install. *)
Lemma sample_image : exists s, image s {[1 := fresh_inode Directory]} /\ FREE_BLOCK s = NMETA.
Proof.
  assert (Hi : image (mkImg meta_block 1 NMETA) ∅) by by apply image_start.
  destruct (wp_elim _ _ _ (ialloc_spec _ _ Directory Hi eq_refl)) as (x & s & _ & Ex & Hi' & _ & Hb & _).
  cbn in Ex. subst x. by exists s.
Qed.

Definition sample_progs : list (list Z * list Z) := [([95; 99; 97; 116], [1; 2; 3])].

Lemma sample_progs_ok : Forall (fun p => prog_ok p.1) sample_progs.
Proof. constructor; [|constructor]. split; [done|]. vm_compute. lia. Qed.

Lemma iappend_appends_witness :
  exists s, wp (iappend 1 [7; 8] 2) s (fun _ s' => exists di, disk_inode SB (disk s') 1 = Some di /\
    size di = 2 /\ fbytes (disk s') di 0 2 = [7; 8]).
Proof.
  destruct sample_image as (s & Hi & Hb). exists s. eapply wp_mono.
  - apply (iappend_appends s {[1 := fresh_inode Directory]} 1 (fresh_inode Directory) [7; 8] Hi);
      [apply lookup_singleton_eq|done|done|]. rewrite Hb. vm_compute. reflexivity.
  - intros [] s' (di & _ & Hs & Hd & Hc & _). exists di. change (size di = 2) in Hs. by rewrite Hs in Hc.
Defined.

Lemma mkfs_builds_witness :
  wp (main sample_progs) img_new
    (fun _ s => finished (disk s) (FREE_BLOCK s) (root_entries sample_progs) sample_progs).
Proof. apply (mkfs_builds sample_progs); [apply sample_progs_ok|vm_compute; discriminate|vm_compute; reflexivity]. Defined.

End Mkfs.
