(* ===== verification/Boot.v ===== *)
(** * From [mkfs] to the kernel

    The image that [Mkfs.v] builds is a disk on which the kernel boots: the log
    is clean, the bitmap and the inode area are laid out as [Bmap.v] and
    [Fs.v] expect, and the root directory is a well-formed file of
    [FsFile.v].  The theorem runs the whole path from [mkfs] through the log and
    the inode layer to a directory entry. *)

From S2P Require Import Prelude Param Bytes Bio Log Blocks Bmap Fs FsFile Mkfs.

Module Boot.
Import Bmap Fs FsFile Mkfs.

(** The disk that the kernel is booted on: the blocks of the image file. *)
Definition disk_of (s : img) : gmap Z block := list_to_map ((fun b => (b, Mkfs.disk s b)) <$> seqZ 0 FSSIZE).

Lemma disk_of_get s b :
  Bio.disk_get (disk_of s) b = if decide (0 <= b < FSSIZE) then Mkfs.disk s b else zero_block.
Proof.
  unfold Bio.disk_get, disk_of. case_decide as Hb.
  - erewrite elem_of_list_to_map_1; [done| |].
    + rewrite <-list_fmap_compose. replace (_ <$> seqZ 0 FSSIZE) with (seqZ 0 FSSIZE); [apply NoDup_seqZ|].
      symmetry. apply list_fmap_id.
    + apply list_elem_of_fmap. exists b. split; [done|]. apply elem_of_seqZ. lia.
  - rewrite not_elem_of_list_to_map_1; [done|]. rewrite <-list_fmap_compose. intros Hin.
    apply list_elem_of_fmap in Hin as (x & -> & Hx). apply elem_of_seqZ in Hx. cbn in Hb. lia.
Qed.

#[local] Opaque disk_of.

(** The contents of a finished image do not depend on what is not on the disk. *)
Section on_disk.
Context (v v' : Z -> block) (fb : Z) (es : list DirEnt) (progs : list (list Z * list Z)).
Context (Hon : forall b, 0 <= b < FSSIZE -> v' b = v b) (Hoff : forall b, FSSIZE <= b -> v' b = zero_block).
Context (Hlen : forall b, length (v' b) = Z.to_nat BSIZE) (Hfb : NMETA <= fb < 32768).

Lemma file_img_on_disk di : file_img v di fb -> file_img v' di fb /\ same_bytes v di v' di.
Proof using Hon Hoff Hlen Hfb.
  change NMETA with 43 in Hfb. change FSSIZE with 200000 in *.
  intros Himg. eapply (file_img_same v v' di fb fb); [..|exact Himg].
  - intros p Hp Hne. apply Hon. pose proof (im_range _ _ _ Himg p Hp Hne) as Hr. change NMETA with 43 in Hr. lia.
  - exact Hlen.
  - intros b Hb. destruct (decide (b < 200000)); [rewrite Hon by lia; by apply Himg|apply Hoff; lia].
  - lia.
Qed.

Lemma disk_inode_on_disk inum : 0 <= inum < NINODES -> disk_inode SB v' inum = disk_inode SB v inum.
Proof using Hon.
  intros Hi. apply disk_inode_same, Hon. destruct (inode_blocks inum Hi) as [[H1 H2] _].
  change (inodestart SB) with 32 in H1. change (bmapstart SB) with 36 in H2. change FSSIZE with 200000. lia.
Qed.

Lemma finished_on_disk : 2 + Z.of_nat (length progs) <= NINODES -> finished v fb es progs -> finished v' fb es progs.
Proof using Hon Hoff Hlen Hfb.
  intros Hn [H1 H2 _ H4 H5 (di & R1 & R2 & R3 & R4 & R5 & R6) H7].
  assert (HM : MAXFILE * BSIZE = 4299206656) by done. change NINODES with 200 in Hn. split.
  - by rewrite Hon.
  - by rewrite Hon.
  - done.
  - done.
  - intros x Hx. rewrite <-H5 by done. unfold used. f_equal. apply Hon. unfold bmap_block. change FSSIZE with 200000 in *.
    assert (0 <= x / BPB < 7) by (change BPB with 32768; split; [apply Z.div_pos|apply Z.div_lt_upper_bound]; lia).
    change (bmapstart SB) with 36. rewrite u32_add_small; lia.
  - destruct (file_img_on_disk di R3) as [R3' Hs]. exists di. assert (HD : DE_SIZE = 32) by done.
    split_and!; try done; try lia.
    + by rewrite disk_inode_on_disk.
    + rewrite <-R5. apply fbytes_ext. intros x Hx. apply Hs. lia.
    + intros x Hx. rewrite Hs by lia. by apply R6.
  - intros i path c Hi. destruct (H7 i path c Hi) as (dp & P1 & P2 & P3 & P4 & P5).
    pose proof (lookup_lt_Some _ _ _ Hi). destruct (file_img_on_disk dp P3) as [P3' Hs]. exists dp. split_and!; try done.
    + rewrite disk_inode_on_disk by (change NINODES with 200; lia). done.
    + rewrite <-P5 at 2. apply fbytes_ext. intros x Hx. apply Hs.
      pose proof (di_size _ (im_dinode _ _ _ P3)) as Hd. unfold is_u32 in Hd. lia.
Qed.
End on_disk.

Lemma fbytes_slice v di o m n :
  0 <= o -> 0 <= m -> o + m <= n -> fbytes v di o m = take (Z.to_nat m) (drop (Z.to_nat o) (fbytes v di 0 n)).
Proof.
  intros Ho Hm Hn. replace n with (o + (m + (n - (o + m)))) by lia. rewrite fbytes_app, fbytes_app by lia.
  rewrite drop_app_length' by (rewrite length_fbytes; lia). rewrite take_app_length' by (rewrite length_fbytes; lia).
  by rewrite Z.add_0_l.
Qed.

Lemma concat_entry es k e :
  Forall (fun e => length (dirent_bytes e) = Z.to_nat DE_SIZE) es -> es !! k = Some e ->
  take (Z.to_nat DE_SIZE) (drop (k * Z.to_nat DE_SIZE) (concat (dirent_bytes <$> es))) = dirent_bytes e.
Proof.
  intros He. revert k. induction He as [|e' es He' _ IH]; intros k Hk; [done|].
  rewrite fmap_cons. cbn [concat]. destruct k as [|k]; cbn in Hk.
  - injection Hk as ->. rewrite Nat.mul_0_l, drop_0. by rewrite take_app_length'.
  - rewrite <-(IH k Hk). f_equal. rewrite drop_app_ge by (rewrite He'; lia). f_equal. rewrite He'. lia.
Qed.

Section boot.
Context (d : gmap Z block) (fb : Z) (es : list DirEnt) (progs : list (list Z * list Z)).
Context (Hfin : finished (Bio.disk_get d) fb es progs).
Let v := Bio.disk_get d.

Definition laws : BlockLaws Log.fsys := fsys_laws 2 30 Log.sample_geometry d.
#[local] Existing Instance laws.

Lemma image_clean : Log.describes (Log.header_of (Bio.disk_get d 2)) [].
Proof using Hfin.
  pose proof (fi_log _ _ _ _ Hfin) as E. change (logstart SB) with 2 in E. rewrite E.
  split_and!; [reflexivity|reflexivity|reflexivity|]. by apply Forall_replicate.
Qed.

Lemma bitmap_range b : is_bitmap SB b -> 36 <= b < 43.
Proof using Type.
  intros (bn & Hb & ->). change (sb_size SB) with 200000 in Hb. unfold bmap_block.
  assert (0 <= bn / BPB < 7) by (change BPB with 32768; split; [apply Z.div_pos|apply Z.div_lt_upper_bound]; lia).
  change (bmapstart SB) with 36. rewrite u32_add_small; lia.
Qed.

Lemma home_block b : 32 <= b < 200000 -> usable b.
Proof using Type. intros Hb. split; unfold is_u32, Log.in_log; lia. Qed.

Lemma image_layout : layout SB v.
Proof using Hfin.
  pose proof (fi_free _ _ _ _ Hfin) as Hfb. change NMETA with 43 in Hfb. split.
  - by vm_compute.
  - by vm_compute.
  - intros b Hb%bitmap_range. split; [apply home_block; lia|apply (fi_len _ _ _ _ Hfin)].
  - intros bn Hb Hu. change (sb_size SB) with 200000 in Hb. unfold v in Hu.
    rewrite (fi_bitmap _ _ _ _ Hfin) in Hu by done. apply bool_decide_eq_false in Hu.
    split; [apply home_block; lia|]. intros ?%bitmap_range. lia.
Qed.

Lemma image_used x : 0 <= x < 200000 -> used SB v x = bool_decide (x < fb).
Proof using Hfin. intros Hx. by apply (fi_bitmap _ _ _ _ Hfin). Qed.

Lemma image_good b :
  32 <= b < fb -> ~ is_bitmap SB b -> good_block SB v b.
Proof using Hfin.
  intros Hb Hn. pose proof (fi_free _ _ _ _ Hfin) as Hfb. split; [apply home_block; lia| | |done|apply (fi_len _ _ _ _ Hfin)].
  - change (sb_size SB) with 200000. lia.
  - rewrite image_used by lia. apply bool_decide_eq_true_2. lia.
Qed.

(** A file of the image is well-formed for the kernel. *)
Lemma image_file_ok inum di :
  0 <= inum < NINODES -> file_img v di fb -> file_ok SB inum v di.
Proof using Hfin.
  intros Hi Himg. pose proof (fi_free _ _ _ _ Hfin) as Hfb. change NMETA with 43 in Hfb.
  destruct (inode_blocks inum Hi) as [[Hb1 Hb2] _]. change (inodestart SB) with 32 in Hb1.
  change (bmapstart SB) with 36 in Hb2. split.
  - apply Himg.
  - rewrite image_used by lia. apply bool_decide_eq_true_2. lia.
  - lia.
  - apply image_good; [lia|]. intros ?%bitmap_range. lia.
  - intros p Hp H0. pose proof (im_range _ _ _ Himg p Hp H0) as Hr. change NMETA with 43 in Hr.
    split; [|lia]. apply image_good; [lia|]. intros ?%bitmap_range. lia.
  - apply Himg.
Qed.

Lemma image_free : (0 < free_count SB v)%nat.
Proof using Hfin.
  pose proof (fi_free _ _ _ _ Hfin) as Hfb. change NMETA with 43 in Hfb. unfold free_count.
  assert (Hin : fb ∈ filter (fun x => used SB v x = false) (seqZ 0 (sb_size SB))).
  { apply list_elem_of_filter. split; [rewrite image_used by lia; apply bool_decide_eq_false_2; lia|].
    apply elem_of_seqZ. change (sb_size SB) with 200000. lia. }
  destruct (filter _ _); [by apply not_elem_of_nil in Hin|]. cbn. lia.
Qed.

(** Reading an entry of the root directory in the first transaction. *)
Lemma root_entry {U} `{!UserCopy U} (s : @fs Log.fsys U) x k e :
  in_txn (blk s) (mkTxn v ∅ ∅ ∅) -> data s !! 0%nat = Some (mkSlot false None x) ->
  Forall (fun e => length (dirent_bytes e) = Z.to_nat DE_SIZE) es -> es !! k = Some e -> (length es <= 200)%nat ->
  wp (ilock SB (mkInode ROOTDEV ROOTINO 0) ;; readi SB 0 (Kernel []) (Z.of_nat k * DE_SIZE) DE_SIZE) s
    (fun r _ => r = Ok (DE_SIZE, dirent_bytes e)).
Proof using Hfin.
  intros Ht Hx Hes Hk Hle. destruct (fi_root _ _ _ _ Hfin) as (di & R1 & R2 & R3 & R4 & R5 & _).
  assert (Hroot : 0 <= ROOTINO < NINODES) by by vm_compute.
  pose proof (image_file_ok ROOTINO di Hroot R3) as Hok. pose proof (lookup_lt_Some _ _ _ Hk) as Hlt.
  assert (Hroom : room 29 (mkTxn v ∅ ∅ ∅)) by (vm_compute; lia). assert (HD : DE_SIZE = 32) by done.
  assert (Hlen : (0 < length (data s))%nat) by by eapply lookup_lt_Some.
  eapply wp_bind, (ilock_spec SB s (mkTxn v ∅ ∅ ∅) (mkInode ROOTDEV ROOTINO 0) (mkSlot false None x) di); try done.
  - cbn. split; [exact R1|]. by rewrite R2.
  - cbn. split; [apply (gb_usable _ _ _ (fo_inode _ _ _ _ Hok))|]. split; [done|set_solver].
  - unfold room in *. lia.
  - cbn [i_index i_inum]. intros b' Hb'.
    set (s1 := mkFsState b' (user s) (meta s) (<[0%nat := mkSlot true (Some (ROOTDEV, ROOTINO)) di]> (data s))).
    assert (Hf : file_at SB ROOTINO 0 s1 (mkTxn v ∅ ∅ ∅) di).
    { split; [done|done|done|apply image_layout|done|]. exists true. by apply list_lookup_insert_eq. }
    set (o := Z.of_nat k * DE_SIZE). assert (Ho : 0 <= o /\ o + DE_SIZE <= size di) by (unfold o; lia).
    assert (Hspan : span o DE_SIZE = 1%nat) by (apply span_dirent; lia).
    assert (Ho11 : 0 <= o / BSIZE < 11).
    { unfold o, DE_SIZE. change BSIZE with 4096. split; [apply Z.div_pos; lia|apply Z.div_lt_upper_bound; lia]. }
    eapply wp_mono.
    + apply (readi_spec SB ROOTINO 0 (Kernel []) (fun _ _ => True) s1 (mkTxn v ∅ ∅ ∅) di o DE_SIZE);
        [done|done|lia|lia|lia|].
      rewrite Z.min_l by lia. assert (Hh : (holes v di (o / BSIZE) 1 <= 1)%nat).
      { rewrite holes_step. change (holes _ _ _ 0) with 0%nat. unfold hole. case_bool; lia. }
      split; rewrite ?Hspan; cbn [t_view]; [done|change (MAXFILE * BSIZE) with 4299206656; lia|..].
      * intros j Hj. left. change (Z.of_nat NDIRECT) with 11. lia.
      * unfold room in *. lia.
      * pose proof image_free. unfold v in *. lia.
    + intros r s' (-> & _ & _). rewrite Z.min_l by lia. cbn [t_view]. do 2 f_equal.
      rewrite (fbytes_slice _ _ _ _ (Z.of_nat (length es) * DE_SIZE)) by (unfold o; lia).
      unfold v. rewrite R5. replace (Z.to_nat o) with (k * Z.to_nat DE_SIZE)%nat by (unfold o; lia).
      by apply concat_entry.
Qed.

End boot.
Lemma finished_disk_of s fb es progs :
  2 + Z.of_nat (length progs) <= NINODES -> finished (Mkfs.disk s) fb es progs ->
  finished (Bio.disk_get (disk_of s)) fb es progs.
Proof.
  intros Hn Hf. pose proof (fi_free _ _ _ _ Hf). apply (finished_on_disk (Mkfs.disk s)); [..|exact Hn|exact Hf].
  - intros b Hb. by rewrite disk_of_get, decide_True.
  - intros b Hb. rewrite disk_of_get, decide_False by lia. reflexivity.
  - intros b. rewrite disk_of_get. case_decide; [apply Hf|apply (length_replicate (Z.to_nat BSIZE))].
  - assumption.
Qed.

(** Booting on a finished disk. *)
Definition boots (d : gmap Z block) (es : list DirEnt) : Prop := exists f0 f,
  Log.boot (logstart SB) (nlog SB) d = Done (tt, f0) /\ Log.begin_op f0 = Done (tt, f) /\
  forall {U} `{!UserCopy U} (u : U) meta slots x k e, slots !! 0%nat = Some (mkSlot false None x) -> es !! k = Some e ->
    wp (ilock SB (mkInode ROOTDEV ROOTINO 0) ;; readi SB 0 (Kernel []) (Z.of_nat k * DE_SIZE) DE_SIZE)
      (mkFsState f u meta slots) (fun r _ => r = Ok (DE_SIZE, dirent_bytes e)).

Lemma finished_boots d fb es progs :
  finished (Bio.disk_get d) fb es progs ->
  Forall (fun e => length (dirent_bytes e) = Z.to_nat DE_SIZE) es -> (length es <= 200)%nat -> boots d es.
Proof.
  intros Hf Hes Hn.
  destruct (txn_begin 2 30 Log.sample_geometry d (image_clean _ _ _ _ Hf)) as (f0 & f & Hb0 & Hbeg & _ & Ht).
  exists f0, f. split; [exact Hb0|]. split; [exact Hbeg|]. intros U HU u meta slots x k e Hx Hk.
  by apply (root_entry d _ _ _ Hf _ x).
Qed.

(** C13: the kernel boots on what [mkfs] builds and finds the programs in the
    root directory.  After [mkfs] has run, booting the log on the image and
    opening a transaction both return; in that transaction, locking the root
    inode through a free slot of the inode table loads it from the disk, and
    [readi] at the [k]-th entry returns exactly the bytes of the entry that
    [mkfs] appended there. *)
Theorem mkfs_boots progs :
  Forall (fun p => prog_ok p.1) progs -> 2 + Z.of_nat (length progs) <= NINODES ->
  NMETA + 3 * (2 + budget progs) < 32768 ->
  wp (main progs) img_new (fun _ s => boots (disk_of s) (root_entries progs)).
Proof.
  intros Hok Hn Hb. eapply wp_mono; [apply (main_spec progs Hok Hn Hb)|]. intros [] s Hf.
  apply finished_disk_of in Hf; [|exact Hn]. eapply finished_boots; [exact Hf|by apply root_entries_length|].
  rewrite length_root_entries. change NINODES with 200 in Hn. lia.
Qed.

#[local] Existing Instance no_user.

Lemma mkfs_boots_witness :
  wp (main sample_progs) img_new (fun _ s => exists f0 f,
    Log.boot 2 30 (disk_of s) = Done (tt, f0) /\ Log.begin_op f0 = Done (tt, f) /\
    wp (ilock SB (mkInode ROOTDEV ROOTINO 0) ;; readi SB 0 (Kernel []) (2 * DE_SIZE) DE_SIZE)
      (mkFsState f tt [] [mkSlot false None dinode_new])
      (fun r _ => r = Ok (DE_SIZE, dirent_bytes (prog_entry 2 [95; 99; 97; 116])))).
Proof.
  eapply wp_mono; [apply (mkfs_boots sample_progs sample_progs_ok); vm_compute; done|].
  intros [] s (f0 & f & Hb0 & Hb & Hr). exists f0, f. split; [exact Hb0|]. split; [exact Hb|].
  by apply (Hr unit no_user tt [] [mkSlot false None dinode_new] dinode_new 2%nat).
Defined.

End Boot.
