(* ===== verification/Mbuf.v ===== *)
(** * Packet buffers

    Models [kernel/src/mbuf.rs]: a buffer of 2048 bytes with a packet somewhere
    inside, to which headers are prepended and from which they are popped.
    [head] is an address, [len] an [isize].  The code reads and writes headers
    through raw pointers into the buffer; an access outside of it is the outcome
    [Undef]. *)

From S2P Require Import Prelude Param Bytes Kalloc.

Module Mbuf.

Definition MBUF_SIZE : Z := 2048.

(** [z as isize] *)
Definition as_isize (z : Z) : Z :=
  let l := wrap 64 z in if l <? 2 ^ 63 then l else l - 2 ^ 64.

(** [m_ptr] is the address of the structure, which has [buf] as its last field. *)
Record MBuf := mkMBuf { m_ptr : Z; head : Z; len : Z; buf : list Z }.

Definition buf_ptr (m : MBuf) : Z := m_ptr m ⊞ 16.

(** The heap, for [Box<MBuf>]: [Box::new], which panics when there is no memory,
    and the drop of the box. *)
Class BoxHeap (A : Type) := {
  box_new : M A Z;
  box_drop : Z -> M A unit
}.

(** [alloc], with the address that [Box::new] returned *)
Definition mbuf_at (p headroom : Z) : MBuf :=
  mkMBuf p (p ⊞ 16 ⊞ headroom) 0 (replicate (Z.to_nat MBUF_SIZE) 0).
Definition alloc {A} `{!BoxHeap A} (headroom : Z) : M A MBuf :=
  if MBUF_SIZE <? headroom then panic "mbuf_alloc"
  else let! p := box_new in ret (mbuf_at p headroom).

Definition get_buf_head (m : MBuf) : Z := head m.
Definition get_len (m : MBuf) : Z := wrap 64 (len m).

Section ops.
Context {S : Type}.

Definition append (m : MBuf) (n : Z) : M S (Z * MBuf) :=
  let r := head m ⊞ wrap 64 (len m) in
  let l := as_isize (len m + as_isize n) in
  if MBUF_SIZE <? l then panic "mbuf_append"
  else ret (r, mkMBuf (m_ptr m) (head m) l (buf m)).

Definition prepend (m : MBuf) (n : Z) : M S (Z * MBuf) :=
  let h := head m ⊟ n in
  if h <? buf_ptr m then panic "mbuf_prepend: head is preceding bytes."
  else ret (h, mkMBuf (m_ptr m) h (as_isize (len m + as_isize n)) (buf m)).

Definition pop (m : MBuf) (n : Z) : M S (Z * MBuf) :=
  let r := head m in
  let l := as_isize (len m - as_isize n) in
  if l <? 0 then panic "mbuf_pop"
  else ret (r, mkMBuf (m_ptr m) (r ⊞ n) l (buf m)).

Definition trim (m : MBuf) (n : Z) : M S (Z * MBuf) :=
  if wrap 64 (len m) <? n then panic "mbuf_trim"
  else
    let l := as_isize (len m - as_isize n) in
    ret (head m ⊞ wrap 64 l, mkMBuf (m_ptr m) (head m) l (buf m)).

(** Reading and writing [n] bytes at an address of the buffer. *)
Definition load (m : MBuf) (a n : Z) : M S (list Z) :=
  let off := a - buf_ptr m in
  if (0 <=? off) && (off + n <=? MBUF_SIZE) then ret (take (Z.to_nat n) (drop (Z.to_nat off) (buf m)))
  else undefined.
Definition store (m : MBuf) (a : Z) (bs : list Z) : M S MBuf :=
  let off := a - buf_ptr m in
  if (0 <=? off) && (off + Z.of_nat (length bs) <=? MBUF_SIZE)
  then ret (mkMBuf (m_ptr m) (head m) (len m) (splice (Z.to_nat off) bs (buf m)))
  else undefined.

End ops.

(** ** The packet in a buffer *)

Definition off (m : MBuf) : Z := head m - buf_ptr m.
Definition packet (m : MBuf) : list Z := take (Z.to_nat (len m)) (drop (Z.to_nat (off m)) (buf m)).

(** The bytes in front of the packet are still those of [alloc]. *)
Definition blank (m : MBuf) : Prop := take (Z.to_nat (off m)) (buf m) = replicate (Z.to_nat (off m)) 0.

Record mbuf_ok (m : MBuf) : Prop := {
  mo_buf : length (buf m) = 2048%nat;
  mo_ptr : 0 < m_ptr m /\ m_ptr m + 2064 < 2 ^ 64;
  mo_off : 0 <= off m;
  mo_len : 0 <= len m;
  mo_fit : off m + len m <= MBUF_SIZE
}.

Lemma buf_ptr_small m : mbuf_ok m -> buf_ptr m = m_ptr m + 16.
Proof. intros [_ H _ _ _]. unfold buf_ptr. apply usize_add_small; lia. Qed.

Lemma head_off m : mbuf_ok m -> head m = m_ptr m + 16 + off m.
Proof. intros Hm. unfold off. rewrite buf_ptr_small by done. lia. Qed.

Lemma as_isize_small z : 0 <= z < 2 ^ 63 -> as_isize z = z.
Proof.
  intros Hz. unfold as_isize. rewrite wrap_small by lia. by rewrite (proj2 (Z.ltb_lt _ _)) by lia.
Qed.

Lemma length_packet m : mbuf_ok m -> Z.of_nat (length (packet m)) = len m.
Proof.
  intros [H1 H2 H3 H4 H5]. unfold packet. rewrite length_take, length_drop, H1. change MBUF_SIZE with 2048 in H5. lia.
Qed.

Lemma get_len_ok m : mbuf_ok m -> get_len m = len m.
Proof. intros [_ _ H3 H4 H5]. apply wrap_small. change MBUF_SIZE with 2048 in H5. lia. Qed.

Lemma alloc_ok p headroom :
  0 < p -> p + 2064 < 2 ^ 64 -> 0 <= headroom <= MBUF_SIZE ->
  mbuf_ok (mbuf_at p headroom) /\ packet (mbuf_at p headroom) = [] /\ off (mbuf_at p headroom) = headroom /\
  blank (mbuf_at p headroom).
Proof.
  intros Hp Hp' Hh. change MBUF_SIZE with 2048 in *.
  assert (E : off (mbuf_at p headroom) = headroom).
  { unfold off, buf_ptr, mbuf_at. cbn [head m_ptr]. rewrite !usize_add_small by (rewrite ?usize_add_small; lia). lia. }
  split_and!; [|done|done|].
  2: { unfold blank. rewrite E. unfold mbuf_at. cbn [buf]. change MBUF_SIZE with 2048. rewrite take_replicate. f_equal. lia. }
  split; rewrite ?E; cbn; change MBUF_SIZE with 2048; lia || done.
Qed.

(** Prepending a header and filling it in. *)
Definition push {S} (m : MBuf) (hdr : list Z) : M S MBuf :=
  let! '(h, m) := prepend m (Z.of_nat (length hdr)) in store m h hdr.

Section specs.
Context {S : Type}.
Implicit Types s : S.

Lemma prepend_ok m n s (Q : Z * MBuf -> S -> Prop) :
  mbuf_ok m -> 0 <= n <= off m ->
  (forall m', mbuf_ok m' -> off m' = off m - n -> len m' = len m + n -> buf m' = buf m -> m_ptr m' = m_ptr m ->
     Q (head m', m') s) ->
  wp (prepend m n) s Q.
Proof using Type.
  intros Hm Hn HQ. pose proof (head_off m Hm) as Eh. pose proof (buf_ptr_small m Hm) as Eb.
  destruct (Hm) as [H1 H2 H3 H4 H5]. change MBUF_SIZE with 2048 in *.
  assert (E1 : head m ⊟ n = head m - n) by (apply usize_sub_small; lia).
  unfold prepend. rewrite E1, Eb, (proj2 (Z.ltb_ge _ _)) by lia.
  rewrite (as_isize_small n), as_isize_small by lia. apply wp_ret.
  set (m' := mkMBuf _ _ _ _). assert (Eo : off m' = off m - n) by (unfold off, buf_ptr, m' in *; cbn in *; lia).
  apply (HQ m'); try done. split; rewrite ?Eo; cbn; try done; change MBUF_SIZE with 2048; lia.
Qed.

Lemma store_ok m hdr s (Q : MBuf -> S -> Prop) :
  mbuf_ok m -> Z.of_nat (length hdr) <= len m ->
  (forall m', mbuf_ok m' -> off m' = off m -> len m' = len m -> head m' = head m -> m_ptr m' = m_ptr m ->
     packet m' = hdr ++ drop (length hdr) (packet m) -> (blank m -> blank m') -> Q m' s) ->
  wp (store m (head m) hdr) s Q.
Proof using Type.
  intros Hm Hl HQ. destruct (Hm) as [H1 H2 H3 H4 H5]. change MBUF_SIZE with 2048 in *. unfold store. fold (off m).
  change MBUF_SIZE with 2048.
  rewrite (proj2 (Z.leb_le 0 (off m))), (proj2 (Z.leb_le (off m + Z.of_nat (length hdr)) 2048)) by lia. cbn [andb].
  apply wp_ret. set (m' := mkMBuf _ _ _ _).
  assert (Hlen : length (buf m') = 2048%nat) by (cbn; rewrite length_splice; lia).
  apply HQ; [by split|done|done|done|done| |].
  2: { unfold blank. change (off m') with (off m). cbn [buf m']. unfold splice. intros Hb.
       rewrite take_app_le by (rewrite length_take; lia). by rewrite take_take, Nat.min_id. }
  unfold packet. change (off m') with (off m). change (len m') with (len m). cbn [buf m'].
  set (o := Z.to_nat (off m)). unfold splice. rewrite drop_app_length' by (rewrite length_take; lia).
  rewrite take_app_ge by lia. f_equal. rewrite skipn_firstn_comm, drop_drop. done.
Qed.

Lemma append_ok m n s (Q : Z * MBuf -> S -> Prop) :
  mbuf_ok m -> 0 <= n -> off m + len m + n <= MBUF_SIZE ->
  (forall m', mbuf_ok m' -> off m' = off m -> head m' = head m -> len m' = len m + n -> buf m' = buf m ->
     m_ptr m' = m_ptr m -> Q (head m + len m, m') s) ->
  wp (append m n) s Q.
Proof using Type.
  intros Hm Hn Hf HQ. pose proof (head_off m Hm) as Eh. destruct (Hm) as [H1 H2 H3 H4 H5]. change MBUF_SIZE with 2048 in *.
  unfold append. change MBUF_SIZE with 2048. rewrite (as_isize_small n), as_isize_small by lia.
  rewrite (proj2 (Z.ltb_ge _ _)) by lia. apply wp_ret. rewrite wrap_small, usize_add_small by lia.
  apply HQ; try done.
  split; cbn; try done; change (off (mkMBuf _ _ _ _)) with (off m); change MBUF_SIZE with 2048; lia.
Qed.

Lemma trim_ok m n s (Q : Z * MBuf -> S -> Prop) :
  mbuf_ok m -> 0 <= n <= len m ->
  (forall r m', mbuf_ok m' -> m_ptr m' = m_ptr m -> packet m' = take (Z.to_nat (len m - n)) (packet m) -> Q (r, m') s) ->
  wp (trim m n) s Q.
Proof using Type.
  intros Hm Hn HQ. destruct (Hm) as [H1 H2 H3 H4 H5]. change MBUF_SIZE with 2048 in *.
  unfold trim. rewrite wrap_small by lia. rewrite (proj2 (Z.ltb_ge _ _)) by lia.
  rewrite (as_isize_small n), as_isize_small by lia. apply wp_ret. apply HQ; [|done|].
  - split; cbn; try done; change (off _) with (off m); change MBUF_SIZE with 2048; lia.
  - unfold packet. cbn [len buf]. change (off (mkMBuf _ _ _ _)) with (off m). rewrite take_take, Nat.min_l by lia. done.
Qed.

(** Prepending to a blank buffer gives zero bytes in front of the packet. *)
Lemma prepend_blank m m' n :
  mbuf_ok m -> mbuf_ok m' -> blank m -> 0 <= n -> off m' = off m - n -> len m' = len m + n -> buf m' = buf m ->
  packet m' = replicate (Z.to_nat n) 0 ++ packet m /\ blank m'.
Proof using Type.
  intros Hm Hm' Hb Hn Eo El Eb. destruct (Hm) as [H1 H2 H3 H4 H5], Hm' as [_ _ H3' _ _]. change MBUF_SIZE with 2048 in *.
  assert (Et : forall k, (k <= Z.to_nat (off m))%nat -> take k (buf m) = replicate k 0).
  { intros k Hk. unfold blank in Hb. apply (f_equal (take k)) in Hb.
    by rewrite take_take, take_replicate, !Nat.min_l in Hb by lia. }
  split; [|unfold blank; rewrite Eb; apply Et; lia].
  assert (Ed : drop (Z.to_nat (off m')) (buf m) = replicate (Z.to_nat n) 0 ++ drop (Z.to_nat (off m)) (buf m)).
  { rewrite <-(take_drop (Z.to_nat (off m)) (buf m)) at 1. rewrite Et by done.
    rewrite drop_app_le by (rewrite length_replicate; lia). rewrite drop_replicate. do 2 f_equal. lia. }
  unfold packet. rewrite Eb, Ed, El, take_app_ge by (rewrite length_replicate; lia). rewrite length_replicate.
  do 2 f_equal. lia.
Qed.

Lemma push_ok m hdr s (Q : MBuf -> S -> Prop) :
  mbuf_ok m -> Z.of_nat (length hdr) <= off m ->
  (forall m', mbuf_ok m' -> off m' = off m - Z.of_nat (length hdr) -> m_ptr m' = m_ptr m ->
     packet m' = hdr ++ packet m -> Q m' s) ->
  wp (push m hdr) s Q.
Proof using Type.
  intros Hm Hl HQ. unfold push. eapply wp_bind, prepend_ok; [done|lia|].
  intros m1 Hm1 Eo El Eb Ep. cbn beta iota. destruct (Hm) as [_ _ _ H4 _]. apply store_ok; [done|lia|].
  intros m2 Hm2 Eo2 El2 _ Ep2 Epk _. apply HQ; [done|lia|congruence|]. rewrite Epk. f_equal.
  unfold packet. rewrite Eo, El, Eb. rewrite skipn_firstn_comm, drop_drop. f_equal; [lia|]. f_equal. lia.
Qed.

Lemma pop_ok m n s (Q : Z * MBuf -> S -> Prop) :
  mbuf_ok m -> 0 <= n <= len m ->
  (forall m', mbuf_ok m' -> m_ptr m' = m_ptr m -> buf m' = buf m -> packet m' = drop (Z.to_nat n) (packet m) ->
     len m' = len m - n -> Q (head m, m') s) ->
  wp (pop m n) s Q.
Proof using Type.
  intros Hm Hn HQ. pose proof (head_off m Hm) as Eh. destruct (Hm) as [H1 H2 H3 H4 H5]. change MBUF_SIZE with 2048 in *.
  unfold pop. rewrite (as_isize_small n), as_isize_small by lia. rewrite (proj2 (Z.ltb_ge _ _)) by lia.
  apply wp_ret. set (m' := mkMBuf _ _ _ _).
  assert (Eo : off m' = off m + n).
  { unfold off, m'. cbn [head]. rewrite usize_add_small by lia. unfold off, buf_ptr in *. cbn [m_ptr]. lia. }
  apply HQ; try done.
  - split; rewrite ?Eo; cbn; try done; change MBUF_SIZE with 2048; lia.
  - unfold packet. rewrite Eo. cbn [len buf m']. rewrite skipn_firstn_comm, drop_drop. f_equal; [lia|]. f_equal. lia.
Qed.

Lemma load_head m n s (Q : list Z -> S -> Prop) :
  mbuf_ok m -> 0 <= n <= len m -> Q (take (Z.to_nat n) (packet m)) s -> wp (load m (head m) n) s Q.
Proof using Type.
  intros [H1 H2 H3 H4 H5] Hn HQ. change MBUF_SIZE with 2048 in *. unfold load. fold (off m). change MBUF_SIZE with 2048.
  rewrite (proj2 (Z.leb_le 0 (off m))), (proj2 (Z.leb_le (off m + n) 2048)) by lia. cbn [andb].
  apply wp_ret. unfold packet in HQ. rewrite take_take, Nat.min_l in HQ by lia. done.
Qed.

Lemma pop_short m n s : mbuf_ok m -> len m < n < 2 ^ 63 -> pop m n s = Panic "mbuf_pop".
Proof using Type.
  intros [H1 H2 H3 H4 H5] Hn. unfold pop. rewrite (as_isize_small n) by lia.
  assert (E : as_isize (len m - n) = len m - n).
  { change MBUF_SIZE with 2048 in *. unfold as_isize, wrap. rewrite <-(Z.mod_unique (len m - n) (2 ^ 64) (-1) (len m - n + 2 ^ 64)) by lia.
    rewrite (proj2 (Z.ltb_ge _ _)) by lia. lia. }
  by rewrite E, (proj2 (Z.ltb_lt _ _)) by lia.
Qed.

(** Popping a header and reading it. *)
Lemma pop_load_eq {B} m n (k : list Z -> MBuf -> M S B) s :
  mbuf_ok m -> 0 <= n <= len m ->
  exists m', mbuf_ok m' /\ m_ptr m' = m_ptr m /\ packet m' = drop (Z.to_nat n) (packet m) /\ len m' = len m - n /\
    bind (pop m n) (fun '(p, m') => bind (load m' p n) (fun bs => k bs m')) s = k (take (Z.to_nat n) (packet m)) m' s.
Proof using Type.
  intros Hm Hn.
  destruct (wp_elim _ _ _ (pop_ok m n s (fun x s' => s' = s /\ exists m', x = (head m, m') /\ mbuf_ok m' /\
    m_ptr m' = m_ptr m /\ buf m' = buf m /\ packet m' = drop (Z.to_nat n) (packet m) /\ len m' = len m - n) Hm Hn
    ltac:(naive_solver))) as (x & s' & E & -> & m' & -> & Hm' & Ep & Eb & Epk & El).
  exists m'. split_and!; try done. unfold bind at 1. rewrite E. unfold bind.
  assert (El' : load m' (head m) n s = load m (head m) n s) by (unfold load, buf_ptr; by rewrite Ep, Eb).
  destruct (wp_elim _ _ _ (load_head m n s (fun x s' => x = take (Z.to_nat n) (packet m) /\ s' = s) Hm Hn ltac:(done)))
    as (bs & s' & E2 & -> & ->). by rewrite El', E2.
Qed.

Lemma pop_load {B} m n (k : list Z -> MBuf -> M S B) s (Q : B -> S -> Prop) :
  mbuf_ok m -> 0 <= n <= len m ->
  (forall m', mbuf_ok m' -> m_ptr m' = m_ptr m -> packet m' = drop (Z.to_nat n) (packet m) -> len m' = len m - n ->
     wp (k (take (Z.to_nat n) (packet m)) m') s Q) ->
  wp (bind (pop m n) (fun '(p, m') => bind (load m' p n) (fun bs => k bs m'))) s Q.
Proof using Type.
  intros Hm Hn HQ. destruct (pop_load_eq m n k s Hm Hn) as (m' & H1 & H2 & H3 & H4 & E). unfold wp. rewrite E. by apply HQ.
Qed.

End specs.

(** ** Buffers on the kernel heap

    [Box<MBuf>] on the heap of [Kalloc.v].  [Kalloc.live] lists the blocks in use;
    [hboxes] are the buffers among them. *)

Definition mbuf_layout : Kalloc.Layout := Kalloc.mkLayout 2064 8.

#[export] Instance layout_eq_dec : EqDecision Kalloc.Layout.
Proof. solve_decision. Defined.

Fixpoint remove_block (b : Z * Kalloc.Layout) (lv : list (Z * Kalloc.Layout)) : list (Z * Kalloc.Layout) :=
  match lv with
  | [] => []
  | b' :: lv => if decide (b' = b) then lv else b' :: remove_block b lv
  end.

Definition heap_box_new : M Kalloc.heap Z := fun h =>
  match Kalloc.alloc mbuf_layout (Kalloc.allocator h) with
  | Done (p, a) =>
      if p =? 0 then Panic "allocation error" else Done (p, Kalloc.mkHeap a ((p, mbuf_layout) :: Kalloc.live h))
  | Panic msg => Panic msg
  | Sleep => Sleep
  | OutOfFuel => OutOfFuel
  | Undef => Undef
  end.
Definition heap_box_drop (p : Z) : M Kalloc.heap unit := fun h =>
  match Kalloc.dealloc p mbuf_layout (Kalloc.allocator h) with
  | Done (_, a) => Done (tt, Kalloc.mkHeap a (remove_block (p, mbuf_layout) (Kalloc.live h)))
  | Panic msg => Panic msg
  | Sleep => Sleep
  | OutOfFuel => OutOfFuel
  | Undef => Undef
  end.
#[export] Instance kernel_heap : BoxHeap Kalloc.heap := {| box_new := heap_box_new; box_drop := heap_box_drop |}.

Definition is_box (b : Z * Kalloc.Layout) : option Z := if decide (b.2 = mbuf_layout) then Some b.1 else None.
Definition hboxes (h : Kalloc.heap) : gset Z := list_to_set (omap is_box (Kalloc.live h)).

Lemma elem_of_hboxes p h : p ∈ hboxes h <-> (p, mbuf_layout) ∈ Kalloc.live h.
Proof.
  unfold hboxes. rewrite elem_of_list_to_set, list_elem_of_omap. unfold is_box. split.
  - intros ([q l] & Hin & Hb). cbn in Hb. case_decide; [|done]. by simplify_eq.
  - intros Hin. exists (p, mbuf_layout). split; [done|]. cbn. by rewrite decide_True.
Qed.

Lemma remove_block_split b lv : b ∈ lv -> exists l1 l2, lv = l1 ++ b :: l2 /\ remove_block b lv = l1 ++ l2.
Proof.
  induction lv as [|b' lv IH]; intros Hin; [by apply not_elem_of_nil in Hin|]. cbn [remove_block]. case_decide as E.
  - subst b'. by exists [], lv.
  - apply elem_of_cons in Hin as [->|Hin]; [done|]. destruct (IH Hin) as (l1 & l2 & -> & ->). by exists (b' :: l1), l2.
Qed.

Lemma mbuf_layout_ok : Kalloc.layout_ok mbuf_layout /\ Kalloc.lsize mbuf_layout <= 2 ^ 63 - 8.
Proof. split; [|done]. split; [by exists 3|by vm_compute]. Qed.

Section kernel_heap.
Context (lo hi : Z) (Hlo : 0 < lo) (Hhi : hi <= 2 ^ 63).

Lemma box_apart l1 b l2 b' h :
  Kalloc.heap_inv lo hi h -> Kalloc.live h = l1 ++ b :: l2 -> b' ∈ l1 ++ l2 ->
  range_disjoint (Kalloc.block_range b) (Kalloc.block_range b').
Proof using Type.
  intros (_ & _ & Hd) E Hin. rewrite E in Hd. rewrite fmap_app, fmap_cons in Hd.
  rewrite app_assoc, <-Permutation_middle in Hd. destruct Hd as [Hd _]. rewrite Forall_forall in Hd. apply Hd.
  rewrite <-app_assoc, <-fmap_app. apply elem_of_app. right. by apply list_elem_of_fmap_2.
Qed.

Lemma box_new_heap h p h' :
  Kalloc.heap_inv lo hi h -> box_new h = Done (p, h') ->
  Kalloc.heap_inv lo hi h' /\ lo <= p /\ p + 2064 <= hi /\ p ∉ hboxes h /\ hboxes h' = {[p]} ∪ hboxes h.
Proof using Hlo Hhi.
  intros Hinv E. destruct h as [a lv]. destruct mbuf_layout_ok as [Hl Hm].
  destruct (Kalloc.heap_inv_alloc lo hi Hlo Hhi a lv mbuf_layout Hinv Hl Hm) as (q & a' & Ea & Hc).
  cbn in E. unfold heap_box_new in E. cbn [Kalloc.allocator Kalloc.live] in E. rewrite Ea in E.
  destruct Hc as [[-> ->]|[Hq Hinv']]; [done|]. rewrite (proj2 (Z.eqb_neq _ _)) in E by done. injection E as <- <-.
  split; [done|]. pose proof Hinv' as (_ & Hf & _). apply Forall_cons_iff in Hf as [(_ & Hr & _) _].
  destruct Hr as (_ & _ & Hr1 & Hr2). unfold range_end in Hr2. cbn [fst snd Kalloc.block_range] in Hr1, Hr2.
  change (Kalloc.request_size mbuf_layout) with 2064 in Hr2. split_and!; [done|done| |].
  - rewrite elem_of_hboxes. intros Hin. cbn [Kalloc.live] in Hin.
    pose proof (box_apart [] (q, mbuf_layout) lv (q, mbuf_layout) _ Hinv' eq_refl Hin) as Hd.
    unfold range_disjoint, range_end, Kalloc.block_range in Hd. cbn [fst snd] in Hd.
    change (Kalloc.request_size mbuf_layout) with 2064 in Hd. lia.
  - apply set_eq. intros x. rewrite elem_of_union, elem_of_singleton, !elem_of_hboxes. cbn [Kalloc.live].
    rewrite elem_of_cons. naive_solver.
Qed.

Lemma box_drop_heap h p :
  Kalloc.heap_inv lo hi h -> p ∈ hboxes h ->
  exists h', box_drop p h = Done (tt, h') /\ Kalloc.heap_inv lo hi h' /\ hboxes h' = hboxes h ∖ {[p]}.
Proof using Hlo Hhi.
  intros Hinv Hin. apply elem_of_hboxes in Hin. destruct (remove_block_split _ _ Hin) as (l1 & l2 & El & Er).
  destruct h as [a lv]. cbn [Kalloc.live] in *.
  assert (Hinv0 := Hinv). rewrite El in Hinv.
  destruct (Kalloc.heap_inv_dealloc lo hi Hlo Hhi a l1 p mbuf_layout l2 Hinv) as (a' & Ed & Hinv').
  exists (Kalloc.mkHeap a' (l1 ++ l2)). cbn [box_drop kernel_heap]. unfold heap_box_drop. cbn [Kalloc.allocator Kalloc.live].
  rewrite Ed, Er. split_and!; [done|done|]. apply set_eq. intros x.
  rewrite elem_of_difference, elem_of_singleton, !elem_of_hboxes. cbn [Kalloc.live]. rewrite El, !elem_of_app, elem_of_cons.
  split; [|naive_solver]. intros Hx. split; [naive_solver|]. intros ->.
  pose proof (box_apart l1 (p, mbuf_layout) l2 (p, mbuf_layout) _ Hinv eq_refl ltac:(by apply elem_of_app)) as Hd.
  unfold range_disjoint, range_end, Kalloc.block_range in Hd. cbn [fst snd] in Hd.
  change (Kalloc.request_size mbuf_layout) with 2064 in Hd. lia.
Qed.

(** Two buffers do not overlap, and each lies in the heap. *)
Lemma boxes_apart h p q :
  Kalloc.heap_inv lo hi h -> p ∈ hboxes h -> q ∈ hboxes h -> p <> q -> p + 2064 <= q \/ q + 2064 <= p.
Proof using Type.
  intros Hinv Hp Hq Hne. apply elem_of_hboxes in Hp, Hq. destruct (remove_block_split _ _ Hp) as (l1 & l2 & El & _).
  pose proof (box_apart l1 (p, mbuf_layout) l2 (q, mbuf_layout) _ Hinv El) as Hd.
  rewrite El, elem_of_app, elem_of_cons in Hq.
  assert (Hq' : (q, mbuf_layout) ∈ l1 ++ l2) by (apply elem_of_app; naive_solver).
  specialize (Hd Hq'). unfold range_disjoint, range_end, Kalloc.block_range in Hd. cbn [fst snd] in Hd.
  change (Kalloc.request_size mbuf_layout) with 2064 in Hd. lia.
Qed.
End kernel_heap.

End Mbuf.
