(* ===== verification/Pages.v ===== *)
(** * The interface between the page allocator and virtual memory

    [SinglePage::alloc_into_raw], [PageTable::alloc_into_raw] and
    [free_from_raw] go through the global allocator with the same layout, one
    page aligned to a page.  [PageAlloc] names the two calls, [PageAllocLaws]
    states what page tables rely on, and the instance discharges the laws with the
    kernel heap of [Kalloc.v]. *)

From S2P Require Import Prelude Param Kalloc.

Class PageAlloc (A : Type) := {
  page_alloc : M A (option Z);      (* Box::try_new_zeroed, Ok or AllocError *)
  page_free : Z -> M A unit         (* drop(Box::from_raw(p)) *)
}.

(** The address of a physical page. *)
Definition is_page (p : Z) : Prop := 0 < p < 2 ^ 56 /\ p `mod` PAGESIZE = 0.

Class PageAllocLaws (A : Type) `{!PageAlloc A} := {
  pages_live : A -> gset Z -> Prop;
  page_alloc_law a L :
    pages_live a L ->
    wp page_alloc a (fun r a' =>
      match r with
      | Some p => is_page p /\ p ∉ L /\ pages_live a' ({[p]} ∪ L)
      | None => pages_live a' L
      end);
  page_free_law a L p :
    pages_live a L -> p ∈ L -> wp (page_free p) a (fun _ a' => pages_live a' (L ∖ {[p]}))
}.

(** ** The kernel heap as a page allocator *)

#[export] Instance heap_pages : PageAlloc Kalloc.LinkedListAllocator := {
  page_alloc :=
    let! p := Kalloc.alloc Kalloc.page_layout in ret (if p =? 0 then None else Some p);
  page_free p := Kalloc.dealloc p Kalloc.page_layout
}.

Section instance.
Context (lo hi : Z) (Hlo : 0 < lo) (Hhi : hi <= 2 ^ 56).

(** [L] are the live blocks with the layout of a page. *)
Definition heap_live (a : Kalloc.LinkedListAllocator) (L : gset Z) : Prop :=
  exists lv, Kalloc.heap_inv lo hi (Kalloc.mkHeap a lv) /\
    forall p, p ∈ L <-> (p, Kalloc.page_layout) ∈ lv.

Lemma page_request_size : Kalloc.request_size Kalloc.page_layout = PAGESIZE.
Proof using Type. vm_compute. reflexivity. Qed.

Lemma heap_live_fresh a p lv :
  Kalloc.heap_inv lo hi (Kalloc.mkHeap a ((p, Kalloc.page_layout) :: lv)) ->
  is_page p /\ (p, Kalloc.page_layout) ∉ lv.
Proof using Hlo Hhi.
  intros (_ & Hlive & Hd). simpl in *.
  apply Forall_cons_iff in Hlive as [(_ & Hr & Hal) _]. simpl in *.
  destruct Hr as (? & ? & ? & ?). unfold range_end, Kalloc.block_range in *. simpl in *.
  rewrite page_request_size in *. unfold PAGESIZE in *.
  split; [split; [lia|done]|]. intros Hin.
  apply pairwise_app in Hd as (_ & [Hd _] & _).
  rewrite Forall_forall in Hd. specialize (Hd (p, 4096)).
  assert (range_disjoint (p, 4096) (p, 4096)) as [|]; [|unfold range_end in *; simpl in *; lia..].
  apply Hd. apply list_elem_of_fmap. exists (p, Kalloc.page_layout). split; [|done].
  unfold Kalloc.block_range. simpl. by rewrite page_request_size.
Qed.

Lemma heap_page_alloc a L :
  heap_live a L ->
  wp page_alloc a (fun r a' =>
    match r with
    | Some p => is_page p /\ p ∉ L /\ heap_live a' ({[p]} ∪ L)
    | None => heap_live a' L
    end).
Proof using Hlo Hhi.
  intros (lv & Hinv & HL).
  destruct (Kalloc.heap_inv_alloc lo hi Hlo ltac:(lia) a lv Kalloc.page_layout Hinv
              Kalloc.page_layout_ok ltac:(simpl; lia)) as (p & a' & Heq & Hcase).
  eapply wp_Done; [simpl; by erewrite bind_Done by exact Heq|].
  destruct Hcase as [[-> ->]|[Hp Hinv']]; simpl; [by exists lv|].
  rewrite (proj2 (Z.eqb_neq _ _) Hp). destruct (heap_live_fresh _ _ _ Hinv') as [Hpage Hfresh].
  split_and!; [done| |].
  - by rewrite HL.
  - exists ((p, Kalloc.page_layout) :: lv). split; [done|]. intros q.
    rewrite elem_of_union, elem_of_singleton, elem_of_cons, HL. naive_solver.
Qed.

Lemma heap_page_free a L p :
  heap_live a L -> p ∈ L -> wp (page_free p) a (fun _ a' => heap_live a' (L ∖ {[p]})).
Proof using Hlo Hhi.
  intros (lv & Hinv & HL) Hp. apply HL in Hp as (lv1 & lv2 & ->)%list_elem_of_split.
  destruct (Kalloc.heap_inv_dealloc lo hi Hlo ltac:(lia) a lv1 p _ lv2 Hinv) as (a' & Heq & Hinv').
  eapply wp_Done; [exact Heq|]. exists (lv1 ++ lv2). split; [done|].
  assert (Hn : (p, Kalloc.page_layout) ∉ lv1 ++ lv2).
  { eapply (heap_live_fresh a). destruct Hinv as (? & Hl & Hd). split_and!; [done| |].
    - simpl in *. by rewrite <-Permutation_middle in Hl.
    - simpl in *. rewrite fmap_app, fmap_cons, <-Permutation_middle in Hd. by rewrite fmap_app. }
  intros q. rewrite elem_of_difference, elem_of_singleton, HL, !elem_of_app, elem_of_cons.
  rewrite elem_of_app in Hn. split; [naive_solver|]. intros Hq. split; [naive_solver|].
  intros ->. naive_solver.
Qed.

Definition heap_pages_laws : PageAllocLaws Kalloc.LinkedListAllocator := {|
  pages_live := heap_live;
  page_alloc_law := heap_page_alloc;
  page_free_law := heap_page_free
|}.

End instance.
