(* ===== verification/PageTable.v ===== *)
(** * Page tables and user memory

    Models [kernel/src/page_table.rs] and [kvm_map] of [kernel/src/kvm.rs]:
    three-level Sv39 page tables in physical memory, walking, mapping,
    unmapping, growing and copying user memory, and the copies between kernel
    and user space.

    Physical memory is typed: [tables] holds the pages that are page tables
    (512 entries), [frames] the pages with data (4096 bytes); a raw pointer is
    an address, and following one that is not such a page is the outcome
    [Undef], which the theorems exclude.  Pages come from the
    interface of [Pages.v]. *)

From S2P Require Import Prelude Param Bytes Kalloc Pages.

Module PageTable.

(** ** Flags and entries *)

Definition VALID : Z := Z.shiftl 1 0.
Definition READ : Z := Z.shiftl 1 1.
Definition WRITE : Z := Z.shiftl 1 2.
Definition EXEC : Z := Z.shiftl 1 3.
Definition USER : Z := Z.shiftl 1 4.
Definition GLOB : Z := Z.shiftl 1 5.
Definition ACCES : Z := Z.shiftl 1 6.
Definition DIRTY : Z := Z.shiftl 1 7.

(** [PteFlag::from_bits_truncate] keeps the named flags. *)
Definition ALL_FLAGS : Z := 255.

Definition is_valid (pte : Z) : bool := 0 <? Z.land pte VALID.
Definition is_leaf (pte : Z) : bool := 0 <? Z.land pte (Z.lor (Z.lor READ WRITE) EXEC).
Definition is_user (pte : Z) : bool := 0 <? Z.land pte USER.
Definition get_flag (pte : Z) : Z := Z.land pte ALL_FLAGS.
Definition set_addr (addr perm : Z) : Z := Z.lor addr (Z.lor perm VALID).
Definition as_phys_addr (pte : Z) : Z := wrap 64 (Z.shiftl (Z.shiftr pte 10) 12).
Definition as_page_table (pte : Z) : Z := wrap 64 (Z.shiftl (Z.shiftr pte 10) 12).
Definition as_pte_addr (pa : Z) : Z := wrap 64 (Z.shiftl (Z.shiftr pa 12) 10).
Definition get_index (va level : Z) : Z := Z.land (Z.shiftr va (12 + level * 9)) 0x1FF.

#[global] Arguments get_index _ _ : simpl never.

Definition align_down (addr align : Z) : Z := Z.land addr (usize_not (align ⊟ 1)).
Definition align_up (addr align : Z) : Z := Z.land (addr ⊞ align ⊟ 1) (usize_not (align ⊟ 1)).

Definition as_satp (root : Z) : Z := Z.lor (Z.shiftl 1 63) (Z.shiftr root 12).

(** ** Memory *)

Definition ENTRIES : nat := 512.
Definition empty_table : list Z := replicate ENTRIES 0.
Definition zero_frame : list Z := replicate (Z.to_nat PAGESIZE) 0.

Section model.
Context {A : Type} `{!PageAlloc A}.

Record vm := mkVm {
  heap : A;
  tables : gmap Z (list Z);
  frames : gmap Z (list Z)
}.

Definition on_heap {B} (m : M A B) : M vm B := fun v =>
  match m (heap v) with
  | Done (x, h) => Done (x, mkVm h (tables v) (frames v))
  | Panic msg => Panic msg
  | Sleep => Sleep
  | OutOfFuel => OutOfFuel
  | Undef => Undef
  end.
Definition set_table (p : Z) (es : list Z) : M vm unit :=
  modify (fun v => mkVm (heap v) (<[p := es]> (tables v)) (frames v)).
Definition set_frame (p : Z) (bs : list Z) : M vm unit :=
  modify (fun v => mkVm (heap v) (tables v) (<[p := bs]> (frames v))).

(** [PageTable::alloc_into_raw] and [SinglePage::alloc_into_raw]: zeroed pages. *)
Definition alloc_table : M vm (option Z) :=
  let! o := on_heap page_alloc in
  match o with
  | Some p => set_table p empty_table ;; ret (Some p)
  | None => ret None
  end.
Definition alloc_frame : M vm (option Z) :=
  let! o := on_heap page_alloc in
  match o with
  | Some p => set_frame p zero_frame ;; ret (Some p)
  | None => ret None
  end.
(** [SinglePage::free_from_raw] *)
Definition free_frame (p : Z) : M vm unit :=
  let! v := get in
  let! _ := deref (frames v !! p) in
  put (mkVm (heap v) (tables v) (delete p (frames v))) ;;
  on_heap (page_free p).

Definition read_table (p : Z) : M vm (list Z) :=
  let! v := get in deref (tables v !! p).
Definition read_pte (p i : Z) : M vm Z :=
  let! es := read_table p in unwrap (es !! Z.to_nat i) "index out of bounds".
Definition write_pte (p i pte : Z) : M vm unit :=
  let! es := read_table p in
  assert (Nat.ltb (Z.to_nat i) (length es)) "index out of bounds" ;;
  set_table p (<[Z.to_nat i := pte]> es).
Definition read_frame (p : Z) : M vm (list Z) :=
  let! v := get in deref (frames v !! p).

(** ** Walking *)

(** The loop [for level in (1..=2).rev()] of the walks. *)
Fixpoint walk_levels (levels : list Z) (pt va : Z) : M vm (option Z) :=
  match levels with
  | [] => ret (Some pt)
  | level :: levels =>
      let! pte := read_pte pt (get_index va level) in
      if negb (is_valid pte) then ret None
      else walk_levels levels (as_page_table pte) va
  end.

(** [walk] and [walk_mut]: the entry as its table and index. *)
Definition walk (root va : Z) : M vm (option (Z * Z)) :=
  let! o := walk_levels [2; 1] root va in
  ret (match o with Some pt => Some (pt, get_index va 0) | None => None end).

Fixpoint walk_alloc_levels (levels : list Z) (pt va : Z) : M vm (option Z) :=
  match levels with
  | [] => ret (Some pt)
  | level :: levels =>
      let i := get_index va level in
      let! pte := read_pte pt i in
      if negb (is_valid pte) then
        let! o := alloc_table in
        match o with
        | None => ret None
        | Some p =>
            let pte := set_addr (as_pte_addr p) VALID in
            write_pte pt i pte ;;
            walk_alloc_levels levels (as_page_table pte) va
        end
      else walk_alloc_levels levels (as_page_table pte) va
  end.

Definition walk_alloc (root va : Z) : M vm (option (Z * Z)) :=
  let! o := walk_alloc_levels [2; 1] root va in
  ret (match o with Some pt => Some (pt, get_index va 0) | None => None end).

Definition walk_addr (root va : Z) : M vm (result Z) :=
  let! o := walk root va in
  match o with
  | None => ret (Err "walk_addr: va is not mapped")
  | Some (pt, i) =>
      let! pte := read_pte pt i in
      ret (if negb (is_valid pte) then Err "walk_addr: pte is not valid"
           else if negb (is_user pte) then Err "walk_addr: pte is not user"
           else Ok (as_phys_addr pte))
  end.

(** ** Mapping *)

Fixpoint map_loop (root pa perm : Z) (vas : list Z) : M vm (result unit) :=
  match vas with
  | [] => ret (Ok tt)
  | va :: vas =>
      let! o := walk_alloc root va in
      match o with
      | Some (pt, i) =>
          let! pte := read_pte pt i in
          if is_valid pte then ret (Err "map_pages: remap")
          else
            write_pte pt i (set_addr (as_pte_addr pa) perm) ;;
            map_loop root (pa ⊞ PAGESIZE) perm vas
      | None => ret (Err "map_pages: not enough memory for new page table")
      end
  end.

Definition map_pages (root va pa size perm : Z) : M vm (result unit) :=
  let va_start := align_down va PAGESIZE in
  let va_end := align_up (va ⊞ size) PAGESIZE in
  map_loop root pa perm (step_by va_start va_end PAGESIZE).

Fixpoint unmap_loop (root : Z) (freeing : bool) (vas : list Z) : M vm (result unit) :=
  match vas with
  | [] => ret (Ok tt)
  | va :: vas =>
      let! o := walk root va in
      match o with
      | Some (pt, i) =>
          let! pte := read_pte pt i in
          if negb (is_valid pte) then ret (Err "not mapped")
          else if negb (is_leaf pte) then ret (Err "not a leaf")
          else
            (if freeing then free_frame (as_phys_addr pte) else ret tt) ;;
            write_pte pt i 0 ;;
            unmap_loop root freeing vas
      | None => ret (Err "unmap_pages: pte not found")
      end
  end.

Definition unmap_pages (root va_start n : Z) (freeing : bool) : M vm (result unit) :=
  if negb (va_start `mod` PAGESIZE =? 0) then panic "unmap_pages: not aligned"
  else unmap_loop root freeing (step_by va_start (va_start ⊞ n ⊠ PAGESIZE) PAGESIZE).

(** [r.expect(msg)] on a [Result] *)
Definition expect {B} (m : M vm (result B)) (msg : string) : M vm B :=
  let! r := m in match r with Ok x => ret x | Err _ => panic msg end.

Definition kvm_map (root va pa size perm : Z) : M vm unit :=
  let! r := map_pages root va pa size perm in
  match r with Ok _ => ret tt | Err _ => panic "kvm_map" end.

(** ** User page tables *)

Definition RWXU : Z := Z.lor (Z.lor (Z.lor READ WRITE) EXEC) USER.

Definition uvm_init (root : Z) (code : list Z) : M vm (result unit) :=
  if PAGESIZE <=? Z.of_nat (length code) then ret (Err "uvm_init: more than a page")
  else
    let! o := alloc_frame in
    match o with
    | None => ret (Err "uvm_init: insufficient memory")
    | Some mem =>
        let! r := map_pages root 0 mem PAGESIZE RWXU in
        match r with
        | Err msg => ret (Err msg)
        | Ok _ =>
            let! bs := read_frame mem in
            set_frame mem (splice 0 code bs) ;;
            ret (Ok tt)
        end
    end.

Definition unmap_user_page_table (root sz : Z) : M vm unit :=
  expect (unmap_pages root TRAMPOLINE 1 false) "cannot unmap trampoline" ;;
  expect (unmap_pages root TRAPFRAME 1 false) "cannot unmap trampframe" ;;
  if 0 <? sz then
    expect (unmap_pages root 0 (align_up sz PAGESIZE / PAGESIZE) true) "cannot unmap process"
  else ret tt.

Definition uvm_dealloc (root oldsz newsz : Z) : M vm (result Z) :=
  if oldsz <=? newsz then ret (Ok oldsz)
  else
    let oldsz := align_up oldsz PAGESIZE in
    let newsz := align_up newsz PAGESIZE in
    if newsz <? oldsz then
      let! r := unmap_pages root newsz ((oldsz ⊟ newsz) / PAGESIZE) true in
      ret (match r with Ok _ => Ok newsz | Err msg => Err msg end)
    else ret (Ok newsz).

Fixpoint uvm_alloc_loop (root oldsz newsz : Z) (vas : list Z) : M vm (result Z) :=
  match vas with
  | [] => ret (Ok newsz)
  | va :: vas =>
      let! o := alloc_frame in
      match o with
      | None =>
          let! r := uvm_dealloc root oldsz newsz in
          ret (match r with Err msg => Err msg | Ok _ => Err "uvm_alloc: insufficient memory" end)
      | Some mem =>
          let! r := map_pages root va mem PAGESIZE RWXU in
          match r with
          | Err msg =>
              free_frame mem ;;
              let! r := uvm_dealloc root oldsz newsz in
              ret (match r with Err msg' => Err msg' | Ok _ => Err msg end)
          | Ok _ => uvm_alloc_loop root oldsz newsz vas
          end
      end
  end.

Definition uvm_alloc (root oldsz newsz : Z) : M vm (result Z) :=
  if newsz <=? oldsz then ret (Ok oldsz)
  else
    let oldsz := align_up oldsz PAGESIZE in
    uvm_alloc_loop root oldsz newsz (step_by oldsz newsz PAGESIZE).

Definition uvm_clear (root va : Z) : M vm unit :=
  let! o := walk root va in
  let! '(pt, i) := unwrap o "uvm_clear" in
  let! pte := read_pte pt i in
  write_pte pt i (Z.land pte (usize_not USER)).

Fixpoint uvm_copy_loop (root child : Z) (vas : list Z) : M vm (result unit) :=
  match vas with
  | [] => ret (Ok tt)
  | i :: vas =>
      let! o := walk root i in
      let! '(pt, ix) := unwrap o "uvm_copy: pte should exist" in
      let! pte := read_pte pt ix in
      assert (is_valid pte) "uvm_copy: page not present" ;;
      let pa := as_phys_addr pte in
      let flag := get_flag pte in
      let! o := alloc_frame in
      match o with
      | None => ret (Err "")
      | Some mem =>
          let! bs := read_frame pa in
          set_frame mem bs ;;
          let! r := map_pages child i mem PAGESIZE flag in
          match r with
          | Err _ => free_frame mem ;; ret (Err "")
          | Ok _ => uvm_copy_loop root child vas
          end
      end
  end.

Definition uvm_copy (root child sz : Z) : M vm (result unit) :=
  uvm_copy_loop root child (step_by 0 sz PAGESIZE).

(** ** Copies between kernel and user space

    The kernel side is a list of bytes: what was written to [dst] so far, or
    what is left of [src].  Fuel: every round moves at least one byte. *)

Fixpoint copy_in_loop (fuel : nat) (root srcva count : Z) (dst : list Z)
    : M vm (list Z * result unit) :=
  if 0 <? count then
    match fuel with
    | O => out_of_fuel
    | S fuel =>
        let va_base := align_down srcva PAGESIZE in
        let distance := srcva ⊟ va_base in
        let! r := walk_addr root va_base in
        match r with
        | Err msg => ret (dst, Err msg)
        | Ok pa =>
            let n := Z.min (PAGESIZE ⊟ distance) count in
            let! bs := read_frame pa in
            copy_in_loop fuel root (va_base ⊞ PAGESIZE) (count ⊟ n)
              (dst ++ take (Z.to_nat n) (drop (Z.to_nat distance) bs))
        end
    end
  else ret (dst, Ok tt).

Definition copy_in (root srcva count : Z) : M vm (list Z * result unit) :=
  copy_in_loop (Z.to_nat count) root srcva count [].

Fixpoint copy_out_loop (fuel : nat) (root dstva : Z) (src : list Z) (count : Z)
    : M vm (result unit) :=
  if 0 <? count then
    match fuel with
    | O => out_of_fuel
    | S fuel =>
        let va_base := align_down dstva PAGESIZE in
        let distance := dstva ⊟ va_base in
        let! r := walk_addr root va_base in
        match r with
        | Err msg => ret (Err msg)
        | Ok pa =>
            let n := Z.min (PAGESIZE ⊟ distance) count in
            let! bs := read_frame pa in
            set_frame pa (splice (Z.to_nat distance) (take (Z.to_nat n) src) bs) ;;
            copy_out_loop fuel root (va_base ⊞ PAGESIZE) (drop (Z.to_nat n) src) (count ⊟ n)
        end
    end
  else ret (Ok tt).

Definition copy_out (root dstva : Z) (src : list Z) (count : Z) : M vm (result unit) :=
  copy_out_loop (Z.to_nat count) root dstva src count.

(** The inner loop of [copy_in_str]: [inl] when the terminator is found. *)
Fixpoint str_loop (count : nat) (bs : list Z) (off : nat) (dst : list Z) (i : nat)
    : M vm ((list Z * nat) + (list Z * nat)) :=
  match count with
  | O => ret (inr (dst, i))
  | S count =>
      assert (Nat.ltb i (length dst)) "index out of bounds" ;;
      let c := bs !!! off in
      let dst := <[i := c]> dst in
      if c =? 0 then ret (inl (dst, i))
      else str_loop count bs (S off) dst (S i)
  end.

Fixpoint copy_in_str_loop (fuel : nat) (root : Z) (dst : list Z) (srcva : Z) (i : nat)
    : M vm (list Z * result Z) :=
  if Nat.ltb i (length dst) then
    match fuel with
    | O => out_of_fuel
    | S fuel =>
        let va_base := align_down srcva PAGESIZE in
        let distance := srcva ⊟ va_base in
        let! r := walk_addr root va_base in
        match r with
        | Err msg => ret (dst, Err msg)
        | Ok pa =>
            let count := Z.min (PAGESIZE ⊟ distance) (Z.of_nat (length dst) ⊟ 1) in
            let! bs := read_frame pa in
            let! x := str_loop (Z.to_nat count) bs (Z.to_nat distance) dst i in
            match x with
            | inl (dst, i) => ret (dst, Ok (Z.of_nat i))
            | inr (dst, i) => copy_in_str_loop fuel root dst (va_base ⊞ PAGESIZE) i
            end
        end
    end
  else ret (dst, Err "copy_in_str: dst not enough space").

(** Fuel: [dst.len()] rounds and one more, each but a degenerate one advances. *)
Definition copy_in_str (root : Z) (dst : list Z) (srcva : Z) : M vm (list Z * result Z) :=
  copy_in_str_loop (S (length dst)) root dst srcva 0.

(** ** Dropping a page table

    [Drop for PageTable] frees the tables below; fuel bounds the depth. *)
Definition entry_free (free_from_raw : Z -> M vm unit) (e : Z) : M vm unit :=
  if is_valid e then
    if is_leaf e then panic "freeing a PTE leaf"
    else free_from_raw (as_page_table e)
  else ret tt.

Fixpoint drop_table (fuel : nat) (p : Z) : M vm unit :=
  match fuel with
  | O => out_of_fuel
  | S fuel =>
      let! es := read_table p in
      mfor es (entry_free (drop_table fuel)) ;;
      let! v := get in
      put (mkVm (heap v) (delete p (tables v)) (frames v)) ;;
      on_heap (page_free p)
  end.

(** A fresh table is owned by a [Box] until it is returned: the early returns
    of [?] drop it, with the three levels below.  [trampoline] is the address
    of the code in trampoline.S. *)
Definition alloc_user_page_table (trampoline trapframe : Z) : M vm (option Z) :=
  let! o := alloc_table in
  match o with
  | None => ret None
  | Some pgt =>
      let! r := map_pages pgt TRAMPOLINE trampoline PAGESIZE (Z.lor READ EXEC) in
      match r with
      | Err _ => drop_table 3 pgt ;; ret None
      | Ok _ =>
          let! r := map_pages pgt TRAPFRAME trapframe PAGESIZE (Z.lor READ WRITE) in
          match r with
          | Err _ => drop_table 3 pgt ;; ret None
          | Ok _ => ret (Some pgt)
          end
      end
  end.

(** ** The kernel page table

    [etext] and [trampoline] are linker symbols. *)
Definition RW : Z := Z.lor READ WRITE.
Definition RX : Z := Z.lor READ EXEC.
Definition kvm_regions (etext trampoline : Z) : list (Z * Z * Z * Z) :=
  [ (UART0, UART0, PAGESIZE, RW);
    (VIRTIO0, VIRTIO0, PAGESIZE, RW);
    (ECAM0, ECAM0, 0x10000000, RW);
    (E1000_REGS_ADDR, E1000_REGS_ADDR, 0x20000, RW);
    (CLINT, CLINT, CLINT_MAP_SIZE, RW);
    (PLIC, PLIC, PLIC_MAP_SIZE, RW);
    (KERNBASE, KERNBASE, etext ⊟ KERNBASE, RX);
    (etext, etext, PHYSTOP ⊟ etext, RW);
    (TRAMPOLINE, trampoline, PAGESIZE, RX) ].
Definition kvm_init (root etext trampoline : Z) : M vm unit :=
  mfor (kvm_regions etext trampoline) (fun '(va, pa, size, perm) => kvm_map root va pa size perm).

End model.
Arguments vm : clear implicits.

(** ** Bit arithmetic of entries and indices *)

Lemma lor_low q f k : 0 <= k -> 0 <= f < 2 ^ k -> Z.lor (q * 2 ^ k) f = q * 2 ^ k + f.
Proof.
  intros Hk Hf. assert (Hl : Z.land (q * 2 ^ k) f = 0).
  { apply Z.bits_inj_0. intros j. rewrite Z.land_spec.
    destruct (decide (j < k)) as [Hj|Hj].
    - by rewrite Z.mul_pow2_bits_low.
    - rewrite <-(Z.mod_small f (2 ^ k)) by done.
      rewrite Z.mod_pow2_bits_high by lia. apply andb_false_r. }
  rewrite Z.add_nocarry_lxor by done. symmetry. by apply Z.lxor_lor.
Qed.

Lemma pow2_between k : 0 <= k <= 64 -> 1 <= 2 ^ k <= 2 ^ 64.
Proof. intros. split; [apply (Z.pow_le_mono_r 2 0 k)|apply (Z.pow_le_mono_r 2 k 64)]; lia. Qed.

Lemma as_pte_addr_page p : is_page p -> as_pte_addr p = p / 4096 * 2 ^ 10.
Proof.
  intros [Hp _]. unfold as_pte_addr.
  rewrite Z.shiftl_mul_pow2, Z.shiftr_div_pow2 by lia. apply wrap_small.
  change (2 ^ 12) with 4096. change (2 ^ 10) with 1024.
  assert (0 <= p / 4096 < 2 ^ 44); [|lia].
  split; [apply Z.div_pos; lia|apply Z.div_lt_upper_bound; lia].
Qed.

Section entry.
Context (p perm : Z) (Hp : is_page p) (Hperm : 0 <= perm < 2 ^ 10).

Lemma set_addr_sum :
  set_addr (as_pte_addr p) perm = p / 4096 * 2 ^ 10 + Z.lor perm VALID /\
  0 <= Z.lor perm VALID < 2 ^ 10.
Proof using Hp Hperm.
  assert (Hl : 0 <= Z.lor perm VALID < 2 ^ 10).
  { split; [apply Z.lor_nonneg; split; [lia|done]|].
    apply Z.log2_lt_cancel. rewrite Z.log2_lor by (try done; lia). rewrite Z.log2_pow2 by lia.
    apply Z.max_lub_lt; [|done]. destruct (decide (perm = 0)) as [->|]; [done|].
    apply Z.log2_lt_pow2; lia. }
  split; [|done]. unfold set_addr. rewrite as_pte_addr_page by done. by apply lor_low.
Qed.

Lemma phys_addr_set_addr : as_phys_addr (set_addr (as_pte_addr p) perm) = p.
Proof using Hp Hperm.
  destruct set_addr_sum as [-> Hf]. unfold as_phys_addr.
  rewrite Z.shiftl_mul_pow2, Z.shiftr_div_pow2 by lia.
  rewrite Z.add_comm, Z.div_add, (Z.div_small (Z.lor _ _)) by lia.
  destruct Hp as [Hr Hm]. unfold PAGESIZE in Hm. rewrite Z.add_0_l.
  change (2 ^ 12) with 4096. rewrite Z.mul_comm, <-Z_div_exact_2 by lia. apply wrap_small. lia.
Qed.

(** The low bits of an entry are its flags. *)
Lemma land_set_addr k :
  0 <= k < 2 ^ 10 -> Z.land (set_addr (as_pte_addr p) perm) k = Z.land (Z.lor perm VALID) k.
Proof using Hp Hperm.
  intros Hk. destruct set_addr_sum as [-> Hf]. rewrite <-lor_low by lia.
  rewrite Z.land_lor_distr_l.
  assert (Z.land (p / 4096 * 2 ^ 10) k = 0) as ->; [|apply Z.lor_0_l].
  apply Z.bits_inj_0. intros j. rewrite Z.land_spec. destruct (decide (j < 10)) as [Hj|Hj].
  - by rewrite Z.mul_pow2_bits_low.
  - rewrite <-(Z.mod_small k (2 ^ 10)) by done.
    rewrite Z.mod_pow2_bits_high by lia. apply andb_false_r.
Qed.

Lemma is_valid_set_addr : is_valid (set_addr (as_pte_addr p) perm) = true.
Proof using Hp Hperm.
  unfold is_valid. rewrite land_set_addr by done. rewrite Z.land_lor_distr_l.
  apply Z.ltb_lt. change (Z.land VALID VALID) with 1.
  assert (Z.testbit (Z.lor (Z.land perm VALID) 1) 0 = true) as Hb
    by (rewrite Z.lor_spec; apply orb_true_r).
  assert (0 <= Z.lor (Z.land perm VALID) 1)
    by (apply Z.lor_nonneg; split; [apply Z.land_nonneg; lia|done]).
  destruct (decide (Z.lor (Z.land perm VALID) 1 = 0)) as [E|]; [by rewrite E in Hb|lia].
Qed.

Lemma is_leaf_set_addr : is_leaf (set_addr (as_pte_addr p) perm) = is_leaf perm.
Proof using Hp Hperm.
  unfold is_leaf. rewrite land_set_addr by done. rewrite Z.land_lor_distr_l.
  replace (Z.land VALID (Z.lor (Z.lor READ WRITE) EXEC)) with 0 by reflexivity.
  by rewrite Z.lor_0_r.
Qed.

Lemma is_user_set_addr : is_user (set_addr (as_pte_addr p) perm) = is_user perm.
Proof using Hp Hperm.
  unfold is_user. rewrite land_set_addr by done. rewrite Z.land_lor_distr_l.
  replace (Z.land VALID USER) with 0 by reflexivity. by rewrite Z.lor_0_r.
Qed.

End entry.

Lemma get_index_spec va level : 0 <= level -> get_index va level = (va / 2 ^ (12 + level * 9)) `mod` 512.
Proof.
  intros Hl. unfold get_index. change 511 with (Z.ones 9).
  by rewrite Z.land_ones, Z.shiftr_div_pow2 by lia.
Qed.

Lemma get_index_bound va level : 0 <= level -> 0 <= get_index va level < 512.
Proof. intros. rewrite get_index_spec by done. by apply Z.mod_pos_bound. Qed.

(** Two addresses use the same entry. *)
Definition same_entry (va va' : Z) : Prop :=
  get_index va 2 = get_index va' 2 /\ get_index va 1 = get_index va' 1 /\
  get_index va 0 = get_index va' 0.

#[global] Instance same_entry_dec va va' : Decision (same_entry va va').
Proof. unfold same_entry. apply _. Defined.

Lemma index_sum va :
  0 <= va < 2 ^ 39 -> va `mod` 4096 = 0 ->
  va = get_index va 2 * 2 ^ 30 + get_index va 1 * 2 ^ 21 + get_index va 0 * 2 ^ 12.
Proof.
  intros Hva Hm. rewrite !get_index_spec by lia.
  change (12 + 2 * 9) with 30. change (12 + 1 * 9) with 21. change (12 + 0 * 9) with 12.
  assert (H1 : va / 2 ^ 12 / 512 = va / 2 ^ 21) by (rewrite Z.div_div by lia; done).
  assert (H2 : va / 2 ^ 21 / 512 = va / 2 ^ 30) by (rewrite Z.div_div by lia; done).
  assert (H3 : va / 2 ^ 30 / 512 = 0) by (rewrite Z.div_div by lia; apply Z.div_small; lia).
  pose proof (Z.div_mod (va / 2 ^ 12) 512 ltac:(lia)) as E1. rewrite H1 in E1.
  pose proof (Z.div_mod (va / 2 ^ 21) 512 ltac:(lia)) as E2. rewrite H2 in E2.
  pose proof (Z.div_mod (va / 2 ^ 30) 512 ltac:(lia)) as E3. rewrite H3 in E3.
  pose proof (Z.div_mod va (2 ^ 12) ltac:(lia)) as E0.
  change (2 ^ 12) with 4096 in *. change (2 ^ 21) with (512 * 4096) in *.
  change (2 ^ 30) with (512 * 512 * 4096) in *. rewrite Hm in E0. lia.
Qed.

Lemma same_entry_eq va va' :
  0 <= va < 2 ^ 39 -> 0 <= va' < 2 ^ 39 -> va `mod` 4096 = 0 -> va' `mod` 4096 = 0 ->
  same_entry va va' -> va = va'.
Proof.
  intros ? ? ? ? (E2 & E1 & E0).
  rewrite (index_sum va), (index_sum va') by done. congruence.
Qed.

Lemma align_down_page a : 0 <= a < 2 ^ 64 -> align_down a PAGESIZE = a - a `mod` 4096.
Proof.
  intros Ha. unfold align_down. change (PAGESIZE ⊟ 1) with (2 ^ 12 - 1).
  by rewrite land_usize_not by lia.
Qed.

Lemma align_up_page a : 0 <= a -> a + 4096 <= 2 ^ 64 -> align_up a PAGESIZE = round_up a 4096.
Proof.
  intros Ha Hb. unfold align_up. change (PAGESIZE ⊟ 1) with (2 ^ 12 - 1).
  unfold PAGESIZE. rewrite Kalloc.usize_add_sub, wrap_small by lia.
  by rewrite land_usize_not by lia.
Qed.


(** The address of a page that an Sv39 page table can map. *)
Definition page_va (va : Z) : Prop := 0 <= va < 2 ^ 39 /\ va `mod` 4096 = 0.

(** ** The tree of tables

    [N] names the tables of a page table by their path from the root: [[]] is
    the root, [[i2]] a table of level 1, [[i2; i1]] a table of level 0. *)

Section tree.
Context {A : Type} `{!PageAlloc A} {HL : PageAllocLaws A}.

Record pt_ok (v : vm A) (root : Z) (N : gmap (list Z) Z) : Prop := {
  pt_root : N !! [] = Some root;
  pt_depth path p : N !! path = Some p -> (length path <= 2)%nat;
  pt_table path p : N !! path = Some p ->
    exists es, tables v !! p = Some es /\ length es = ENTRIES;
  pt_dir path p es i e : N !! path = Some p -> (length path < 2)%nat ->
    tables v !! p = Some es -> 0 <= i -> es !! Z.to_nat i = Some e ->
    match N !! (path ++ [i]) with
    | Some q => is_valid e = true /\ is_leaf e = false /\ as_page_table e = q
    | None => is_valid e = false
    end;
  pt_inj path path' p : N !! path = Some p -> N !! path' = Some p -> path = path';
  pt_parent path i p : N !! (path ++ [i]) = Some p -> is_Some (N !! path)
}.

(** The entry for [va]: what the hardware finds, 0 when a table is missing. *)
Definition leaf_table (N : gmap (list Z) Z) (va : Z) : option Z :=
  N !! [get_index va 2; get_index va 1].
Definition pte (v : vm A) (N : gmap (list Z) Z) (va : Z) : Z :=
  match leaf_table N va with
  | Some p => match tables v !! p with
              | Some es => es !!! Z.to_nat (get_index va 0)
              | None => 0
              end
  | None => 0
  end.

(** Every page in use was handed out by the allocator and not yet returned. *)
Definition vm_ok (v : vm A) : Prop :=
  exists L, pages_live (heap v) L /\ dom (tables v) ⊆ L /\ dom (frames v) ⊆ L /\
    dom (tables v) ## dom (frames v).

Lemma wp_on_heap {B} (m : M A B) v (Q : B -> vm A -> Prop) :
  wp m (heap v) (fun x h => Q x (mkVm h (tables v) (frames v))) -> wp (on_heap m) v Q.
Proof using Type. unfold wp, on_heap. by destruct (m (heap v)) as [[x h]| | | |]. Qed.

Lemma index_lt va level (es : list Z) :
  0 <= level -> length es = ENTRIES -> (Z.to_nat (get_index va level) < length es)%nat.
Proof using Type. intros Hl ->. pose proof (get_index_bound va level Hl). unfold ENTRIES. lia. Qed.

Lemma wp_read_pte v p i es e (Q : Z -> vm A -> Prop) :
  tables v !! p = Some es -> es !! Z.to_nat i = Some e -> Q e v -> wp (read_pte p i) v Q.
Proof using Type.
  intros Hp Hi HQ. unfold read_pte, read_table. apply wp_bind, wp_bind, wp_get.
  eapply wp_deref; [done|]. by eapply wp_unwrap.
Qed.

Lemma wp_write_pte v p i es x (Q : unit -> vm A -> Prop) :
  tables v !! p = Some es -> (Z.to_nat i < length es)%nat ->
  Q tt (mkVm (heap v) (<[p := <[Z.to_nat i := x]> es]> (tables v)) (frames v)) ->
  wp (write_pte p i x) v Q.
Proof using Type.
  intros Hp Hi HQ. unfold write_pte, read_table. apply wp_bind, wp_bind, wp_get.
  eapply wp_deref; [done|]. apply wp_bind, wp_assert; [by apply Nat.ltb_lt|]. by apply wp_modify.
Qed.

(** One level of a walk. *)
Lemma dir_entry v root N path p va level :
  pt_ok v root N -> N !! path = Some p -> (length path < 2)%nat -> 0 <= level ->
  exists es e, tables v !! p = Some es /\ length es = ENTRIES /\
    es !! Z.to_nat (get_index va level) = Some e /\
    match N !! (path ++ [get_index va level]) with
    | Some q => is_valid e = true /\ is_leaf e = false /\ as_page_table e = q
    | None => is_valid e = false
    end.
Proof using Type.
  intros Hok Hp Hlen Hl. destruct (pt_table _ _ _ Hok _ _ Hp) as (es & Hes & Hl').
  destruct (lookup_lt_is_Some_2 es (Z.to_nat (get_index va level))) as [e He];
    [by apply index_lt|].
  exists es, e. split_and!; try done. eapply pt_dir; try done.
  apply get_index_bound. done.
Qed.

Lemma walk_level_spec v root N path p va level levels (Q : option Z -> vm A -> Prop) :
  pt_ok v root N -> N !! path = Some p -> (length path < 2)%nat -> 0 <= level ->
  match N !! (path ++ [get_index va level]) with
  | Some q => wp (walk_levels levels q va) v Q
  | None => Q None v
  end ->
  wp (walk_levels (level :: levels) p va) v Q.
Proof using Type.
  intros Hok Hp Hlen Hl HQ. cbn [walk_levels].
  destruct (dir_entry v root N path p va level Hok Hp Hlen Hl) as (es & e & Hes & _ & He & Hm).
  eapply wp_bind, wp_read_pte; [done|done|].
  destruct (N !! (path ++ [get_index va level])) as [q|].
  - destruct Hm as (-> & _ & ->). done.
  - rewrite Hm. by apply wp_ret.
Qed.

(** [walk] finds the table of level 0, if the path to it exists. *)
Lemma walk_spec v root N va (Q : option (Z * Z) -> vm A -> Prop) :
  pt_ok v root N ->
  Q ((fun p => (p, get_index va 0)) <$> leaf_table N va) v ->
  wp (walk root va) v Q.
Proof using Type.
  intros Hok HQ. unfold walk. apply wp_bind.
  eapply (walk_level_spec v root N []); [done|apply (pt_root _ _ _ Hok)|simpl; lia|lia|].
  cbn [app]. destruct (N !! [get_index va 2]) as [p1|] eqn:E1.
  - eapply (walk_level_spec v root N [get_index va 2]); [done|done|simpl; lia|lia|].
    cbn [app]. unfold leaf_table in HQ. destruct (N !! [get_index va 2; get_index va 1]).
    + apply wp_ret. apply wp_ret. done.
    + by apply wp_ret.
  - apply wp_ret. unfold leaf_table in HQ.
    destruct (N !! [get_index va 2; get_index va 1]) eqn:E0; [|done].
    destruct (pt_parent _ _ _ Hok [get_index va 2] (get_index va 1) z E0). congruence.
Qed.

Lemma leaf_entry v root N va p :
  pt_ok v root N -> leaf_table N va = Some p ->
  exists es, tables v !! p = Some es /\ length es = ENTRIES /\
    es !! Z.to_nat (get_index va 0) = Some (pte v N va).
Proof using Type.
  intros Hok Hp. destruct (pt_table _ _ _ Hok _ _ Hp) as (es & Hes & Hl).
  exists es. split_and!; try done. unfold pte. rewrite Hp, Hes. apply list_lookup_lookup_total_lt.
  by apply index_lt.
Qed.

(** [walk_addr] on every branch. *)
Lemma walk_addr_spec v root N va (Q : result Z -> vm A -> Prop) :
  pt_ok v root N ->
  Q (match leaf_table N va with
     | None => Err "walk_addr: va is not mapped"
     | Some _ =>
         if negb (is_valid (pte v N va)) then Err "walk_addr: pte is not valid"
         else if negb (is_user (pte v N va)) then Err "walk_addr: pte is not user"
         else Ok (as_phys_addr (pte v N va))
     end) v ->
  wp (walk_addr root va) v Q.
Proof using Type.
  intros Hok HQ. unfold walk_addr. eapply wp_bind, walk_spec; [done|].
  destruct (leaf_table N va) as [p|] eqn:Hp; simpl; [|by apply wp_ret].
  destruct (leaf_entry _ _ _ _ _ Hok Hp) as (es & Hes & _ & He).
  eapply wp_bind, wp_read_pte; [done|done|]. by apply wp_ret.
Qed.

(** A new page table. *)
Lemma fresh_pt_ok v q : tables v !! q = Some empty_table -> pt_ok v q {[ [] := q ]}.
Proof using Type.
  intros Hq. split.
  - apply lookup_singleton_eq.
  - intros path p [<- _]%lookup_singleton_Some. simpl. lia.
  - intros path p [_ <-]%lookup_singleton_Some. by exists empty_table.
  - intros path p es i e [<- <-]%lookup_singleton_Some _ Hes _ He.
    rewrite Hq in Hes. injection Hes as <-. apply lookup_replicate in He as [-> _].
    by rewrite lookup_singleton_ne by done.
  - intros path path' p [<- _]%lookup_singleton_Some [<- _]%lookup_singleton_Some. done.
  - intros path i p [H _]%lookup_singleton_Some. by destruct path.
Qed.

(** ** Adding tables *)

Definition in_tree (N : gmap (list Z) Z) (p : Z) : Prop := exists path, N !! path = Some p.

(** From [v, N] to [v', N']: new tables, all of them on fresh pages, and no
    change of memory outside the tree. *)
Record extends (v : vm A) (N : gmap (list Z) Z) (v' : vm A) (N' : gmap (list Z) Z) : Prop := {
  ex_sub : N ⊆ N';
  ex_fresh path p : N' !! path = Some p -> N !! path = None ->
    tables v !! p = None /\ frames v !! p = None;
  ex_frames : frames v' = frames v;
  ex_other p : ~ in_tree N' p -> tables v' !! p = tables v !! p
}.

(** ... and no change of an entry of level 0. *)
Definition grows (v : vm A) (N : gmap (list Z) Z) (v' : vm A) (N' : gmap (list Z) Z) : Prop :=
  extends v N v' N' /\ forall va, pte v' N' va = pte v N va.

Lemma extends_refl v N : extends v N v N.
Proof using Type. split; try done. congruence. Qed.

Lemma extends_trans v1 N1 v2 N2 v3 N3 root :
  pt_ok v2 root N2 -> extends v1 N1 v2 N2 -> extends v2 N2 v3 N3 -> extends v1 N1 v3 N3.
Proof using Type.
  intros Hok [Hs1 Hf1 Hfr1 Ho1] [Hs2 Hf2 Hfr2 Ho2]. split.
  - by trans N2.
  - intros path p H3 H1. destruct (N2 !! path) as [p'|] eqn:H2.
    + assert (p' = p) as -> by (eapply lookup_weaken in H2; [|exact Hs2]; congruence). eauto.
    + destruct (Hf2 _ _ H3 H2) as [Ht Hfr]. rewrite Hfr1 in Hfr. split; [|done].
      rewrite <-Ho1; [done|]. intros [path' H']. destruct (pt_table _ _ _ Hok _ _ H') as (es & ? & _).
      congruence.
  - congruence.
  - intros p Hp. rewrite Ho2 by done. apply Ho1. intros [path H]. apply Hp. exists path.
    by eapply lookup_weaken.
Qed.

Lemma grows_refl v N : grows v N v N.
Proof using Type. split; [apply extends_refl|done]. Qed.

Lemma grows_trans v1 N1 v2 N2 v3 N3 root :
  pt_ok v2 root N2 -> grows v1 N1 v2 N2 -> grows v2 N2 v3 N3 -> grows v1 N1 v3 N3.
Proof using Type.
  intros Hok [H1 P1] [H2 P2]. split; [by eapply extends_trans|]. intros va. by rewrite P2.
Qed.

Lemma is_valid_0 : is_valid 0 = false.
Proof using Type. done. Qed.

Lemma app_single_inj (path path' : list Z) i i' : path ++ [i] = path' ++ [i'] -> path = path' /\ i = i'.
Proof using Type. apply app_inj_tail. Qed.

Section add_child.
Context (v : vm A) (root : Z) (N : gmap (list Z) Z) (path : list Z) (p i q : Z) (es : list Z).
Context (Hok : pt_ok v root N) (Hp : N !! path = Some p) (Hlen : (length path < 2)%nat).
Context (Hes : tables v !! p = Some es) (Hi : 0 <= i < 512) (Hnone : N !! (path ++ [i]) = None).
Context (Hq : is_page q) (Hqt : tables v !! q = None) (Hqf : frames v !! q = None).

Let e := set_addr (as_pte_addr q) VALID.
Let v' := mkVm (heap v) (<[p := <[Z.to_nat i := e]> es]> (<[q := empty_table]> (tables v))) (frames v).
Let N' := <[path ++ [i] := q]> N.

Lemma child_pq : p <> q.
Proof using Hok Hp Hlen Hes Hi Hnone Hq Hqt Hqf. intros ->. congruence. Qed.

Lemma child_other p' : p' <> p -> p' <> q -> tables v' !! p' = tables v !! p'.
Proof using Hok Hp Hlen Hes Hi Hnone Hq Hqt Hqf. intros. unfold v'. simpl. by rewrite !lookup_insert_ne. Qed.

Lemma child_not_q path' p' : N !! path' = Some p' -> p' <> q.
Proof using Hok Hp Hlen Hes Hi Hnone Hq Hqt Hqf.
  intros H ->. destruct (pt_table _ _ _ Hok _ _ H) as (? & ? & _). congruence.
Qed.

Lemma child_table path' p' :
  N' !! path' = Some p' -> exists es', tables v' !! p' = Some es' /\ length es' = ENTRIES.
Proof using Hok Hp Hlen Hes Hi Hnone Hq Hqt Hqf.
  intros [[<- <-]|[_ H]]%lookup_insert_Some.
  - exists empty_table. unfold v'. simpl. rewrite lookup_insert_ne, lookup_insert_eq by apply child_pq.
    done.
  - destruct (pt_table _ _ _ Hok _ _ H) as (es' & Hes' & Hl'). pose proof (child_not_q _ _ H).
    destruct (decide (p' = p)) as [->|].
    + exists (<[Z.to_nat i := e]> es). unfold v'. simpl. rewrite lookup_insert_eq.
      split; [done|]. rewrite length_insert. congruence.
    + exists es'. by rewrite child_other.
Qed.

Lemma child_dir path' p' es' j e' :
  N' !! path' = Some p' -> (length path' < 2)%nat -> tables v' !! p' = Some es' -> 0 <= j ->
  es' !! Z.to_nat j = Some e' ->
  match N' !! (path' ++ [j]) with
  | Some q => is_valid e' = true /\ is_leaf e' = false /\ as_page_table e' = q
  | None => is_valid e' = false
  end.
Proof using Hok Hp Hlen Hes Hi Hnone Hq Hqt Hqf.
  intros Hp' Hlen' Hes' Hj He'. apply lookup_insert_Some in Hp' as [[<- <-]|[Hne Hp']].
  - unfold v' in Hes'. simpl in Hes'. rewrite lookup_insert_ne, lookup_insert_eq in Hes' by apply child_pq.
    injection Hes' as <-. apply lookup_replicate in He' as [-> _]. unfold N'.
    rewrite lookup_insert_ne.
    + destruct (N !! ((path ++ [i]) ++ [j])) eqn:E; [|done].
      destruct (pt_parent _ _ _ Hok _ _ _ E). congruence.
    + intros E. apply (f_equal length) in E. rewrite !length_app in E. simpl in E. lia.
  - pose proof (child_not_q _ _ Hp') as Hnq. destruct (decide (p' = p)) as [->|Hpp].
    + assert (path' = path) as -> by by eapply pt_inj.
      unfold v' in Hes'. simpl in Hes'. rewrite lookup_insert_eq in Hes'. injection Hes' as <-.
      destruct (decide (j = i)) as [->|Hji].
      * rewrite list_lookup_insert_eq in He' by (by eapply lookup_lt_Some in He'; rewrite length_insert in He').
        injection He' as <-. unfold N'. rewrite lookup_insert_eq.
        unfold e.
        split_and!; [by apply is_valid_set_addr|by rewrite is_leaf_set_addr|by apply phys_addr_set_addr].
      * rewrite list_lookup_insert_ne in He' by lia. unfold N'.
        rewrite lookup_insert_ne by (intros [_ ?]%app_single_inj; done).
        by eapply (pt_dir _ _ _ Hok path p es j e').
    + rewrite child_other in Hes' by done. unfold N'.
      rewrite lookup_insert_ne by (intros [-> _]%app_single_inj; congruence).
      by eapply (pt_dir _ _ _ Hok path' p' es' j e').
Qed.

Lemma child_ok : pt_ok v' root N'.
Proof using Hok Hp Hlen Hes Hi Hnone Hq Hqt Hqf.
  split.
  - unfold N'. rewrite lookup_insert_ne; [apply (pt_root _ _ _ Hok)|]. by destruct path.
  - intros path' p' [[<- <-]|[_ H]]%lookup_insert_Some; [rewrite length_app; simpl; lia|].
    by eapply pt_depth.
  - apply child_table.
  - apply child_dir.
  - intros p1 p2 x [[<- <-]|[_ H1]]%lookup_insert_Some [[<- Hx]|[_ H2]]%lookup_insert_Some; try done.
    + by pose proof (child_not_q _ _ H2).
    + subst x. by pose proof (child_not_q _ _ H1).
    + by eapply pt_inj.
  - intros path' j x [[E _]|[_ H]]%lookup_insert_Some.
    + apply app_single_inj in E as [-> _]. unfold N'. rewrite lookup_insert_ne; [by eexists|].
      intros E. apply (f_equal length) in E. rewrite length_app in E. simpl in E. lia.
    + destruct (pt_parent _ _ _ Hok _ _ _ H) as [y Hy]. apply lookup_insert_is_Some'. eauto.
Qed.

Lemma child_pte va : pte v' N' va = pte v N va.
Proof using Hok Hp Hlen Hes Hi Hnone Hq Hqt Hqf.
  unfold pte, leaf_table. destruct (decide ([get_index va 2; get_index va 1] = path ++ [i])) as [E|E].
  - rewrite E. unfold N', v'. rewrite lookup_insert_eq. simpl.
    rewrite lookup_insert_ne, lookup_insert_eq by apply child_pq. rewrite Hnone.
    apply list_lookup_total_correct, lookup_replicate. split; [done|].
    pose proof (get_index_bound va 0). unfold ENTRIES. lia.
  - unfold N'. rewrite lookup_insert_ne by done.
    destruct (N !! [get_index va 2; get_index va 1]) as [p0|] eqn:E0; [|done].
    rewrite child_other; [done| |by eapply child_not_q]. intros ->.
    assert ([get_index va 2; get_index va 1] = path) as <- by by eapply pt_inj. simpl in Hlen. lia.
Qed.

Lemma child_grows : grows v N v' N'.
Proof using Hok Hp Hlen Hes Hi Hnone Hq Hqt Hqf.
  split; [|apply child_pte]. split.
  - by apply insert_subseteq.
  - intros path' p' [[<- <-]|[_ H]]%lookup_insert_Some; [done|]. congruence.
  - done.
  - intros p' Hp'. apply child_other.
    + intros ->. apply Hp'. exists path. unfold N'. rewrite lookup_insert_ne; [done|].
      intros E. apply (f_equal length) in E. rewrite length_app in E. simpl in E. lia.
    + intros ->. apply Hp'. exists (path ++ [i]). apply lookup_insert_eq.
Qed.

End add_child.

Lemma pt_ok_ext v v' root N : tables v' = tables v -> pt_ok v root N -> pt_ok v' root N.
Proof using Type. intros E []. split; rewrite ?E; done. Qed.

Lemma vm_ok_dom v v' :
  vm_ok v -> heap v' = heap v -> dom (tables v') = dom (tables v) ->
  dom (frames v') = dom (frames v) -> vm_ok v'.
Proof using Type. intros (L & ?) Eh Et Ef. exists L. by rewrite Eh, Et, Ef. Qed.

Lemma on_page_alloc v (Q : option Z -> vm A -> Prop) :
  vm_ok v ->
  (forall h, vm_ok (mkVm h (tables v) (frames v)) -> Q None (mkVm h (tables v) (frames v))) ->
  (forall h q L, is_page q -> tables v !! q = None -> frames v !! q = None ->
     pages_live h ({[q]} ∪ L) -> dom (tables v) ⊆ L -> dom (frames v) ⊆ L ->
     dom (tables v) ## dom (frames v) -> q ∉ L ->
     Q (Some q) (mkVm h (tables v) (frames v))) ->
  wp (on_heap page_alloc) v Q.
Proof using Type.
  intros (L & Hlive & Ht & Hf & Hd) HN HS. apply wp_on_heap.
  eapply wp_mono; [by apply page_alloc_law|]. intros [q|] h Hq.
  - destruct Hq as (Hp & Hni & Hl). eapply HS; try done.
    + apply not_elem_of_dom. set_solver.
    + apply not_elem_of_dom. set_solver.
  - apply HN. by exists L.
Qed.

Lemma alloc_table_spec v (Q : option Z -> vm A -> Prop) :
  vm_ok v ->
  (forall v', vm_ok v' -> tables v' = tables v -> frames v' = frames v -> Q None v') ->
  (forall q v', vm_ok v' -> is_page q -> tables v !! q = None -> frames v !! q = None ->
     tables v' = <[q := empty_table]> (tables v) -> frames v' = frames v -> Q (Some q) v') ->
  wp alloc_table v Q.
Proof using Type.
  intros Hv HN HS. unfold alloc_table. apply wp_bind, on_page_alloc; [done| |].
  - intros h Hh. apply wp_ret. by apply HN.
  - intros h q L Hq Hqt Hqf Hlive Ht Hf Hd Hni. apply wp_bind, wp_modify, wp_ret. simpl.
    apply HS; try done. exists ({[q]} ∪ L). simpl. rewrite dom_insert_L. split_and!; set_solver.
Qed.

Lemma alloc_frame_spec v (Q : option Z -> vm A -> Prop) :
  vm_ok v ->
  (forall v', vm_ok v' -> tables v' = tables v -> frames v' = frames v -> Q None v') ->
  (forall q v', vm_ok v' -> is_page q -> tables v !! q = None -> frames v !! q = None ->
     tables v' = tables v -> frames v' = <[q := zero_frame]> (frames v) -> Q (Some q) v') ->
  wp alloc_frame v Q.
Proof using Type.
  intros Hv HN HS. unfold alloc_frame. apply wp_bind, on_page_alloc; [done| |].
  - intros h Hh. apply wp_ret. by apply HN.
  - intros h q L Hq Hqt Hqf Hlive Ht Hf Hd Hni. apply wp_bind, wp_modify, wp_ret. simpl.
    apply HS; try done. exists ({[q]} ∪ L). simpl. rewrite dom_insert_L. split_and!; set_solver.
Qed.

Lemma free_frame_spec v p bs (Q : unit -> vm A -> Prop) :
  vm_ok v -> frames v !! p = Some bs ->
  (forall v', vm_ok v' -> tables v' = tables v -> frames v' = delete p (frames v) -> Q tt v') ->
  wp (free_frame p) v Q.
Proof using Type.
  intros (L & Hlive & Ht & Hf & Hd) Hp HQ. unfold free_frame. apply wp_bind, wp_get.
  eapply wp_bind, wp_deref; [done|]. apply wp_bind, wp_put, wp_on_heap. simpl.
  assert (p ∈ dom (frames v)) by (apply elem_of_dom; eauto).
  eapply wp_mono; [eapply page_free_law; [done|set_solver]|]. intros [] h Hh.
  apply HQ; try done. exists (L ∖ {[p]}). simpl. rewrite dom_delete_L. split_and!; set_solver.
Qed.

(** One level of [walk_alloc]: the table below exists, is added, or memory is
    exhausted. *)
Lemma walk_alloc_level v root N path p va level levels (Q : option Z -> vm A -> Prop) :
  vm_ok v -> pt_ok v root N -> N !! path = Some p -> (length path < 2)%nat -> 0 <= level ->
  (forall v' N' q, vm_ok v' -> pt_ok v' root N' -> grows v N v' N' ->
     N' !! (path ++ [get_index va level]) = Some q -> wp (walk_alloc_levels levels q va) v' Q) ->
  (forall v', vm_ok v' -> pt_ok v' root N -> grows v N v' N -> Q None v') ->
  wp (walk_alloc_levels (level :: levels) p va) v Q.
Proof using Type.
  intros Hv Hok Hp Hlen Hl HS HN. cbn [walk_alloc_levels].
  destruct (dir_entry v root N path p va level Hok Hp Hlen Hl) as (es & e & Hes & Hle & He & Hm).
  eapply wp_bind, wp_read_pte; [done|done|].
  destruct (N !! (path ++ [get_index va level])) as [q|] eqn:E.
  { destruct Hm as (-> & _ & ->). simpl. eapply HS; eauto using grows_refl. }
  rewrite Hm. simpl negb. cbv iota. pose proof (get_index_bound va level Hl) as Hb.
  apply wp_bind, alloc_table_spec; [done| |].
  - intros v' Hv' Et Ef. apply wp_ret, HN; [done|by eapply pt_ok_ext|]. split.
    + split; try done; [congruence|]. intros. by rewrite Et.
    + intros va'. unfold pte. by rewrite Et.
  - intros q v' Hv' Hq Hqt Hqf Et Ef.
    assert (Hpq : p <> q) by (intros ->; congruence).
    eapply wp_bind, wp_write_pte; [rewrite Et, lookup_insert_ne; done|by apply index_lt|].
    set (v2 := mkVm (heap v') _ (frames v')).
    set (v3 := mkVm (heap v') (tables v2) (frames v)).
    assert (Hv2 : v2 = v3) by (unfold v3, v2; by rewrite Ef).
    pose proof (child_ok v root N path p (get_index va level) q es Hok Hp Hlen Hes Hb E Hq Hqt Hqf) as Hc.
    pose proof (child_grows v root N path p (get_index va level) q es Hok Hp Hlen Hes Hb E Hq Hqt Hqf) as Hg.
    assert (Et2 : tables v2 = <[p := <[Z.to_nat (get_index va level) := set_addr (as_pte_addr q) VALID]> es]>
                     (<[q := empty_table]> (tables v))) by (unfold v2; simpl; by rewrite Et).
    unfold as_page_table. change (wrap 64 _) with (as_phys_addr (set_addr (as_pte_addr q) VALID)).
    rewrite phys_addr_set_addr by done. eapply (HS v2 (<[path ++ [get_index va level] := q]> N)).
    + eapply vm_ok_dom; [exact Hv'|done| |done]. unfold v2. simpl. rewrite dom_insert_L, Et.
      assert (p ∈ dom (tables v)) by (apply elem_of_dom; eauto). set_solver.
    + eapply pt_ok_ext; [|exact Hc]. simpl. exact Et2.
    + destruct Hg as [[G1 G2 G3 G4] G5]. split; [split; [done|done|done|]|].
      * intros p' Hp'. rewrite Et2. by apply G4.
      * intros va'. rewrite <-G5. unfold pte. rewrite Et2. done.
    + apply lookup_insert_eq.
Qed.

Lemma walk_alloc_spec v root N va (Q : option (Z * Z) -> vm A -> Prop) :
  vm_ok v -> pt_ok v root N ->
  (forall v' N' p, vm_ok v' -> pt_ok v' root N' -> grows v N v' N' ->
     leaf_table N' va = Some p -> Q (Some (p, get_index va 0)) v') ->
  (forall v' N', vm_ok v' -> pt_ok v' root N' -> grows v N v' N' -> Q None v') ->
  wp (walk_alloc root va) v Q.
Proof using Type.
  intros Hv Hok HS HN. unfold walk_alloc. apply wp_bind.
  eapply (walk_alloc_level v root N []); [done|done|apply (pt_root _ _ _ Hok)|simpl; lia|lia| |].
  - intros v1 N1 q1 Hv1 Hok1 Hg1 Hq1.
    eapply (walk_alloc_level v1 root N1 [get_index va 2]); [done|done|done|simpl; lia|lia| |].
    + intros v2 N2 q2 Hv2 Hok2 Hg2 Hq2. apply wp_ret, wp_ret. eapply HS; try done.
      exact (grows_trans v N v1 N1 v2 N2 root Hok1 Hg1 Hg2).
    + intros v2 Hv2 Hok2 Hg2. apply wp_ret. eapply HN; try done.
      exact (grows_trans v N v1 N1 v2 N1 root Hok1 Hg1 Hg2).
  - intros v1 Hv1 Hok1 Hg1. apply wp_ret. by eapply HN.
Qed.

(** ** Changing an entry of level 0 *)

Section set_leaf.
Context (v : vm A) (root : Z) (N : gmap (list Z) Z) (va p x : Z) (es : list Z).
Context (Hok : pt_ok v root N) (Hp : leaf_table N va = Some p) (Hes : tables v !! p = Some es).

Let v' := mkVm (heap v) (<[p := <[Z.to_nat (get_index va 0) := x]> es]> (tables v)) (frames v).

Lemma leaf_len : length es = ENTRIES.
Proof using Hok Hp Hes. destruct (pt_table _ _ _ Hok _ _ Hp) as (? & ? & ?). congruence. Qed.

Lemma leaf_pte va' : pte v' N va' = if decide (same_entry va va') then x else pte v N va'.
Proof using Hok Hp Hes.
  unfold pte. destruct (leaf_table N va') as [p'|] eqn:E'.
  - unfold v'. cbn [tables]. destruct (decide (p' = p)) as [->|Hne].
    + rewrite lookup_insert_eq, Hes.
      assert (H12 : [get_index va' 2; get_index va' 1] = [get_index va 2; get_index va 1])
        by by eapply pt_inj. injection H12 as H2 H1.
      pose proof (get_index_bound va 0 ltac:(lia)). pose proof (get_index_bound va' 0 ltac:(lia)).
      destruct (decide (get_index va' 0 = get_index va 0)) as [E0|E0].
      * rewrite decide_True by done. rewrite E0. apply list_lookup_total_insert_eq.
        apply index_lt; [lia|apply leaf_len].
      * rewrite decide_False by (intros (_ & _ & ?); congruence).
        apply list_lookup_total_insert_ne. lia.
    + rewrite lookup_insert_ne by done. rewrite decide_False; [done|].
      intros (H2 & H1 & _). apply Hne. unfold leaf_table in *. rewrite <-H2, <-H1 in E'. congruence.
  - rewrite decide_False; [done|]. intros (H2 & H1 & _). unfold leaf_table in *.
    rewrite <-H2, <-H1 in E'. congruence.
Qed.

Lemma leaf_pte_page y :
  page_va va -> page_va y -> pte v' N y = if decide (y = va) then x else pte v N y.
Proof using Hok Hp Hes.
  intros [Hb Hm] [Hb' Hm']. rewrite leaf_pte. destruct (decide (y = va)) as [->|Hne].
  - by rewrite decide_True.
  - rewrite decide_False; [done|]. intros Hs. apply Hne. symmetry. by apply same_entry_eq.
Qed.

Lemma leaf_ok : pt_ok v' root N.
Proof using Hok Hp Hes.
  destruct (Hok) as [H1 H2 H3 H4 H5 H6]. split; try done.
  - intros path p' Hp'. unfold v'. simpl. destruct (decide (p' = p)) as [->|Hne].
    + rewrite lookup_insert_eq. eexists. split; [done|]. rewrite length_insert. apply leaf_len.
    + rewrite lookup_insert_ne by done. eauto.
  - intros path p' es' i e Hp' Hlen Hes'. destruct (decide (p' = p)) as [->|Hne].
    + assert (path = [get_index va 2; get_index va 1]) as -> by by eapply H5. simpl in Hlen. lia.
    + unfold v' in Hes'. simpl in Hes'. rewrite lookup_insert_ne in Hes' by done.
      by apply (H4 path p').
Qed.

Lemma leaf_extends : extends v N v' N.
Proof using Hok Hp Hes.
  split; try done; [congruence|]. intros p' Hp'. unfold v'. simpl. rewrite lookup_insert_ne; [done|].
  intros <-. apply Hp'. by eexists.
Qed.

Lemma leaf_vm_ok : vm_ok v -> vm_ok v'.
Proof using Hok Hp Hes.
  intros Hv. eapply vm_ok_dom; [exact Hv|done| |done]. unfold v'. simpl. rewrite dom_insert_L.
  assert (p ∈ dom (tables v)) by (apply elem_of_dom; eauto). set_solver.
Qed.

End set_leaf.

(** ** Mapping a range *)

(** The entries of the first [k] addresses are set, the others are unchanged. *)
Definition mapped_prefix (f f' : Z -> Z) (pa perm : Z) (vas : list Z) (k : nat) : Prop :=
  (forall j va, (j < k)%nat -> vas !! j = Some va ->
     is_valid (f va) = false /\ f' va = set_addr (as_pte_addr (pa + 4096 * Z.of_nat j)) perm) /\
  (forall va', page_va va' -> va' ∉ take k vas -> f' va' = f va').

Lemma mapped_prefix_0 f pa perm vas : mapped_prefix f f pa perm vas 0.
Proof using Type. split; [lia|done]. Qed.

Lemma mapped_prefix_cons f f1 f' pa perm va vas k :
  page_va va -> Forall page_va vas -> va ∉ vas -> is_valid (f va) = false ->
  (forall x, page_va x -> f1 x = if decide (x = va) then set_addr (as_pte_addr pa) perm else f x) ->
  mapped_prefix f1 f' (pa + 4096) perm vas k ->
  mapped_prefix f f' pa perm (va :: vas) (S k).
Proof using Type.
  intros Hva Hvas Hni Hinv Hf1 [Hm Ho]. split.
  - intros [|j] va' Hj Hl; simpl in Hl.
    + injection Hl as <-. split; [done|]. rewrite Ho, Hf1, decide_True by
        (try done; intros ?%elem_of_take_elem; done). do 2 f_equal. lia.
    + destruct (Hm j va' ltac:(lia) Hl) as [H1 H2]. rewrite Forall_lookup in Hvas.
      rewrite Hf1, decide_False in H1; [|intros ->; apply Hni; by eapply list_elem_of_lookup_2|eauto].
      split; [done|]. rewrite H2. do 2 f_equal. lia.
  - intros va' Hva' Hn. simpl in Hn. rewrite not_elem_of_cons in Hn. destruct Hn as [Hne Hn].
    rewrite Ho, Hf1, decide_False; done.
Qed.

Definition map_result (v : vm A) (N : gmap (list Z) Z) (root pa perm : Z) (vas : list Z)
    (r : result unit) (v' : vm A) : Prop :=
  vm_ok v' /\ exists N' k, pt_ok v' root N' /\ extends v N v' N' /\
    mapped_prefix (pte v N) (pte v' N') pa perm vas k /\ (k <= length vas)%nat /\
    match r with
    | Ok _ => k = length vas
    | Err msg => exists va, vas !! k = Some va /\
        (msg = "map_pages: remap" /\ is_valid (pte v N va) = true \/
         msg = "map_pages: not enough memory for new page table")
    end.

Lemma map_loop_spec root perm vas : forall v N pa,
  vm_ok v -> pt_ok v root N -> Forall page_va vas -> NoDup vas ->
  0 <= pa -> pa + 4096 * Z.of_nat (length vas) <= 2 ^ 56 ->
  wp (map_loop root pa perm vas) v (map_result v N root pa perm vas).
Proof using Type.
  induction vas as [|va vas IH]; intros v N pa Hv Hok Hvas Hnd Hpa Hbound; cbn [map_loop].
  { apply wp_ret. split; [done|]. exists N, 0%nat. 
    split_and!; [done|apply extends_refl|apply mapped_prefix_0|done|done]. }
  apply Forall_cons_iff in Hvas as [Hva Hvas]. apply NoDup_cons in Hnd as [Hni Hnd].
  cbn [length] in Hbound. eapply wp_bind, walk_alloc_spec; [done|done| |].
  2:{ intros v1 N1 Hv1 Hok1 [Hex1 Hp1]. apply wp_ret. split; [done|]. exists N1, 0%nat.
      split_and!; [done|done| |simpl; lia|exists va; auto].
      split; [lia|]. intros va' _ _. apply Hp1. }
  intros v1 N1 p Hv1 Hok1 [Hex1 Hp1] Hp.
  destruct (leaf_entry _ _ _ _ _ Hok1 Hp) as (es & Hes & Hl & He).
  eapply wp_bind, wp_read_pte; [done|done|]. destruct (is_valid (pte v1 N1 va)) eqn:Hval.
  { apply wp_ret. split; [done|]. exists N1, 0%nat. split_and!; [done|done| |simpl; lia|].
    - split; [lia|]. intros va' _ _. apply Hp1.
    - exists va. split; [done|]. left. by rewrite <-Hp1. }
  eapply wp_bind, wp_write_pte; [done|by apply index_lt|].
  set (x := set_addr (as_pte_addr pa) perm).
  pose proof (leaf_ok v1 root N1 va p x es Hok1 Hp Hes) as Hok2.
  pose proof (fun y => leaf_pte_page v1 root N1 va p x es Hok1 Hp Hes y) as Hpte2.
  pose proof (leaf_extends v1 root N1 va p x es Hok1 Hp Hes) as Hex2.
  pose proof (leaf_vm_ok v1 root N1 va p x es Hok1 Hp Hes Hv1) as Hv2.
  set (v2 := mkVm (heap v1) _ (frames v1)) in *. rewrite usize_add_small by (unfold PAGESIZE; lia).
  eapply wp_mono; [eapply (IH v2 N1 (pa + PAGESIZE)); try done; unfold PAGESIZE; lia|].
  intros r v3 (Hv3 & N3 & k & Hok3 & Hex3 & Hmap3 & Hk & Hr). split; [done|]. exists N3, (S k).
  split_and!; [done| | |simpl; lia|].
  - eapply extends_trans; [exact Hok2| |exact Hex3]. eapply extends_trans; [exact Hok1|done|done].
  - eapply (mapped_prefix_cons _ (pte v2 N1)); try done; [by rewrite <-Hp1|].
    intros y Hy. rewrite Hpte2 by done. by destruct (decide (y = va)).
  - destruct r as [|msg]; [simpl; lia|]. destruct Hr as (va' & Hl' & Hc). exists va'. split; [done|].
    assert (va' ∈ vas) as Hin by by eapply list_elem_of_lookup_2.
    destruct Hc as [[-> Hc]|]; [left; split; [done|]|by right].
    rewrite Forall_forall in Hvas. rewrite Hpte2, decide_False, Hp1 in Hc; [done| |done|by apply Hvas].
    by intros ->.
Qed.

(** The pages that [va, va + size) touches. *)
Definition pages_of (va size : Z) : list Z :=
  step_by (va - va `mod` 4096) (round_up (va + size) 4096) 4096.

Lemma pages_of_page_va va size :
  0 <= va -> va + size <= 2 ^ 39 -> Forall page_va (pages_of va size).
Proof using Type.
  intros Hva Hs. apply Forall_forall. intros x [Hx Hm]%elem_of_step_by; [|lia].
  pose proof (sub_mod_le va 4096). destruct (round_up_spec (va + size) 4096) as [Hr Hrm]; [lia|].
  assert (Hxm : x `mod` 4096 = 0).
  { replace x with ((x - (va - va `mod` 4096)) + (va - va `mod` 4096)) by lia.
    by rewrite Z.add_mod, Hm, sub_mod_mod by lia. }
  split; [|done]. split; [lia|].
  assert (round_up (va + size) 4096 <= 2 ^ 39); [|lia].
  destruct (decide (2 ^ 39 < round_up (va + size) 4096)); [|lia].
  pose proof (Z.div_mod (round_up (va + size) 4096) 4096 ltac:(lia)). lia.
Qed.

Lemma map_range v root N va pa size perm :
  vm_ok v -> pt_ok v root N -> 0 <= va -> 0 <= size -> va + size <= 2 ^ 39 ->
  0 <= pa -> pa + 4096 * Z.of_nat (length (pages_of va size)) <= 2 ^ 56 ->
  wp (map_pages root va pa size perm) v (map_result v N root pa perm (pages_of va size)).
Proof using Type.
  intros Hv Hok Hva Hsz Hend Hpa Hpe. unfold map_pages.
  rewrite usize_add_small, align_down_page, align_up_page by lia.
  apply map_loop_spec; try done; [by apply pages_of_page_va|by apply NoDup_step_by].
Qed.

(** One page. *)
Lemma pages_of_single va : page_va va -> pages_of va 4096 = [va].
Proof using Type.
  intros [Hb Hm]. unfold pages_of. rewrite Hm, round_up_aligned; [|lia|].
  - unfold step_by. replace ((va + 4096 - (va - 0) + 4096 - 1) / 4096) with 1
      by (replace (va + 4096 - (va - 0) + 4096 - 1) with (4095 + 1 * 4096) by lia;
          by rewrite Z.div_add by lia).
    simpl. f_equal. lia.
  - by rewrite <-Z.add_mod_idemp_r, Z.mod_same, Z.add_0_r by lia.
Qed.

Lemma map_page_spec v root N va pa perm (Q : result unit -> vm A -> Prop) :
  vm_ok v -> pt_ok v root N -> page_va va -> is_page pa ->
  (forall v' N', vm_ok v' -> pt_ok v' root N' -> extends v N v' N' ->
     is_valid (pte v N va) = false ->
     (forall y, page_va y ->
        pte v' N' y = if decide (y = va) then set_addr (as_pte_addr pa) perm else pte v N y) ->
     Q (Ok tt) v') ->
  (forall v' N' msg, vm_ok v' -> pt_ok v' root N' -> extends v N v' N' ->
     (forall y, page_va y -> pte v' N' y = pte v N y) -> Q (Err msg) v') ->
  wp (map_pages root va pa PAGESIZE perm) v Q.
Proof using Type.
  intros Hv Hok Hva [Hpa Hpm] HS HE. destruct (Hva) as [Hb Hm].
  assert (Hend : va + 4096 <= 2 ^ 39 /\ pa + 4096 <= 2 ^ 56).
  { pose proof (Z.div_mod va 4096 ltac:(lia)). pose proof (Z.div_mod pa 4096 ltac:(lia)).
    unfold PAGESIZE in Hpm. lia. }
  eapply wp_mono; [apply (map_range v root N va pa PAGESIZE perm); unfold PAGESIZE;
    rewrite ?pages_of_single by done; try done; simpl; lia|].
  unfold PAGESIZE. rewrite pages_of_single by done.
  intros r v' (Hv' & N' & k & Hok' & Hex & [Hmap Hother] & Hk & Hr). destruct r as [[]|msg].
  - simpl in Hr. subst k. destruct (Hmap 0%nat va ltac:(lia) eq_refl) as [Hinv Hset].
    apply (HS v' N'); try done. intros y Hy. destruct (decide (y = va)) as [->|Hne].
    + by rewrite Hset, Z.mul_0_r, Z.add_0_r.
    + apply Hother; [done|]. simpl. set_solver.
  - destruct Hr as (va' & Hl & _). assert (k = 0%nat) as -> by (destruct k; [done|done]).
    apply (HE v' N'); try done. intros y Hy. apply Hother; [done|]. simpl. set_solver.
Qed.

(** ** Properties *)

(** C7: [map_pages] on every branch.  For a range below 2^39 and a well-formed
    page table the call returns.  With [Ok] the [j]-th page of the range,
    unmapped before, has an entry for the physical page [pa + 4096 * j] with
    the given permissions; with an error exactly the pages before the one at
    fault are mapped, and the error says whether that page was mapped already
    or memory ran out.  No other entry changes, new tables are on fresh pages,
    no data page is touched and no other page table changes. *)
Theorem map_pages_maps v root N va pa size perm :
  vm_ok v -> pt_ok v root N -> 0 <= va -> 0 <= size -> va + size <= 2 ^ 39 ->
  0 <= pa -> pa + 4096 * Z.of_nat (length (pages_of va size)) <= 2 ^ 56 ->
  wp (map_pages root va pa size perm) v (map_result v N root pa perm (pages_of va size)).
Proof using Type.
  apply map_range.
Qed.

End tree.

(** ** Witnesses

    Memory of 16 pages, the first of them an empty page table. *)

Definition sample_heap : Kalloc.LinkedListAllocator := Kalloc.mkAllocator [(0x80000000, 65536)].
Definition sample_root : Z := 0x80000000.
Definition sample_vm : vm Kalloc.LinkedListAllocator :=
  mkVm (Kalloc.mkAllocator [(0x80001000, 61440)]) {[sample_root := empty_table]} ∅.
Definition sample_tree : gmap (list Z) Z := {[ [] := sample_root ]}.

Definition sample_laws : PageAllocLaws Kalloc.LinkedListAllocator :=
  heap_pages_laws 0x80000000 0x80010000 ltac:(done) ltac:(done).
#[local] Existing Instance sample_laws.

Lemma sample_alloc : page_alloc sample_heap = Done (Some sample_root, heap sample_vm).
Proof. vm_compute. reflexivity. Qed.

Lemma sample_vm_ok : vm_ok sample_vm.
Proof.
  assert (Hl : pages_live sample_heap ∅).
  { exists []. split; [|set_solver]. split_and!; simpl; [|done|by repeat constructor].
    repeat constructor; vm_compute; done. }
  pose proof (page_alloc_law sample_heap ∅ Hl) as H. unfold wp in H. rewrite sample_alloc in H.
  destruct H as (_ & _ & H). exists {[sample_root]}. split_and!.
  - by rewrite union_empty_r_L in H.
  - simpl. by rewrite dom_singleton_L.
  - set_solver.
  - set_solver.
Qed.

Lemma sample_pt_ok : pt_ok sample_vm sample_root sample_tree.
Proof.
  apply fresh_pt_ok. apply lookup_singleton_eq.
Qed.

Lemma map_pages_maps_witness :
  wp (map_pages sample_root 4096 sample_root 4096 (Z.lor READ WRITE)) sample_vm
    (map_result sample_vm sample_tree sample_root sample_root (Z.lor READ WRITE) [4096]).
Proof.
  rewrite <-(pages_of_single 4096) by done.
  apply (map_pages_maps sample_vm sample_root sample_tree); try done.
  - apply sample_vm_ok.
  - apply sample_pt_ok.
Defined.

End PageTable.
