(* ===== verification/UserMem.v ===== *)
(** * User memory

    The user half of [kernel/src/page_table.rs], over the walks and mappings
    of [PageTable.v]: what an address space is, and how [uvm_alloc],
    [uvm_dealloc], [uvm_copy], [uvm_clear], [copy_in], [copy_out] and
    [copy_in_str] change it.  [umem] is the memory a user program sees: a
    partial function from addresses to bytes. *)

From S2P Require Import Prelude Param Bytes Kalloc Pages PageTable.

Module UserMem.
Import PageTable.

Section space_theory.
Context {A : Type} `{!PageAlloc A} {HL : PageAllocLaws A}.
Implicit Types v w : vm A.

(** ** User address spaces

    The trampoline and the trapframe are shared with the kernel; every other
    mapped page belongs to the address space, on a frame of its own. *)

Definition special (va : Z) : Prop := va = TRAMPOLINE \/ va = TRAPFRAME.

#[global] Instance special_dec va : Decision (special va).
Proof using Type. unfold special. apply _. Defined.

Definition owned (v : vm A) (N : gmap (list Z) Z) (va : Z) : Prop :=
  page_va va /\ ~ special va /\ is_valid (pte v N va) = true.

Record space_ok (v : vm A) (N : gmap (list Z) Z) : Prop := {
  sp_leaf va : owned v N va -> is_leaf (pte v N va) = true;
  sp_frame va : owned v N va ->
    exists bs, frames v !! as_phys_addr (pte v N va) = Some bs /\ length bs = 4096%nat;
  sp_inj va va' : owned v N va -> owned v N va' ->
    as_phys_addr (pte v N va) = as_phys_addr (pte v N va') -> va = va';
  sp_special va : special va -> is_user (pte v N va) = false
}.

(** The byte at a user address, as the hardware and [walk_addr] find it. *)
Definition umem (v : vm A) (N : gmap (list Z) Z) (a : Z) : option Z :=
  let va := a - a `mod` 4096 in
  if is_valid (pte v N va) && is_user (pte v N va)
  then frames v !! as_phys_addr (pte v N va) ≫= (fun bs => bs !! Z.to_nat (a `mod` 4096))
  else None.

Section space.
Context (v v' : vm A) (N N' : gmap (list Z) Z) (va x : Z).
Context (Hsp : space_ok v N) (Hva : page_va va) (Hns : ~ special va).
Context (Hx : forall y, page_va y -> pte v' N' y = if decide (y = va) then x else pte v N y).

Lemma special_page_va y : special y -> page_va y.
Proof using Type. intros [-> | ->]; by vm_compute. Qed.

Lemma owned_other y : y <> va -> owned v' N' y <-> owned v N y.
Proof using Hx. intros Hne. unfold owned. split; intros (Hp & ? & Hv); (split_and!; [done..|]);
  (rewrite Hx in * by done); by rewrite decide_False in *. Qed.

Lemma pte_other y : y <> va -> page_va y -> pte v' N' y = pte v N y.
Proof using Hx. intros. by rewrite Hx, decide_False. Qed.

(** A page mapped on a fresh frame. *)
Lemma space_map q bs perm :
  x = set_addr (as_pte_addr q) perm -> is_page q -> 0 <= perm < 2 ^ 10 -> is_leaf perm = true ->
  frames v !! q = None -> frames v' = <[q := bs]> (frames v) -> length bs = 4096%nat ->
  space_ok v' N'.
Proof using Hsp Hva Hns Hx.
  intros Ex Hq Hperm Hleaf Hfresh Ef Hlen.
  assert (Hxa : as_phys_addr x = q) by (rewrite Ex; by apply phys_addr_set_addr).
  assert (Hne : forall y, y <> va -> owned v' N' y ->
            as_phys_addr (pte v' N' y) <> q).
  { intros y Hy Ho E. rewrite (pte_other y) in E by (done || apply Ho).
    apply owned_other in Ho; [|done]. destruct (sp_frame _ _ Hsp y Ho) as (? & ? & _). congruence. }
  assert (Hva' : pte v' N' va = x) by by rewrite Hx, decide_True.
  split.
  - intros y Ho. destruct (decide (y = va)) as [->|Hy].
    + rewrite Hva', Ex, is_leaf_set_addr; done.
    + rewrite pte_other by (done || apply Ho). apply (sp_leaf _ _ Hsp). by apply owned_other.
  - intros y Ho. destruct (decide (y = va)) as [->|Hy].
    + exists bs. by rewrite Hva', Hxa, Ef, lookup_insert_eq.
    + pose proof (Hne y Hy Ho). rewrite Ef, lookup_insert_ne by done.
      rewrite pte_other by (done || apply Ho). apply (sp_frame _ _ Hsp). by apply owned_other.
  - intros y y' Ho Ho' E. destruct (decide (y = va)) as [->|Hy], (decide (y' = va)) as [->|Hy']; try done.
    + rewrite Hva', Hxa in E. by destruct (Hne y' Hy' Ho').
    + rewrite Hva', Hxa in E. by destruct (Hne y Hy Ho).
    + rewrite !pte_other in E by (done || apply Ho || apply Ho').
      apply (sp_inj _ _ Hsp); [by apply owned_other..|done].
  - intros y Hy. rewrite pte_other; [by apply (sp_special _ _ Hsp)| |by apply special_page_va].
    by intros ->.
Qed.

(** A page unmapped, the frames of the others kept. *)
Lemma space_unmap :
  x = 0 ->
  (forall y, y <> va -> owned v N y ->
     frames v' !! as_phys_addr (pte v N y) = frames v !! as_phys_addr (pte v N y)) ->
  space_ok v' N'.
Proof using Hsp Hva Hx.
  intros Ex Hf.
  assert (Hne : forall y, owned v' N' y -> y <> va /\ owned v N y /\ pte v' N' y = pte v N y).
  { intros y Ho. assert (y <> va) as Hy.
    { intros ->. destruct Ho as (_ & _ & Hv). by rewrite Hx, decide_True, Ex in Hv. }
    split_and!; [done|by apply owned_other|apply pte_other; [done|apply Ho]]. }
  split.
  - intros y (Hy & Ho & ->)%Hne. by apply (sp_leaf _ _ Hsp).
  - intros y (Hy & Ho & ->)%Hne. rewrite Hf by done. by apply (sp_frame _ _ Hsp).
  - intros y y' (Hy & Ho & ->)%Hne (Hy' & Ho' & ->)%Hne. by apply (sp_inj _ _ Hsp).
  - intros y Hy. rewrite Hx by by apply special_page_va.
    destruct (decide (y = va)); [by rewrite Ex|by apply (sp_special _ _ Hsp)].
Qed.

Lemma page_of_bounds a : 0 <= a < 2 ^ 39 -> page_va (a - a `mod` 4096).
Proof using Type.
  intros Ha. pose proof (sub_mod_le a 4096). split; [lia|apply sub_mod_mod].
Qed.

Lemma page_of_iff a : a - a `mod` 4096 = va <-> va <= a < va + 4096.
Proof using Hva.
  destruct Hva as [_ Hm]. pose proof (Z.mod_pos_bound a 4096 ltac:(lia)). split; [lia|].
  intros Ha. assert (a `mod` 4096 = a - va); [|lia]. symmetry.
  apply (Z.mod_unique _ _ (va / 4096)); [lia|]. pose proof (Z.div_mod va 4096). lia.
Qed.

Lemma umem_owned w M a :
  space_ok w M -> 0 <= a < 2 ^ 39 ->
  is_valid (pte w M (a - a `mod` 4096)) && is_user (pte w M (a - a `mod` 4096)) = true ->
  owned w M (a - a `mod` 4096).
Proof using Type.
  intros Hw Ha [Hv Hu]%andb_prop. split_and!; [by apply page_of_bounds| |done].
  intros Hs. by rewrite (sp_special _ _ Hw) in Hu.
Qed.

Lemma umem_other a :
  (forall y, y <> va -> owned v N y ->
     frames v' !! as_phys_addr (pte v N y) = frames v !! as_phys_addr (pte v N y)) ->
  0 <= a < 2 ^ 39 -> ~ (va <= a < va + 4096) -> umem v' N' a = umem v N a.
Proof using Hsp Hva Hx.
  intros Hf Ha Hn. rewrite <-page_of_iff in Hn. unfold umem. cbv zeta.
  rewrite pte_other by (done || by apply page_of_bounds).
  destruct (is_valid _ && is_user _) eqn:E; [|done].
  rewrite Hf; [done|done|]. by apply umem_owned.
Qed.

Lemma umem_page a :
  va <= a < va + 4096 ->
  umem v' N' a = if is_valid x && is_user x
                 then frames v' !! as_phys_addr x ≫= (fun bs => bs !! Z.to_nat (a - va))
                 else None.
Proof using Hva Hx.
  intros Ha%page_of_iff. unfold umem. rewrite Ha, Hx, decide_True by done.
  replace (a `mod` 4096) with (a - va) by lia. done.
Qed.

End space.

(** ** Growing an address space *)

(** From [v, N] to [v', N']: new tables and new frames on fresh pages, and no
    change of tables outside the tree. *)
Record enlarges (v : vm A) (N : gmap (list Z) Z) (v' : vm A) (N' : gmap (list Z) Z) : Prop := {
  en_sub : N ⊆ N';
  en_fresh path p : N' !! path = Some p -> N !! path = None ->
    tables v !! p = None /\ frames v !! p = None;
  en_frames : frames v ⊆ frames v';
  en_other p : ~ in_tree N' p -> tables v' !! p = tables v !! p
}.

Lemma extends_enlarges v N v' N' : extends v N v' N' -> enlarges v N v' N'.
Proof using Type. intros [H1 H2 H3 H4]. split; try done. by rewrite H3. Qed.

Lemma enlarges_frames v N v' :
  tables v' = tables v -> frames v ⊆ frames v' -> enlarges v N v' N.
Proof using Type. intros Et Hf. split; try done; [congruence|]. intros. by rewrite Et. Qed.

Lemma enlarges_trans v1 N1 v2 N2 v3 N3 root :
  pt_ok v2 root N2 -> enlarges v1 N1 v2 N2 -> enlarges v2 N2 v3 N3 -> enlarges v1 N1 v3 N3.
Proof using Type.
  intros Hok [Hs1 Hf1 Hfr1 Ho1] [Hs2 Hf2 Hfr2 Ho2]. split.
  - by trans N2.
  - intros path p H3 H1. destruct (N2 !! path) as [p'|] eqn:H2.
    + assert (p' = p) as -> by (eapply lookup_weaken in H2; [|exact Hs2]; congruence). eauto.
    + destruct (Hf2 _ _ H3 H2) as [Ht Hfr]. split; [|by eapply lookup_weaken_None].
      rewrite <-Ho1; [done|]. intros [path' H']. destruct (pt_table _ _ _ Hok _ _ H') as (es & ? & _).
      congruence.
  - by trans (frames v2).
  - intros p Hp. rewrite Ho2 by done. apply Ho1. intros [path H]. apply Hp. exists path.
    by eapply lookup_weaken.
Qed.

Lemma pte_tables v v' N y : tables v' = tables v -> pte v' N y = pte v N y.
Proof using Type. intros E. unfold pte. by rewrite E. Qed.

Lemma space_ok_ext v v' N : tables v' = tables v -> frames v' = frames v -> space_ok v N -> space_ok v' N.
Proof using Type.
  intros Et Ef. assert (Ep : pte v' N = pte v N) by (unfold pte; by rewrite Et).
  intros []. split; unfold owned in *; rewrite Ep; try done. by rewrite Ef.
Qed.

(** Mapping a page on the fresh frame [q] of [v1]: the address space of [v]
    with one more page. *)
Lemma map_fresh_page v v1 root N va q bs perm (Q : result unit -> vm A -> Prop) :
  vm_ok v1 -> pt_ok v root N -> space_ok v N -> page_va va -> ~ special va ->
  tables v1 = tables v -> is_page q -> frames v !! q = None -> frames v1 = <[q := bs]> (frames v) ->
  length bs = 4096%nat -> 0 <= perm < 2 ^ 10 -> is_leaf perm = true ->
  (forall v' N', vm_ok v' -> pt_ok v' root N' -> space_ok v' N' -> enlarges v N v' N' ->
     is_valid (pte v N va) = false -> frames v' = <[q := bs]> (frames v) ->
     (forall y, page_va y -> pte v' N' y =
        if decide (y = va) then set_addr (as_pte_addr q) perm else pte v N y) ->
     (forall a, 0 <= a < 2 ^ 39 -> umem v' N' a =
        if decide (va <= a < va + 4096)
        then (if is_user perm then bs !! Z.to_nat (a - va) else None) else umem v N a) ->
     Q (Ok tt) v') ->
  (forall v' N' msg, vm_ok v' -> pt_ok v' root N' -> enlarges v N v' N' ->
     (forall y, page_va y -> pte v' N' y = pte v N y) ->
     frames v' = <[q := bs]> (frames v) -> Q (Err msg) v') ->
  wp (map_pages root va q PAGESIZE perm) v1 Q.
Proof using Type.
  intros Hv1 Hok Hsp Hva Hns Et Hq Hfresh Ef Hlen Hperm Hleaf HS HE.
  assert (Hok1 : pt_ok v1 root N) by by eapply pt_ok_ext.
  assert (Hen : enlarges v N v1 N).
  { apply enlarges_frames; [done|]. rewrite Ef. by apply insert_subseteq. }
  assert (Hne : forall y, owned v N y -> as_phys_addr (pte v N y) <> q).
  { intros y Hy E. destruct (sp_frame _ _ Hsp y Hy) as (? & ? & _). congruence. }
  apply (map_page_spec v1 root N); try done.
  - intros v' N' Hv' Hok' Hex Hinv Hx. rewrite (pte_tables v) in Hinv by done.
    assert (Hx' : forall y, page_va y -> pte v' N' y =
        if decide (y = va) then set_addr (as_pte_addr q) perm else pte v N y)
      by (intros y Hy; rewrite Hx, (pte_tables v) by done; done).
    assert (Ef' : frames v' = <[q := bs]> (frames v)) by (rewrite (ex_frames _ _ _ _ Hex); done).
    apply (HS v' N'); try done.
    + by eapply (space_map v v' N N').
    + eapply enlarges_trans; [exact Hok1|done|by apply extends_enlarges].
    + intros a Ha. destruct (decide (va <= a < va + 4096)) as [Hin|Hin].
      * rewrite (umem_page v v' N N' va _ Hva Hx') by done.
        rewrite is_valid_set_addr, is_user_set_addr, phys_addr_set_addr by done.
        simpl. rewrite Ef', lookup_insert_eq. by destruct (is_user perm).
      * eapply (umem_other v v' N N' va); try done. intros y Hy Ho.
        rewrite Ef', lookup_insert_ne; [done|]. intros E. by apply (Hne y).
  - intros v' N' msg Hv' Hok' Hex Hx. apply (HE v' N'); try done.
    + eapply enlarges_trans; [exact Hok1|done|by apply extends_enlarges].
    + intros y Hy. by rewrite Hx, (pte_tables v) by done.
    + rewrite (ex_frames _ _ _ _ Hex). done.
Qed.

(** The outcome of growing by the pages [vas]: the first [k] are new, zeroed
    user memory; everything else is as before. *)
Definition grown (v : vm A) (N : gmap (list Z) Z) (root : Z) (vas : list Z) (k : nat)
    (v' : vm A) (N' : gmap (list Z) Z) : Prop :=
  pt_ok v' root N' /\ space_ok v' N' /\ enlarges v N v' N' /\ (k <= length vas)%nat /\
  (forall y, page_va y -> y ∉ take k vas -> pte v' N' y = pte v N y) /\
  forall a, 0 <= a < 2 ^ 39 -> umem v' N' a =
    if decide (a - a `mod` 4096 ∈ take k vas) then Some 0 else umem v N a.

Lemma grown_0 v N root vas v' N' :
  pt_ok v' root N' -> space_ok v N -> enlarges v N v' N' -> frames v' = frames v ->
  (forall y, page_va y -> pte v' N' y = pte v N y) -> grown v N root vas 0 v' N'.
Proof using Type.
  intros Hok Hsp Hen Ef Hp. assert (Hx : forall y, page_va y -> pte v' N' y =
    if decide (y = TRAMPOLINE) then pte v N TRAMPOLINE else pte v N y).
  { intros y Hy. rewrite Hp by done. by destruct (decide (y = TRAMPOLINE)) as [->|]. }
  split_and!; [done| |done|lia|auto|].
  - destruct Hsp as [S1 S2 S3 S4].
    assert (Ho : forall y, owned v' N' y -> owned v N y)
      by (intros y (? & ? & Hv); split_and!; try done; by rewrite <-Hp).
    split.
    + intros y Hy. rewrite Hp by apply Hy. auto.
    + intros y Hy. rewrite Hp, Ef by apply Hy. auto.
    + intros y y' Hy Hy'. rewrite !Hp by (apply Hy || apply Hy'). auto.
    + intros y Hy. rewrite Hp by by apply special_page_va. auto.
  - intros a Ha. rewrite decide_False by (simpl; set_solver). unfold umem.
    by rewrite Hp, Ef by by apply page_of_bounds.
Qed.

Lemma take_cons_app (va : Z) vas k : take (S k) (va :: vas) = va :: take k vas.
Proof using Type. done. Qed.

Lemma grown_cons v N v1 N1 root va vas k v' N' :
  page_va va -> va ∉ vas -> pt_ok v1 root N1 -> enlarges v N v1 N1 ->
  (forall y, page_va y -> y <> va -> pte v1 N1 y = pte v N y) ->
  (forall a, 0 <= a < 2 ^ 39 -> umem v1 N1 a =
     if decide (va <= a < va + 4096) then Some 0 else umem v N a) ->
  grown v1 N1 root vas k v' N' -> grown v N root (va :: vas) (S k) v' N'.
Proof using Type.
  intros Hva Hni Hok1 Hen1 Hp1 Hm1 (Hok & Hsp & Hen & Hk & Hp & Hm).
  split_and!; [done|done| | | |].
  - exact (enlarges_trans v N v1 N1 v' N' root Hok1 Hen1 Hen).
  - simpl. lia.
  - intros y Hy. rewrite take_cons_app, not_elem_of_cons. intros [? ?]. rewrite Hp by done. auto.
  - intros a Ha. rewrite Hm, Hm1 by done. rewrite take_cons_app.
    pose proof (page_of_iff va Hva a) as Hiff.
    destruct (decide (a - a `mod` 4096 ∈ take k vas)) as [Hin|Hin].
    + rewrite decide_True; [done|]. by right.
    + destruct (decide (va <= a < va + 4096)) as [Hr|Hr].
      * rewrite decide_True; [done|]. apply elem_of_cons. left. by apply Hiff.
      * rewrite decide_False; [done|]. rewrite elem_of_cons. rewrite Hiff. tauto.
Qed.

Lemma uvm_alloc_loop_spec root oldsz newsz vas : forall v N,
  vm_ok v -> pt_ok v root N -> space_ok v N -> Forall page_va vas ->
  Forall (fun va => ~ special va) vas -> NoDup vas -> (vas <> [] -> oldsz <= newsz) ->
  wp (uvm_alloc_loop root oldsz newsz vas) v (fun r v' => vm_ok v' /\
    exists N' k, grown v N root vas k v' N' /\
      match r with Ok sz => sz = newsz /\ k = length vas | Err _ => (k < length vas)%nat end).
Proof using Type.
  induction vas as [|va vas IH]; intros v N Hv Hok Hsp Hvas Hns Hnd Hle; cbn [uvm_alloc_loop].
  { apply wp_ret. split; [done|]. exists N, 0%nat. split; [|done].
    apply grown_0; try done. by apply enlarges_frames. }
  apply Forall_cons_iff in Hvas as [Hva Hvas]. apply Forall_cons_iff in Hns as [Hn Hns].
  apply NoDup_cons in Hnd as [Hni Hnd].
  assert (Hde : forall v, uvm_dealloc root oldsz newsz v = Done (Ok oldsz, v))
    by (intros w; specialize (Hle ltac:(done)); unfold uvm_dealloc;
        destruct (Z.leb_spec oldsz newsz); [done|lia]).
  apply wp_bind, alloc_frame_spec; [done| |].
  - intros v1 Hv1 Et Ef. eapply wp_bind, wp_Done; [apply Hde|]. apply wp_ret. split; [done|].
    exists N, 0%nat. split; [|simpl; lia].
    apply grown_0; try done; [by eapply pt_ok_ext|apply enlarges_frames; [done|by rewrite Ef]|].
    intros y _. by apply pte_tables.
  - intros q v1 Hv1 Hq Hqt Hqf Et Ef. apply wp_bind.
    eapply (map_fresh_page v v1 root N va q zero_frame RWXU); try done.
    + intros v2 N2 Hv2 Hok2 Hsp2 Hen2 _ Ef2 Hp2 Hm2.
      eapply wp_mono; [apply (IH v2 N2); try done; intros _; by apply Hle|].
      intros r v3 (Hv3 & N3 & k & Hg & Hr). split; [done|]. exists N3, (S k). split.
      * eapply grown_cons; [..|exact Hg]; try done.
        -- intros y Hy Hne. by rewrite Hp2, decide_False.
        -- intros a Ha. rewrite Hm2 by done. destruct (decide (va <= a < va + 4096)); [|done].
           change (is_user RWXU) with true. cbv iota. apply lookup_replicate.
           split; [done|]. unfold PAGESIZE. lia.
      * destruct r as [sz|msg]; [naive_solver|]. simpl. lia.
    + intros v2 N2 msg Hv2 Hok2 Hen2 Hp2 Ef2. eapply wp_bind, free_frame_spec; [done| |].
      { rewrite Ef2. apply lookup_insert_eq. }
      intros v3 Hv3 Et3 Ef3. eapply wp_bind, wp_Done; [apply Hde|]. apply wp_ret. split; [done|].
      rewrite Ef2, delete_insert_id in Ef3 by done.
      exists N2, 0%nat. split; [|simpl; lia]. apply grown_0; try done.
      * by eapply pt_ok_ext.
      * destruct Hen2 as [E1 E2 E3 E4]. split; try done; [by rewrite Ef3|].
        intros p Hp. rewrite Et3. auto.
      * intros y Hy. rewrite (pte_tables v2) by done. auto.
Qed.

(** ** Unmapping *)

(** Why [unmap_pages] stops at [va]. *)
Definition unmap_error (v : vm A) (N : gmap (list Z) Z) (va : Z) (msg : string) : Prop :=
  msg = "unmap_pages: pte not found" /\ leaf_table N va = None \/
  msg = "not mapped" /\ is_valid (pte v N va) = false \/
  msg = "not a leaf" /\ is_valid (pte v N va) = true /\ is_leaf (pte v N va) = false.

Definition released (v : vm A) (N : gmap (list Z) Z) (freeing : bool) (vas : list Z) : list Z :=
  if freeing then (fun va => as_phys_addr (pte v N va)) <$> vas else [].

(** The pages [vas] are gone, their frames released. *)
Record shrunk (v : vm A) (N : gmap (list Z) Z) (root : Z) (freeing : bool) (vas : list Z)
    (v' : vm A) : Prop := {
  sh_vm : vm_ok v';
  sh_pt : pt_ok v' root N;
  sh_space : space_ok v' N;
  sh_other p : ~ in_tree N p -> tables v' !! p = tables v !! p;
  sh_frames p : frames v' !! p = if decide (p ∈ released v N freeing vas) then None else frames v !! p;
  sh_pte y : page_va y -> pte v' N y = if decide (y ∈ vas) then 0 else pte v N y;
  sh_umem a : 0 <= a < 2 ^ 39 ->
    umem v' N a = if decide (a - a `mod` 4096 ∈ vas) then None else umem v N a
}.

Lemma shrunk_nil v N root freeing :
  vm_ok v -> pt_ok v root N -> space_ok v N -> shrunk v N root freeing [] v.
Proof using Type.
  intros. split; try done; intros.
  rewrite decide_False; [done|]. destruct freeing; set_solver.
Qed.

(** Clearing one entry. *)
Lemma unmap_one v N root freeing va p es v1 v2 :
  vm_ok v1 -> pt_ok v root N -> space_ok v N -> page_va va -> is_valid (pte v N va) = true ->
  (freeing = true -> ~ special va) ->
  leaf_table N va = Some p -> tables v !! p = Some es -> tables v1 = tables v ->
  frames v1 = (if freeing then delete (as_phys_addr (pte v N va)) (frames v) else frames v) ->
  v2 = mkVm (heap v1) (<[p := <[Z.to_nat (get_index va 0) := 0]> es]> (tables v1)) (frames v1) ->
  shrunk v N root freeing [va] v2.
Proof using Type.
  intros Hv1 Hok Hsp Hva Hval Hns Hp Hes Et Ef ->.
  assert (Hok1 : pt_ok v1 root N) by by eapply pt_ok_ext.
  assert (Hes1 : tables v1 !! p = Some es) by by rewrite Et.
  pose proof (leaf_pte_page v1 root N va p 0 es Hok1 Hp Hes1) as Hx.
  pose proof (leaf_ok v1 root N va p 0 es Hok1 Hp Hes1) as Hok2.
  pose proof (leaf_vm_ok v1 root N va p 0 es Hok1 Hp Hes1 Hv1) as Hv2.
  pose proof (leaf_extends v1 root N va p 0 es Hok1 Hp Hes1) as [_ _ _ Hoth].
  set (v2 := mkVm (heap v1) _ (frames v1)) in *.
  assert (Hx' : forall y, page_va y -> pte v2 N y = if decide (y = va) then 0 else pte v N y)
    by (intros y Hy; rewrite Hx, (pte_tables v v1) by done; done).
  assert (Hfr : forall y, y <> va -> owned v N y ->
    frames v2 !! as_phys_addr (pte v N y) = frames v !! as_phys_addr (pte v N y)).
  { intros y Hy Ho. change (frames v2) with (frames v1). rewrite Ef. destruct freeing; [|done].
    rewrite lookup_delete_ne; [done|]. intros E. apply Hy. symmetry.
    apply (sp_inj _ _ Hsp); [split_and!; auto|done|done]. }
  split; try done.
  - by eapply (space_unmap v v2 N N va 0).
  - intros q Hq. by rewrite Hoth, Et.
  - intros q. change (frames v2) with (frames v1). rewrite Ef. unfold released.
    destruct freeing; [|rewrite decide_False by set_solver; done].
    simpl. case_decide as Hd; [apply list_elem_of_singleton in Hd as ->; apply lookup_delete_eq|].
    rewrite lookup_delete_ne; [done|]. set_solver.
  - intros y Hy. rewrite Hx' by done. rewrite (decide_ext (y ∈ [va]) (y = va)); [done|]. apply list_elem_of_singleton.
  - intros a Ha. rewrite (decide_ext (a - a `mod` 4096 ∈ [va]) (va <= a < va + 4096))
      by (rewrite list_elem_of_singleton; by apply page_of_iff). case_decide as Hd.
    + by rewrite (umem_page v v2 N N va 0 Hva Hx').
    + by eapply (umem_other v v2 N N va 0).
Qed.

Lemma shrunk_cons v N root freeing va vas v1 v2 :
  shrunk v N root freeing [va] v1 -> shrunk v1 N root freeing vas v2 ->
  va ∉ vas -> Forall page_va vas -> shrunk v N root freeing (va :: vas) v2.
Proof using Type.
  intros [A1 A2 A3 A4 A5 A6 A7] [B1 B2 B3 B4 B5 B6 B7] Hni Hvas.
  assert (Hrel : released v1 N freeing vas = released v N freeing vas).
  { unfold released. destruct freeing; [|done]. apply list_fmap_ext. intros i y Hy.
    rewrite Forall_lookup in Hvas. rewrite A6, decide_False; [done| |eauto].
    rewrite list_elem_of_singleton. intros ->. apply Hni. by eapply list_elem_of_lookup_2. }
  assert (Hcons : released v N freeing (va :: vas) = released v N freeing [va] ++ released v N freeing vas)
    by (unfold released; by destruct freeing).
  split; try done.
  - intros p Hp. rewrite B4 by done. auto.
  - intros p. rewrite B5, A5, Hrel, Hcons. repeat case_decide; try done; set_solver.
  - intros y Hy. rewrite B6, A6 by done. repeat case_decide; try done; set_solver.
  - intros a Ha. rewrite B7, A7 by done. repeat case_decide; try done; set_solver.
Qed.

Definition unmap_result (v : vm A) (N : gmap (list Z) Z) (root : Z) (freeing : bool)
    (vas : list Z) (r : result unit) (v' : vm A) : Prop :=
  exists k, shrunk v N root freeing (take k vas) v' /\ (k <= length vas)%nat /\
    match r with
    | Ok _ => k = length vas
    | Err msg => exists va, vas !! k = Some va /\ unmap_error v N va msg
    end.

Lemma unmap_stop v N root freeing va vas msg :
  vm_ok v -> pt_ok v root N -> space_ok v N -> unmap_error v N va msg ->
  unmap_result v N root freeing (va :: vas) (Err msg) v.
Proof using Type.
  intros. exists 0%nat. split_and!; [by apply shrunk_nil|lia|]. by exists va.
Qed.

Lemma unmap_loop_spec root freeing vas : forall v N,
  vm_ok v -> pt_ok v root N -> space_ok v N -> Forall page_va vas -> NoDup vas ->
  (freeing = true -> Forall (fun va => ~ special va) vas) ->
  wp (unmap_loop root freeing vas) v (unmap_result v N root freeing vas).
Proof using Type.
  induction vas as [|va vas IH]; intros v N Hv Hok Hsp Hvas Hnd Hns; cbn [unmap_loop].
  { apply wp_ret. exists 0%nat. split_and!; [by apply shrunk_nil|done|done]. }
  apply Forall_cons_iff in Hvas as [Hva Hvas]. apply NoDup_cons in Hnd as [Hni Hnd].
  eapply wp_bind, walk_spec; [done|].
  destruct (leaf_table N va) as [p|] eqn:Hp; cbn [fmap option_fmap option_map].
  2:{ apply wp_ret, unmap_stop; try done. by left. }
  destruct (leaf_entry _ _ _ _ _ Hok Hp) as (es & Hes & Hl & He).
  eapply wp_bind, wp_read_pte; [done|done|].
  destruct (is_valid (pte v N va)) eqn:Hval; cbn [negb].
  2:{ apply wp_ret, unmap_stop; try done. right. by left. }
  destruct (is_leaf (pte v N va)) eqn:Hleaf; cbn [negb].
  2:{ apply wp_ret, unmap_stop; try done. right. by right. }
  assert (Hsva : freeing = true -> ~ special va)
    by (intros Hf; specialize (Hns Hf); by apply Forall_cons_iff in Hns as [? _]).
  apply wp_bind. eapply (wp_mono _ _ (fun _ v1 => vm_ok v1 /\ tables v1 = tables v /\ frames v1 =
    if freeing then delete (as_phys_addr (pte v N va)) (frames v) else frames v)).
  { destruct freeing; [|by apply wp_ret].
    destruct (sp_frame _ _ Hsp va) as (bs & Hbs & _); [split_and!; auto|].
    eapply free_frame_spec; [done|done|auto]. }
  intros [] v1 (Hv1 & Et & Ef). eapply wp_bind, wp_write_pte; [by rewrite Et|by apply index_lt|].
  pose proof (unmap_one v N root freeing va p es v1 _ Hv1 Hok Hsp Hva Hval Hsva Hp Hes Et Ef eq_refl) as Hone.
  destruct (Hone) as [Hv2 Hok2 Hsp2 _ _ Hpte2 _].
  eapply wp_mono; [eapply IH; try done; intros Hf; specialize (Hns Hf);
    by apply Forall_cons_iff in Hns as [_ ?]|].
  intros r v3 (k & Hsh & Hk & Hr). exists (S k).
  split_and!; [|simpl; lia|].
  - rewrite firstn_cons. eapply shrunk_cons; [done|done| |by apply Forall_take].
    by intros ?%elem_of_take_elem.
  - destruct r as [|msg]; [simpl; lia|]. destruct Hr as (va' & Hl' & Hc). exists va'. split; [done|].
    unfold unmap_error in *. rewrite Hpte2, decide_False in Hc; [done| |].
    + rewrite list_elem_of_singleton. intros ->. apply Hni. by eapply list_elem_of_lookup_2.
    + rewrite Forall_lookup in Hvas. eauto.
Qed.

(** ** Copies between kernel and user space *)

(** Writing the frame of a user page. *)
Section write_frame.
Context (v v' : vm A) (N : gmap (list Z) Z) (va : Z) (bs : list Z).
Context (Hsp : space_ok v N) (Ho : owned v N va) (Hu : is_user (pte v N va) = true).
Context (Et : tables v' = tables v).
Context (Ef : frames v' = <[as_phys_addr (pte v N va) := bs]> (frames v)).
Context (Hlen : length bs = 4096%nat).

Lemma write_frame_space : space_ok v' N.
Proof using Hsp Ho Hu Et Ef Hlen.
  assert (Ep : pte v' N = pte v N) by (unfold pte; by rewrite Et).
  destruct (Hsp) as [S1 S2 S3 S4]. split; unfold owned in *; rewrite Ep; try done.
  intros y Hy. rewrite Ef. destruct (decide (as_phys_addr (pte v N y) = as_phys_addr (pte v N va))) as [E|E].
  - rewrite E, lookup_insert_eq. eauto.
  - rewrite lookup_insert_ne by done. auto.
Qed.

Lemma write_frame_umem a :
  0 <= a < 2 ^ 39 ->
  umem v' N a = if decide (va <= a < va + 4096) then bs !! Z.to_nat (a - va) else umem v N a.
Proof using Hsp Ho Hu Et Ef Hlen.
  intros Ha. destruct (Ho) as (Hva & Hns & Hval).
  assert (Hx : forall y, page_va y -> pte v' N y = if decide (y = va) then pte v N va else pte v N y).
  { intros y _. rewrite (pte_tables v v' N y Et). by destruct (decide (y = va)) as [->|]. }
  case_decide as Hin.
  - rewrite (umem_page v v' N N va _ Hva Hx) by done. rewrite Hval, Hu. simpl.
    by rewrite Ef, lookup_insert_eq.
  - eapply (umem_other v v' N N va); try done. intros y Hy Hoy. rewrite Ef, lookup_insert_ne; [done|].
    intros E. apply Hy. by apply (sp_inj _ _ Hsp).
Qed.

End write_frame.

(** What [walk_addr] finds for the page of [a]. *)
Lemma walk_addr_page v root N a (Q : result Z -> vm A -> Prop) :
  pt_ok v root N -> space_ok v N -> 0 <= a < 2 ^ 39 ->
  (forall va bs, va = a - a `mod` 4096 -> owned v N va -> is_user (pte v N va) = true ->
     frames v !! as_phys_addr (pte v N va) = Some bs -> length bs = 4096%nat ->
     Q (Ok (as_phys_addr (pte v N va))) v) ->
  (forall msg, umem v N a = None -> Q (Err msg) v) ->
  wp (walk_addr root (align_down a PAGESIZE)) v Q.
Proof using Type.
  intros Hok Hsp Ha HS HE. rewrite align_down_page by lia. eapply walk_addr_spec; [done|].
  assert (Hn : is_valid (pte v N (a - a `mod` 4096)) && is_user (pte v N (a - a `mod` 4096)) = false ->
            umem v N a = None) by (unfold umem; by intros ->).
  destruct (leaf_table N _) as [p|] eqn:Hp.
  - destruct (is_valid _) eqn:Hval; [|by apply HE, Hn]. destruct (is_user _) eqn:Hu; [|by apply HE, Hn].
    assert (Ho : owned v N (a - a `mod` 4096))
      by (apply (umem_owned v N a Hsp Ha); by rewrite Hval, Hu).
    destruct (sp_frame _ _ Hsp _ Ho) as (bs & Hbs & Hl). by eapply HS.
  - apply HE, Hn. unfold pte. by rewrite Hp.
Qed.

(** The bytes [src] written at [dst], as far as the pages are mapped. *)
Record copied (v : vm A) (N : gmap (list Z) Z) (dst : Z) (src : list Z) (count : Z)
    (r : result unit) (v' : vm A) : Prop := {
  co_vm : vm_ok v';
  co_tables : tables v' = tables v;
  co_space : space_ok v' N;
  co_isolated p : (forall va, owned v N va -> as_phys_addr (pte v N va) <> p) ->
    frames v' !! p = frames v !! p;
  co_bytes : exists k, 0 <= k <= count /\
    (forall a, 0 <= a < 2 ^ 39 -> umem v' N a =
       if decide (dst <= a < dst + k) then src !! Z.to_nat (a - dst) else umem v N a) /\
    match r with Ok _ => k = count | Err _ => k < count /\ umem v N (dst + k) = None end
}.

Lemma page_remainder a : 0 <= a < 2 ^ 39 ->
  a ⊟ align_down a PAGESIZE = a `mod` 4096 /\ PAGESIZE ⊟ a `mod` 4096 = 4096 - a `mod` 4096 /\
  align_down a PAGESIZE ⊞ PAGESIZE = a - a `mod` 4096 + 4096 /\ 0 <= a `mod` 4096 < 4096.
Proof using Type.
  intros Ha. pose proof (Z.mod_pos_bound a 4096 ltac:(lia)). pose proof (sub_mod_le a 4096).
  rewrite align_down_page by lia. unfold PAGESIZE.
  rewrite !usize_sub_small, usize_add_small by lia. lia.
Qed.

Lemma copied_cons v N dst src count n va bs v1 r v' :
  space_ok v N -> owned v N va -> is_user (pte v N va) = true ->
  frames v !! as_phys_addr (pte v N va) = Some bs -> length bs = 4096%nat ->
  va = dst - dst `mod` 4096 -> 0 <= dst -> dst + count <= 2 ^ 39 ->
  count <= Z.of_nat (length src) -> n = Z.min (4096 - dst `mod` 4096) count -> 0 < count ->
  v1 = mkVm (heap v) (tables v)
    (<[as_phys_addr (pte v N va) := splice (Z.to_nat (dst `mod` 4096)) (take (Z.to_nat n) src) bs]> (frames v)) ->
  copied v1 N (dst - dst `mod` 4096 + 4096) (drop (Z.to_nat n) src) (count - n) r v' ->
  copied v N dst src count r v'.
Proof using Type.
  intros Hsp Ho Hu Hbs Hlen Hva Hdst Hend Hsrc Hn Hc Ev1 [C1 C2 C3 C4 (k & Hk & Hm & Hr)].
  pose proof (Z.mod_pos_bound dst 4096 ltac:(lia)) as Hmod.
  set (bs' := splice _ _ bs) in *.
  assert (Hlt : length (take (Z.to_nat n) src) = Z.to_nat n) by (rewrite length_take; lia).
  assert (Hlen' : length bs' = 4096%nat) by (unfold bs'; rewrite length_splice; lia).
  assert (Et : tables v1 = tables v) by by rewrite Ev1.
  assert (Ef : frames v1 = <[as_phys_addr (pte v N va) := bs']> (frames v)) by by rewrite Ev1.
  pose proof (write_frame_umem v v1 N va bs' Hsp Ho Hu Et Ef Hlen') as Hm1.
  assert (Hcopied : forall a, 0 <= a < 2 ^ 39 -> umem v1 N a =
            if decide (dst <= a < dst + n) then src !! Z.to_nat (a - dst) else umem v N a).
  { intros a Ha. rewrite Hm1 by done. case_decide as Hin.
    - case_decide as Hd.
      + unfold bs'. rewrite splice_lookup_in by lia. rewrite lookup_take_lt by lia. f_equal. lia.
      + unfold bs'. rewrite splice_lookup_out by lia. unfold umem.
        assert (a - a `mod` 4096 = va) as Hpa by (apply (page_of_iff va); [apply Ho|done]).
        rewrite Hpa, Hu. destruct Ho as (_ & _ & ->). simpl. rewrite Hbs. simpl. f_equal. lia.
    - rewrite decide_False by lia. done. }
  split; try done.
  - congruence.
  - intros p Hp. rewrite C4.
    + rewrite Ef, lookup_insert_ne; [done|]. by apply Hp.
    + intros y (Hy1 & Hy2 & Hy3). rewrite (pte_tables v v1) in * by done. apply Hp. by split_and!.
  - destruct (decide (k = 0)) as [->|Hk0].
    + exists n. split_and!; [lia|lia| |].
      * intros a Ha. rewrite Hm, decide_False by (done || lia). auto.
      * destruct r as [|msg]; [lia|]. destruct Hr as [Hr1 Hr2]. split; [lia|].
        rewrite Hcopied, decide_False in Hr2 by lia. rewrite <-Hr2. f_equal. lia.
    + exists (n + k). assert (n = 4096 - dst `mod` 4096) by lia. split_and!; [lia|lia| |].
      * intros a Ha. rewrite Hm, Hcopied by done. repeat case_decide; try lia; try done.
        rewrite lookup_drop. f_equal. lia.
      * destruct r as [|msg]; [lia|]. destruct Hr as [Hr1 Hr2]. split; [lia|].
        rewrite Hcopied, decide_False in Hr2 by lia. rewrite <-Hr2. f_equal. lia.
Qed.

Lemma copy_out_loop_spec root fuel : forall v N dst src count,
  vm_ok v -> pt_ok v root N -> space_ok v N -> 0 <= dst -> 0 <= count -> dst + count <= 2 ^ 39 ->
  count <= Z.of_nat (length src) -> (Z.to_nat count <= fuel)%nat ->
  wp (copy_out_loop fuel root dst src count) v (copied v N dst src count).
Proof using Type.
  induction fuel as [|fuel IH]; intros v N dst src count Hv Hok Hsp Hd Hc Hend Hsrc Hfuel;
    cbn [copy_out_loop]; (destruct (Z.ltb_spec 0 count) as [Hpos|Hz];
      [|apply wp_ret; split; try done; exists 0; split_and!; [lia|lia| |lia];
        intros a Ha; by rewrite decide_False by lia]); [lia|].
  destruct (page_remainder dst ltac:(lia)) as (E1 & E2 & E3 & E4). rewrite E1, E2, E3.
  apply wp_bind, (walk_addr_page v root N dst); [done|done|lia| |].
  - intros va bs Hva Ho Hu Hbs Hlen. eapply wp_bind, wp_bind, wp_get, wp_deref; [done|].
    apply wp_bind, wp_modify. set (n := Z.min _ _).
    rewrite usize_sub_small by lia. set (v1 := mkVm _ _ _).
    assert (Hlen' : length (splice (Z.to_nat (dst `mod` 4096)) (take (Z.to_nat n) src) bs) = 4096%nat)
      by (rewrite length_splice; rewrite ?length_take; lia).
    assert (dst - dst `mod` 4096 + 4096 <= 2 ^ 39) by (pose proof (Z.div_mod dst 4096); lia).
    eapply wp_mono; [apply (IH v1 N)|]; try lia.
    + eapply vm_ok_dom; [exact Hv|done|done|]. unfold v1. simpl. rewrite dom_insert_L.
      assert (as_phys_addr (pte v N va) ∈ dom (frames v)) by (apply elem_of_dom; eauto). set_solver.
    + by eapply pt_ok_ext; [|exact Hok].
    + by eapply (write_frame_space v v1 N va).
    + rewrite length_drop. lia.
    + intros r v'. by eapply copied_cons.
  - intros msg Hnone. apply wp_ret. split; try done. exists 0. split_and!; [lia|lia| |lia|].
    + intros a Ha. by rewrite decide_False by lia.
    + by rewrite Z.add_0_r.
Qed.

(** The bytes of [a, a + length bs) are [bs]. *)
Definition ubytes (v : vm A) (N : gmap (list Z) Z) (a : Z) (bs : list Z) : Prop :=
  forall i b, bs !! i = Some b -> umem v N (a + Z.of_nat i) = Some b.

Lemma ubytes_nil v N a : ubytes v N a [].
Proof using Type. done. Qed.

Lemma ubytes_app v N a bs bs' :
  ubytes v N a bs -> ubytes v N (a + Z.of_nat (length bs)) bs' -> ubytes v N a (bs ++ bs').
Proof using Type.
  intros H H' i b [Hi|[Hl Hi]]%lookup_app_Some; [by apply H|].
  specialize (H' _ _ Hi). rewrite <-H'. f_equal. lia.
Qed.

(** A slice of the frame of a user page. *)
Lemma ubytes_frame v N a n va bs :
  owned v N va -> is_user (pte v N va) = true ->
  frames v !! as_phys_addr (pte v N va) = Some bs ->
  va = a - a `mod` 4096 -> (n <= 4096 - Z.to_nat (a `mod` 4096))%nat ->
  ubytes v N a (take n (drop (Z.to_nat (a `mod` 4096)) bs)).
Proof using Type.
  intros Ho Hu Hbs Hva Hn i b [Hi Hlt]%lookup_take_Some. rewrite lookup_drop in Hi.
  pose proof (Z.mod_pos_bound a 4096 ltac:(lia)).
  assert (Hp : a + Z.of_nat i - (a + Z.of_nat i) `mod` 4096 = va)
    by (apply page_of_iff; [apply Ho|lia]).
  unfold umem. rewrite Hp, Hu. destruct (Ho) as (_ & _ & ->). simpl. rewrite Hbs. simpl.
  rewrite <-Hi. f_equal. lia.
Qed.

Definition read_bytes (v : vm A) (N : gmap (list Z) Z) (src count : Z) (dst : list Z)
    (r : list Z * result unit) (v' : vm A) : Prop :=
  v' = v /\ exists bs, r.1 = dst ++ bs /\ ubytes v N src bs /\
    match r.2 with
    | Ok _ => Z.of_nat (length bs) = count
    | Err _ => Z.of_nat (length bs) < count /\ umem v N (src + Z.of_nat (length bs)) = None
    end.

Lemma copy_in_loop_spec root v N fuel : forall src count dst,
  pt_ok v root N -> space_ok v N -> 0 <= src -> 0 <= count -> src + count <= 2 ^ 39 ->
  (Z.to_nat count <= fuel)%nat ->
  wp (copy_in_loop fuel root src count dst) v (read_bytes v N src count dst).
Proof using Type.
  induction fuel as [|fuel IH]; intros src count dst Hok Hsp Hs Hc Hend Hfuel;
    cbn [copy_in_loop]; (destruct (Z.ltb_spec 0 count) as [Hpos|Hz];
      [|apply wp_ret; split; [done|]; exists []; rewrite app_nil_r; split_and!; [done|done|simpl; lia]]);
    [lia|].
  destruct (page_remainder src ltac:(lia)) as (E1 & E2 & E3 & E4). rewrite E1, E2, E3.
  apply wp_bind, (walk_addr_page v root N src); [done|done|lia| |].
  - intros va bs Hva Ho Hu Hbs Hlen. eapply wp_bind, wp_bind, wp_get, wp_deref; [done|].
    set (n := Z.min _ _). rewrite usize_sub_small by lia.
    set (part := take (Z.to_nat n) _).
    assert (Hlp : length part = Z.to_nat n) by (unfold part; rewrite length_take, length_drop; lia).
    assert (Hpart : ubytes v N src part) by (eapply ubytes_frame; try done; lia).
    assert (src - src `mod` 4096 + 4096 <= 2 ^ 39) by (pose proof (Z.div_mod src 4096); lia).
    eapply wp_mono; [apply IH; try done; lia|].
    intros [d r] v' (-> & rest & Hd & Hrest & Hr). split; [done|]. simpl in *.
    exists (part ++ rest). rewrite app_assoc. split; [done|]. rewrite length_app, Hlp.
    destruct (decide (n = 4096 - src `mod` 4096)) as [En|En].
    + split.
      * apply ubytes_app; [done|]. rewrite Hlp.
        replace (src + Z.of_nat (Z.to_nat n)) with (src - src `mod` 4096 + 4096) by lia. done.
      * destruct r as [|msg]; [lia|]. destruct Hr as [Hr1 Hr2]. split; [lia|]. rewrite <-Hr2.
        f_equal. lia.
    + assert (length rest = 0%nat) as Hz by (destruct r as [|msg]; lia).
      apply nil_length_inv in Hz as ->. rewrite app_nil_r. split; [done|].
      destruct r as [|msg]; simpl in *; lia.
  - intros msg Hnone. apply wp_ret. split; [done|]. exists []. rewrite app_nil_r.
    split_and!; [done|done|]. simpl. split; [lia|]. by rewrite Z.add_0_r.
Qed.

(** ** Strings *)

(** A string of nonzero bytes with its terminator. *)
Definition ustring (v : vm A) (N : gmap (list Z) Z) (a : Z) (str : list Z) : Prop :=
  ubytes v N a (str ++ [0]) /\ Forall (fun c => c <> 0) str.

(** The inner loop while no terminator is met. *)
Lemma str_loop_copies bs v (Q : _ -> vm A -> Prop) n : forall off dst i,
  (i + n <= length dst)%nat -> (off + n <= length bs)%nat ->
  Forall (fun c => c <> 0) (take n (drop off bs)) ->
  Q (inr (splice i (take n (drop off bs)) dst, (i + n)%nat)) v ->
  wp (str_loop n bs off dst i) v Q.
Proof using Type.
  induction n as [|n IH]; intros off dst i Hi Ho Hf HQ; cbn [str_loop].
  { apply wp_ret. rewrite Nat.add_0_r in HQ. unfold splice in HQ. simpl in HQ.
    by rewrite Nat.add_0_r, take_drop in HQ. }
  apply wp_bind, wp_assert; [by apply Nat.ltb_lt; lia|].
  destruct (lookup_lt_is_Some_2 bs off) as [c Hc]; [lia|].
  rewrite (list_lookup_total_correct _ _ _ Hc). rewrite (drop_S _ _ _ Hc) in Hf, HQ. simpl in Hf, HQ.
  apply Forall_cons_iff in Hf as [Hnz Hf]. rewrite (proj2 (Z.eqb_neq _ _) Hnz).
  apply IH; [rewrite length_insert; lia|lia|done|].
  replace (splice (S i) (take n (drop (S off) bs)) (<[i:=c]> dst))
    with (splice i (c :: take n (drop (S off) bs)) dst).
  { by replace (S i + n)%nat with (i + S n)%nat by lia. }
  unfold splice. rewrite (take_S_r _ i c) by (apply list_lookup_insert_eq; lia).
  rewrite take_insert_ge by lia. rewrite <-app_assoc. simpl.
  rewrite drop_insert_lt by lia. by rewrite Nat.add_succ_r.
Qed.

(** ... when the terminator is met ... *)
Lemma str_loop_stops bs v (Q : _ -> vm A -> Prop) str : forall n off dst i,
  (length str < n)%nat -> (i + length str < length dst)%nat ->
  take (S (length str)) (drop off bs) = str ++ [0] -> Forall (fun c => c <> 0) str ->
  Q (inl (splice i (str ++ [0]) dst, (i + length str)%nat)) v ->
  wp (str_loop n bs off dst i) v Q.
Proof using Type.
  induction str as [|c str IH]; intros n off dst i Hn Hi Ht Hf HQ;
    (destruct n as [|n]; [simpl in Hn; lia|]); cbn [str_loop].
  all: apply wp_bind, wp_assert; [apply Nat.ltb_lt; simpl in Hi; lia|].
  all: destruct (drop off bs) as [|c' rest] eqn:Hd; [done|].
  all: assert (Hc : bs !! off = Some c')
         by (by rewrite <-(Nat.add_0_r off), <-lookup_drop, Hd).
  all: rewrite (list_lookup_total_correct _ _ _ Hc); simpl in Ht.
  - injection Ht as ->. cbn [Z.eqb]. apply wp_ret. rewrite Nat.add_0_r in HQ.
    replace (<[i:=0]> dst) with (splice i ([] ++ [0]) dst); [done|].
    symmetry. unfold splice. simpl. rewrite insert_take_drop by (simpl in Hi; lia).
    by rewrite Nat.add_1_r.
  - injection Ht as -> Ht. apply Forall_cons_iff in Hf as [Hnz Hf].
    rewrite (proj2 (Z.eqb_neq _ _) Hnz). simpl in Hi, Hn. rewrite (drop_S _ _ _ Hc) in Hd. injection Hd as Hd.
    apply IH; [lia|rewrite length_insert; lia|by rewrite Hd|done|].
    replace (splice (S i) (str ++ [0]) (<[i:=c]> dst)) with (splice i ((c :: str) ++ [0]) dst).
    { by replace (S i + length str)%nat with (i + length (c :: str))%nat by (simpl; lia). }
    unfold splice. rewrite (take_S_r _ i c) by (apply list_lookup_insert_eq; lia).
    rewrite take_insert_ge by lia. rewrite <-(app_assoc (take i dst) [c]). simpl.
    rewrite drop_insert_lt by lia. by rewrite Nat.add_succ_r.
Qed.

(** ... and when the destination is full. *)
Lemma str_loop_overruns bs v n : forall off dst i,
  (i <= length dst < i + n)%nat -> (off + n <= length bs)%nat ->
  Forall (fun c => c <> 0) (take n (drop off bs)) ->
  str_loop n bs off dst i v = Panic "index out of bounds".
Proof using Type.
  induction n as [|n IH]; intros off dst i Hi Ho Hf; [lia|]. cbn [str_loop].
  destruct (Nat.ltb_spec i (length dst)) as [Hlt|Hge]; [|done]. cbn [assert].
  rewrite (bind_Done _ _ _ tt v) by done.
  destruct (lookup_lt_is_Some_2 bs off) as [c Hc]; [lia|].
  rewrite (list_lookup_total_correct _ _ _ Hc). rewrite (drop_S _ _ _ Hc) in Hf. simpl in Hf.
  apply Forall_cons_iff in Hf as [Hnz Hf]. rewrite (proj2 (Z.eqb_neq _ _) Hnz).
  apply IH; [rewrite length_insert; lia|lia|done].
Qed.

(** A string inside one page, read from its frame. *)
Lemma ubytes_read v N a l va bs :
  owned v N va -> is_user (pte v N va) = true ->
  frames v !! as_phys_addr (pte v N va) = Some bs -> length bs = 4096%nat ->
  va = a - a `mod` 4096 -> (length l <= 4096 - Z.to_nat (a `mod` 4096))%nat ->
  ubytes v N a l -> take (length l) (drop (Z.to_nat (a `mod` 4096)) bs) = l.
Proof using Type.
  intros Ho Hu Hbs Hlen Hva Hl Hb.
  pose proof (Z.mod_pos_bound a 4096 ltac:(lia)).
  pose proof (ubytes_frame v N a (length l) va bs Ho Hu Hbs Hva Hl) as Hf.
  set (part := take _ _) in *.
  assert (Hlp : length part = length l) by (unfold part; rewrite length_take, length_drop; lia).
  apply list_eq. intros i. destruct (part !! i) as [b|] eqn:Hi.
  - destruct (lookup_lt_is_Some_2 l i) as [b' Hi']; [apply lookup_lt_Some in Hi; lia|].
    specialize (Hb _ _ Hi'). specialize (Hf _ _ Hi). congruence.
  - apply lookup_ge_None in Hi. symmetry. apply lookup_ge_None. lia.
Qed.

Lemma ubytes_drop v N a l n :
  (n <= length l)%nat -> ubytes v N a l -> ubytes v N (a + Z.of_nat n) (drop n l).
Proof using Type.
  intros Hn Hb i b Hi. rewrite lookup_drop in Hi. specialize (Hb _ _ Hi). rewrite <-Hb. f_equal. lia.
Qed.

Lemma ubytes_take v N a l n : ubytes v N a l -> ubytes v N a (take n l).
Proof using Type. intros Hb i b [Hi _]%lookup_take_Some. by apply Hb. Qed.

Lemma ubytes_first v N a l va :
  l <> [] -> ubytes v N a l -> umem v N a = None -> va.
Proof using Type.
  destruct l as [|b l]; [done|]. intros _ Hb Hn. specialize (Hb 0%nat b eq_refl).
  rewrite Z.add_0_r in Hb. congruence.
Qed.

Lemma copy_in_str_loop_spec root v N fuel : forall str dst a i,
  pt_ok v root N -> space_ok v N -> ustring v N a str ->
  0 <= a -> a + Z.of_nat (length str) < 2 ^ 39 ->
  (i + length str + 2 <= length dst)%nat -> Z.of_nat (length dst) < 2 ^ 64 ->
  (length str < fuel)%nat ->
  wp (copy_in_str_loop fuel root dst a i) v (fun r v' =>
    r = (splice i (str ++ [0]) dst, Ok (Z.of_nat (i + length str))) /\ v' = v).
Proof using Type.
  induction fuel as [|fuel IH]; intros str dst a i Hok Hsp [Hb Hnz] Ha Hend Hlen Hdst Hfuel; [lia|].
  cbn [copy_in_str_loop]. rewrite (proj2 (Nat.ltb_lt _ _)) by lia.
  destruct (page_remainder a ltac:(lia)) as (E1 & E2 & E3 & E4). rewrite E1, E2, E3.
  rewrite usize_sub_small by lia.
  apply wp_bind, (walk_addr_page v root N a); [done|done|lia| |].
  2:{ intros msg Hn. eapply ubytes_first; [|exact Hb|done]. by destruct str. }
  intros va bs Hva Ho Hu Hbs Hlbs. eapply wp_bind, wp_bind, wp_get, wp_deref; [done|].
  set (n := Z.to_nat (Z.min _ _)). apply wp_bind. destruct (decide (length str < n)%nat) as [Hs|Hs].
  - apply (str_loop_stops bs v _ str); [done|lia| |done|by apply wp_ret].
    replace (S (length str)) with (length (str ++ [0])) by (rewrite length_app; simpl; lia).
    eapply (ubytes_read v N a); try done. rewrite length_app. simpl. lia.
  - assert (Hn : Z.of_nat n = 4096 - a `mod` 4096) by lia.
    assert (Htake : take n (drop (Z.to_nat (a `mod` 4096)) bs) = take n str).
    { assert (length (take n str) = n) as Hl by (rewrite length_take; lia).
      rewrite <-Hl at 1. eapply (ubytes_read v N a); try done; [lia|].
      rewrite <-(take_app_le str [0]) by lia. by apply ubytes_take. }
    apply (str_loop_copies bs v); [lia|lia|rewrite Htake; by apply Forall_take|]. rewrite Htake.
    eapply wp_mono; [apply (IH (drop n str))|].
    + done.
    + done.
    + split; [|by apply Forall_drop].
      replace (a - a `mod` 4096 + 4096) with (a + Z.of_nat n) by lia.
      rewrite <-drop_app_le by lia. apply ubytes_drop; [rewrite length_app; lia|done].
    + lia.
    + rewrite length_drop. lia.
    + rewrite length_splice, length_drop; rewrite ?length_take; lia.
    + rewrite length_splice; rewrite ?length_take; lia.
    + rewrite length_drop. lia.
    + intros r v' [-> ->]. split; [|done]. f_equal; [|do 2 f_equal; rewrite length_drop; lia].
      assert (Hl : length (take n str) = n) by (rewrite length_take; lia).
      rewrite <-Hl at 1. rewrite splice_app, app_assoc, take_drop; [done|].
      rewrite length_app, length_take, length_drop. simpl. lia.
Qed.

(** A second page is read with the bound of the whole buffer. *)
Lemma copy_in_str_page2 v N root dst a i l :
  pt_ok v root N -> space_ok v N -> page_va a -> ubytes v N a l -> Forall (fun c => c <> 0) l ->
  (length l = length dst - 1)%nat -> (2 <= i < length dst)%nat -> (length dst <= 4096)%nat ->
  forall fuel, copy_in_str_loop (S fuel) root dst a i v = Panic "index out of bounds".
Proof using Type.
  intros Hok Hsp [Ha Hm] Hb Hnz Hl Hi Hd fuel. cbn [copy_in_str_loop].
  rewrite (proj2 (Nat.ltb_lt _ _)) by lia.
  destruct (page_remainder a ltac:(lia)) as (E1 & E2 & E3 & E4). rewrite E1, E2, E3, Hm.
  rewrite usize_sub_small by lia. eapply (bind_panics _ _ v (fun r v' => v' = v /\ exists bs va,
    r = Ok (as_phys_addr (pte v N va)) /\ frames v !! as_phys_addr (pte v N va) = Some bs /\
    length bs = 4096%nat /\ take (length l) bs = l)).
  { apply (walk_addr_page v root N a); [done|done|lia| |].
    - intros va bs Hva Ho Hu Hbs Hlen. split; [done|]. exists bs, va. split_and!; try done.
      pose proof (ubytes_read v N a l va bs Ho Hu Hbs Hlen Hva) as Hr. rewrite Hm in Hr.
      apply Hr; [simpl; lia|done].
    - intros msg Hn. eapply ubytes_first; [|exact Hb|done]. intros ->. simpl in Hl. lia. }
  intros r v' (-> & bs & va & -> & Hbs & Hlen & Ht). unfold read_frame.
  rewrite (bind_Done _ _ _ bs v) by (unfold bind, get, deref; by rewrite Hbs).
  apply bind_Panic. replace (Z.to_nat (Z.min (4096 - 0) _)) with (length l) by lia.
  apply str_loop_overruns; simpl; [lia|lia|]. by rewrite drop_0, Ht.
Qed.

Lemma copy_in_str_crosses v N root dst a l :
  pt_ok v root N -> space_ok v N -> 0 <= a < 2 ^ 38 -> ubytes v N a l ->
  Forall (fun c => c <> 0) l -> (length dst <= 4096)%nat ->
  2 <= 4096 - a `mod` 4096 < Z.of_nat (length dst) ->
  Z.of_nat (length l) = 4096 - a `mod` 4096 + (Z.of_nat (length dst) - 1) ->
  copy_in_str root dst a v = Panic "index out of bounds".
Proof using Type.
  intros Hok Hsp Ha Hb Hnz Hd Hr Hl. unfold copy_in_str. destruct dst as [|d0 dst0] eqn:Edst.
  { simpl in *. lia. } rewrite <-Edst in *. clear Edst d0 dst0.
  replace (S (length dst)) with (S (S (length dst - 1))) by lia.
  remember (S (length dst - 1)) as fuel eqn:Hfuel. cbn [copy_in_str_loop].
  rewrite (proj2 (Nat.ltb_lt _ _)) by lia.
  destruct (page_remainder a ltac:(lia)) as (E1 & E2 & E3 & E4). rewrite E1, E2, E3.
  rewrite usize_sub_small by lia. set (n := Z.to_nat (4096 - a `mod` 4096)).
  replace (Z.to_nat (Z.min (4096 - a `mod` 4096) (Z.of_nat (length dst) - 1))) with n by lia.
  assert (Hpart : length (take n l) = n) by (rewrite length_take; lia).
  eapply (bind_panics _ _ v (fun r v' => v' = v /\ exists bs va,
    r = Ok (as_phys_addr (pte v N va)) /\ frames v !! as_phys_addr (pte v N va) = Some bs /\
    length bs = 4096%nat /\ take n (drop (Z.to_nat (a `mod` 4096)) bs) = take n l)).
  { apply (walk_addr_page v root N a); [done|done|lia| |].
    - intros va bs Hva Ho Hu Hbs Hlen. split; [done|]. exists bs, va. split_and!; try done.
      rewrite <-Hpart at 1. eapply (ubytes_read v N a); try done; [lia|by apply ubytes_take].
    - intros msg Hn. eapply ubytes_first; [|exact Hb|done]. intros ->. simpl in Hl. lia. }
  intros r v' (-> & bs & va & -> & Hbs & Hlen & Ht). unfold read_frame.
  rewrite (bind_Done _ _ _ bs v) by (unfold bind, get, deref; by rewrite Hbs).
  eapply (bind_panics _ _ v (fun x v' => v' = v /\ exists dst', x = inr (dst', n) /\ length dst' = length dst)).
  { apply (str_loop_copies bs v _ n); [lia|lia|rewrite Ht; by apply Forall_take|].
    split; [done|]. eexists. split; [done|]. rewrite length_splice; rewrite ?Ht; lia. }
  intros x v' (-> & dst' & -> & Hdst'). rewrite Hfuel.
  eapply (copy_in_str_page2 v N root dst' _ n (drop n l)); try done.
  - split; [pose proof (Z.div_mod a 4096); lia|].
    by rewrite <-Z.add_mod_idemp_r, Z.mod_same, Z.add_0_r, sub_mod_mod by lia.
  - replace (a - a `mod` 4096 + 4096) with (a + Z.of_nat n) by lia. apply ubytes_drop; [lia|done].
  - by apply Forall_drop.
  - rewrite length_drop. lia.
  - lia.
  - lia.
Qed.

(** ** Two address spaces in one memory *)

Definition apart (N M : gmap (list Z) Z) : Prop := forall p, in_tree N p -> in_tree M p -> False.

(** No frame belongs to both. *)
Definition separate (v : vm A) (N M : gmap (list Z) Z) : Prop :=
  forall va va', owned v N va -> owned v M va' ->
    as_phys_addr (pte v N va) <> as_phys_addr (pte v M va').

(** Enlarging one address space leaves the other alone. *)
Section other_space.
Context (v v' : vm A) (N M M' : gmap (list Z) Z) (root : Z).
Context (Hok : pt_ok v root N) (Hap : apart N M) (Hen : enlarges v M v' M').

Lemma other_apart : apart N M'.
Proof using Hok Hap Hen.
  intros p [path Hp] [path' Hp']. destruct (M !! path') as [q|] eqn:Hq.
  - assert (q = p) as -> by (eapply lookup_weaken in Hq; [|apply Hen]; congruence).
    apply (Hap p); eexists; done.
  - destruct (en_fresh _ _ _ _ Hen _ _ Hp' Hq) as [Ht _].
    destruct (pt_table _ _ _ Hok _ _ Hp) as (es & ? & _). congruence.
Qed.

Lemma other_tables p : in_tree N p -> tables v' !! p = tables v !! p.
Proof using Hok Hap Hen.
  intros Hp. apply (en_other _ _ _ _ Hen). intros Hp'. by apply (other_apart p).
Qed.

Lemma other_pte va : pte v' N va = pte v N va.
Proof using Hok Hap Hen.
  unfold pte. destruct (leaf_table N va) as [p|] eqn:Hp; [|done].
  rewrite other_tables; [done|]. by eexists.
Qed.

Lemma other_pt_ok : pt_ok v' root N.
Proof using Hok Hap Hen.
  destruct (Hok) as [H1 H2 H3 H4 H5 H6]. split; try done.
  - intros path p Hp. rewrite other_tables by by eexists. eauto.
  - intros path p es i e Hp Hl. rewrite other_tables by by eexists. by apply (H4 path p es i e).
Qed.

Lemma other_space_ok : space_ok v N -> space_ok v' N.
Proof using Hok Hap Hen.
  intros [S1 S2 S3 S4]. split.
  - intros va (? & ? & Hv). rewrite other_pte in *. by apply S1.
  - intros va (? & ? & Hv). rewrite other_pte in *. destruct (S2 va) as (bs & Hbs & Hl); [done|].
    exists bs. split; [|done]. eapply lookup_weaken; [done|apply Hen].
  - intros va va' (? & ? & Hv) (? & ? & Hv'). rewrite !other_pte in *. by apply S3.
  - intros va Hs. rewrite other_pte. by apply S4.
Qed.

Lemma other_umem a : space_ok v N -> 0 <= a < 2 ^ 39 -> umem v' N a = umem v N a.
Proof using Hok Hap Hen.
  intros Hsp Ha. unfold umem. cbv zeta. rewrite other_pte.
  destruct (is_valid _ && is_user _) eqn:E; [|done].
  destruct (sp_frame _ _ Hsp _ (umem_owned v N a Hsp Ha E)) as (bs & Hbs & _).
  rewrite Hbs. erewrite lookup_weaken; [done|done|apply Hen].
Qed.

End other_space.

(** The outcome of copying the pages [vas] of [N] into [M]. *)
Definition cloned (v : vm A) (N M : gmap (list Z) Z) (child : Z) (vas : list Z) (k : nat)
    (v' : vm A) (M' : gmap (list Z) Z) : Prop :=
  pt_ok v' child M' /\ space_ok v' M' /\ enlarges v M v' M' /\ separate v' N M' /\
  (k <= length vas)%nat /\
  forall a, 0 <= a < 2 ^ 39 -> umem v' M' a =
    if decide (a - a `mod` 4096 ∈ take k vas) then umem v N a else umem v M a.

Lemma flag_of_pte x : 0 <= get_flag x < 2 ^ 10 /\
  is_leaf (get_flag x) = is_leaf x /\ is_user (get_flag x) = is_user x.
Proof using Type.
  unfold get_flag, is_leaf, is_user. split; [|by rewrite <-!Z.land_assoc].
  change ALL_FLAGS with (Z.ones 8). rewrite Z.land_ones by lia.
  pose proof (Z.mod_pos_bound x (2 ^ 8) ltac:(lia)). lia.
Qed.

Lemma cloned_0 v N M child vas v' M' :
  pt_ok v' child M' -> space_ok v M -> enlarges v M v' M' -> frames v' = frames v ->
  (forall y, page_va y -> pte v' M' y = pte v M y) ->
  (forall y, pte v' N y = pte v N y) -> separate v N M -> cloned v N M child vas 0 v' M'.
Proof using Type.
  intros Hok Hsp Hen Ef Hp HpN Hsep.
  destruct (grown_0 v M child vas v' M' Hok Hsp Hen Ef Hp) as (_ & Hsp' & _ & _ & _ & Hm).
  split_and!; try done; [|lia].
  intros va va' (? & ? & Hv) (? & ? & Hv'). rewrite HpN in *. rewrite Hp in * by done.
  by apply Hsep.
Qed.

Lemma cloned_cons v N M v1 M1 root child va vas k v' M' :
  pt_ok v root N -> space_ok v N -> apart N M -> pt_ok v1 child M1 -> page_va va -> va ∉ vas ->
  enlarges v M v1 M1 ->
  (forall a, 0 <= a < 2 ^ 39 -> umem v1 M1 a =
     if decide (va <= a < va + 4096) then umem v N a else umem v M a) ->
  cloned v1 N M1 child vas k v' M' -> cloned v N M child (va :: vas) (S k) v' M'.
Proof using Type.
  intros HokN HspN Hap Hok1 Hva Hni Hen1 Hm1 (Hok & Hsp & Hen & Hsep & Hk & Hm).
  split_and!; [done|done| |done|simpl; lia|].
  - exact (enlarges_trans v M v1 M1 v' M' child Hok1 Hen1 Hen).
  - intros a Ha. rewrite Hm, Hm1 by done. rewrite take_cons_app.
    pose proof (page_of_iff va Hva a) as Hiff.
    rewrite (other_umem v v1 N M M1 root HokN Hap Hen1 a HspN Ha).
    repeat case_decide; try done; rewrite elem_of_cons in *; tauto.
Qed.

Lemma uvm_copy_loop_spec root child vas : forall v N M,
  vm_ok v -> pt_ok v root N -> space_ok v N -> pt_ok v child M -> space_ok v M ->
  apart N M -> separate v N M -> Forall (owned v N) vas -> NoDup vas ->
  wp (uvm_copy_loop root child vas) v (fun r v' => vm_ok v' /\
    exists M' k, cloned v N M child vas k v' M' /\
      match r with Ok _ => k = length vas | Err _ => (k < length vas)%nat end).
Proof using Type.
  induction vas as [|va vas IH]; intros v N M Hv HokN HspN HokM HspM Hap Hsep Hvas Hnd;
    cbn [uvm_copy_loop].
  { apply wp_ret. split; [done|]. exists M, 0%nat. split; [|done].
    apply cloned_0; try done. by apply enlarges_frames. }
  apply Forall_cons_iff in Hvas as [Ho Hvas]. apply NoDup_cons in Hnd as [Hni Hnd].
  destruct (Ho) as (Hva & Hns & Hval). eapply wp_bind, walk_spec; [done|].
  destruct (leaf_table N va) as [p|] eqn:Hp; cbn [fmap option_fmap option_map].
  2:{ unfold pte in Hval. by rewrite Hp in Hval. }
  apply wp_bind, (wp_unwrap _ _ _ _ _ eq_refl).
  destruct (leaf_entry _ _ _ _ _ HokN Hp) as (es & Hes & _ & He).
  eapply wp_bind, wp_read_pte; [done|done|]. apply wp_bind, wp_assert; [done|].
  destruct (sp_frame _ _ HspN va Ho) as (bs & Hbs & Hlen).
  destruct (flag_of_pte (pte v N va)) as (Hflag & Hfl & Hfu).
  apply wp_bind, alloc_frame_spec; [done| |].
  - intros v1 Hv1 Et Ef. apply wp_ret. split; [done|]. exists M, 0%nat. split; [|simpl; lia].
    apply cloned_0; try done; [by eapply pt_ok_ext|apply enlarges_frames; [done|by rewrite Ef]|..];
      intros; by apply pte_tables.
  - intros q v1 Hv1 Hq Hqt Hqf Et Ef.
    assert (Hpq : as_phys_addr (pte v N va) <> q) by congruence.
    eapply wp_bind, wp_bind, wp_get, wp_deref; [by rewrite Ef, lookup_insert_ne|].
    apply wp_bind, wp_modify. rewrite Ef, insert_insert_eq. set (v2 := mkVm _ _ _).
    assert (Hv2 : vm_ok v2).
    { eapply vm_ok_dom; [exact Hv1|done|done|]. unfold v2. simpl. by rewrite Ef, !dom_insert_L. }
    apply wp_bind.
    eapply (map_fresh_page v v2 child M va q bs (get_flag (pte v N va))); try done.
    { rewrite Hfl. by apply (sp_leaf _ _ HspN). }
    + intros v3 M3 Hv3 Hok3 Hsp3 Hen3 _ Ef3 Hp3 Hm3.
      assert (HpN : forall y, pte v3 N y = pte v N y) by by apply (other_pte v v3 N M M3 root).
      eapply wp_mono; [apply (IH v3 N M3); try done|].
      * by apply (other_pt_ok v v3 N M M3).
      * by apply (other_space_ok v v3 N M M3 root).
      * by apply (other_apart v v3 N M M3 root).
      * intros y y' (? & ? & Hy) (Hpy' & Hsy' & Hy'). rewrite HpN in *. rewrite Hp3 in * by done.
        destruct (decide (y' = va)) as [->|]; [|by apply Hsep].
        rewrite phys_addr_set_addr by done. intros E.
        destruct (sp_frame _ _ HspN y) as (? & ? & _); [done|]. congruence.
      * eapply Forall_impl; [exact Hvas|]. intros y (? & ? & ?). split_and!; try done. by rewrite HpN.
      * intros r v4 (Hv4 & M4 & k & Hc & Hr). split; [done|]. exists M4, (S k). split.
        -- eapply (cloned_cons v N M v3 M3 root); try done. intros a Ha. rewrite Hm3 by done.
           case_decide as Hin; [|done]. rewrite Hfu. unfold umem.
           rewrite (proj2 (page_of_iff va Hva a)) by done. rewrite Hval. simpl.
           destruct (is_user (pte v N va)); [|done]. rewrite Hbs. simpl.
           pose proof (proj2 (page_of_iff va Hva a) Hin). f_equal. lia.
        -- destruct r; simpl; lia.
    + intros v3 M3 msg Hv3 Hok3 Hen3 Hp3 Ef3. eapply wp_bind, free_frame_spec; [done| |].
      { rewrite Ef3. apply lookup_insert_eq. }
      intros v4 Hv4 Et4 Ef4. apply wp_ret. split; [done|].
      rewrite Ef3, delete_insert_id in Ef4 by done.
      exists M3, 0%nat. split; [|simpl; lia]. apply cloned_0; try done.
      * by eapply pt_ok_ext.
      * destruct Hen3 as [E1 E2 E3 E4]. split; try done; [by rewrite Ef4|].
        intros p' Hp'. rewrite Et4. auto.
      * intros y Hy. rewrite (pte_tables v3) by done. auto.
      * intros y. rewrite (pte_tables v3) by done. by apply (other_pte v v3 N M M3 root).
Qed.

(** ** Ranges of pages *)

Lemma step_by_pages a b : page_va a -> 0 <= b <= 2 ^ 39 -> Forall page_va (step_by a b 4096).
Proof using Type.
  intros [Ha Hm] Hb. apply Forall_forall. intros x [Hx Hxm]%elem_of_step_by; [|lia].
  split; [lia|]. replace x with ((x - a) + a) by lia. by rewrite Z.add_mod, Hxm, Hm by lia.
Qed.

Lemma step_by_not_special a b :
  b <= TRAPFRAME -> Forall (fun va => ~ special va) (step_by a b 4096).
Proof using Type.
  intros Hb. apply Forall_forall. intros x [Hx _]%elem_of_step_by; [|lia].
  assert (TRAMPOLINE = TRAPFRAME + 4096) by reflexivity. intros [Hs|Hs]; lia.
Qed.

(** The addresses in the first [k] pages of a range. *)
Lemma elem_take_pages lo b k a :
  page_va lo -> (k <= length (step_by lo b 4096))%nat ->
  a - a `mod` 4096 ∈ take k (step_by lo b 4096) <-> lo <= a < lo + 4096 * Z.of_nat k.
Proof using Type.
  intros [Hlo Hm] Hk. rewrite elem_of_take. rewrite length_step_by in Hk. unfold step_by.
  pose proof (Z.mod_pos_bound a 4096 ltac:(lia)). pose proof (Z.div_mod a 4096 ltac:(lia)).
  pose proof (Z.div_mod lo 4096 ltac:(lia)). split.
  - intros (i & Hi & Hik). rewrite list_lookup_fmap in Hi.
    destruct (seqZ _ _ !! i) as [j|] eqn:Hj; [|done]. apply lookup_seqZ in Hj as [-> _].
    simpl in Hi. injection Hi as Hi. lia.
  - intros Ha. exists (Z.to_nat (a / 4096 - lo / 4096)). split; [|lia].
    rewrite list_lookup_fmap. rewrite (lookup_seqZ_lt _ _ _) by lia. simpl. f_equal. lia.
Qed.

Lemma length_step_pages lo b :
  page_va lo -> lo <= round_up b 4096 ->
  lo + 4096 * Z.of_nat (length (step_by lo b 4096)) = round_up b 4096.
Proof using Type.
  intros [Hlo Hm] Hle. rewrite length_step_by. unfold round_up in *.
  pose proof (Z.div_mod lo 4096 ltac:(lia)) as Hd. rewrite Hm in Hd.
  pose proof (Z.div_mod (b + 4096 - 1) 4096 ltac:(lia)) as Hb.
  replace (b - lo + 4096 - 1) with ((b + 4096 - 1) + (- (lo / 4096)) * 4096) by lia.
  rewrite Z.div_add by lia. lia.
Qed.

(** ** Properties *)

Lemma round_up_page a : 0 <= a <= TRAPFRAME -> page_va (round_up a 4096) /\ round_up a 4096 <= TRAPFRAME.
Proof using Type.
  intros Ha. change TRAPFRAME with (67108862 * 4096) in *.
  destruct (round_up_spec a 4096) as [Hr Hm]; [lia|].
  pose proof (Z.div_mod (round_up a 4096) 4096 ltac:(lia)). split; [split; [lia|done]|lia].
Qed.


Lemma owned_no_error v N va msg : space_ok v N -> owned v N va -> unmap_error v N va msg -> False.
Proof using Type.
  intros Hsp Ho. pose proof (sp_leaf _ _ Hsp va Ho). destruct Ho as (_ & _ & Hval).
  intros [[_ Hn]|[[_ Hn]|(_ & _ & Hn)]]; [|congruence..].
  unfold pte in Hval. by rewrite Hn in Hval.
Qed.

Lemma pages_between lo hi :
  0 <= lo <= hi -> hi <= TRAPFRAME ->
  page_va (round_up lo 4096) /\ page_va (round_up hi 4096) /\ round_up lo 4096 <= round_up hi 4096 /\
  forall va, va ∈ step_by (round_up lo 4096) (round_up hi 4096) 4096 <-> page_va va /\ lo <= va < hi.
Proof using Type.
  intros Hsz Hmax. assert (TRAPFRAME < 2 ^ 39) by done.
  destruct (round_up_page hi ltac:(lia)) as [Hhi Hhi'].
  destruct (round_up_page lo ltac:(lia)) as [Hlo Hlo'].
  destruct (round_up_spec hi 4096) as [Hr1 _]; [lia|].
  destruct (round_up_spec lo 4096) as [Hr2 _]; [lia|].
  split_and!; [done|done|..].
  all: destruct Hlo as [Hlo Hlom], Hhi as [Hhi Hhim].
  all: pose proof (Z.div_mod (round_up hi 4096) 4096 ltac:(lia)).
  all: pose proof (Z.div_mod (round_up lo 4096) 4096 ltac:(lia)).
  - lia.
  - intros va. rewrite elem_of_step_by by lia. split.
    + intros [Hb Hm]. assert (Hvm : va `mod` 4096 = 0).
      { replace va with ((va - round_up lo 4096) + round_up lo 4096) by lia.
        by rewrite Z.add_mod, Hm, Hlom by lia. }
      pose proof (Z.div_mod va 4096 ltac:(lia)). split; [split; [lia|done]|lia].
    + intros [[Hb Hvm] Hb2]. pose proof (Z.div_mod va 4096 ltac:(lia)). split; [lia|].
      by rewrite Zminus_mod, Hvm, Hlom.
Qed.

Lemma unmap_range v root N va n freeing :
  vm_ok v -> pt_ok v root N -> space_ok v N -> page_va va -> 0 <= n -> va + n * 4096 <= 2 ^ 39 ->
  (freeing = true -> Forall (fun va => ~ special va) (step_by va (va + n * 4096) 4096)) ->
  wp (unmap_pages root va n freeing) v
    (unmap_result v N root freeing (step_by va (va + n * 4096) 4096)).
Proof using Type.
  intros Hv Hok Hsp Hva Hn Hend Hns. unfold unmap_pages, PAGESIZE.
  rewrite (proj2 Hva). cbn [Z.eqb negb]. pose proof (proj1 Hva).
  rewrite usize_mul_small, usize_add_small by lia.
  apply unmap_loop_spec; try done; [apply step_by_pages; [done|lia]|by apply NoDup_step_by].
Qed.

Lemma pages_span lo hi :
  page_va lo -> page_va hi -> lo <= hi -> lo + (hi ⊟ lo) / PAGESIZE * 4096 = hi.
Proof using Type.
  intros [H1 H2] [H3 H4] Hle. rewrite usize_sub_small by lia. unfold PAGESIZE.
  pose proof (Z.div_mod lo 4096 ltac:(lia)). pose proof (Z.div_mod hi 4096 ltac:(lia)).
  replace (hi - lo) with ((hi / 4096 - lo / 4096) * 4096) by lia. rewrite Z.div_mul by lia. lia.
Qed.

(** [uvm_dealloc] gives memory back.  When the pages between the two sizes
    belong to the address space, the call returns the new size rounded up to
    a page; those pages are unmapped and their frames, and no others, are
    freed; every other address reads as before. *)
Theorem uvm_dealloc_shrinks v root N oldsz newsz :
  vm_ok v -> pt_ok v root N -> space_ok v N -> 0 <= newsz < oldsz -> oldsz <= TRAPFRAME ->
  (forall va, page_va va -> newsz <= va < oldsz -> owned v N va) ->
  wp (uvm_dealloc root oldsz newsz) v (fun r v' =>
    r = Ok (round_up newsz 4096) /\ vm_ok v' /\ pt_ok v' root N /\ space_ok v' N /\
    (forall p, frames v' !! p = None <-> frames v !! p = None \/
       exists va, page_va va /\ newsz <= va < oldsz /\ as_phys_addr (pte v N va) = p) /\
    (forall p bs, frames v' !! p = Some bs -> frames v !! p = Some bs) /\
    forall a, 0 <= a < 2 ^ 39 -> umem v' N a =
      if decide (round_up newsz 4096 <= a < round_up oldsz 4096) then None else umem v N a).
Proof using Type.
  intros Hv Hok Hsp Hsz Hmax Hown. assert (TRAPFRAME < 2 ^ 39) by done.
  destruct (pages_between newsz oldsz) as (Hlo & Hhi & Hle & Hvas); [lia|done|].
  destruct (round_up_page oldsz ltac:(lia)) as [_ Hhi']. pose proof (proj1 Hlo) as Hlo1.
  unfold uvm_dealloc. destruct (Z.leb_spec oldsz newsz); [lia|]. rewrite !align_up_page by lia.
  destruct (Z.ltb_spec (round_up newsz 4096) (round_up oldsz 4096)) as [Hlt|Heq].
  - pose proof (pages_span _ _ Hlo Hhi Hle) as Hspan.
    assert (Hn : 0 <= (round_up oldsz 4096 ⊟ round_up newsz 4096) / PAGESIZE)
      by (apply Z.div_pos; [apply usize_sub_bound|done]).
    set (n := (_ ⊟ _) / PAGESIZE) in *.
    pose proof (unmap_range v root N (round_up newsz 4096) n true Hv Hok Hsp Hlo Hn) as Hu.
    rewrite Hspan in Hu. apply wp_bind. eapply wp_mono; [apply Hu|].
    + lia.
    + by intros _; apply step_by_not_special.
    + intros r v' (k & [S1 S2 S3 _ S5 _ S7] & Hk & Hr). apply wp_ret.
      destruct r as [[]|msg]; [|destruct Hr as (va & Hl & He); exfalso;
        apply (owned_no_error v N va msg); [exact Hsp| |exact He];
        apply list_elem_of_lookup_2, Hvas in Hl as [? ?]; by apply Hown].
      subst k. rewrite firstn_all in *. split_and!; try done.
      * intros p. rewrite S5. unfold released. case_decide as Hd; rewrite list_elem_of_fmap in Hd.
        -- split; [|done]. intros _. right. destruct Hd as (va & -> & Hin%Hvas). naive_solver.
        -- split; [by left|]. intros [Hn0|(va & H1 & H2 & H3)]; [done|]. exfalso. apply Hd.
           exists va. split; [done|]. by apply Hvas.
      * intros p bs. rewrite S5. by case_decide.
      * intros a Ha. rewrite S7 by done. apply decide_ext.
        rewrite <-(firstn_all (step_by _ _ _)), elem_take_pages by done.
        rewrite length_step_pages; rewrite ?(round_up_aligned (round_up oldsz 4096)); try done.
        -- apply Hhi.
        -- apply Hhi.
  - apply wp_ret. assert (E : round_up newsz 4096 = round_up oldsz 4096) by lia.
    assert (Hno : forall va, page_va va -> newsz <= va < oldsz -> False).
    { intros va H1 H2. assert (va ∈ step_by (round_up newsz 4096) (round_up oldsz 4096) 4096) as Hin
        by by apply Hvas. apply elem_of_step_by in Hin; lia. }
    split_and!; try done; [naive_solver|]. intros a Ha. by rewrite decide_False by lia.
Qed.

(** C6: [copy_out] writes user memory and nothing else.  The call returns.
    With [Ok] the bytes of the range are [src]; with an error exactly the
    bytes before an address that the process may not access are written.
    Every other user address reads as before, the page table is unchanged, and
    no data page outside this address space is touched. *)
Theorem copy_out_writes v root N dst src count :
  vm_ok v -> pt_ok v root N -> space_ok v N -> 0 <= dst -> 0 <= count -> dst + count <= 2 ^ 39 ->
  count <= Z.of_nat (length src) ->
  wp (copy_out root dst src count) v (copied v N dst src count).
Proof using Type. intros. by apply copy_out_loop_spec. Qed.

(** [copy_in] reads back what [copy_out] wrote.  After a successful
    [copy_out] of [count] bytes a [copy_in] of the same range succeeds and
    returns these bytes; when [copy_out] fails, some address of the range is
    not user memory. *)
Theorem copy_out_copy_in v root N a src count :
  vm_ok v -> pt_ok v root N -> space_ok v N -> 0 <= a -> 0 <= count -> a + count <= 2 ^ 39 ->
  count <= Z.of_nat (length src) ->
  wp (let! r := copy_out root a src count in
      match r with Ok _ => copy_in root a count | Err msg => ret ([], Err msg) end) v
    (fun x _ => match x.2 with
     | Ok _ => x.1 = take (Z.to_nat count) src
     | Err _ => exists k, 0 <= k < count /\ umem v N (a + k) = None
     end).
Proof using Type.
  intros Hv Hok Hsp Ha Hc Hend Hsrc. apply wp_bind.
  eapply wp_mono; [by apply copy_out_loop_spec|].
  intros r v' [C1 C2 C3 _ (k & Hk & Hm & Hr)]. destruct r as [|msg].
  2:{ apply wp_ret. simpl. exists k. naive_solver lia. }
  subst k. assert (Hok' : pt_ok v' root N) by by eapply pt_ok_ext.
  assert (Hsome : forall i : nat, (i < Z.to_nat count)%nat ->
            umem v' N (a + Z.of_nat i) = src !! i).
  { intros i Hi. rewrite Hm, decide_True by lia. f_equal. lia. }
  eapply wp_mono; [by apply copy_in_loop_spec|].
  intros [d r] v2 (-> & bs & Hd & Hb & Hres). simpl in *. subst d.
  destruct r as [|msg].
  - apply list_eq. intros i. destruct (bs !! i) as [b|] eqn:Hi.
    + pose proof (lookup_lt_Some _ _ _ Hi). rewrite lookup_take_lt by lia.
      rewrite <-Hsome by lia. by rewrite (Hb _ _ Hi).
    + apply lookup_ge_None in Hi. symmetry. apply lookup_ge_None. rewrite length_take. lia.
  - destruct Hres as [Hlt Hn]. rewrite Hsome in Hn by lia. apply lookup_ge_None in Hn. lia.
Qed.

(** C5: [uvm_copy] gives the child its own copy.  When the pages below [sz]
    belong to the parent, the call returns.  With [Ok] the child reads what
    the parent read at every address below [sz] rounded up, and the rest of
    the child's memory is as before.  In every case the parent's memory is
    unchanged and the two address spaces share no frame and no table, so a
    write to one is never seen by the other. *)
Theorem uvm_copy_clones v root child N M sz :
  vm_ok v -> pt_ok v root N -> space_ok v N -> pt_ok v child M -> space_ok v M ->
  apart N M -> separate v N M -> 0 <= sz <= TRAPFRAME ->
  (forall va, page_va va -> va < sz -> owned v N va) ->
  wp (uvm_copy root child sz) v (fun r v' => vm_ok v' /\
    pt_ok v' root N /\ space_ok v' N /\
    (forall a, 0 <= a < 2 ^ 39 -> umem v' N a = umem v N a) /\
    exists M' k, pt_ok v' child M' /\ space_ok v' M' /\ apart N M' /\ separate v' N M' /\ 0 <= k /\
      (forall a, 0 <= a < 2 ^ 39 -> umem v' M' a =
         if decide (a < 4096 * k) then umem v N a else umem v M a) /\
      match r with Ok _ => 4096 * k = round_up sz 4096 | Err _ => 4096 * k < round_up sz 4096 end).
Proof using Type.
  intros Hv HokN HspN HokM HspM Hap Hsep Hsz Hown. unfold uvm_copy.
  assert (TRAPFRAME < 2 ^ 39) by done. assert (H0 : page_va 0) by done.
  destruct (round_up_spec sz 4096) as [Hr _]; [lia|].
  pose proof (length_step_pages 0 sz H0 ltac:(lia)) as Hlen. change PAGESIZE with 4096.
  eapply wp_mono; [apply (uvm_copy_loop_spec root child _ v N M); try done|].
  - apply Forall_forall. intros va Hva. pose proof (step_by_pages 0 sz H0 ltac:(lia)) as Hp.
    rewrite Forall_forall in Hp. apply elem_of_step_by in Hva as Hb; [|lia]. apply Hown; [auto|lia].
  - by apply NoDup_step_by.
  - intros r v' (Hv' & M' & k & (Hok' & Hsp' & Hen & Hsep' & Hk & Hm) & Hres).
    split_and!; [done|by apply (other_pt_ok v v' N M M')|by apply (other_space_ok v v' N M M' root)| |].
    + intros a Ha. by apply (other_umem v v' N M M' root).
    + exists M', (Z.of_nat k).
      split_and!; [done|done|by apply (other_apart v v' N M M' root)|done|lia| |].
      * intros a Ha. rewrite Hm by done. apply decide_ext. rewrite elem_take_pages by done. lia.
      * destruct r; lia.
Qed.

(** [copy_in_str] reads strings.  A string of nonzero bytes with its
    terminator in user memory, at least two bytes shorter than the buffer, is
    copied with its terminator to the start of the buffer, across any number
    of pages; the call returns its length and changes no memory. *)
Theorem copy_in_str_reads v root N dst a str :
  pt_ok v root N -> space_ok v N -> ustring v N a str ->
  0 <= a -> a + Z.of_nat (length str) < 2 ^ 39 ->
  (length str + 2 <= length dst)%nat -> Z.of_nat (length dst) < 2 ^ 64 ->
  wp (copy_in_str root dst a) v (fun r v' =>
    r = (splice 0 (str ++ [0]) dst, Ok (Z.of_nat (length str))) /\ v' = v).
Proof using Type. intros. apply (copy_in_str_loop_spec root v N _ str dst a 0); try done; lia. Qed.

(** C8: [copy_in_str] can abort the kernel.  The bound on the second page is
    the size of the whole buffer, not of what is left of it: when at least
    two bytes before a page boundary are followed by a page without a
    terminator, the copy indexes past the end of the buffer and panics,
    instead of returning its error. *)
Theorem copy_in_str_overruns v N root dst a l :
  pt_ok v root N -> space_ok v N -> 0 <= a < 2 ^ 38 -> ubytes v N a l ->
  Forall (fun c => c <> 0) l -> (length dst <= 4096)%nat ->
  2 <= 4096 - a `mod` 4096 < Z.of_nat (length dst) ->
  Z.of_nat (length l) = 4096 - a `mod` 4096 + (Z.of_nat (length dst) - 1) ->
  copy_in_str root dst a v = Panic "index out of bounds".
Proof using Type. apply copy_in_str_crosses. Qed.

End space_theory.

(** ** Witnesses

    The memory of [PageTable.sample_vm], grown by two pages, with a second,
    empty page table. *)

#[local] Existing Instance sample_laws.

Lemma empty_space_ok (v : vm Kalloc.LinkedListAllocator) q :
  tables v !! q = Some empty_table -> space_ok v {[ [] := q ]}.
Proof.
  intros Hq. assert (Hp : forall va, pte v {[ [] := q ]} va = 0)
    by (intros va; unfold pte, leaf_table; by rewrite lookup_singleton_ne).
  split; unfold owned; intros *; rewrite Hp; naive_solver.
Qed.

Definition sample_grow : M (vm Kalloc.LinkedListAllocator) (result Z * option Z) :=
  let! r := uvm_alloc sample_root 0 8192 in
  let! o := alloc_table in ret (r, o).

Lemma sample_grow_runs :
  match sample_grow sample_vm with Done ((Ok _, Some _), _) => true | _ => false end = true.
Proof. vm_compute. reflexivity. Qed.

Lemma sample_space_ok : space_ok sample_vm sample_tree.
Proof. apply empty_space_ok. apply lookup_singleton_eq. Qed.

Lemma sample_spaces : exists (v : vm Kalloc.LinkedListAllocator) N child M,
  vm_ok v /\ pt_ok v sample_root N /\ space_ok v N /\ pt_ok v child M /\ space_ok v M /\
  apart N M /\ separate v N M /\ forall a, 0 <= a < 8192 -> umem v N a = Some 0.
Proof.
  assert (H : wp sample_grow sample_vm (fun r v => match r with (Ok _, Some child) =>
    exists N M, vm_ok v /\ pt_ok v sample_root N /\ space_ok v N /\ pt_ok v child M /\ space_ok v M /\
      apart N M /\ separate v N M /\ forall a, 0 <= a < 8192 -> umem v N a = Some 0 | _ => True end)).
  { apply wp_bind. eapply wp_mono.
    { apply (uvm_alloc_loop_spec sample_root 0 8192 [0; 4096] sample_vm sample_tree);
        [apply sample_vm_ok|apply sample_pt_ok|apply sample_space_ok|by repeat constructor| | |done].
      - repeat constructor; intros [E|E]; vm_compute in E; discriminate.
      - apply NoDup_cons. split; [set_solver by lia|apply NoDup_singleton]. }
    intros r v (Hv & N & k & (Hok & Hsp & _ & _ & _ & Hm) & Hr). apply wp_bind, alloc_table_spec; [done| |].
    { intros. apply wp_ret. by destruct r. }
    intros child v' Hv' Hc Hct Hcf Et Ef. apply wp_ret. destruct r as [sz|]; [|done].
    destruct Hr as [_ ->]. exists N, {[ [] := child ]}.
    assert (Hq : tables v' !! child = Some empty_table) by (rewrite Et; apply lookup_insert_eq).
    assert (Hen : enlarges v ∅ v' {[ [] := child ]}).
    { split; [apply map_empty_subseteq| |by rewrite Ef|].
      - intros path p [<- <-]%lookup_singleton_Some _. done.
      - intros p Hp. rewrite Et, lookup_insert_ne; [done|]. intros <-. apply Hp. exists [].
        apply lookup_singleton_eq. }
    assert (Hap : apart N ∅) by (intros p _ [path Hp]; by rewrite lookup_empty in Hp).
    split_and!.
    - done.
    - by apply (other_pt_ok v v' N ∅ {[ [] := child ]}).
    - by apply (other_space_ok v v' N ∅ {[ [] := child ]} sample_root).
    - by apply fresh_pt_ok.
    - by apply empty_space_ok.
    - by apply (other_apart v v' N ∅ {[ [] := child ]} sample_root).
    - intros va va' _ (_ & _ & Hval). unfold pte, leaf_table in Hval.
      by rewrite lookup_singleton_ne in Hval by done.
    - intros a Ha. rewrite (other_umem v v' N ∅ {[ [] := child ]} sample_root) by (done || lia).
      rewrite Hm by lia. rewrite decide_True; [done|]. simpl. rewrite !elem_of_cons.
      pose proof (Z.mod_pos_bound a 4096 ltac:(lia)). pose proof (Z.div_mod a 4096 ltac:(lia)).
      assert (a / 4096 = 0 \/ a / 4096 = 1) as [E|E] by lia; [left|right; left]; lia. }
  pose proof sample_grow_runs as Hrun. apply wp_elim in H as ([r o] & v & Heq & H). rewrite Heq in Hrun.
  destruct r; [|done]. destruct o as [child|]; [|done]. destruct H as (N & M & H).
  by exists v, N, child, M.
Qed.

Lemma zero_owned (v : vm Kalloc.LinkedListAllocator) N hi :
  space_ok v N -> hi <= 8192 -> (forall a, 0 <= a < 8192 -> umem v N a = Some 0) ->
  forall va, page_va va -> 0 <= va < hi -> owned v N va.
Proof.
  intros Hsp Hhi Hz va [Hb Hm] Hva. specialize (Hz va ltac:(lia)) as Hu.
  pose proof (umem_owned v N va Hsp Hb) as Ho. unfold umem in Hu. rewrite Hm, Z.sub_0_r in *.
  apply Ho. by destruct (is_valid (pte v N va) && is_user (pte v N va)).
Qed.


Lemma uvm_dealloc_shrinks_witness : exists (v : vm Kalloc.LinkedListAllocator) N,
  wp (uvm_dealloc sample_root 8192 4096) v (fun r v' =>
    r = Ok 4096 /\ umem v' N 100 = Some 0 /\ umem v' N 5000 = None).
Proof.
  destruct sample_spaces as (v & N & child & M & Hv & Hok & Hsp & _ & _ & _ & _ & Hz). exists v, N.
  eapply wp_mono; [apply (uvm_dealloc_shrinks v sample_root N 8192 4096); try done|].
  - intros va Hva Hb. apply (zero_owned v N 8192); try done. lia.
  - intros r v' (-> & _ & _ & _ & _ & _ & Hm). split; [done|].
    change (round_up 8192 4096) with 8192 in *. change (round_up 4096 4096) with 4096 in *.
    split; [|by rewrite Hm, decide_True by lia]. rewrite Hm, decide_False by lia. apply Hz. lia.
Defined.

Lemma copy_out_writes_witness : exists (v : vm Kalloc.LinkedListAllocator) N,
  wp (copy_out sample_root 4094 [1; 2; 3; 4] 4) v (fun r v' => copied v N 4094 [1; 2; 3; 4] 4 r v').
Proof.
  destruct sample_spaces as (v & N & child & M & Hv & Hok & Hsp & _ & _ & _ & _ & Hz). exists v, N.
  apply (copy_out_writes v sample_root N 4094 [1; 2; 3; 4] 4); done.
Defined.

Lemma copy_out_copy_in_witness : exists (v : vm Kalloc.LinkedListAllocator),
  wp (let! r := copy_out sample_root 4094 [1; 2; 3; 4] 4 in
      match r with Ok _ => copy_in sample_root 4094 4 | Err msg => ret ([], Err msg) end) v
    (fun x _ => x.1 = [1; 2; 3; 4]).
Proof.
  destruct sample_spaces as (v & N & child & M & Hv & Hok & Hsp & _ & _ & _ & _ & Hz). exists v.
  eapply wp_mono; [apply (copy_out_copy_in v sample_root N 4094 [1; 2; 3; 4] 4); done|].
  intros [d [|msg]] v'; [done|]. simpl. intros (k & Hk & Hn). rewrite Hz in Hn by lia. done.
Defined.

Lemma uvm_copy_clones_witness : exists (v : vm Kalloc.LinkedListAllocator) child,
  wp (uvm_copy sample_root child 8192) v (fun r v' => exists M',
    match r with Ok _ => umem v' M' 5000 = Some 0 | Err _ => pt_ok v' child M' end).
Proof.
  destruct sample_spaces as (v & N & child & M & Hv & Hok & Hsp & HokM & HspM & Hap & Hsep & Hz).
  exists v, child. eapply wp_mono; [apply (uvm_copy_clones v sample_root child N M 8192); try done|].
  - intros va Hva Hb. apply (zero_owned v N 8192); try done. split; [apply Hva|done].
  - intros r v' (_ & _ & _ & _ & M' & k & Hok' & _ & _ & _ & _ & Hm & Hr). exists M'.
    destruct r; [|done]. change (round_up 8192 4096) with 8192 in Hr.
    rewrite Hm, decide_True by lia. apply Hz. lia.
Defined.

Lemma sample_filled src : Z.of_nat (length src) <= 8192 ->
  exists (v : vm Kalloc.LinkedListAllocator) N, pt_ok v sample_root N /\ space_ok v N /\ ubytes v N 0 src.
Proof.
  intros Hl. destruct sample_spaces as (v & N & _ & _ & Hv & Hok & Hsp & _ & _ & _ & _ & Hz).
  pose proof (copy_out_loop_spec sample_root (length src) v N 0 src (Z.of_nat (length src)) Hv Hok Hsp
    ltac:(lia) ltac:(lia) ltac:(lia) ltac:(lia) ltac:(lia)) as H.
  apply wp_elim in H as (r & v' & _ & [_ C2 C3 _ (k & Hk & Hm & Hr)]). exists v', N.
  split_and!; [by eapply pt_ok_ext|done|]. destruct r as [|msg].
  - subst k. intros i b Hi. pose proof (lookup_lt_Some _ _ _ Hi).
    rewrite Hm, decide_True by lia. by rewrite Z.add_0_l, Z.sub_0_r, Nat2Z.id.
  - destruct Hr as [? Hn]. by rewrite Hz in Hn by lia.
Qed.

Lemma copy_in_str_reads_witness : exists (v : vm Kalloc.LinkedListAllocator),
  wp (copy_in_str sample_root [9; 9; 9; 9; 9] 4095) v (fun r v' =>
    r = ([104; 105; 0; 9; 9], Ok 2) /\ v' = v).
Proof.
  destruct (sample_filled (replicate 4095 1 ++ [104; 105; 0])) as (v & N & Hok & Hsp & Hb);
    [rewrite length_app, length_replicate; simpl; lia|].
  exists v. apply (copy_in_str_reads v sample_root N [9; 9; 9; 9; 9] 4095 [104; 105]); try done.
  - split; [|by repeat constructor].
    assert (Hl : (4095 <= length (replicate 4095 1 ++ [104; 105; 0])%Z)%nat)
      by (rewrite length_app, length_replicate; simpl; lia).
    pose proof (ubytes_drop v N 0 _ 4095 Hl Hb) as Hd.
    rewrite drop_app_length' in Hd by by rewrite length_replicate. exact Hd.
  - simpl. lia.
Defined.

Lemma copy_in_str_overruns_witness : exists (v : vm Kalloc.LinkedListAllocator),
  copy_in_str sample_root (replicate 128 0) 4094 v = Panic "index out of bounds".
Proof.
  destruct (sample_filled (replicate (4094 + 129) 1)) as (v & N & Hok & Hsp & Hb);
    [rewrite length_replicate; lia|].
  exists v. apply (copy_in_str_overruns v N sample_root (replicate 128 0) 4094 (replicate 129 1)); try done.
  - rewrite replicate_add in Hb.
    assert (Hl : (4094 <= length (replicate 4094 1 ++ replicate 129 1)%Z)%nat)
      by (rewrite length_app, !length_replicate; lia).
    pose proof (ubytes_drop v N 0 _ 4094 Hl Hb) as Hd.
    rewrite drop_app_length' in Hd by by rewrite length_replicate. exact Hd.
  - by apply Forall_replicate.
  - simpl. lia.
Defined.

(** With four pages of memory growing by two pages fails, and the first of
    them stays mapped: the clean-up call [uvm_dealloc(oldsz, newsz)] asks to
    shrink from the smaller to the larger size, which does nothing. *)
Definition small_vm : vm Kalloc.LinkedListAllocator :=
  mkVm (Kalloc.mkAllocator [(0x80001000, 12288)]) {[sample_root := empty_table]} ∅.

Lemma uvm_alloc_error_keeps_page :
  match (let! r := uvm_alloc sample_root 0 8192 in
         let! a := walk_addr sample_root 0 in ret (r, a)) small_vm with
  | Done ((Err msg, Ok _), _) => msg = "uvm_alloc: insufficient memory"
  | _ => False
  end.
Proof. vm_compute. reflexivity. Qed.

End UserMem.
