(* ===== verification/Pipe.v ===== *)
(** * Pipes

    Models the pipe half of [kernel/src/file.rs]: the ring buffer [FilePipe],
    the [Pipe] branches of [File::write], [File::read] and [Drop for File], and
    [alloc_pipe].  A call that sleeps is split there: it reports the channel and
    how far it got, and is resumed from that point.  The memory of the calling
    process is the interface [ProcMem], which the page tables implement. *)

From S2P Require Import Prelude Param Bytes Kalloc Pages PageTable UserMem.

Module Pipe.

Definition PIPE_SIZE : Z := 512.

Record FilePipe := mkPipe {
  data : list Z;
  read_open : bool;
  write_open : bool;
  n_read : Z;
  n_write : Z
}.

Definition pipe_new : FilePipe := mkPipe (replicate (Z.to_nat PIPE_SIZE) 0) true true 0 0.

(** The ends of a pipe: [readable], [writable] and the shared buffer. *)
Record pipe_end := mkEnd { readable : bool; writable : bool }.
Definition alloc_pipe : pipe_end * pipe_end * FilePipe := (mkEnd true false, mkEnd false true, pipe_new).

(** ** The memory of the process *)

(** [ProcData::copy_in] into one byte and [ProcData::copy_out] from one byte. *)
Class ProcMem (U : Type) := {
  copy_in : Z -> Z -> M U (list Z * result unit);
  copy_out : Z -> list Z -> Z -> M U (result unit)
}.

Class ProcMemLaws (U : Type) `{!ProcMem U} := {
  uok : U -> Prop;
  ubyte : U -> Z -> option Z;
  in_byte u a : uok u -> 0 <= a < 2 ^ 39 ->
    match ubyte u a with
    | Some b => copy_in a 1 u = Done (([b], Ok tt), u)
    | None => exists bs e, copy_in a 1 u = Done ((bs, Err e), u)
    end;
  out_byte u a b : uok u -> 0 <= a < 2 ^ 39 ->
    exists r u', copy_out a [b] 1 u = Done (r, u') /\ uok u' /\
    match ubyte u a with
    | Some _ => r = Ok tt /\ forall x, 0 <= x < 2 ^ 39 -> ubyte u' x = if decide (x = a) then Some b else ubyte u x
    | None => (exists e, r = Err e) /\ forall x, 0 <= x < 2 ^ 39 -> ubyte u' x = ubyte u x
    end
}.

(** ** The operations *)

(** The channels [&guard.n_read] and [&guard.n_write]. *)
Inductive chan := NRead | NWrite.

(** A call has returned, or sleeps on a channel with [i] bytes moved. *)
Inductive progress := Finished (r : result Z) | Asleep (c : chan) (i : Z).

Section ops.
Context {U : Type} `{!ProcMem U}.

Record pst := mkPst { pipe : FilePipe; user : U; woken : list chan }.

Definition get_pipe : M pst FilePipe := let! s := get in ret (pipe s).
Definition set_pipe (p : FilePipe) : M pst unit := modify (fun s => mkPst p (user s) (woken s)).
Definition wakeup (c : chan) : M pst unit := modify (fun s => mkPst (pipe s) (user s) (woken s ++ [c])).
Definition on_user {A} (m : M U A) : M pst A := fun s =>
  match m (user s) with
  | Done (x, u) => Done (x, mkPst (pipe s) u (woken s))
  | Panic msg => Panic msg
  | Sleep => Sleep
  | OutOfFuel => OutOfFuel
  | Undef => Undef
  end.

(** The end of [write], with [i] bytes written. *)
Definition write_done (i : Z) : M pst progress := wakeup NRead ;; ret (Finished (Ok i)).

Fixpoint write_loop (fuel : nat) (addr n i : Z) : M pst progress :=
  if i <? n then
    match fuel with
    | O => out_of_fuel
    | S fuel =>
        let! p := get_pipe in
        if negb (read_open p) then ret (Finished (Err "pipe_write: no read open"))
        else if n_write p =? n_read p ⊞ PIPE_SIZE then wakeup NRead ;; ret (Asleep NWrite i)
        else
          let! '(bs, r) := on_user (copy_in (addr ⊞ i) 1) in
          match r with
          | Err _ => write_done i
          | Ok _ =>
              let ch := bs !!! 0%nat in
              let n_write := n_write p ⊞ 1 in
              set_pipe (mkPipe (<[Z.to_nat (n_write `mod` PIPE_SIZE) := ch]> (data p))
                          (read_open p) (write_open p) (n_read p) n_write) ;;
              write_loop fuel addr n (i ⊞ 1)
          end
    end
  else write_done i.

(** [write] from the start, or resumed with [i] bytes written. *)
Definition write (addr n i : Z) : M pst progress := write_loop (Z.to_nat (n - i)) addr n i.

Fixpoint read_loop (l : list Z) (addr : Z) : M pst unit :=
  match l with
  | [] => ret tt
  | i :: l =>
      let! p := get_pipe in
      if n_read p =? n_write p then ret tt
      else
        let n_read := n_read p ⊞ 1 in
        set_pipe (mkPipe (data p) (read_open p) (write_open p) n_read (n_write p)) ;;
        let! ch := get_at (data p) (Z.to_nat (n_read `mod` PIPE_SIZE)) in
        let! r := on_user (copy_out (addr ⊞ i) [ch] 1) in
        match r with
        | Err _ => ret tt
        | Ok _ => read_loop l addr
        end
  end.

Definition read (addr n : Z) : M pst progress :=
  let! p := get_pipe in
  if (n_read p =? n_write p) && write_open p then ret (Asleep NRead 0)
  else
    read_loop (seqZ 0 (if n <? 2 ^ 63 then n else 0)) addr ;;
    wakeup NWrite ;;
    ret (Finished (Ok 0)).

(** [Drop for File] on an end of the pipe. *)
Definition drop_end (e : pipe_end) : M pst unit :=
  let! p := get_pipe in
  if writable e then
    set_pipe (mkPipe (data p) (read_open p) false (n_read p) (n_write p)) ;; wakeup NRead
  else
    set_pipe (mkPipe (data p) false (write_open p) (n_read p) (n_write p)) ;; wakeup NWrite.
End ops.
Arguments pst : clear implicits.

(** ** The buffer as a queue *)

(** The bytes between the two counters, which wrap around. *)
Record pipe_rep (p : FilePipe) (q : list Z) : Prop := {
  pr_len : length (data p) = 512%nat;
  pr_read : 0 <= n_read p < 2 ^ 64;
  pr_write : n_write p = n_read p ⊞ Z.of_nat (length q);
  pr_cap : (length q <= 512)%nat;
  pr_data j x : q !! j = Some x -> data p !! Z.to_nat ((n_read p + 1 + Z.of_nat j) `mod` PIPE_SIZE) = Some x
}.

Lemma pipe_new_rep : pipe_rep pipe_new [].
Proof. split; try done. cbn. lia. Qed.

(** The size of the buffer divides the range of the counters. *)
Lemma wrap_ring z : wrap 64 z `mod` PIPE_SIZE = z `mod` PIPE_SIZE.
Proof.
  unfold wrap. rewrite (Z.mod_eq z (2 ^ 64)) by done. change (2 ^ 64) with (2 ^ 55 * PIPE_SIZE).
  set (k := z / _). replace (z - 2 ^ 55 * PIPE_SIZE * k) with (z + - (2 ^ 55 * k) * PIPE_SIZE) by lia.
  by apply Z.mod_add.
Qed.

Lemma wrap_ring_add z k : (wrap 64 z + k) `mod` PIPE_SIZE = (z + k) `mod` PIPE_SIZE.
Proof. by rewrite <-Zplus_mod_idemp_l, wrap_ring, Zplus_mod_idemp_l. Qed.

Lemma ring_slot z : (Z.to_nat (z `mod` PIPE_SIZE) < 512)%nat.
Proof. pose proof (Z.mod_pos_bound z PIPE_SIZE ltac:(done)). unfold PIPE_SIZE in *. lia. Qed.

Lemma counters_eq a b c : 0 <= b < 2 ^ 64 -> 0 <= c < 2 ^ 64 -> (a ⊞ b =? a ⊞ c) = (b =? c).
Proof.
  intros Hb Hc. apply eq_bool_prop_intro. rewrite !Is_true_true, !Z.eqb_eq. split; [|congruence].
  unfold usize_add, wrap. pose proof (Z.div_mod (a + b) (2 ^ 64)). pose proof (Z.div_mod (a + c) (2 ^ 64)). lia.
Qed.

Section queue.
Context (p : FilePipe).

Lemma pipe_full q : pipe_rep p q -> (n_write p =? n_read p ⊞ PIPE_SIZE) = Nat.eqb (length q) 512.
Proof.
  intros Hp. pose proof (pr_cap _ _ Hp). rewrite (pr_write _ _ Hp), counters_eq by (unfold PIPE_SIZE; lia).
  unfold PIPE_SIZE. destruct (Nat.eqb_spec (length q) 512); [apply Z.eqb_eq|apply Z.eqb_neq]; lia.
Qed.

Lemma pipe_empty q : pipe_rep p q -> (n_read p =? n_write p) = Nat.eqb (length q) 0.
Proof.
  intros Hp. pose proof (pr_cap _ _ Hp). pose proof (pr_read _ _ Hp). rewrite (pr_write _ _ Hp), Z.eqb_sym.
  replace (n_read p) with (n_read p ⊞ 0) at 2 by (rewrite usize_add_small; lia). rewrite counters_eq by lia.
  destruct (Nat.eqb_spec (length q) 0); [apply Z.eqb_eq|apply Z.eqb_neq]; lia.
Qed.

Lemma usize_add_assoc a b c : a ⊞ b ⊞ c = a ⊞ (b + c).
Proof. unfold usize_add, wrap. rewrite Zplus_mod_idemp_l. f_equal. lia. Qed.

Lemma pipe_push q ch :
  pipe_rep p q -> (length q < 512)%nat ->
  pipe_rep (mkPipe (<[Z.to_nat ((n_write p ⊞ 1) `mod` PIPE_SIZE) := ch]> (data p))
              (read_open p) (write_open p) (n_read p) (n_write p ⊞ 1)) (q ++ [ch]).
Proof.
  intros Hp Hq. pose proof (pr_write _ _ Hp) as Hw. split; cbn [data n_read n_write].
  - rewrite length_insert. apply Hp.
  - apply Hp.
  - rewrite Hw, usize_add_assoc, length_app. f_equal. cbn. lia.
  - rewrite length_app. cbn. lia.
  - rewrite Hw, usize_add_assoc. unfold usize_add. rewrite wrap_ring.
    intros j x Hj. destruct (decide (j < length q)%nat) as [Hlt|Hge].
    + rewrite lookup_app_l in Hj by done. rewrite list_lookup_insert_ne; [by apply Hp|].
      set (a := n_read p + 1 + Z.of_nat j). unfold PIPE_SIZE.
      replace (n_read p + (Z.of_nat (length q) + 1)) with (a + (Z.of_nat (length q) - Z.of_nat j)) by lia.
      pose proof (Z.mod_pos_bound a 512). pose proof (Z.div_mod a 512).
      set (d := Z.of_nat (length q) - Z.of_nat j). pose proof (Z.mod_pos_bound (a + d) 512). pose proof (Z.div_mod (a + d) 512). lia.
    + rewrite lookup_app_r in Hj by lia. apply list_lookup_singleton_Some in Hj as [Hz <-].
      replace (n_read p + 1 + Z.of_nat j) with (n_read p + (Z.of_nat (length q) + 1)) by lia.
      apply list_lookup_insert_eq. rewrite (pr_len _ _ Hp). apply ring_slot.
Qed.

Lemma pipe_pop x q :
  pipe_rep p (x :: q) ->
  data p !! Z.to_nat ((n_read p ⊞ 1) `mod` PIPE_SIZE) = Some x /\
  pipe_rep (mkPipe (data p) (read_open p) (write_open p) (n_read p ⊞ 1) (n_write p)) q.
Proof.
  intros Hp. pose proof (pr_cap _ _ Hp) as Hc. cbn in Hc. split.
  - unfold usize_add. rewrite wrap_ring, <-(pr_data _ _ Hp 0%nat x eq_refl). do 3 f_equal. lia.
  - split; cbn [data n_read n_write].
    + apply Hp.
    + apply usize_add_bound.
    + rewrite (pr_write _ _ Hp), usize_add_assoc. f_equal. cbn. lia.
    + lia.
    + intros j y Hj. rewrite <-(pr_data _ _ Hp (S j) y Hj). f_equal. f_equal.
      unfold usize_add. rewrite <-Z.add_assoc, wrap_ring_add. f_equal. lia.
Qed.
End queue.

(** ** Writing and reading *)

Section specs.
Context {U : Type} `{!ProcMem U, !ProcMemLaws U}.
Implicit Types s : pst U.

Lemma wp_get_pipe s (Q : FilePipe -> pst U -> Prop) : Q (pipe s) s -> wp get_pipe s Q.
Proof using Type. done. Qed.

Lemma wp_in_byte s a (Q : list Z * result unit -> pst U -> Prop) :
  uok (user s) -> 0 <= a < 2 ^ 39 ->
  match ubyte (user s) a with Some b => Q ([b], Ok tt) s | None => forall bs e, Q (bs, Err e) s end ->
  wp (on_user (copy_in a 1)) s Q.
Proof using Type.
  intros Hu Ha HQ. pose proof (in_byte (user s) a Hu Ha) as H. destruct s as [p u w]. cbn in *.
  destruct (ubyte u a); [|destruct H as (bs & e & H)]; unfold wp, on_user; cbn; rewrite H; apply HQ.
Qed.

(** The bytes that a process can supply from address [a] on, of [m] asked for. *)
Record supply (u : U) (a m : Z) (bs : list Z) : Prop := {
  su_bytes j x : bs !! j = Some x -> ubyte u (a + Z.of_nat j) = Some x;
  su_len : Z.of_nat (length bs) <= m;
  su_end : Z.of_nat (length bs) < m -> ubyte u (a + Z.of_nat (length bs)) = None
}.

Lemma supply_cons u a m b bs : supply u a m (b :: bs) -> ubyte u a = Some b /\ supply u (a + 1) (m - 1) bs.
Proof using Type.
  intros [H1 H2 H3]. cbn [length] in *. split; [by rewrite <-(H1 0%nat b eq_refl), Z.add_0_r|]. split; [|lia|].
  - intros j x Hj. rewrite <-(H1 (S j) x Hj). f_equal. lia.
  - intros Hl. rewrite <-H3 by lia. f_equal. lia.
Qed.

(** What [write] reports after moving [k] bytes into a buffer that held [l]. *)
Definition write_result (l n i k : Z) : progress :=
  if i + k =? n then Finished (Ok n)
  else if l + k =? PIPE_SIZE then Asleep NWrite (i + k) else Finished (Ok (i + k)).

Lemma write_loop_spec fuel : forall s q addr n i bs,
  pipe_rep (pipe s) q -> read_open (pipe s) = true -> uok (user s) ->
  0 <= addr -> 0 <= i <= n -> addr + n <= 2 ^ 39 -> (Z.to_nat (n - i) <= fuel)%nat ->
  supply (user s) (addr + i) (n - i) bs ->
  let k := Nat.min (length bs) (512 - length q) in
  wp (write_loop fuel addr n i) s (fun r s' =>
    r = write_result (Z.of_nat (length q)) n i (Z.of_nat k) /\ pipe_rep (pipe s') (q ++ take k bs) /\
    read_open (pipe s') = true /\ write_open (pipe s') = write_open (pipe s) /\ user s' = user s /\
    woken s' = woken s ++ [NRead]).
Proof using Type.
  induction fuel as [|fuel IH]; intros s q addr n i bs Hp Ho Hu Ha Hi Hn Hf Hs k;
    pose proof (su_len _ _ _ _ Hs) as Hsl; pose proof (pr_cap _ _ Hp) as Hcap; cbn [write_loop];
    (destruct (Z.ltb_spec i n) as [Hlt|Hge];
      [|apply wp_bind, wp_modify, wp_ret; replace k with 0%nat by lia; rewrite take_0, app_nil_r;
        unfold write_result; rewrite Z.add_0_r, (proj2 (Z.eqb_eq i n)) by lia;
        split_and!; [f_equal; f_equal; lia|done|done|done|done|done]]); [lia|].
  apply wp_bind, wp_get_pipe. rewrite Ho. cbn [negb]. rewrite (pipe_full _ q Hp).
  destruct (Nat.eqb_spec (length q) 512) as [Hfull|Hroom].
  { apply wp_bind, wp_modify, wp_ret. replace k with 0%nat by lia. rewrite take_0, app_nil_r. unfold write_result.
    rewrite Z.add_0_r, (proj2 (Z.eqb_neq i n)) by lia. rewrite (proj2 (Z.eqb_eq _ PIPE_SIZE)) by (unfold PIPE_SIZE; lia).
    split_and!; done. }
  rewrite usize_add_small by lia. apply wp_bind, wp_in_byte; [done|lia|].
  destruct bs as [|b bs].
  { pose proof (su_end _ _ _ _ Hs) as He. cbn [length] in He. rewrite Z.add_0_r in He. rewrite He by lia.
    intros bs e. apply wp_bind, wp_modify, wp_ret. cbn [length Nat.min] in k. subst k. rewrite take_0, app_nil_r.
    unfold write_result. rewrite Z.add_0_r, (proj2 (Z.eqb_neq i n)) by lia.
    rewrite (proj2 (Z.eqb_neq _ PIPE_SIZE)) by (unfold PIPE_SIZE; lia). split_and!; done. }
  destruct (supply_cons _ _ _ _ _ Hs) as [-> Hs']. cbn [lookup_total list_lookup_total]. apply wp_bind, wp_modify.
  rewrite usize_add_small by lia. eapply wp_mono.
  { apply (IH _ (q ++ [b]) addr n (i + 1) bs); cbn [pipe user read_open]; try done; try lia.
    - rewrite <-Ho. apply pipe_push; [done|lia].
    - replace (addr + (i + 1)) with (addr + i + 1) by lia. replace (n - (i + 1)) with (n - i - 1) by lia. done. }
  cbn [pipe user woken read_open write_open]. intros r s' (-> & Hr & H2 & H3 & H4 & H5). rewrite length_app in *.
  cbn [length] in *. assert (Hk : k = S (Nat.min (length bs) (512 - (length q + 1)))) by lia.
  split_and!; [|by rewrite Hk, <-app_assoc in *|done|done|done|done].
  unfold write_result. rewrite Hk. replace (i + 1 + Z.of_nat (Nat.min (length bs) (512 - (length q + 1))))
    with (i + Z.of_nat (S (Nat.min (length bs) (512 - (length q + 1))))) by lia.
  by replace (Z.of_nat (length q + 1) + Z.of_nat (Nat.min (length bs) (512 - (length q + 1))))
    with (Z.of_nat (length q) + Z.of_nat (S (Nat.min (length bs) (512 - (length q + 1))))) by lia.
Qed.

(** The process can store [c] bytes from address [a] on, of [m] asked for. *)
Record storage (u : U) (a : Z) (m c : nat) : Prop := {
  st_some j : (j < c)%nat -> is_Some (ubyte u (a + Z.of_nat j));
  st_len : (c <= m)%nat;
  st_end : (c < m)%nat -> ubyte u (a + Z.of_nat c) = None
}.

(** The bytes taken out of a buffer that held [l]: one that cannot be stored is
    lost. *)
Definition taken (l m c : nat) : nat := if decide (c < m /\ c < l)%nat then S c else Nat.min c l.

(** [bs] has been stored at address [a]. *)
Definition stored (u : U) (a : Z) (bs : list Z) (u' : U) : Prop :=
  forall x, 0 <= x < 2 ^ 39 ->
    ubyte u' x = if decide (a <= x < a + Z.of_nat (length bs)) then bs !! Z.to_nat (x - a) else ubyte u x.

Lemma stored_nil u a : stored u a [] u.
Proof using Type. intros x Hx. by rewrite decide_False by (cbn; lia). Qed.

Lemma stored_cons u a b bs u1 u2 :
  (forall x, 0 <= x < 2 ^ 39 -> ubyte u1 x = if decide (x = a) then Some b else ubyte u x) ->
  stored u1 (a + 1) bs u2 -> stored u a (b :: bs) u2.
Proof using Type.
  intros H1 H2 x Hx. rewrite H2 by done. cbn [length]. case_decide as E.
  - rewrite decide_True by lia. replace (Z.to_nat (x - a)) with (S (Z.to_nat (x - (a + 1)))) by lia. done.
  - rewrite H1 by done. case_decide as Ea; [subst x; rewrite decide_True by lia; by rewrite Z.sub_diag|].
    by rewrite decide_False by lia.
Qed.

Lemma wp_out_byte s a b (Q : result unit -> pst U -> Prop) :
  uok (user s) -> 0 <= a < 2 ^ 39 ->
  (forall r u', uok u' ->
     match ubyte (user s) a with
     | Some _ => r = Ok tt /\ forall x, 0 <= x < 2 ^ 39 -> ubyte u' x = if decide (x = a) then Some b else ubyte (user s) x
     | None => (exists e, r = Err e) /\ forall x, 0 <= x < 2 ^ 39 -> ubyte u' x = ubyte (user s) x
     end -> Q r (mkPst (pipe s) u' (woken s))) ->
  wp (on_user (copy_out a [b] 1)) s Q.
Proof using Type.
  intros Hu Ha HQ. destruct (out_byte (user s) a b Hu Ha) as (r & u' & H & Hu' & Hr). unfold wp, on_user. rewrite H.
  by apply HQ.
Qed.

Lemma read_loop_spec (m : nat) : forall s q addr i c,
  pipe_rep (pipe s) q -> uok (user s) -> 0 <= addr -> 0 <= i -> addr + i + Z.of_nat m <= 2 ^ 39 ->
  storage (user s) (addr + i) m c ->
  wp (read_loop (seqZ i (Z.of_nat m)) addr) s (fun _ s' =>
    pipe_rep (pipe s') (drop (taken (length q) m c) q) /\ read_open (pipe s') = read_open (pipe s) /\
    write_open (pipe s') = write_open (pipe s) /\ uok (user s') /\
    stored (user s) (addr + i) (take (Nat.min c (length q)) q) (user s') /\ woken s' = woken s /\
    n_read (pipe s') = n_read (pipe s) ⊞ Z.of_nat (taken (length q) m c)).
Proof using Type.
  induction m as [|m IH]; intros s q addr i c Hp Hu Ha Hi Hb Hst; pose proof (st_len _ _ _ _ Hst) as Hc;
    pose proof (pr_read _ _ Hp) as Hnr.
  { apply wp_ret. assert (c = 0%nat) as -> by lia. unfold taken. rewrite decide_False by lia. cbn. rewrite drop_0.
    split_and!; try done; [apply stored_nil|rewrite usize_add_small; lia]. }
  rewrite Nat2Z.inj_succ, seqZ_cons by lia. rewrite Z.pred_succ, <-Z.add_1_r. cbn [read_loop].
  apply wp_bind, wp_get_pipe. rewrite (pipe_empty _ q Hp). destruct q as [|x q].
  { apply wp_ret. cbn. rewrite Nat.min_0_r. unfold taken. rewrite decide_False by (cbn; lia). rewrite Nat.min_0_r.
    split_and!; try done; [apply stored_nil|rewrite usize_add_small; lia]. }
  cbn [length Nat.eqb]. apply wp_bind, wp_modify. destruct (pipe_pop _ _ _ Hp) as [Hd Hp'].
  eapply wp_bind, wp_get_at; [exact Hd|]. rewrite usize_add_small by lia. apply wp_bind, wp_out_byte; [done|lia|].
  cbn [pipe user woken]. intros r u' Hu' Hr. destruct c as [|c].
  { pose proof (st_end _ _ _ _ Hst ltac:(lia)) as He. rewrite Z.add_0_r in He. rewrite He in Hr.
    destruct Hr as [[e ->] Hr]. apply wp_ret. cbn [pipe user woken Nat.min take].
    unfold taken. rewrite decide_True by lia. cbn [drop].
    split_and!; try done. intros y Hy. by rewrite Hr, decide_False by (cbn; lia). }
  destruct (st_some _ _ _ _ Hst 0%nat ltac:(lia)) as [b Hb0]. rewrite Z.add_0_r in Hb0. rewrite Hb0 in Hr.
  destruct Hr as [-> Hr]. eapply wp_mono.
  { apply (IH _ q addr (i + 1) c); cbn [pipe user]; try done; try lia. split.
    - intros j Hj. rewrite Hr by lia. case_decide; [done|]. replace (addr + (i + 1) + Z.of_nat j) with (addr + i + Z.of_nat (S j)) by lia.
      apply Hst. lia.
    - lia.
    - intros Hlt. rewrite Hr by lia. rewrite decide_False by lia. rewrite <-(st_end _ _ _ _ Hst) by lia. f_equal. lia. }
  cbn [pipe user woken read_open write_open n_read]. intros [] s' (R1 & R2 & R3 & R4 & R5 & R6 & R7).
  assert (Et : taken (S (length q)) (S m) (S c) = S (taken (length q) m c)) by (unfold taken; do 2 case_decide; lia).
  rewrite Et. split_and!; try done.
  - cbn [Nat.min take]. eapply stored_cons; [exact Hr|]. by replace (addr + i + 1) with (addr + (i + 1)) by lia.
  - rewrite R7, usize_add_assoc. f_equal. lia.
Qed.

Lemma write_spec s q addr n i bs :
  pipe_rep (pipe s) q -> read_open (pipe s) = true -> uok (user s) ->
  0 <= addr -> 0 <= i <= n -> addr + n <= 2 ^ 39 -> supply (user s) (addr + i) (n - i) bs ->
  let k := Nat.min (length bs) (512 - length q) in
  wp (write addr n i) s (fun r s' =>
    r = write_result (Z.of_nat (length q)) n i (Z.of_nat k) /\ pipe_rep (pipe s') (q ++ take k bs) /\
    read_open (pipe s') = true /\ write_open (pipe s') = write_open (pipe s) /\ user s' = user s /\
    woken s' = woken s ++ [NRead]).
Proof using Type. intros. by apply write_loop_spec. Qed.

Lemma write_closed s addr n i :
  read_open (pipe s) = false -> i < n -> write addr n i s = Done (Finished (Err "pipe_write: no read open"), s).
Proof using Type.
  intros Ho Hi. unfold write. destruct (Z.to_nat (n - i)) as [|f] eqn:E; [lia|]. cbn [write_loop].
  rewrite (proj2 (Z.ltb_lt i n) Hi). unfold get_pipe, get, bind, ret. by rewrite Ho.
Qed.

Lemma read_waits s addr n :
  pipe_rep (pipe s) [] -> write_open (pipe s) = true -> read addr n s = Done (Asleep NRead 0, s).
Proof using Type.
  intros Hp Hw. unfold read, get_pipe, get, bind, ret. by rewrite (pipe_empty _ [] Hp), Hw.
Qed.

Lemma read_spec s q addr (n c : nat) :
  pipe_rep (pipe s) q -> (q <> [] \/ write_open (pipe s) = false) -> uok (user s) -> 0 <= addr ->
  addr + Z.of_nat n <= 2 ^ 39 -> storage (user s) addr n c ->
  wp (read addr (Z.of_nat n)) s (fun r s' => r = Finished (Ok 0) /\
    pipe_rep (pipe s') (drop (taken (length q) n c) q) /\ read_open (pipe s') = read_open (pipe s) /\
    write_open (pipe s') = write_open (pipe s) /\ uok (user s') /\
    stored (user s) addr (take (Nat.min c (length q)) q) (user s') /\ woken s' = woken s ++ [NWrite] /\
    n_read (pipe s') = n_read (pipe s) ⊞ Z.of_nat (taken (length q) n c)).
Proof using Type.
  intros Hp Hq Hu Ha Hb Hst. unfold read. apply wp_bind, wp_get_pipe. rewrite (pipe_empty _ q Hp).
  replace (Nat.eqb (length q) 0 && write_open (pipe s)) with false by
    (destruct Hq as [Hq| ->]; [by destruct q|by rewrite andb_false_r]).
  rewrite (proj2 (Z.ltb_lt _ (2 ^ 63))) by lia. eapply wp_bind, wp_mono.
  { apply (read_loop_spec n s q addr 0 c); try done; [lia|]. by rewrite Z.add_0_r. }
  intros [] s' (R1 & R2 & R3 & R4 & R5 & R6 & R7). rewrite Z.add_0_r in R5. apply wp_bind, wp_modify, wp_ret.
  cbn [pipe user woken]. rewrite R6. done.
Qed.

(** C22: a pipe is a bounded queue of bytes.  Whatever the values of the two
    wrapping counters, a buffer that holds the queue [q] behaves as follows.
    [write], from the start or resumed after a sleep, appends as many bytes as
    the process can supply and the 512 places allow, and reports the end, a
    sleep at full capacity, or the position of an unreadable byte; with the read
    end closed it fails and changes nothing.  [read] on an empty pipe whose
    write end is open sleeps; otherwise it moves the oldest bytes to the
    process, loses the one it cannot store, and returns [Ok(0)] whatever the
    number of bytes moved.  Closing an end changes the flags alone. *)
Theorem pipe_is_queue s q :
  pipe_rep (pipe s) q -> uok (user s) ->
  (forall addr n i bs, read_open (pipe s) = true -> 0 <= addr -> 0 <= i <= n -> addr + n <= 2 ^ 39 ->
     supply (user s) (addr + i) (n - i) bs ->
     let k := Nat.min (length bs) (512 - length q) in
     wp (write addr n i) s (fun r s' => r = write_result (Z.of_nat (length q)) n i (Z.of_nat k) /\
       pipe_rep (pipe s') (q ++ take k bs) /\ user s' = user s /\ woken s' = woken s ++ [NRead])) /\
  (forall addr n i, read_open (pipe s) = false -> i < n ->
     write addr n i s = Done (Finished (Err "pipe_write: no read open"), s)) /\
  (forall addr n, q = [] -> write_open (pipe s) = true -> read addr n s = Done (Asleep NRead 0, s)) /\
  (forall addr (n c : nat), q <> [] \/ write_open (pipe s) = false -> 0 <= addr -> addr + Z.of_nat n <= 2 ^ 39 ->
     storage (user s) addr n c ->
     wp (read addr (Z.of_nat n)) s (fun r s' => r = Finished (Ok 0) /\
       pipe_rep (pipe s') (drop (taken (length q) n c) q) /\ uok (user s') /\
       stored (user s) addr (take (Nat.min c (length q)) q) (user s') /\ woken s' = woken s ++ [NWrite])) /\
  (forall e, wp (drop_end e) s (fun _ s' => pipe_rep (pipe s') q /\
     (if writable e then write_open (pipe s') = false else read_open (pipe s') = false) /\
     woken s' = woken s ++ [if writable e then NRead else NWrite])).
Proof using Type.
  intros Hp Hu. split_and!.
  - intros addr n i bs Ho Ha Hi Hn Hs. eapply wp_mono; [by apply (write_spec s q)|]. naive_solver.
  - intros addr n i. apply write_closed.
  - intros addr n ->. by apply read_waits.
  - intros addr n c Hq Ha Hn Hst. eapply wp_mono; [by apply (read_spec s q)|]. naive_solver.
  - intros e. destruct Hp as [P1 P2 P3 P4 P5]. unfold drop_end. apply wp_bind, wp_get_pipe.
    destruct (writable e); apply wp_bind, wp_modify, wp_modify; (split; [by split|done]).
Qed.

(** ** Streams *)

(** The bytes a call of [write] has taken from its buffer. *)
Definition moved (i : Z) (r : progress) : nat :=
  match r with
  | Finished (Ok m) | Asleep _ m => Z.to_nat (m - i)
  | Finished (Err _) => 0
  end.

(** A pipe with the bytes accepted from writers so far and, for each byte taken out by a
    reader, what the reader then has at the address meant for it; and the calls of processes
    with their own memories. *)
Inductive pipe_step : FilePipe * list Z * list (option Z) -> FilePipe * list Z * list (option Z) -> Prop :=
| ps_write p acc del u w addr n i bs r s' :
    uok u -> 0 <= addr -> 0 <= i <= n -> addr + n <= 2 ^ 39 -> supply u (addr + i) (n - i) bs ->
    write addr n i (mkPst p u w) = Done (r, s') ->
    pipe_step (p, acc, del) (pipe s', acc ++ take (moved i r) bs, del)
| ps_read p acc del u w addr (n : nat) r s' :
    uok u -> 0 <= addr -> addr + Z.of_nat n <= 2 ^ 39 ->
    read addr (Z.of_nat n) (mkPst p u w) = Done (r, s') ->
    pipe_step (p, acc, del) (pipe s', acc,
      del ++ (ubyte (user s') <$> seqZ addr (n_read (pipe s') ⊟ n_read p)))
| ps_close p acc del u w e s' :
    drop_end e (mkPst p u w) = Done (tt, s') -> pipe_step (p, acc, del) (pipe s', acc, del).

(** The bytes [bs] have reached the readers, but for those that had no memory at the address. *)
Definition delivered (del : list (option Z)) (bs : list Z) : Prop :=
  Forall2 (fun o b => o = Some b \/ o = None) del bs.

Lemma moved_result l n i (k : nat) :
  i + Z.of_nat k <= n -> moved i (write_result l n i (Z.of_nat k)) = k.
Proof using Type. intros Hk. unfold write_result. repeat case_bool; cbn; lia. Qed.

(** Every destination can take some of the bytes asked for. *)
Lemma storage_exists u a n : exists c, storage u a n c.
Proof using Type.
  induction n as [|n (c & [H1 H2 H3])].
  { exists 0%nat. split; intros; lia. }
  destruct (decide (c < n)%nat) as [Hc|Hc].
  - exists c. split; [done|lia|intros _; by apply H3].
  - assert (c = n) as -> by lia. destruct (ubyte u (a + Z.of_nat n)) as [b|] eqn:E.
    + exists (S n). split; [|lia|lia]. intros j Hj. destruct (decide (j = n)) as [->|]; [by eexists|apply H1; lia].
    + exists n. by split; [|lia|].
Qed.

Lemma delivered_taken u a (n c : nat) q u' :
  0 <= a -> a + Z.of_nat n <= 2 ^ 39 -> storage u a n c -> stored u a (take (Nat.min c (length q)) q) u' ->
  delivered (ubyte u' <$> seqZ a (Z.of_nat (taken (length q) n c))) (take (taken (length q) n c) q).
Proof using Type.
  intros Ha Hn [_ S2 S3] Hs. assert (Ht : (taken (length q) n c <= Nat.min n (length q))%nat) by (unfold taken; case_decide; lia).
  apply Forall2_same_length_lookup. split; [rewrite length_fmap, length_seqZ, length_take; lia|].
  intros j o b Ho Hb. apply lookup_take_Some in Hb as [Hb Hj]. rewrite list_lookup_fmap in Ho.
  apply fmap_Some_1 in Ho as (x & [-> _]%lookup_seqZ & ->). rewrite Hs by lia. rewrite length_take.
  case_decide as Hd.
  - left. replace (Z.to_nat _) with j by lia. rewrite lookup_take_lt by lia. done.
  - right. unfold taken in Hj. case_decide as Hc; [|lia]. assert (j = c) as -> by lia. apply S3. lia.
Qed.

Lemma write_step p acc out u w addr n i bs r s' q :
  uok u -> 0 <= addr -> 0 <= i <= n -> addr + n <= 2 ^ 39 -> supply u (addr + i) (n - i) bs ->
  write addr n i (mkPst p u w) = Done (r, s') -> pipe_rep p q -> acc = out ++ q ->
  exists q', pipe_rep (pipe s') q' /\ acc ++ take (moved i r) bs = out ++ q'.
Proof using Type.
  intros Hu Ha Hi Hn Hs Hrun Hp ->. destruct (read_open p) eqn:Ho.
  - destruct (wp_elim _ _ _ (write_spec (mkPst p u w) q addr n i bs Hp Ho Hu Ha Hi Hn Hs)) as (r' & s'' & Hr & -> & Hq & _).
    rewrite Hrun in Hr. injection Hr as -> <-. pose proof (su_len _ _ _ _ Hs). rewrite moved_result by lia.
    eexists. split; [exact Hq|]. by rewrite <-app_assoc.
  - destruct (decide (i < n)) as [Hlt|Hge].
    + rewrite write_closed in Hrun by done. injection Hrun as <- <-. exists q. cbn. by rewrite app_nil_r.
    + unfold write in Hrun. replace (n - i) with 0 in Hrun by lia. change (Z.to_nat 0) with 0%nat in Hrun. cbn [write_loop] in Hrun.
      rewrite (proj2 (Z.ltb_ge i n)) in Hrun by lia. injection Hrun as <- <-. exists q. cbn.
      rewrite Z.sub_diag. by rewrite app_nil_r.
Qed.

Lemma read_step p acc del out u w addr (n : nat) r s' q :
  uok u -> 0 <= addr -> addr + Z.of_nat n <= 2 ^ 39 ->
  read addr (Z.of_nat n) (mkPst p u w) = Done (r, s') -> pipe_rep p q -> acc = out ++ q -> delivered del out ->
  exists out' q', pipe_rep (pipe s') q' /\ acc = out' ++ q' /\
    delivered (del ++ (ubyte (user s') <$> seqZ addr (n_read (pipe s') ⊟ n_read p))) out'.
Proof using Type.
  intros Hu Ha Hn Hrun Hp -> Hdel. pose proof (pr_read _ _ Hp) as Hnr.
  destruct (decide (q = [] /\ write_open p = true)) as [[-> Hw]|Hne].
  - rewrite read_waits in Hrun by done. injection Hrun as <- <-. exists out, []. cbn [pipe user].
    rewrite usize_sub_small, Z.sub_diag by lia. split_and!; [done|done|]. change (delivered (del ++ []) out). by rewrite app_nil_r.
  - assert (Hq : q <> [] \/ write_open p = false) by (destruct q, (write_open p); naive_solver).
    destruct (storage_exists u addr n) as [c Hst].
    destruct (wp_elim _ _ _ (read_spec (mkPst p u w) q addr n c Hp Hq Hu Ha Hn Hst)) as (r' & s'' & Hr & -> & Hp' & _ & _ & _ & Hm & _ & Hk).
    rewrite Hrun in Hr. injection Hr as -> <-. cbn [pipe user] in *. pose proof (pr_cap _ _ Hp).
    assert (Hd : n_read (pipe s') ⊟ n_read p = Z.of_nat (taken (length q) n c)).
    { rewrite Hk. unfold usize_sub, usize_add, wrap. rewrite Zminus_mod_idemp_l.
      replace (n_read p + _ - n_read p) with (Z.of_nat (taken (length q) n c)) by lia.
      apply Z.mod_small. unfold taken. case_decide; lia. }
    exists (out ++ take (taken (length q) n c) q), (drop (taken (length q) n c) q). split_and!; [done|by rewrite <-app_assoc, take_drop|].
    rewrite Hd. apply Forall2_app; [done|]. by eapply delivered_taken.
Qed.

(** C21: pipes deliver their bytes in order.  Take any sequence of calls on a
    pipe, by writers and readers with memories of their own and buffers in the user address space, each writer
    resumed as often as it slept, in any interleaving, and ends closed at any
    time.  The bytes accepted from the writers are, in this order, those taken out by the
    readers followed by those still in the buffer; and at the addresses meant for them
    the readers have exactly the bytes taken out, except where an address is not
    mapped for user access: the byte for it is lost. *)
Theorem pipe_fifo p acc del :
  rtc pipe_step (pipe_new, [], []) (p, acc, del) -> exists out q, pipe_rep p q /\ acc = out ++ q /\ delivered del out.
Proof using Type.
  intros Hrun. enough (forall x y, rtc pipe_step x y ->
    (exists out q, pipe_rep x.1.1 q /\ x.1.2 = out ++ q /\ delivered x.2 out) ->
    exists out q, pipe_rep y.1.1 q /\ y.1.2 = out ++ q /\ delivered y.2 out) as H.
  { apply (H _ _ Hrun). exists [], []. split_and!; [apply pipe_new_rep|done|constructor]. }
  clear. induction 1 as [x|x y z Hxy _ IH]; [done|]. intros (out & q & Hp & Ha & Hd). apply IH. clear IH.
  destruct Hxy as [p acc del u w addr n i bs r s' | p acc del u w addr n r s' | p acc del u w e s' He]; cbn [fst snd] in *.
  - destruct (write_step p acc out u w addr n i bs r s' q) as (q' & ? & ?); try done. by exists out, q'.
  - by eapply (read_step p acc del out u w addr n r s' q).
  - exists out, q. split; [|done]. destruct Hp as [P1 P2 P3 P4 P5]. unfold drop_end in He.
    destruct (writable e); injection He as <-; by split.
Qed.
End specs.

(** ** Page tables as process memory *)

Section page_tables.
Context {A : Type} `{!PageAlloc A} {HL : PageAllocLaws A} (root : Z) (N : gmap (list Z) Z).
Import PageTable UserMem.

Definition vm_mem : ProcMem (vm A) := {|
  Pipe.copy_in a n := PageTable.copy_in root a n;
  Pipe.copy_out a bs n := PageTable.copy_out root a bs n
|}.

Lemma vm_in_byte (v : vm A) a :
  vm_ok v /\ pt_ok v root N /\ space_ok v N -> 0 <= a < 2 ^ 39 ->
  match umem v N a with
  | Some b => PageTable.copy_in root a 1 v = Done (([b], Ok tt), v)
  | None => exists bs e, PageTable.copy_in root a 1 v = Done ((bs, Err e), v)
  end.
Proof.
  intros (_ & Hpt & Hsp) Ha. unfold PageTable.copy_in.
  destruct (wp_elim _ _ _ (copy_in_loop_spec root v N (Z.to_nat 1) a 1 [] Hpt Hsp ltac:(lia) ltac:(lia) ltac:(lia) ltac:(lia)))
    as ([bs r] & v' & Hr & -> & bs' & E & Hb & Hres). cbn [fst snd] in *. cbn in E. subst bs'. rewrite Hr. destruct r as [[]|e].
  - destruct bs as [|b [|]]; cbn in Hres; try lia. pose proof (Hb 0%nat b eq_refl) as H0. cbn in H0. rewrite Z.add_0_r in H0. by rewrite H0.
  - destruct Hres as [Hl Hn]. destruct bs; cbn in Hl; [|lia]. rewrite Z.add_0_r in Hn. rewrite Hn. by eexists _, _.
Qed.

(** Whether an address is mapped depends on the tables alone. *)
Lemma umem_mapped (v v' : vm A) a :
  space_ok v N -> tables v' = tables v -> 0 <= a < 2 ^ 39 -> is_Some (umem v' N a) -> is_Some (umem v N a).
Proof.
  intros Hsp Et Ha. unfold umem. cbv zeta. rewrite (pte_tables v v') by done.
  destruct (is_valid _ && is_user _) eqn:E; [|by intros [? ?]]. intros _.
  destruct (sp_frame _ _ Hsp _ (umem_owned v N a Hsp Ha E)) as (bs & -> & Hl). cbn.
  apply lookup_lt_is_Some_2. pose proof (Z.mod_pos_bound a 4096). lia.
Qed.

Lemma vm_out_byte (v : vm A) a b :
  vm_ok v /\ pt_ok v root N /\ space_ok v N -> 0 <= a < 2 ^ 39 ->
  exists r v', PageTable.copy_out root a [b] 1 v = Done (r, v') /\ (vm_ok v' /\ pt_ok v' root N /\ space_ok v' N) /\
    match umem v N a with
    | Some _ => r = Ok tt /\ forall x, 0 <= x < 2 ^ 39 -> umem v' N x = if decide (x = a) then Some b else umem v N x
    | None => (exists e, r = Err e) /\ forall x, 0 <= x < 2 ^ 39 -> umem v' N x = umem v N x
    end.
Proof.
  intros (Hv & Hpt & Hsp) Ha. unfold PageTable.copy_out.
  destruct (wp_elim _ _ _ (copy_out_loop_spec root (Z.to_nat 1) v N a [b] 1 Hv Hpt Hsp ltac:(lia) ltac:(lia) ltac:(lia)
    ltac:(cbn; lia) ltac:(lia))) as (r & v' & Hr & [C1 C2 C3 _ (k & Hk & Hm & Hres)]).
  exists r, v'. split; [done|]. split; [split_and!; [done|by eapply pt_ok_ext|done]|]. destruct r as [[]|e].
  - subst k. assert (Hb : forall x, 0 <= x < 2 ^ 39 -> umem v' N x = if decide (x = a) then Some b else umem v N x).
    { intros x Hx. rewrite Hm by done. do 2 case_decide; try lia; [|done]. subst x. by rewrite Z.sub_diag. }
    destruct (umem_mapped v v' a Hsp C2 Ha) as [y ->]; [|done]. rewrite Hb, decide_True by done. by eexists.
  - destruct Hres as [Hl Hn]. assert (k = 0) as -> by lia. rewrite Z.add_0_r in Hn. rewrite Hn. split; [by exists e|].
    intros x Hx. by rewrite Hm, decide_False by lia.
Qed.

Definition vm_laws : @ProcMemLaws (vm A) vm_mem :=
  @Build_ProcMemLaws (vm A) vm_mem (fun v => vm_ok v /\ pt_ok v root N /\ space_ok v N) (fun v a => umem v N a)
    vm_in_byte vm_out_byte.
End page_tables.

#[local] Existing Instance PageTable.sample_laws.

(** A process with two pages of zeros. *)
Lemma sample_process : exists (N : gmap (list Z) Z) (v : PageTable.vm Kalloc.LinkedListAllocator),
  @uok _ _ (vm_laws PageTable.sample_root N) v /\ forall a, 0 <= a < 8192 -> UserMem.umem v N a = Some 0.
Proof.
  destruct UserMem.sample_spaces as (v & N & _ & _ & Hv & Hok & Hsp & _ & _ & _ & _ & Hz). by exists N, v.
Qed.

Lemma zero_supply (N : gmap (list Z) Z) (v : PageTable.vm Kalloc.LinkedListAllocator) :
  (forall a, 0 <= a < 8192 -> UserMem.umem v N a = Some 0) ->
  @supply _ _ (vm_laws PageTable.sample_root N) v 0 3 [0; 0; 0].
Proof.
  intros Hz. split; [|done|done]. intros j x Hj. pose proof (lookup_lt_Some _ _ _ Hj) as Hl. cbn in Hl.
  cbn [ubyte vm_laws]. rewrite Hz by lia. destruct j as [|[|[|]]]; cbn in Hj; try lia; congruence.
Qed.

Lemma pipe_is_queue_witness : exists N v,
  wp (@write _ (vm_mem PageTable.sample_root) 0 3 0) (mkPst pipe_new (v : PageTable.vm Kalloc.LinkedListAllocator) [])
    (fun r s' => r = Finished (Ok 3) /\ pipe_rep (pipe s') [0; 0; 0] /\ @uok _ _ (vm_laws PageTable.sample_root N) v).
Proof.
  destruct sample_process as (N & v & Hu & Hz). exists N, v.
  destruct (@pipe_is_queue _ _ (vm_laws PageTable.sample_root N) (mkPst pipe_new v []) [] pipe_new_rep Hu) as (Hw & _).
  eapply wp_mono; [apply (Hw 0 3 0 [0; 0; 0]); [done|lia|lia|lia|by apply zero_supply]|].
  intros r s' (-> & Hp & _). done.
Defined.

Lemma pipe_fifo_witness : exists p out q, pipe_rep p q /\ [0; 0; 0] = out ++ q /\ delivered [] out.
Proof.
  destruct sample_process as (N & v & Hu & Hz).
  destruct (wp_elim _ _ _ (@write_spec _ _ (vm_laws PageTable.sample_root N) (mkPst pipe_new v []) [] 0 3 0 [0; 0; 0]
    pipe_new_rep eq_refl Hu ltac:(lia) ltac:(lia) ltac:(lia) (zero_supply N v Hz))) as (r & s' & Hr & -> & _).
  exists (pipe s'). apply (@pipe_fifo _ _ (vm_laws PageTable.sample_root N) (pipe s') [0; 0; 0] []). eapply rtc_once.
  apply (ps_write pipe_new [] [] v [] 0 3 0 [0; 0; 0] _ s' Hu ltac:(lia) ltac:(lia) ltac:(lia) (zero_supply N v Hz) Hr).
Defined.

End Pipe.
