(* ===== verification/Console.v ===== *)
(** * The console and the UART

    Models [kernel/src/console.rs] and [kernel/src/uart.rs].  Input goes from the
    interrupt through the line editor of the console to [read]; output goes from
    [write] through the transmit ring of the UART.  The chip is not part of the
    code: its registers are the interface [Uart], with the documented behaviour of the
    16550 as laws.  The memory of the process is the interface [ProcMem] of [Pipe.v];
    [read] and [write] are only called with [is_user] set.  A call that sleeps
    returns the channel it sleeps on and what is left to do. *)

From S2P Require Import Prelude Param Bytes Kalloc Pages PageTable UserMem Pipe.

Module Console.

(** ** Registers *)

Definition RHR : Z := 0.
Definition THR : Z := 0.
Definition IER : Z := 1.
Definition FCR : Z := 2.
Definition LCR : Z := 3.
Definition LSR : Z := 5.

(** [patience] bounds the reads of the line status that a transmission takes. *)
Class Uart (V : Type) := {
  uart_read : Z -> M V Z;
  uart_write : Z -> Z -> M V unit;
  patience : nat
}.

(** ** State *)

Definition INPUT_BUF : Z := 128.
Record Console := mkConsole { buf : list Z; r : Z; w : Z; e : Z }.
Definition console_new : Console := mkConsole (replicate 128 0) 0 0 0.

Definition UART_TX_BUF_SIZE : Z := 32.
Record UartTx := mkUartTx { tx_w : Z; tx_r : Z; tx_buf : list Z }.
Definition uart_tx_new : UartTx := mkUartTx 0 0 (replicate 32 0).

Definition CTRL_D : Z := 0x04.
Definition CTRL_BS : Z := 0x08.
Definition CTRL_LF : Z := 0x0A.
Definition CTRL_CR : Z := 0x0D.
Definition DEL : Z := 0x7f.

(** The channels: the address of [cons.r], or a number. *)
Inductive chan := ConsR | Num (z : Z).

Inductive progress A := Finished (x : A) | Asleep (c : chan) (left : Z).
Arguments Finished {A}.
Arguments Asleep {A}.

Section ops.
Context {V : Type} `{!Uart V} {U : Type} `{!Pipe.ProcMem U}.

(** [PANICKED] is set by a panic on another core; [woken] records the wakeups. *)
Record tty := mkTty {
  cons : Console; uart_tx : UartTx; dev : V; user : U; panicked : bool; woken : list chan
}.

Definition on_dev {A} (m : M V A) : M tty A := fun s =>
  match m (dev s) with
  | Done (x, d) => Done (x, mkTty (cons s) (uart_tx s) d (user s) (panicked s) (woken s))
  | Panic msg => Panic msg
  | Sleep => Sleep
  | OutOfFuel => OutOfFuel
  | Undef => Undef
  end.
Definition on_user {A} (m : M U A) : M tty A := fun s =>
  match m (user s) with
  | Done (x, u) => Done (x, mkTty (cons s) (uart_tx s) (dev s) u (panicked s) (woken s))
  | Panic msg => Panic msg
  | Sleep => Sleep
  | OutOfFuel => OutOfFuel
  | Undef => Undef
  end.
Definition set_cons (c : Console) : M tty unit :=
  modify (fun s => mkTty c (uart_tx s) (dev s) (user s) (panicked s) (woken s)).
Definition set_tx (t : UartTx) : M tty unit :=
  modify (fun s => mkTty (cons s) t (dev s) (user s) (panicked s) (woken s)).
Definition wakeup (c : chan) : M tty unit :=
  modify (fun s => mkTty (cons s) (uart_tx s) (dev s) (user s) (panicked s) (woken s ++ [c])).
(** [if PANICKED.load() { loop {} }] *)
Definition freeze : M tty unit := let! s := get in if panicked s then out_of_fuel else ret tt.

(** ** uart.rs *)

Definition uart_init : M tty unit :=
  on_dev (uart_write IER 0x00) ;;
  on_dev (uart_write LCR 0x80) ;;
  on_dev (uart_write 0 0x03) ;;
  on_dev (uart_write 1 0x00) ;;
  on_dev (uart_write LCR 0x03) ;;
  on_dev (uart_write FCR 0x07) ;;
  on_dev (uart_write IER 0x03).

Fixpoint wait_thr (fuel : nat) : M tty unit :=
  match fuel with
  | O => out_of_fuel
  | S fuel =>
      let! v := on_dev (uart_read LSR) in
      if Z.land v (Z.shiftl 1 5) =? 0 then wait_thr fuel else ret tt
  end.
Definition putc_sync (c : Z) : M tty unit :=
  freeze ;;
  wait_thr (S patience) ;;
  on_dev (uart_write THR c).

(** [UartTx::start]: every round sends a byte of the ring, which holds at most 32. *)
Fixpoint start_loop (fuel : nat) : M tty unit :=
  match fuel with
  | O => out_of_fuel
  | S fuel =>
      let! s := get in
      let t := uart_tx s in
      if tx_w t =? tx_r t then ret tt
      else
        let! v := on_dev (uart_read LSR) in
        if Z.land v (Z.shiftl 1 5) =? 0 then ret tt
        else
          let! c := get_at (tx_buf t) (Z.to_nat (tx_r t `mod` UART_TX_BUF_SIZE)) in
          let r := tx_r t ⊞ 1 in
          set_tx (mkUartTx (tx_w t) r (tx_buf t)) ;;
          wakeup (Num r) ;;
          on_dev (uart_write THR c) ;;
          start_loop fuel
  end.
Definition start : M tty unit := start_loop 33.

(** [putc]; [Asleep] leaves the byte to be sent. *)
Definition putc (c : Z) : M tty (progress unit) :=
  freeze ;;
  let! s := get in
  let t := uart_tx s in
  if tx_w t =? tx_r t ⊞ UART_TX_BUF_SIZE then ret (Asleep (Num (tx_r t)) c)
  else
    let w := tx_w t in
    let i := Z.to_nat (w `mod` UART_TX_BUF_SIZE) in
    let! _ := get_at (tx_buf t) i in
    set_tx (mkUartTx (w ⊞ 1) (tx_r t) (<[i := c]> (tx_buf t))) ;;
    start ;;
    ret (Finished tt).

(** ** console.rs *)

Definition intr (c : Z) : M tty unit :=
  let! s := get in
  let k := cons s in
  if (c =? CTRL_BS) || (c =? DEL) then
    if e k =? w k then ret tt
    else set_cons (mkConsole (buf k) (r k) (w k) (e k ⊟ 1)) ;; putc_sync CTRL_BS
  else if negb (c =? 0) && (e k ⊟ r k <? INPUT_BUF) then
    let c := if c =? CTRL_CR then CTRL_LF else c in
    putc_sync c ;;
    let e := e k ⊞ 1 in
    let i := Z.to_nat (e `mod` INPUT_BUF) in
    let! _ := get_at (buf k) i in
    let buf := <[i := c]> (buf k) in
    if (c =? CTRL_LF) || (c =? CTRL_D) || (e =? r k ⊞ INPUT_BUF) then
      set_cons (mkConsole buf (r k) e e) ;; wakeup ConsR
    else set_cons (mkConsole buf (r k) (w k) e)
  else ret tt.

(** The reading half of [uart::intr]: the chip holds at most sixteen characters. *)
Fixpoint drain (fuel : nat) : M tty unit :=
  match fuel with
  | O => out_of_fuel
  | S fuel =>
      let! v := on_dev (uart_read LSR) in
      if Z.land v 1 =? 0 then ret tt
      else
        let! c := on_dev (uart_read RHR) in
        intr c ;;
        drain fuel
  end.
Definition uart_intr : M tty unit := drain 17 ;; start.

(** [either_copy_out(true, dst, &c, 1)] *)
Definition out_byte (dst c : Z) : M tty unit :=
  let! x := on_user (Pipe.copy_out dst [c] 1) in
  match x with Ok _ => ret tt | Err msg => panic msg end.

(** [read] with [n] bytes of [target] left.  The result of [dst.offset(1)] is not used. *)
Fixpoint read_loop (fuel : nat) (dst target n : Z) : M tty (progress Z) :=
  if 0 <? n then
    match fuel with
    | O => out_of_fuel
    | S fuel =>
        let! s := get in
        let k := cons s in
        if r k =? w k then ret (Asleep ConsR n)
        else
          let r := r k ⊞ 1 in
          set_cons (mkConsole (buf k) r (w k) (e k)) ;;
          let! c := get_at (buf k) (Z.to_nat (r `mod` INPUT_BUF)) in
          if c =? CTRL_D then
            (if n <? target then set_cons (mkConsole (buf k) (r ⊟ 0) (w k) (e k)) else ret tt) ;;
            ret (Finished (target ⊟ n))
          else
            out_byte dst c ;;
            let n := n ⊟ 1 in
            if c =? CTRL_LF then ret (Finished (target ⊟ n)) else read_loop fuel dst target n
    end
  else ret (Finished (target ⊟ n)).
Definition read (dst target n : Z) : M tty (progress Z) := read_loop (Z.to_nat n) dst target n.

(** [write] from byte [i] on; asleep in [putc] it has [n - i] bytes left. *)
Fixpoint write_loop (l : list Z) (src n : Z) : M tty (progress unit) :=
  match l with
  | [] => ret (Finished tt)
  | i :: l =>
      let! '(bs, x) := on_user (Pipe.copy_in (src ⊞ i) 1) in
      match x with
      | Err msg => panic msg
      | Ok _ =>
          let! p := putc (bs !!! 0%nat) in
          match p with
          | Asleep c _ => ret (Asleep c (n - i))
          | Finished _ => write_loop l src n
          end
      end
  end.
Definition write (src n i : Z) : M tty (progress unit) := write_loop (seqZ i (n - i)) src n.

End ops.
Arguments tty : clear implicits.

(** ** Rings *)

(** The slots of a ring of [N] from [a] on hold [q]. *)
Definition holds (N : Z) (data : list Z) (a : Z) (q : list Z) : Prop :=
  forall j x, q !! j = Some x -> data !! Z.to_nat ((a + Z.of_nat j) `mod` N) = Some x.

Section ring.
Context (N : Z) (HN : 0 < N) (Hdiv : (N | 2 ^ 64)).

Lemma wrap_mod z : wrap 64 z `mod` N = z `mod` N.
Proof using HN Hdiv.
  destruct Hdiv as [m Hm]. unfold wrap. rewrite (Z.mod_eq z (2 ^ 64)) by done. rewrite Hm.
  set (k := z / _). replace (z - m * N * k) with (z + - (m * k) * N) by lia. apply Z.mod_add. lia.
Qed.

Lemma holds_wrap data a q : holds N data a q -> holds N data (wrap 64 a) q.
Proof using HN Hdiv.
  intros Hh j x Hj. rewrite <-Zplus_mod_idemp_l, wrap_mod, Zplus_mod_idemp_l. by apply Hh.
Qed.

Lemma holds_snoc data a q x :
  Z.of_nat (length data) = N -> Z.of_nat (length q) < N -> holds N data a q ->
  holds N (<[Z.to_nat ((a + Z.of_nat (length q)) `mod` N) := x]> data) a (q ++ [x]).
Proof using HN.
  intros Hl Hq Hh j y Hj. apply lookup_snoc_Some in Hj as [[Hj1 Hj2]|[-> <-]].
  - rewrite list_lookup_insert_ne; [by apply Hh|]. set (b := a + Z.of_nat j).
    replace (a + Z.of_nat (length q)) with (b + (Z.of_nat (length q) - Z.of_nat j)) by lia.
    set (d := Z.of_nat (length q) - Z.of_nat j). pose proof (Z.mod_pos_bound b N HN). pose proof (Z.div_mod b N).
    pose proof (Z.mod_pos_bound (b + d) N HN). pose proof (Z.div_mod (b + d) N). intros E.
    assert (Ed : d = N * ((b + d) / N - b / N)) by lia. assert (0 < d < N) by lia.
    destruct (Z.lt_trichotomy ((b + d) / N - b / N) 0) as [Hc|[Hc|Hc]]; nia.
  - apply list_lookup_insert_eq. pose proof (Z.mod_pos_bound (a + Z.of_nat (length q)) N HN). lia.
Qed.

Lemma holds_cons data a x q : holds N data a (x :: q) -> data !! Z.to_nat (a `mod` N) = Some x /\ holds N data (a + 1) q.
Proof using Type.
  intros Hh. split; [rewrite <-(Hh 0%nat x eq_refl); do 3 f_equal; lia|]. intros j y Hj. rewrite <-(Hh (S j) y Hj). do 3 f_equal. lia.
Qed.

Lemma holds_prefix data a q q' : holds N data a (q ++ q') -> holds N data a q.
Proof using Type. intros Hh j x Hj. apply Hh. by apply lookup_app_l_Some. Qed.
End ring.

Lemma usize_sub_self a k : 0 <= k < 2 ^ 64 -> a ⊞ k ⊟ a = k.
Proof. intros Hk. unfold usize_sub, usize_add, wrap. rewrite Zminus_mod_idemp_l. rewrite Z.add_simpl_l. by apply Z.mod_small. Qed.

Lemma div_128 : (INPUT_BUF | 2 ^ 64).
Proof. by exists (2 ^ 57). Qed.
Lemma div_32 : (UART_TX_BUF_SIZE | 2 ^ 64).
Proof. by exists (2 ^ 59). Qed.

(** The line editor: [q] has been entered, [ed] is being edited. *)
Record cons_rep (k : Console) (q ed : list Z) : Prop := {
  cr_len : length (buf k) = 128%nat;
  cr_r : 0 <= r k < 2 ^ 64;
  cr_w : w k = r k ⊞ Z.of_nat (length q);
  cr_e : e k = r k ⊞ (Z.of_nat (length q) + Z.of_nat (length ed));
  cr_cap : (length q + length ed <= 128)%nat;
  cr_data : holds INPUT_BUF (buf k) (r k + 1) (q ++ ed)
}.

(** The transmit ring holds [q]. *)
Record tx_rep (t : UartTx) (q : list Z) : Prop := {
  tr_len : length (tx_buf t) = 32%nat;
  tr_r : 0 <= tx_r t < 2 ^ 64;
  tr_w : tx_w t = tx_r t ⊞ Z.of_nat (length q);
  tr_cap : (length q <= 32)%nat;
  tr_data : holds UART_TX_BUF_SIZE (tx_buf t) (tx_r t) q
}.

Lemma cons_new_rep : cons_rep console_new [] [].
Proof. split; try done. cbn. lia. Qed.
Lemma tx_new_rep : tx_rep uart_tx_new [].
Proof. split; try done. cbn. lia. Qed.

(** Typing a character, and taking one back. *)
Lemma cons_type k q ed c :
  cons_rep k q ed -> (length q + length ed < 128)%nat ->
  cons_rep (mkConsole (<[Z.to_nat ((e k ⊞ 1) `mod` INPUT_BUF) := c]> (buf k)) (r k) (w k) (e k ⊞ 1)) q (ed ++ [c]).
Proof.
  intros [C1 C2 C3 C4 C5 C6] Hl. split; cbn [buf r w e]; try done.
  - by rewrite length_insert.
  - rewrite C4, Pipe.usize_add_assoc, length_app. f_equal. cbn. lia.
  - rewrite length_app. cbn. lia.
  - rewrite app_assoc. rewrite C4, Pipe.usize_add_assoc. unfold usize_add. rewrite (wrap_mod INPUT_BUF eq_refl div_128).
    replace (r k + _) with (r k + 1 + Z.of_nat (length (q ++ ed))) by (rewrite length_app; lia).
    apply holds_snoc; [done|by rewrite C1|rewrite length_app; unfold INPUT_BUF; lia|done].
Qed.

Lemma cons_erase k q ed c :
  cons_rep k q (ed ++ [c]) -> cons_rep (mkConsole (buf k) (r k) (w k) (e k ⊟ 1)) q ed.
Proof.
  intros [C1 C2 C3 C4 C5 C6]. rewrite length_app in C4, C5. cbn [length] in *. split; cbn [buf r w e]; try done.
  - rewrite C4. unfold usize_add, usize_sub, wrap. rewrite Zminus_mod_idemp_l. f_equal. lia.
  - lia.
  - rewrite app_assoc in C6. by apply holds_prefix in C6.
Qed.

Lemma cons_commit k q ed : cons_rep k q ed -> cons_rep (mkConsole (buf k) (r k) (e k) (e k)) (q ++ ed) [].
Proof.
  intros [C1 C2 C3 C4 C5 C6]. split; cbn [buf r w e]; try done.
  - rewrite C4, length_app. f_equal. lia.
  - rewrite C4, length_app. cbn. f_equal. lia.
  - rewrite length_app. cbn. lia.
  - by rewrite app_nil_r.
Qed.

Lemma cons_take k x q ed :
  cons_rep k (x :: q) ed ->
  buf k !! Z.to_nat ((r k ⊞ 1) `mod` INPUT_BUF) = Some x /\ cons_rep (mkConsole (buf k) (r k ⊞ 1) (w k) (e k)) q ed.
Proof.
  intros [C1 C2 C3 C4 C5 C6]. cbn [length app] in *. apply holds_cons in C6 as [Hx Hq]. split.
  - unfold usize_add. by rewrite (wrap_mod INPUT_BUF eq_refl div_128).
  - split; cbn [buf r w e]; try done.
    + apply usize_add_bound.
    + rewrite C3, Pipe.usize_add_assoc. f_equal. lia.
    + rewrite C4, Pipe.usize_add_assoc. f_equal. lia.
    + lia.
    + intros j y Hj. unfold usize_add. rewrite <-Z.add_assoc, <-Zplus_mod_idemp_l, (wrap_mod INPUT_BUF eq_refl div_128), Zplus_mod_idemp_l, Z.add_assoc.
      by apply Hq.
Qed.

(** ** The chip *)

(** [sent] are the characters written to the transmit register, [inbox] those that
    wait to be read, [busy] the polls until the transmit register is free. *)
Class UartLaws (V : Type) `{!Uart V} := {
  vok : V -> Prop;
  sent : V -> list Z;
  inbox : V -> list Z;
  busy : V -> nat;
  busy_law v : vok v -> (busy v <= patience)%nat;
  inbox_law v : vok v -> (length (inbox v) <= 16)%nat;
  lsr_law v : vok v -> exists x v', uart_read LSR v = Done (x, v') /\ vok v' /\ sent v' = sent v /\ inbox v' = inbox v /\
    busy v' = Nat.pred (busy v) /\ (Z.land x 32 = 0 <-> busy v <> 0%nat) /\ (Z.land x 1 = 0 <-> inbox v = []);
  rhr_law v c l : vok v -> inbox v = c :: l ->
    exists v', uart_read RHR v = Done (c, v') /\ vok v' /\ sent v' = sent v /\ inbox v' = l /\ busy v' = busy v;
  thr_law v c : vok v -> busy v = 0%nat ->
    exists v', uart_write THR c v = Done (tt, v') /\ vok v' /\ sent v' = sent v ++ [c] /\ inbox v' = inbox v
}.

Section specs.
Context {V : Type} `{!Uart V} `{!UartLaws V} {U : Type} `{!Pipe.ProcMem U} `{!Pipe.ProcMemLaws U}.
Implicit Types s : tty V U.

Definition with_dev (d : V) s : tty V U := mkTty (cons s) (uart_tx s) d (user s) (panicked s) (woken s).

Lemma wp_on_uart {A} (m : M V A) s (Q : A -> tty V U -> Prop) :
  wp m (dev s) (fun x d => Q x (with_dev d s)) -> wp (on_dev m) s Q.
Proof using Type. unfold wp, on_dev. by destruct (m (dev s)) as [[x d]| | | |]. Qed.

Lemma wp_lsr s (Q : Z -> tty V U -> Prop) :
  vok (dev s) ->
  (forall x d, vok d -> sent d = sent (dev s) -> inbox d = inbox (dev s) -> busy d = Nat.pred (busy (dev s)) ->
     (Z.land x 32 = 0 <-> busy (dev s) <> 0%nat) -> (Z.land x 1 = 0 <-> inbox (dev s) = []) -> Q x (with_dev d s)) ->
  wp (on_dev (uart_read LSR)) s Q.
Proof using Type.
  intros Hv HQ. destruct (lsr_law (dev s) Hv) as (x & d & E & H1 & H2 & H3 & H4 & H5 & H6).
  apply wp_on_uart, (wp_Done _ _ _ _ _ E). by apply HQ.
Qed.

Lemma wait_thr_spec fuel : forall s (Q : unit -> tty V U -> Prop),
  vok (dev s) -> (busy (dev s) < fuel)%nat ->
  (forall d, vok d -> sent d = sent (dev s) -> inbox d = inbox (dev s) -> busy d = 0%nat -> Q tt (with_dev d s)) ->
  wp (wait_thr fuel) s Q.
Proof using Type.
  induction fuel as [|fuel IH]; intros s Q Hv Hb HQ; [lia|]. cbn [wait_thr]. apply wp_bind, wp_lsr; [done|].
  intros x d H1 H2 H3 H4 H5 _. change (Z.shiftl 1 5) with 32. destruct (Z.eqb_spec (Z.land x 32) 0) as [E|E].
  - apply IH; [done|cbn [dev with_dev]; apply H5 in E; lia|]. cbn [dev with_dev]. intros d' D1 D2 D3 D4.
    apply HQ; [done|congruence|congruence|done].
  - apply wp_ret, HQ; try done. destruct (busy (dev s)) eqn:Eb; [done|]. exfalso. apply E, H5. done.
Qed.

Lemma putc_sync_spec c s (Q : unit -> tty V U -> Prop) :
  vok (dev s) -> panicked s = false ->
  (forall d, vok d -> sent d = sent (dev s) ++ [c] -> inbox d = inbox (dev s) -> Q tt (with_dev d s)) ->
  wp (putc_sync c) s Q.
Proof using Type.
  intros Hv Hp HQ. unfold putc_sync, freeze. apply wp_bind, wp_bind, wp_get. rewrite Hp. apply wp_ret.
  apply wp_bind, wait_thr_spec; [done|pose proof (busy_law (dev s) Hv); lia|]. intros d D1 D2 D3 D4.
  destruct (thr_law d c D1 D4) as (d' & E & T1 & T2 & T3). apply wp_on_uart, (wp_Done _ _ _ _ _ E). cbn [with_dev cons uart_tx user panicked woken].
  apply (HQ d'); [done|congruence|congruence].
Qed.

(** What typing [c] does to the entered and the edited characters, what is echoed, and
    whether readers are woken. *)
Definition type_char (c : Z) (q ed : list Z) : list Z * list Z * list Z * list chan :=
  if (c =? CTRL_BS) || (c =? DEL) then
    match ed with [] => (q, [], [], []) | _ => (q, removelast ed, [CTRL_BS], []) end
  else if negb (c =? 0) && (length q + length ed <? 128)%nat then
    let c := if c =? CTRL_CR then CTRL_LF else c in
    if (c =? CTRL_LF) || (c =? CTRL_D) || (length q + length ed =? 127)%nat then (q ++ ed ++ [c], [], [c], [ConsR])
    else (q, ed ++ [c], [c], [])
  else (q, ed, [], []).

Lemma console_intr_spec c s q ed (Q : unit -> tty V U -> Prop) :
  vok (dev s) -> panicked s = false -> cons_rep (cons s) q ed ->
  (forall k d, vok d -> let '(q', ed', echo, wk) := type_char c q ed in
     cons_rep k q' ed' -> sent d = sent (dev s) ++ echo -> inbox d = inbox (dev s) ->
     Q tt (mkTty k (uart_tx s) d (user s) (panicked s) (woken s ++ wk))) ->
  wp (intr c) s Q.
Proof using Type.
  intros Hv Hp Hr HQ. pose proof Hr as [C1 C2 C3 C4 C5 C6]. unfold intr. apply wp_bind, wp_get. cbv zeta. unfold type_char in HQ.
  assert (Hs : forall k (d : V), mkTty k (uart_tx s) d (user s) (panicked s) (woken s) =
    mkTty k (uart_tx s) d (user s) (panicked s) (woken s ++ [])) by (intros; by rewrite app_nil_r).
  assert (Hid : s = mkTty (cons s) (uart_tx s) (dev s) (user s) (panicked s) (woken s ++ [])) by (rewrite app_nil_r; by destruct s).
  destruct (_ || _) eqn:Ebs.
  - assert (Ee : (e (cons s) =? w (cons s)) = (length ed =? 0)%nat).
    { rewrite C3, C4, Pipe.counters_eq by lia. destruct (Nat.eqb_spec (length ed) 0); [apply Z.eqb_eq|apply Z.eqb_neq]; lia. }
    rewrite Ee. destruct ed as [|c0 ed]; cbn [length Nat.eqb].
    + apply wp_ret. rewrite Hid. by apply HQ; rewrite ?app_nil_r.
    + destruct (exists_last (l := c0 :: ed) ltac:(done)) as (ed' & x & Hx). rewrite Hx in *. rewrite removelast_last in HQ.
      apply wp_bind, wp_modify. apply putc_sync_spec; [done|done|]. intros d D1 D2 D3. cbn [with_dev cons uart_tx user panicked woken].
      rewrite Hs. apply HQ; try done. by apply (cons_erase _ _ _ x).
  - clear Ebs. assert (Ec : (e (cons s) ⊟ r (cons s) <? INPUT_BUF) = (length q + length ed <? 128)%nat).
    { rewrite C4, usize_sub_self by lia. unfold INPUT_BUF. destruct (Nat.ltb_spec (length q + length ed) 128); [apply Z.ltb_lt|apply Z.ltb_ge]; lia. }
    rewrite Ec. destruct (negb (c =? 0) && _) eqn:Ecap; [|apply wp_ret; rewrite Hid; by apply HQ; rewrite ?app_nil_r].
    apply andb_true_iff in Ecap as [_ Hcap]. apply Nat.ltb_lt in Hcap. cbv zeta in HQ. set (c' := if c =? CTRL_CR then _ else _) in *.
    apply wp_bind, putc_sync_spec; [done|done|]. intros d D1 D2 D3.
    pose proof (cons_type _ _ _ c' Hr Hcap) as Ht.
    destruct (lookup_lt_is_Some_2 (buf (cons s)) (Z.to_nat ((e (cons s) ⊞ 1) `mod` INPUT_BUF))) as [y Hy].
    { rewrite C1. pose proof (Z.mod_pos_bound (e (cons s) ⊞ 1) INPUT_BUF eq_refl). unfold INPUT_BUF in *. lia. }
    eapply wp_bind, wp_get_at; [exact Hy|].
    assert (Ef : (e (cons s) ⊞ 1 =? r (cons s) ⊞ INPUT_BUF) = (length q + length ed =? 127)%nat).
    { rewrite C4, Pipe.usize_add_assoc, Pipe.counters_eq by (unfold INPUT_BUF; lia). unfold INPUT_BUF.
      destruct (Nat.eqb_spec (length q + length ed) 127); [apply Z.eqb_eq|apply Z.eqb_neq]; lia. }
    rewrite Ef. destruct (_ || _) eqn:Ecm.
    + apply wp_bind, wp_modify, wp_modify. cbn [with_dev cons uart_tx dev user panicked woken]. apply HQ; try done.
      apply cons_commit in Ht. by rewrite <-app_assoc in Ht || exact Ht.
    + apply wp_modify. cbn [with_dev cons uart_tx dev user panicked woken]. rewrite Hs. by apply HQ.
Qed.

(** *** Input *)

(** Typing the characters [cs] one after the other. *)
Fixpoint type_chars (cs q ed : list Z) : list Z * list Z * list Z * list chan :=
  match cs with
  | [] => (q, ed, [], [])
  | c :: cs =>
      let '(q1, ed1, echo, wk) := type_char c q ed in
      let '(q2, ed2, echo', wk') := type_chars cs q1 ed1 in (q2, ed2, echo ++ echo', wk ++ wk')
  end.

Lemma drain_spec cs : forall fuel s q ed (Q : unit -> tty V U -> Prop),
  vok (dev s) -> panicked s = false -> cons_rep (cons s) q ed -> inbox (dev s) = cs -> (length cs < fuel)%nat ->
  (forall k d, vok d -> let '(q', ed', echo, wk) := type_chars cs q ed in
     cons_rep k q' ed' -> sent d = sent (dev s) ++ echo -> inbox d = [] ->
     Q tt (mkTty k (uart_tx s) d (user s) (panicked s) (woken s ++ wk))) ->
  wp (drain fuel) s Q.
Proof using Type.
  induction cs as [|c cs IH]; intros fuel s q ed Q Hv Hp Hr Hin Hf HQ; (destruct fuel as [|fuel]; [cbn in Hf; lia|]); cbn [drain];
    apply wp_bind, wp_lsr; [done| |done|]; intros x d H1 H2 H3 H4 _ H6; rewrite Hin in *.
  - rewrite (proj2 (Z.eqb_eq _ _)) by (by apply H6). apply wp_ret. cbn [type_chars] in HQ.
    unfold with_dev. rewrite <-(app_nil_r (woken s)). apply HQ; try done. by rewrite app_nil_r.
  - rewrite (proj2 (Z.eqb_neq _ _)) by (by rewrite H6). apply wp_bind, wp_on_uart. cbn [with_dev dev].
    destruct (rhr_law d c cs H1 H3) as (d1 & E & R1 & R2 & R3 & R4). apply (wp_Done _ _ _ _ _ E).
    apply wp_bind. cbn [type_chars] in HQ. destruct (type_char c q ed) as [[[q1 ed1] echo] wk] eqn:Et.
    eapply console_intr_spec; cbn [with_dev dev panicked cons]; [done|done|exact Hr|]. intros k2 d2 V2. rewrite Et. intros K1 K2 K3.
    apply (IH fuel _ q1 ed1); cbn [dev panicked cons]; try done; [congruence|cbn in Hf; lia|].
    intros k3 d3 V3. destruct (type_chars cs q1 ed1) as [[[q2 ed2] echo'] wk'] eqn:Et2. intros L1 L2 L3.
    cbn [uart_tx user woken]. rewrite <-app_assoc. apply HQ; try done. rewrite L2, K2, R2, H2, app_assoc. done.
Qed.

(** *** Output *)

Definition chans (a : Z) (n : nat) : list chan := (fun i => Num (a ⊞ i)) <$> seqZ 1 (Z.of_nat n).

Lemma chans_S a n : chans a (S n) = Num (a ⊞ 1) :: chans (a ⊞ 1) n.
Proof using Type.
  unfold chans. rewrite Nat2Z.inj_succ, seqZ_cons by lia. rewrite Z.pred_succ. cbn [fmap list_fmap]. f_equal.
  change (Z.succ 1) with (1 + 1). rewrite <-(fmap_add_seqZ 1 1), <-list_fmap_compose. apply list_fmap_ext.
  intros i x _. cbn. by rewrite Pipe.usize_add_assoc.
Qed.

Lemma tx_take t x q :
  tx_rep t (x :: q) ->
  tx_buf t !! Z.to_nat (tx_r t `mod` UART_TX_BUF_SIZE) = Some x /\ tx_rep (mkUartTx (tx_w t) (tx_r t ⊞ 1) (tx_buf t)) q.
Proof using Type.
  intros [T1 T2 T3 T4 T5]. cbn [length] in *. apply holds_cons in T5 as [Hx Hq]. split; [done|].
  split; cbn [tx_w tx_r tx_buf]; try done.
  - apply usize_add_bound.
  - rewrite T3, Pipe.usize_add_assoc. f_equal. lia.
  - lia.
  - apply (holds_wrap UART_TX_BUF_SIZE eq_refl div_32). exact Hq.
Qed.

Lemma tx_put t q c :
  tx_rep t q -> (length q < 32)%nat ->
  tx_rep (mkUartTx (tx_w t ⊞ 1) (tx_r t) (<[Z.to_nat (tx_w t `mod` UART_TX_BUF_SIZE) := c]> (tx_buf t))) (q ++ [c]).
Proof using Type.
  intros [T1 T2 T3 T4 T5] Hl. split; cbn [tx_w tx_r tx_buf]; try done.
  - by rewrite length_insert.
  - rewrite T3, Pipe.usize_add_assoc, length_app. f_equal. cbn. lia.
  - rewrite length_app. cbn. lia.
  - rewrite T3. unfold usize_add. rewrite (wrap_mod UART_TX_BUF_SIZE eq_refl div_32).
    apply holds_snoc; [done|by rewrite T1|unfold UART_TX_BUF_SIZE; lia|done].
Qed.

Lemma start_loop_spec fuel : forall s q (Q : unit -> tty V U -> Prop),
  vok (dev s) -> tx_rep (uart_tx s) q -> (length q < fuel)%nat ->
  (forall l q' t d, q = l ++ q' -> tx_rep t q' -> tx_r t = tx_r (uart_tx s) ⊞ Z.of_nat (length l) -> vok d ->
     sent d = sent (dev s) ++ l -> inbox d = inbox (dev s) ->
     Q tt (mkTty (cons s) t d (user s) (panicked s) (woken s ++ chans (tx_r (uart_tx s)) (length l)))) ->
  wp (start_loop fuel) s Q.
Proof using Type.
  induction fuel as [|fuel IH]; intros s q Q Hv Hr Hf HQ; [lia|]. cbn [start_loop]. apply wp_bind, wp_get. cbv zeta.
  assert (Hstop : forall d, vok d -> sent d = sent (dev s) -> inbox d = inbox (dev s) -> Q tt (with_dev d s)).
  { intros d D1 D2 D3. unfold with_dev. rewrite <-(app_nil_r (woken s)). apply (HQ [] q); try done; [|by rewrite app_nil_r].
    cbn. pose proof (tr_r _ _ Hr). rewrite usize_add_small; lia. }
  assert (Ee : (tx_w (uart_tx s) =? tx_r (uart_tx s)) = (length q =? 0)%nat).
  { pose proof Hr as [T1 T2 T3 T4 T5]. rewrite T3. replace (tx_r (uart_tx s)) with (tx_r (uart_tx s) ⊞ 0) at 2 by (rewrite usize_add_small; lia).
    rewrite Pipe.counters_eq by lia. destruct (Nat.eqb_spec (length q) 0); [apply Z.eqb_eq|apply Z.eqb_neq]; lia. }
  rewrite Ee. destruct q as [|c q]; cbn [length Nat.eqb].
  { apply wp_ret. destruct s. by apply (Hstop dev0). }
  apply wp_bind, wp_lsr; [done|]. intros x d H1 H2 H3 H4 H5 _. change (Z.shiftl 1 5) with 32.
  destruct (Z.eqb_spec (Z.land x 32) 0) as [E|E]; [by apply wp_ret, Hstop|].
  destruct (tx_take _ _ _ Hr) as [Hc Hr']. eapply wp_bind, wp_get_at; [exact Hc|]. apply wp_bind, wp_modify, wp_bind, wp_modify.
  assert (Eb : busy d = 0%nat).
  { rewrite H4. destruct (busy (dev s)) eqn:Eb; [done|]. exfalso. apply E, H5. lia. }
  destruct (thr_law d c H1 Eb) as (d' & Et & T1 & T2 & T3). apply wp_bind, wp_on_uart, (wp_Done _ _ _ _ _ Et).
  apply (IH _ q); cbn [with_dev dev uart_tx]; try done; [cbn in Hf; lia|].
  intros l q' t d2 L1 L2 L3 L4 L5 L6. cbn [with_dev cons uart_tx dev user panicked woken tx_r] in *. rewrite <-app_assoc.
  change ([Num (tx_r (uart_tx s) ⊞ 1)] ++ chans (tx_r (uart_tx s) ⊞ 1) (length l)) with (Num (tx_r (uart_tx s) ⊞ 1) :: chans (tx_r (uart_tx s) ⊞ 1) (length l)).
  rewrite <-chans_S. apply (HQ (c :: l) q'); try done.
  - by rewrite L1.
  - rewrite L3, Pipe.usize_add_assoc. f_equal. cbn. lia.
  - rewrite L5, T2, H2, <-app_assoc. done.
  - congruence.
Qed.

Lemma putc_spec c s q (Q : progress unit -> tty V U -> Prop) :
  vok (dev s) -> panicked s = false -> tx_rep (uart_tx s) q ->
  (length q = 32%nat -> Q (Asleep (Num (tx_r (uart_tx s))) c) s) ->
  (forall l q' t d, (length q < 32)%nat -> q ++ [c] = l ++ q' -> tx_rep t q' -> tx_r t = tx_r (uart_tx s) ⊞ Z.of_nat (length l) ->
     vok d -> sent d = sent (dev s) ++ l -> inbox d = inbox (dev s) ->
     Q (Finished tt) (mkTty (cons s) t d (user s) (panicked s) (woken s ++ chans (tx_r (uart_tx s)) (length l)))) ->
  wp (putc c) s Q.
Proof using Type.
  intros Hv Hp Hr HQ1 HQ2. pose proof Hr as [T1 T2 T3 T4 T5]. unfold putc, freeze. apply wp_bind, wp_bind, wp_get. rewrite Hp.
  apply wp_ret. apply wp_bind, wp_get. cbv zeta.
  assert (Ef : (tx_w (uart_tx s) =? tx_r (uart_tx s) ⊞ UART_TX_BUF_SIZE) = (length q =? 32)%nat).
  { rewrite T3, Pipe.counters_eq by (unfold UART_TX_BUF_SIZE; lia). unfold UART_TX_BUF_SIZE.
    destruct (Nat.eqb_spec (length q) 32); [apply Z.eqb_eq|apply Z.eqb_neq]; lia. }
  rewrite Ef. destruct (Nat.eqb_spec (length q) 32) as [Hl|Hl]; [by apply wp_ret, HQ1|].
  destruct (lookup_lt_is_Some_2 (tx_buf (uart_tx s)) (Z.to_nat (tx_w (uart_tx s) `mod` UART_TX_BUF_SIZE))) as [y Hy].
  { rewrite T1. pose proof (Z.mod_pos_bound (tx_w (uart_tx s)) UART_TX_BUF_SIZE eq_refl). unfold UART_TX_BUF_SIZE in *. lia. }
  eapply wp_bind, wp_get_at; [exact Hy|]. apply wp_bind, wp_modify, wp_bind.
  apply (start_loop_spec 33 _ (q ++ [c])); cbn [dev uart_tx]; [done|apply tx_put; [done|lia]|rewrite length_app; cbn; lia|].
  intros l q' t d L1 L2 L3 L4 L5 L6. apply wp_ret. cbn [cons user panicked woken tx_r] in *. apply (HQ2 l q'); try done. lia.
Qed.

(** *** Reading *)

(** The characters that a read of at most [n] takes from the entered ones, what is
    left, and whether the read ends: a line feed ends it, and [CTRL_D], which is not delivered. *)
Fixpoint take_line (n : nat) (q : list Z) : list Z * list Z * bool :=
  match n, q with
  | O, _ => ([], q, true)
  | S _, [] => ([], [], false)
  | S n, c :: q =>
      if c =? CTRL_D then ([], q, true)
      else if c =? CTRL_LF then ([c], q, true)
      else let '(l, q', f) := take_line n q in (c :: l, q', f)
  end.

Definition same_but_user s s' : Prop :=
  uart_tx s' = uart_tx s /\ dev s' = dev s /\ panicked s' = panicked s /\ woken s' = woken s.

Lemma out_byte_spec dst c s (Q : unit -> tty V U -> Prop) :
  Pipe.uok (user s) -> 0 <= dst < 2 ^ 39 -> is_Some (Pipe.ubyte (user s) dst) ->
  (forall u, Pipe.uok u -> (forall x, 0 <= x < 2 ^ 39 -> Pipe.ubyte u x = if decide (x = dst) then Some c else Pipe.ubyte (user s) x) ->
     Q tt (mkTty (cons s) (uart_tx s) (dev s) u (panicked s) (woken s))) ->
  wp (out_byte dst c) s Q.
Proof using Type.
  intros Hu Hd [b Hb] HQ. destruct (Pipe.out_byte (user s) dst c Hu Hd) as (x & u & E & Hu' & Hc). rewrite Hb in Hc.
  destruct Hc as [-> Hx]. unfold out_byte. apply wp_bind. unfold wp, on_user. rewrite E. cbn. by apply HQ.
Qed.

(** The user's memory after [l] has been delivered. *)
Definition delivered_at (dst : Z) (l : list Z) (u u' : U) : Prop :=
  forall x, 0 <= x < 2 ^ 39 ->
    Pipe.ubyte u' x = match last l with Some c => if decide (x = dst) then Some c else Pipe.ubyte u x | None => Pipe.ubyte u x end.

Lemma delivered_at_cons dst c l u u1 u' :
  (forall x, 0 <= x < 2 ^ 39 -> Pipe.ubyte u1 x = if decide (x = dst) then Some c else Pipe.ubyte u x) ->
  delivered_at dst l u1 u' -> delivered_at dst (c :: l) u u'.
Proof using Type.
  intros H1 H2 x Hx. rewrite (H2 x Hx), last_cons. destruct (last l); rewrite H1 by done; [|done]. by case_decide.
Qed.

Lemma console_read_loop_spec fuel : forall s q ed dst target n (Q : progress Z -> tty V U -> Prop),
  cons_rep (cons s) q ed -> Pipe.uok (user s) -> 0 <= dst < 2 ^ 39 -> is_Some (Pipe.ubyte (user s) dst) ->
  0 <= n <= target -> target < 2 ^ 64 -> fuel = Z.to_nat n ->
  (forall s', let '(l, q', f) := take_line (Z.to_nat n) q in
     cons_rep (cons s') q' ed -> Pipe.uok (user s') -> delivered_at dst l (user s) (user s') -> same_but_user s s' ->
     Q (if f then Finished (target - n + Z.of_nat (length l)) else Asleep ConsR (n - Z.of_nat (length l))) s') ->
  wp (read_loop fuel dst target n) s Q.
Proof using Type.
  induction fuel as [|fuel IH]; intros s q ed dst target n Q Hr Hu Hd Hb Hn Ht Hf HQ; rewrite <-Hf in HQ; cbn [read_loop take_line] in *.
  { assert (n = 0) as -> by lia. change (0 <? 0) with false. cbn iota. apply wp_ret. rewrite usize_sub_small by lia.
    specialize (HQ s). cbn [length Z.of_nat] in HQ. rewrite Z.add_0_r in HQ. by apply HQ. }
  rewrite (proj2 (Z.ltb_lt 0 n)) by lia. apply wp_bind, wp_get. cbv zeta.
  assert (Ee : (r (cons s) =? w (cons s)) = (length q =? 0)%nat).
  { pose proof Hr as [C1 C2 C3 C4 C5 C6]. rewrite C3, Z.eqb_sym.
    replace (r (cons s)) with (r (cons s) ⊞ 0) at 2 by (rewrite usize_add_small; lia).
    rewrite Pipe.counters_eq by lia. destruct (Nat.eqb_spec (length q) 0); [apply Z.eqb_eq|apply Z.eqb_neq]; lia. }
  rewrite Ee. destruct q as [|c q]; cbn [length Nat.eqb].
  { apply wp_ret. specialize (HQ s). cbn [length Z.of_nat] in HQ. rewrite Z.sub_0_r in HQ. by apply HQ. }
  destruct (cons_take _ _ _ _ Hr) as [Hc Hr']. apply wp_bind, wp_modify. eapply wp_bind, wp_get_at; [exact Hc|].
  destruct (c =? CTRL_D).
  { assert (Eend : forall s', cons_rep (cons s') q ed -> user s' = user s -> same_but_user s s' ->
      wp (ret (Finished (target ⊟ n))) s' Q).
    { intros s' S1 S2 S3. apply wp_ret. rewrite usize_sub_small by lia. specialize (HQ s'). cbn [length Z.of_nat] in HQ.
      rewrite Z.add_0_r in HQ. apply HQ; [done|by rewrite S2|by rewrite S2|done]. }
    destruct (n <? target).
    - apply wp_bind, wp_modify. apply Eend; [|done|done]. cbn [cons].
      assert (E0 : r (cons s) ⊞ 1 ⊟ 0 = r (cons s) ⊞ 1).
      { pose proof (usize_add_bound (r (cons s)) 1). rewrite usize_sub_small; lia. }
      by rewrite E0.
    - apply wp_bind, wp_ret. by apply Eend. }
  apply wp_bind, out_byte_spec; [done|done|done|]. cbn [user cons uart_tx dev panicked woken]. intros u Hu' Hx.
  cbv zeta. rewrite (usize_sub_small n 1) by lia. destruct (c =? CTRL_LF).
  { apply wp_ret. rewrite usize_sub_small by lia.
    match goal with |- Q _ ?s' => specialize (HQ s') end. cbn [length Z.of_nat] in HQ.
    replace (target - (n - 1)) with (target - n + 1) by lia. apply HQ; try done. }
  destruct (take_line fuel q) as [[l q'] f] eqn:El.
  apply (IH _ q ed); cbn [cons user]; try done; try lia.
  { rewrite Hx, decide_True by done. by eexists. }
  replace (Z.to_nat (n - 1)) with fuel by lia. rewrite El. intros s' S1 S2 S3 S4.
  specialize (HQ s'). cbn [length] in HQ.
  replace (target - (n - 1) + Z.of_nat (length l)) with (target - n + Z.of_nat (S (length l))) by lia.
  replace (n - 1 - Z.of_nat (length l)) with (n - Z.of_nat (S (length l))) by lia. apply HQ; try done.
  by eapply delivered_at_cons.
Qed.

Lemma uart_intr_spec s q ed tq (Q : unit -> tty V U -> Prop) :
  vok (dev s) -> panicked s = false -> cons_rep (cons s) q ed -> tx_rep (uart_tx s) tq ->
  (forall k t d l tq', let '(q', ed', echo, wk) := type_chars (inbox (dev s)) q ed in
     cons_rep k q' ed' -> tq = l ++ tq' -> tx_rep t tq' -> tx_r t = tx_r (uart_tx s) ⊞ Z.of_nat (length l) ->
     vok d -> sent d = sent (dev s) ++ echo ++ l -> inbox d = [] ->
     Q tt (mkTty k t d (user s) (panicked s) (woken s ++ wk ++ chans (tx_r (uart_tx s)) (length l)))) ->
  wp uart_intr s Q.
Proof using Type.
  intros Hv Hp Hr Ht HQ. unfold uart_intr, start. apply wp_bind, (drain_spec (inbox (dev s)) 17 s q ed); try done.
  { pose proof (inbox_law _ Hv). lia. }
  intros k d V1. destruct (type_chars (inbox (dev s)) q ed) as [[[q' ed'] echo] wk]. intros D1 D2 D3.
  apply (start_loop_spec 33 _ tq); cbn [dev uart_tx]; [done|done|pose proof (tr_cap _ _ Ht); lia|].
  intros l tq' t d2 L1 L2 L3 L4 L5 L6. cbn [cons user panicked woken]. rewrite <-app_assoc.
  apply (HQ k t d2 l tq'); try done; [|congruence]. by rewrite L5, D2, <-app_assoc.
Qed.

(** C38: what is typed is what can be read.  An interrupt takes every character off
    the chip and edits the line with it as [type_char] says: backspace takes back the
    last character of the line, others are echoed and added while there is room, a line feed, an
    end of file or a full buffer enters the line and wakes the readers.  A read of [n] bytes takes
    characters up to the end of the line and returns their number, or sleeps with what
    is left.  But it stores each of them at the same address, so of a line only the last
    character reaches the reader; and an end of file behind other
    characters is gone after the read that it ends. *)
Theorem console_lines s q ed tq :
  vok (dev s) -> panicked s = false -> cons_rep (cons s) q ed -> tx_rep (uart_tx s) tq ->
  wp uart_intr s (fun _ s' =>
    let '(q', ed', echo, wk) := type_chars (inbox (dev s)) q ed in
    cons_rep (cons s') q' ed' /\ inbox (dev s') = [] /\
    exists l tq', tq = l ++ tq' /\ tx_rep (uart_tx s') tq' /\ sent (dev s') = sent (dev s) ++ echo ++ l /\
      woken s' = woken s ++ wk ++ chans (tx_r (uart_tx s)) (length l)) /\
  forall dst target n,
    Pipe.uok (user s) -> 0 <= dst < 2 ^ 39 -> is_Some (Pipe.ubyte (user s) dst) -> 0 <= n <= target -> target < 2 ^ 64 ->
    wp (read dst target n) s (fun p s' =>
      let '(l, q', ended) := take_line (Z.to_nat n) q in
      p = (if ended then Finished (target - n + Z.of_nat (length l)) else Asleep ConsR (n - Z.of_nat (length l))) /\
      cons_rep (cons s') q' ed /\ delivered_at dst l (user s) (user s')).
Proof using Type.
  intros Hv Hp Hr Ht. split.
  - eapply uart_intr_spec; try done. intros k t d l tq'. destruct (type_chars _ q ed) as [[[q' ed'] echo] wk].
    intros D1 D2 D3 D4 D5 D6 D7. split_and!; try done. by exists l, tq'.
  - intros dst target n Hu Hd Hb Hn Htg. apply (console_read_loop_spec _ s q ed); try done.
    intros s'. destruct (take_line (Z.to_nat n) q) as [[l q'] f]. done.
Qed.

(** *** Sleeping writers *)

Inductive tty_step : tty V U -> tty V U -> Prop :=
| step_putc s c p s' : putc c s = Done (p, s') -> tty_step s s'
| step_intr s s' : uart_intr s = Done (tt, s') -> tty_step s s'.

(** What has happened to the ring since [s0]: [m] bytes were taken off it, each with a wakeup. *)
Record since s0 s (m : nat) (ws : list chan) : Prop := {
  si_dev : vok (dev s);
  si_panic : panicked s = false;
  si_cons : exists q ed, cons_rep (cons s) q ed;
  si_tx : exists tq, tx_rep (uart_tx s) tq;
  si_r : tx_r (uart_tx s) = tx_r (uart_tx s0) ⊞ Z.of_nat m;
  si_sent : (length (sent (dev s0)) + m <= length (sent (dev s)))%nat;
  si_woken : woken s = woken s0 ++ ws;
  si_num : forall z, Num z ∈ ws -> exists i, 1 <= i <= Z.of_nat m /\ z = tx_r (uart_tx s0) ⊞ i
}.

Lemma chans_num a n z : Num z ∈ chans a n -> exists i, 1 <= i <= Z.of_nat n /\ z = a ⊞ i.
Proof using Type.
  unfold chans. intros Hz. apply list_elem_of_fmap in Hz as (i & [= ->] & Hi). apply elem_of_seqZ in Hi. exists i. split; [lia|done].
Qed.

Lemma type_chars_wakes cs : forall q ed z, Num z ∉ (type_chars cs q ed).2.
Proof using Type.
  induction cs as [|c cs IH]; intros q ed z; cbn [type_chars]; [apply not_elem_of_nil|].
  destruct (type_char c q ed) as [[[q1 ed1] echo] wk] eqn:E. specialize (IH q1 ed1 z).
  destruct (type_chars cs q1 ed1) as [[[q2 ed2] echo'] wk']. cbn [snd] in *. rewrite elem_of_app. intros [Hw|Hw]; [|done].
  unfold type_char in E. repeat case_match; simplify_eq; set_solver.
Qed.

(** The bytes taken off the ring by a step. *)
Lemma since_more s0 s m ws s' l wk tq' extra :
  since s0 s m ws -> vok (dev s') -> panicked s' = false -> (exists q ed, cons_rep (cons s') q ed) -> tx_rep (uart_tx s') tq' ->
  tx_r (uart_tx s') = tx_r (uart_tx s) ⊞ Z.of_nat (length l) -> sent (dev s') = sent (dev s) ++ extra ++ l ->
  woken s' = woken s ++ wk ++ chans (tx_r (uart_tx s)) (length l) -> (forall z, Num z ∉ wk) ->
  since s0 s' (m + length l) (ws ++ wk ++ chans (tx_r (uart_tx s)) (length l)).
Proof using Type.
  intros [S1 S2 S3 S4 S5 S6 S7 S8] H1 H2 H3 H4 H5 H6 H7 H8. split; try done; [by eexists| | | |].
  - rewrite H5, S5, Pipe.usize_add_assoc. f_equal. lia.
  - rewrite H6, !length_app. lia.
  - rewrite H7, S7, <-app_assoc. done.
  - intros z. rewrite !elem_of_app. intros [Hz|[Hz|Hz]].
    + destruct (S8 z Hz) as (i & Hi & ->). exists i. split; [lia|done].
    + by apply H8 in Hz.
    + apply chans_num in Hz as (i & Hi & ->). exists (Z.of_nat m + i). split; [lia|]. by rewrite S5, Pipe.usize_add_assoc.
Qed.

Lemma since_step s0 s s' m ws : tty_step s s' -> since s0 s m ws -> exists m' ws', since s0 s' m' ws'.
Proof using Type.
  intros Hst Hs. pose proof Hs as [S1 S2 (q & ed & S3) (tq & S4) S5 S6 S7 S8]. destruct Hst as [s c p s' E|s s' E].
  - assert (Hw : wp (putc c) s (fun _ s' => exists m' ws', since s0 s' m' ws')).
    { apply (putc_spec c s tq); try done; [by exists m, ws|]. intros l q' t d L0 L1 L2 L3 L4 L5 L6.
      do 2 eexists. eapply (since_more s0 s m ws _ l [] q' []); try done; [by exists q, ed|]. intros z. apply not_elem_of_nil. }
    destruct (wp_elim _ _ _ Hw) as (p' & s1 & E1 & Hres). rewrite E in E1. by injection E1 as _ <-.
  - assert (Hw : wp uart_intr s (fun _ s' => exists m' ws', since s0 s' m' ws')).
    { eapply (uart_intr_spec s q ed tq); try done. intros k t d l tq'.
      pose proof (type_chars_wakes (inbox (dev s)) q ed) as Hwk. destruct (type_chars (inbox (dev s)) q ed) as [[[q' ed'] echo] wk].
      intros D1 D2 D3 D4 D5 D6 D7. do 2 eexists. eapply (since_more s0 s m ws _ l wk tq' echo); try done. by exists q', ed'. }
    destruct (wp_elim _ _ _ Hw) as (p' & s1 & E1 & Hres). rewrite E in E1. by injection E1 as _ <-.
Qed.

Lemma since_steps s0 s s' : rtc tty_step s s' -> forall m ws, since s0 s m ws -> exists m' ws', since s0 s' m' ws'.
Proof using Type.
  induction 1 as [s|s s1 s' Hs1 _ IH]; intros m ws Hm; [by exists m, ws|].
  destruct (since_step _ _ _ _ _ Hs1 Hm) as (m' & ws' & Hm'). by eapply IH.
Qed.

(** C39: a writer that sleeps is never woken.  When the transmit ring is full [putc]
    sleeps on the number [r] of the next byte to send; [start] first increments the
    number and then wakes the new one.  So in every continuation, until 2^64 bytes have
    been sent, no wakeup is for the channel of the sleeper, even when the ring has long been drained. *)
Theorem uart_lost_wakeup c s tq q ed s' :
  vok (dev s) -> panicked s = false -> cons_rep (cons s) q ed -> tx_rep (uart_tx s) tq -> length tq = 32%nat ->
  exists ch, putc c s = Done (Asleep ch c, s) /\
    (rtc tty_step s s' -> (Z.of_nat (length (sent (dev s'))) < Z.of_nat (length (sent (dev s))) + 2 ^ 64) ->
     exists ws, woken s' = woken s ++ ws /\ ch ∉ ws).
Proof using Type.
  intros Hv Hp Hr Ht Hl. exists (Num (tx_r (uart_tx s))). split.
  - assert (Hw : wp (putc c) s (fun p s1 => p = Asleep (Num (tx_r (uart_tx s))) c /\ s1 = s)) by (apply (putc_spec c s tq); naive_solver lia).
    destruct (wp_elim _ _ _ Hw) as (p & s1 & E & -> & ->). done.
  - intros Hst Hb.
    assert (Hs : exists m ws, since s s' m ws).
    { assert (Hs0 : since s s 0 []).
      { split; try done; [by exists q, ed|by exists tq| |lia|by rewrite app_nil_r|intros z Hz; by apply not_elem_of_nil in Hz].
        pose proof (tr_r _ _ Ht). rewrite usize_add_small; lia. }
      by eapply since_steps. }
    destruct Hs as (m & ws & [S1 S2 S3 S4 S5 S6 S7 S8]). exists ws. split; [done|]. intros Hin.
    destruct (S8 _ Hin) as (i & Hi & E). pose proof (tr_r _ _ Ht) as Hr0.
    assert (E' : (tx_r (uart_tx s) ⊞ 0 =? tx_r (uart_tx s) ⊞ i) = true).
    { apply Z.eqb_eq. rewrite <-E, usize_add_small; lia. }
    rewrite Pipe.counters_eq in E' by lia. lia.
Qed.

End specs.

(** ** A chip for examples: it takes three polls to send a character *)

Record chip := mkChip { c_sent : list Z; c_inbox : list Z; c_busy : nat }.

Definition chip_read (i : Z) : M chip Z := fun v =>
  if i =? LSR then
    Done (Z.lor (if decide (c_busy v = 0%nat) then 32 else 0) (if decide (c_inbox v = []) then 0 else 1),
      mkChip (c_sent v) (c_inbox v) (Nat.pred (c_busy v)))
  else match c_inbox v with [] => Done (0, v) | c :: l => Done (c, mkChip (c_sent v) l (c_busy v)) end.
Definition chip_write (i c : Z) : M chip unit := fun v =>
  if i =? THR then Done (tt, mkChip (c_sent v ++ [c]) (c_inbox v) 3) else Done (tt, v).
#[export] Instance chip_uart : Uart chip := {| uart_read := chip_read; uart_write := chip_write; patience := 3 |}.

#[export] Instance chip_laws : UartLaws chip.
Proof.
  refine {| vok v := (c_busy v <= 3)%nat /\ (length (c_inbox v) <= 16)%nat; sent := c_sent; inbox := c_inbox; busy := c_busy |}.
  - by intros v [H _].
  - by intros v [_ H].
  - intros v [H1 H2]. do 2 eexists. split; [reflexivity|]. cbn [c_busy c_inbox c_sent]. split_and!; try done; try lia;
      do 2 case_decide; split; intros; done.
  - intros v c l [H1 H2] E. cbn [uart_read chip_uart]. unfold chip_read. change (RHR =? LSR) with false. cbn iota. rewrite E.
    eexists. split; [reflexivity|]. cbn. rewrite E in H2. cbn in H2. split_and!; try done; lia.
  - intros v c [H1 H2] E. eexists. split; [reflexivity|]. cbn. split_and!; done || lia.
Defined.

#[local] Existing Instance PageTable.sample_laws.

Lemma console_lines_witness : exists (s s' : @tty chip (PageTable.vm Kalloc.LinkedListAllocator)),
  uart_intr s = Done (tt, s') /\ cons_rep (cons s') [104; 105; 10] [].
Proof.
  destruct Pipe.sample_process as (N & v & Hu & Hz).
  set (s := mkTty console_new uart_tx_new (mkChip [] [104; 105; 13] 0) v false []). exists s.
  destruct (@console_lines chip _ _ _ _ (Pipe.vm_laws PageTable.sample_root N) s [] [] []) as [Hw _];
    [split; cbn; lia|done|apply cons_new_rep|apply tx_new_rep|].
  destruct (wp_elim _ _ _ Hw) as ([] & s' & E & Hr & _). exists s'. split; [exact E|exact Hr].
Defined.

Definition full_tx : UartTx := mkUartTx 32 0 (replicate 32 65).
Lemma full_tx_rep : tx_rep full_tx (replicate 32 65).
Proof.
  split; try done. intros j x Hj. pose proof (lookup_replicate_1 _ _ _ _ Hj) as [-> Hl].
  apply lookup_replicate_2. unfold UART_TX_BUF_SIZE. rewrite Z.mod_small; cbn; lia.
Qed.

Lemma uart_lost_wakeup_witness : exists (s : @tty chip (PageTable.vm Kalloc.LinkedListAllocator)) ch,
  putc 66 s = Done (Asleep ch 66, s).
Proof.
  destruct Pipe.sample_process as (N & v & Hu & Hz).
  set (s := mkTty console_new full_tx (mkChip [] [] 0) v false []). exists s.
  destruct (uart_lost_wakeup 66 s (replicate 32 65) [] [] s) as (ch & E & _);
    [split; cbn; lia|done|apply cons_new_rep|apply full_tx_rep|done|]. exists ch. exact E.
Defined.

End Console.
