(* ===== verification/Net.v ===== *)
(** * The network stack

    Models [kernel/src/net]: byte order, Ethernet, ARP, IP and UDP over the
    packet buffers of [Mbuf.v], and sockets.  The network device with its heap of
    buffers is the interface [Nic], which the driver of [E1000.v] implements; the
    memory of the calling process is the interface [ProcMem] of [Pipe.v].  A
    [read] on an empty queue has the outcome [Sleep]. *)

From S2P Require Import Prelude Param Bytes Kalloc Mbuf Pages PageTable UserMem Pipe.

Module Net.
Import Mbuf.

(** ** Byte order and addresses *)

Definition toggle_endian16 (v : Z) : Z :=
  Z.lor (wrap 16 (Z.shiftl (Z.land 0xff v) 8)) (Z.shiftr (Z.land 0xff00 v) 8).
Definition toggle_endian32 (v : Z) : Z :=
  Z.lor (Z.lor (Z.lor (wrap 32 (Z.shiftl (Z.land v 0xff) 24)) (wrap 32 (Z.shiftl (Z.land v 0xff00) 8)))
    (Z.shiftr (Z.land v 0xff0000) 8)) (Z.shiftr (Z.land v 0xff000000) 24).

Definition build_ip_addr (v1 v2 v3 v4 : Z) : Z :=
  Z.lor (Z.lor (Z.lor (wrap 32 (Z.shiftl v1 24)) (wrap 32 (Z.shiftl v2 16))) (wrap 32 (Z.shiftl v3 8))) v4.

Definition USABLE_PORT_MIN : Z := 49152.
Definition USABLE_PORT_MAX : Z := 65535.
Definition LOCAL_IP_ADDR : Z := build_ip_addr 10 0 2 15.
Definition LOCAL_MAC_ADDR : list Z := [0x52; 0x54; 0x0; 0x12; 0x34; 0x56].
Definition GATEWAY_MAC_ADDR : list Z := [0x52; 0x55; 0xa; 0x0; 0x2; 0x2].
Definition ETHERNET_MAC_ADDR_ANY : list Z := [0; 0; 0; 0; 0; 0].
Definition ETHERNET_MAC_ADDR_BROADCAST : list Z := [0xff; 0xff; 0xff; 0xff; 0xff; 0xff].

(** ** Headers

    [repr(C, packed)] structures as their bytes. *)

Definition ETH_SIZE : Z := 14.
Definition IPv4 : Z := 0x800.
Definition ARP : Z := 0x806.

Record EthHeader := mkEth { eth_dst : list Z; eth_src : list Z; eth_typ : Z }.
Definition eth_bytes (h : EthHeader) : list Z := eth_dst h ++ eth_src h ++ u16_bytes (eth_typ h).
Definition eth_of (bs : list Z) : EthHeader := mkEth (take 6 bs) (take 6 (drop 6 bs)) (bytes_u16 (take 2 (drop 12 bs))).

Definition IP_SIZE : Z := 20.
Definition TCP_PROTO : Z := 6.
Definition UDP_PROTO : Z := 17.

Record IpHeader := mkIp {
  hdr_ver : Z; tos : Z; ip_len : Z; id : Z; fragment : Z; ttl : Z; protocol : Z; checksum : Z;
  src_ip_addr : Z; dst_ip_addr : Z
}.
Definition ip_bytes (h : IpHeader) : list Z :=
  [hdr_ver h; tos h] ++ u16_bytes (ip_len h) ++ u16_bytes (id h) ++ u16_bytes (fragment h) ++
  [ttl h; protocol h] ++ u16_bytes (checksum h) ++ u32_bytes (src_ip_addr h) ++ u32_bytes (dst_ip_addr h).
Definition ip_of (bs : list Z) : IpHeader :=
  mkIp (bs !!! 0%nat) (bs !!! 1%nat) (bytes_u16 (take 2 (drop 2 bs))) (bytes_u16 (take 2 (drop 4 bs)))
    (bytes_u16 (take 2 (drop 6 bs))) (bs !!! 8%nat) (bs !!! 9%nat) (bytes_u16 (take 2 (drop 10 bs)))
    (bytes_u32 (take 4 (drop 12 bs))) (bytes_u32 (take 4 (drop 16 bs))).

Definition UDP_SIZE : Z := 8.
Record UdpHeader := mkUdp { src_port : Z; dst_port : Z; udp_len : Z; udp_checksum : Z }.
Definition udp_bytes (h : UdpHeader) : list Z :=
  u16_bytes (src_port h) ++ u16_bytes (dst_port h) ++ u16_bytes (udp_len h) ++ u16_bytes (udp_checksum h).
Definition udp_of (bs : list Z) : UdpHeader :=
  mkUdp (bytes_u16 (take 2 bs)) (bytes_u16 (take 2 (drop 2 bs))) (bytes_u16 (take 2 (drop 4 bs)))
    (bytes_u16 (take 2 (drop 6 bs))).

Definition ARP_SIZE : Z := 28.
Definition ETH_HTYPE : Z := 1.
Definition IPV4_PTYPE : Z := 0x800.
Definition ETH_HLEN : Z := 6.
Definition IPV4_PLEN : Z := 4.
Definition Request : Z := 1.
Definition Reply : Z := 2.

Record ArpHeader := mkArp {
  htype : Z; ptype : Z; hlen : Z; plen : Z; oper : Z; sha : list Z; spa : Z; tha : list Z; tpa : Z
}.
Definition arp_bytes (h : ArpHeader) : list Z :=
  u16_bytes (htype h) ++ u16_bytes (ptype h) ++ [hlen h; plen h] ++ u16_bytes (oper h) ++
  sha h ++ u32_bytes (spa h) ++ tha h ++ u32_bytes (tpa h).
Definition arp_of (bs : list Z) : ArpHeader :=
  mkArp (bytes_u16 (take 2 bs)) (bytes_u16 (take 2 (drop 2 bs))) (bs !!! 4%nat) (bs !!! 5%nat)
    (bytes_u16 (take 2 (drop 6 bs))) (take 6 (drop 8 bs)) (bytes_u32 (take 4 (drop 14 bs)))
    (take 6 (drop 18 bs)) (bytes_u32 (take 4 (drop 24 bs))).

(** [Header::checksum] of ip.rs for the header at address [p].  [nleft] starts at
    20 and falls by 2, so the first loop has ten rounds and nothing is left;
    [sum] is then at most [10 * 65535], and one round of the last loop
    leaves at most [65535 + 9]: fuel 3 is enough. *)
Fixpoint sum_words (n : nat) (w sum : Z) : Z :=
  match n with
  | O => sum
  | S n => let w := wrap 16 (w + 1) in sum_words n w (u32_add sum w)
  end.
Fixpoint fold_sum (fuel : nat) (sum : Z) : Z :=
  match fuel with
  | O => sum
  | S fuel => if Z.shiftr sum 16 =? 0 then sum else fold_sum fuel (u32_add (Z.shiftr sum 16) (Z.land sum 0xffff))
  end.
Definition ip_checksum (p init : Z) : Z :=
  wrap 16 (Z.lxor (fold_sum 3 (sum_words 10 (wrap 16 p) init)) 0xffff).

(** ** State *)

Record Entry := mkEntry { used : bool; ip_addr : Z; mac_addr : list Z }.
Definition entry_new : Entry := mkEntry false 0 [0; 0; 0; 0; 0; 0].
Definition TABLE_SIZE : nat := 2048.

Record ControlBlock := mkCb { cb_used : bool; port : Z; peer_addr : Z; peer_port : Z; mbuf_queue : list MBuf }.
Definition cb_new : ControlBlock := mkCb false 0 0 0 [].
Definition CB_TABLE_SIZE : nat := 16.

Record SockAddr := mkSockAddr { sa_family : Z; sa_port : Z; sa_addr : Z }.

(** The device and the heap its buffers live on. *)
Class Nic (D : Type) := {
  nic_heap :: BoxHeap D;
  nic_send : MBuf -> M D (result unit)       (* E1000.lock().send(m) *)
}.

Section ops.
Context {D : Type} `{!Nic D} {U : Type} `{!Pipe.ProcMem U}.

(** [woken] records the sockets whose channel was woken. *)
Record net := mkNet {
  dev : D; user : U; arp_table : list Entry; udp_table : list ControlBlock; woken : list nat
}.

Definition on_dev {A} (m : M D A) : M net A := fun s =>
  match m (dev s) with
  | Done (x, d) => Done (x, mkNet d (user s) (arp_table s) (udp_table s) (woken s))
  | Panic msg => Panic msg
  | Sleep => Sleep
  | OutOfFuel => OutOfFuel
  | Undef => Undef
  end.
Definition on_user {A} (m : M U A) : M net A := fun s =>
  match m (user s) with
  | Done (x, u) => Done (x, mkNet (dev s) u (arp_table s) (udp_table s) (woken s))
  | Panic msg => Panic msg
  | Sleep => Sleep
  | OutOfFuel => OutOfFuel
  | Undef => Undef
  end.
Definition set_arp (t : list Entry) : M net unit :=
  modify (fun s => mkNet (dev s) (user s) t (udp_table s) (woken s)).
Definition set_udp (t : list ControlBlock) : M net unit :=
  modify (fun s => mkNet (dev s) (user s) (arp_table s) t (woken s)).
Definition wakeup (idx : nat) : M net unit :=
  modify (fun s => mkNet (dev s) (user s) (arp_table s) (udp_table s) (woken s ++ [idx])).
Definition drop_mbuf (m : MBuf) : M net unit := on_dev (box_drop (m_ptr m)).

(** ** Ethernet and ARP *)

Definition eth_tx (m : MBuf) (typ : Z) (dst_mac : list Z) : M net unit :=
  let! m := push m (eth_bytes (mkEth dst_mac LOCAL_MAC_ADDR (toggle_endian16 typ))) in
  let! _ := on_dev (nic_send m) in ret tt.

Definition arp_tx (op : Z) (hw_addr dst_mac : list Z) (dst_ip : Z) : M net unit :=
  let! m := on_dev (alloc 128) in
  let! '(p, m) := append m ARP_SIZE in
  let! m := store m p (arp_bytes (mkArp (toggle_endian16 ETH_HTYPE) (toggle_endian16 IPV4_PTYPE) ETH_HLEN IPV4_PLEN
    (toggle_endian16 op) LOCAL_MAC_ADDR (toggle_endian32 LOCAL_IP_ADDR) hw_addr (toggle_endian32 dst_ip))) in
  eth_tx m ARP dst_mac.

(** [Table::select] and [Table::get_unused]: the index of the entry *)
Definition select (t : list Entry) (a : Z) : option nat :=
  fst <$> list_find (fun e => used e = true /\ ip_addr e = a) t.
Definition get_unused (t : list Entry) : option nat := fst <$> list_find (fun e => used e = false) t.

Definition arp_rx (m : MBuf) : M net unit :=
  let! '(p, m) := pop m ARP_SIZE in
  let! bs := load m p ARP_SIZE in
  let hdr := arp_of bs in
  let op := toggle_endian16 (oper hdr) in
  (if op =? Request then arp_tx Reply (sha hdr) (sha hdr) (toggle_endian32 (spa hdr))
   else if op =? Reply then
     let! s := get in
     let! i := unwrap (get_unused (arp_table s)) "called `Option::unwrap()` on a `None` value" in
     set_arp (<[i := mkEntry true (toggle_endian32 (spa hdr)) (sha hdr)]> (arp_table s))
   else panic "called `Result::unwrap()` on an `Err` value") ;;
  drop_mbuf m.

Definition resolve (a : Z) : M net (result (list Z)) :=
  let! s := get in
  match select (arp_table s) a with
  | Some i =>
      let! e := get_at (arp_table s) i in
      if decide (mac_addr e = ETHERNET_MAC_ADDR_ANY) then
        arp_tx Request ETHERNET_MAC_ADDR_ANY ETHERNET_MAC_ADDR_BROADCAST a ;; ret (Err "same")
      else ret (Ok (mac_addr e))
  | None =>
      match get_unused (arp_table s) with
      | Some _ =>
          arp_tx Request GATEWAY_MAC_ADDR ETHERNET_MAC_ADDR_BROADCAST a ;; ret (Err "cannot resolved")
      | None => ret (Err "full arp table")
      end
  end.

(** ** IP *)

(** The fields [id] and [fragment] keep what the buffer held. *)
Definition ip_tx (m : MBuf) (dst : Z) (proto : Z) : M net unit :=
  let! '(p, m) := prepend m IP_SIZE in
  let! old := load m p IP_SIZE in
  let h := ip_of old in
  let! m := store m p (ip_bytes (mkIp 0x45 0 (toggle_endian16 (wrap 16 (get_len m))) (id h) (fragment h) 100 proto
    (ip_checksum p 0) (toggle_endian32 LOCAL_IP_ADDR) (toggle_endian32 dst))) in
  if dst =? 0 then eth_tx m IPv4 ETHERNET_MAC_ADDR_BROADCAST
  else
    let! r := resolve dst in
    match r with
    | Ok mac => eth_tx m IPv4 mac
    | Err _ => eth_tx m IPv4 GATEWAY_MAC_ADDR
    end.

(** ** UDP *)

(** [Table::find] *)
Definition find (t : list ControlBlock) (p : Z) : option nat :=
  fst <$> list_find (fun cb => cb_used cb = true /\ port cb = p) t.

Definition udp_open : M net (result nat) :=
  let! s := get in
  match list_find (fun cb => cb_used cb = false) (udp_table s) with
  | Some (i, cb) =>
      set_udp (<[i := mkCb true (port cb) (peer_addr cb) (peer_port cb) (mbuf_queue cb)]> (udp_table s)) ;;
      ret (Ok i)
  | None => ret (Err "udp_open: ControlBlock unavailable")
  end.

Definition udp_close (idx : nat) : M net (result unit) :=
  let! s := get in
  let! cb := get_at (udp_table s) idx in
  if negb (cb_used cb) then ret (Err "udp_close: unopend")
  else set_udp (<[idx := cb_new]> (udp_table s)) ;; mfor (mbuf_queue cb) drop_mbuf ;; ret (Ok tt).

Definition udp_bind (idx : nat) (addr : SockAddr) : M net (result unit) :=
  let! s := get in
  let! cb := get_at (udp_table s) idx in
  if negb (cb_used cb) then ret (Err "udp_bind: not opened")
  else
    set_udp (<[idx := mkCb true (sa_port addr) (peer_addr cb) (peer_port cb) (mbuf_queue cb)]> (udp_table s)) ;;
    ret (Ok tt).

(** A candidate port that no open socket has. *)
Definition port_free (t : list ControlBlock) (p : Z) : bool :=
  forallb (fun cb => negb (cb_used cb && (port cb =? p))) t.

Definition udp_connect (idx : nat) (addr : SockAddr) : M net (result unit) :=
  let! s := get in
  let! cb := get_at (udp_table s) idx in
  if negb (cb_used cb) then ret (Err "udp_connect: not opened")
  else
    let cb := mkCb true (port cb) (sa_addr addr) (sa_port addr) (mbuf_queue cb) in
    let t := <[idx := cb]> (udp_table s) in
    set_udp t ;;
    if negb (port cb =? 0) then ret (Ok tt)
    else
      match list_find (fun p => port_free t p = true) (seqZ USABLE_PORT_MIN (USABLE_PORT_MAX - USABLE_PORT_MIN + 1)) with
      | Some (_, p) =>
          set_udp (<[idx := mkCb true p (peer_addr cb) (peer_port cb) (mbuf_queue cb)]> t) ;; ret (Ok tt)
      | None => ret (Err "udp_connect: port unavailable")
      end.

Definition udp_tx (m : MBuf) (cb : ControlBlock) : M net unit :=
  let! '(p, m) := prepend m UDP_SIZE in
  let! m := store m p (udp_bytes (mkUdp (toggle_endian16 (port cb)) (toggle_endian16 (peer_port cb))
    (toggle_endian16 (wrap 16 (get_len m))) 0)) in
  ip_tx m (peer_addr cb) UDP_PROTO.

Definition udp_send (m : MBuf) (idx : nat) : M net (result unit) :=
  let! s := get in
  let! cb := get_at (udp_table s) idx in
  if negb (cb_used cb) then drop_mbuf m ;; ret (Err "udp_write: unopened")
  else udp_tx m cb ;; ret (Ok tt).

Definition udp_rx (m : MBuf) : M net (result unit) :=
  let! '(p, m) := pop m UDP_SIZE in
  let! bs := load m p UDP_SIZE in
  let! s := get in
  match find (udp_table s) (toggle_endian16 (dst_port (udp_of bs))) with
  | None => drop_mbuf m ;; ret (Err "udp_rx: socket not found")
  | Some i =>
      let! cb := get_at (udp_table s) i in
      set_udp (<[i := mkCb (cb_used cb) (port cb) (peer_addr cb) (peer_port cb) (mbuf_queue cb ++ [m])]> (udp_table s)) ;;
      wakeup i ;;
      ret (Ok tt)
  end.

Definition udp_read (idx : nat) (addr n : Z) : M net (result Z) :=
  let! s := get in
  let! cb := get_at (udp_table s) idx in
  match mbuf_queue cb with
  | [] => sleep
  | m :: q =>
      set_udp (<[idx := mkCb (cb_used cb) (port cb) (peer_addr cb) (peer_port cb) q]> (udp_table s)) ;;
      let n := if get_len m <? n then get_len m else n in
      let! bs := load m (get_buf_head m) n in
      let! r := on_user (Pipe.copy_out addr bs n) in
      drop_mbuf m ;;
      ret (match r with Ok _ => Ok n | Err msg => Err msg end)
  end.

(** ** Receiving *)

(** A [protocol] that is neither discriminant of the enumeration is an invalid
    value. *)
Definition ip_rx (m : MBuf) : M net unit :=
  let! '(p, m) := pop m IP_SIZE in
  let! bs := load m p IP_SIZE in
  let hdr := ip_of bs in
  let n := wrap 16 (toggle_endian16 (ip_len hdr) - IP_SIZE) in
  let! '(_, m) := trim m (get_len m ⊟ n) in
  if protocol hdr =? TCP_PROTO then panic "ip_rx: handling tcp is unimpelemented yet"
  else if protocol hdr =? UDP_PROTO then let! _ := udp_rx m in ret tt
  else undefined.

Definition eth_rx (m : MBuf) : M net unit :=
  let! '(p, m) := pop m ETH_SIZE in
  let! bs := load m p ETH_SIZE in
  let typ := toggle_endian16 (eth_typ (eth_of bs)) in
  if typ =? IPv4 then ip_rx m
  else if typ =? ARP then arp_rx m
  else panic "called `Result::unwrap()` on an `Err` value".

(** ** Sockets *)

Definition socket_new (typ : Z) : M net (result nat) :=
  if typ =? 0 then panic "unimplemented"
  else if typ =? 1 then udp_open
  else panic "called `Result::unwrap()` on an `Err` value".

(** [Socket::write] on a UDP socket.  [copy_in] fills the buffer from its head
    with what it could read, also when it fails. *)
Definition socket_write (idx : nat) (addr n : Z) : M net (result Z) :=
  let! m := on_dev (alloc (ETH_SIZE + IP_SIZE + UDP_SIZE)) in
  let! '(_, m) := append m n in
  let! '(bs, r) := on_user (Pipe.copy_in addr n) in
  let! m := store m (get_buf_head m) bs in
  match r with
  | Err msg => drop_mbuf m ;; ret (Err msg)
  | Ok _ =>
      let! r := udp_send m idx in
      ret (match r with Ok _ => Ok n | Err msg => Err msg end)
  end.

Definition socket_drop (idx : nat) : M net unit :=
  let! r := udp_close idx in
  match r with Ok _ => ret tt | Err _ => panic "cannot close" end.

End ops.
Arguments net : clear implicits.

(** ** Byte order *)

(** The reference: the value whose bytes in memory are those of [v] in reverse. *)
Definition swap16 (v : Z) : Z := bytes_u16 (rev (u16_bytes v)).
Definition swap32 (v : Z) : Z := bytes_u32 (rev (u32_bytes v)).

Lemma land_ff v : Z.land v 0xff = v `mod` 256.
Proof. apply (Z.land_ones v 8). lia. Qed.

Lemma land_byte v k : 0 <= k -> Z.shiftr (Z.land v (Z.shiftl 0xff k)) k = (v / 2 ^ k) `mod` 256.
Proof.
  intros Hk. rewrite Z.shiftr_land, Z.shiftr_shiftl_l, Z.sub_diag, Z.shiftl_0_r by lia.
  rewrite land_ff. by rewrite Z.shiftr_div_pow2.
Qed.

Lemma byte_bound v k : 0 <= k -> 0 <= v < 2 ^ (k + 8) -> 0 <= v / 2 ^ k < 256.
Proof.
  intros Hk Hv. pose proof (Z.pow_pos_nonneg 2 k ltac:(lia) Hk). rewrite Z.pow_add_r in Hv by lia.
  split; [apply Z.div_pos|apply Z.div_lt_upper_bound]; lia.
Qed.

Lemma hi_byte v : is_u16 v -> 0 <= v / 256 < 256.
Proof. apply (byte_bound v 8). lia. Qed.

Lemma toggle16_sum v : is_u16 v -> toggle_endian16 v = (v `mod` 256) * 256 + v / 256.
Proof.
  intros Hv. unfold is_u16 in Hv. unfold toggle_endian16. change 0xff00 with (Z.shiftl 0xff 8).
  rewrite (Z.land_comm (Z.shiftl _ _) v), (land_byte v 8), (Z.land_comm 0xff v), land_ff by lia.
  change (2 ^ 8) with 256. pose proof (Z.mod_pos_bound v 256 ltac:(lia)).
  pose proof (hi_byte v Hv).
  rewrite Z.shiftl_mul_pow2, wrap_small, (Z.mod_small (v / 256)) by lia. apply (PageTable.lor_low _ _ 8); lia.
Qed.

Lemma toggle32_sum v :
  is_u32 v -> toggle_endian32 v =
    (v `mod` 256) * 2 ^ 24 + ((v / 256) `mod` 256) * 2 ^ 16 + ((v / 2 ^ 16) `mod` 256) * 256 + v / 2 ^ 24.
Proof.
  intros Hv. unfold is_u32 in Hv. unfold toggle_endian32.
  assert (E1 : wrap 32 (Z.shiftl (Z.land v 0xff) 24) = (v `mod` 256) * 2 ^ 24).
  { rewrite land_ff, Z.shiftl_mul_pow2 by lia.
    pose proof (Z.mod_pos_bound v 256 ltac:(lia)). apply wrap_small. lia. }
  assert (E2 : wrap 32 (Z.shiftl (Z.land v 0xff00) 8) = ((v / 256) `mod` 256) * 2 ^ 16).
  { pose proof (land_byte v 8 ltac:(lia)) as E. change (Z.shiftl 0xff 8) with 0xff00 in E. change (2 ^ 8) with 256 in E.
    assert (Hd : Z.land v 0xff00 = Z.shiftl (Z.shiftr (Z.land v 0xff00) 8) 8).
    { apply Z.bits_inj'. intros n Hn. rewrite Z.shiftl_spec by lia. destruct (decide (n < 8)) as [Hl|Hl].
      - rewrite (Z.testbit_neg_r _ (n - 8)), Z.land_spec by lia. change 0xff00 with (Z.shiftl 0xff 8).
        rewrite Z.shiftl_spec, (Z.testbit_neg_r _ (n - 8)) by lia. apply andb_false_r.
      - rewrite Z.shiftr_spec by lia. f_equal. lia. }
    rewrite Hd, E, Z.shiftl_shiftl, Z.shiftl_mul_pow2 by lia. change (8 + 8) with 16.
    pose proof (Z.mod_pos_bound (v / 256) 256 ltac:(lia)). apply wrap_small. lia. }
  assert (E3 : Z.shiftr (Z.land v 0xff0000) 8 = ((v / 2 ^ 16) `mod` 256) * 2 ^ 8).
  { pose proof (land_byte v 16 ltac:(lia)) as E. change (Z.shiftl 0xff 16) with 0xff0000 in E. rewrite <-E.
    rewrite <-Z.shiftl_mul_pow2 by lia. apply Z.bits_inj'. intros n Hn. rewrite Z.shiftl_spec, Z.shiftr_spec by lia.
    destruct (decide (n < 8)) as [Hl|Hl].
    - rewrite (Z.testbit_neg_r _ (n - 8)), Z.land_spec by lia. change 0xff0000 with (Z.shiftl 0xff 16).
      rewrite Z.shiftl_spec, (Z.testbit_neg_r _ (n + 8 - 16)) by lia. apply andb_false_r.
    - rewrite Z.shiftr_spec by lia. f_equal. lia. }
  assert (E4 : Z.shiftr (Z.land v 0xff000000) 24 = v / 2 ^ 24).
  { pose proof (land_byte v 24 ltac:(lia)) as E. change (Z.shiftl 0xff 24) with 0xff000000 in E. rewrite E.
    apply Z.mod_small. by apply (byte_bound v 24). }
  rewrite E1, E2, E3, E4. pose proof (Z.mod_pos_bound v 256 ltac:(lia)). pose proof (Z.mod_pos_bound (v / 256) 256 ltac:(lia)).
  pose proof (Z.mod_pos_bound (v / 2 ^ 16) 256 ltac:(lia)). pose proof (byte_bound v 24 ltac:(lia) Hv).
  rewrite (PageTable.lor_low (v `mod` 256) _ 24) by lia.
  replace (v `mod` 256 * 2 ^ 24 + (v / 256) `mod` 256 * 2 ^ 16) with ((v `mod` 256 * 256 + (v / 256) `mod` 256) * 2 ^ 16) by lia.
  rewrite (PageTable.lor_low _ _ 16) by lia.
  replace ((v `mod` 256 * 256 + (v / 256) `mod` 256) * 2 ^ 16 + (v / 2 ^ 16) `mod` 256 * 2 ^ 8)
    with (((v `mod` 256 * 256 + (v / 256) `mod` 256) * 256 + (v / 2 ^ 16) `mod` 256) * 2 ^ 8) by lia.
  rewrite (PageTable.lor_low _ _ 8) by lia. lia.
Qed.

Lemma le_step m v : 0 <= m -> Z_to_little_endian (Z.succ m) 8 v = v `mod` 256 :: Z_to_little_endian m 8 (v / 256).
Proof.
  intros Hm. rewrite Z_to_little_endian_succ by done. change (Z.ones 8) with 0xff. rewrite land_ff.
  by rewrite Z.shiftr_div_pow2 by lia.
Qed.

Lemma u16_bytes_spec v : is_u16 v -> u16_bytes v = [v `mod` 256; v / 256].
Proof.
  intros Hv. unfold u16_bytes. change 2 with (Z.succ (Z.succ 0)) at 1. rewrite !le_step by lia.
  rewrite (Z.mod_small (v / 256)) by (by apply hi_byte). done.
Qed.

Lemma u32_bytes_spec v : is_u32 v -> u32_bytes v = [v `mod` 256; (v / 256) `mod` 256; (v / 2 ^ 16) `mod` 256; v / 2 ^ 24].
Proof.
  intros Hv. unfold u32_bytes. change 4 with (Z.succ (Z.succ (Z.succ (Z.succ 0)))) at 1. rewrite !le_step by lia.
  rewrite !Z.div_div by lia. change (256 * 256) with (2 ^ 16). change (2 ^ 16 * 256) with (2 ^ 24).
  rewrite (Z.mod_small (v / 2 ^ 24)) by (by apply (byte_bound v 24)). done.
Qed.

(** One more byte of a little-endian number. *)
Lemma le_cons a r : 0 <= a < 256 -> Z.lor a (Z.shiftl r 8) = a + 256 * r.
Proof.
  intros Ha. rewrite Z.shiftl_mul_pow2, Z.lor_comm by lia. rewrite (PageTable.lor_low r a 8) by lia.
  change (2 ^ 8) with 256. lia.
Qed.

Lemma bytes_u16_two a b : 0 <= a < 256 -> 0 <= b < 256 -> bytes_u16 [a; b] = a + 256 * b.
Proof. intros Ha Hb. unfold bytes_u16. cbn [little_endian_to_Z]. rewrite !le_cons by done. lia. Qed.

Lemma bytes_u32_four a b c d :
  0 <= a < 256 -> 0 <= b < 256 -> 0 <= c < 256 -> 0 <= d < 256 ->
  bytes_u32 [a; b; c; d] = a + 256 * b + 2 ^ 16 * c + 2 ^ 24 * d.
Proof. intros. unfold bytes_u32. cbn [little_endian_to_Z]. rewrite !le_cons by done. lia. Qed.

Lemma toggle_endian16_swap v : is_u16 v -> toggle_endian16 v = swap16 v.
Proof.
  intros Hv. rewrite toggle16_sum by done. unfold swap16. rewrite u16_bytes_spec by done. cbn [rev app].
  pose proof (Z.mod_pos_bound v 256 ltac:(lia)). pose proof (hi_byte v Hv).
  rewrite bytes_u16_two by lia. lia.
Qed.

Lemma toggle_endian32_swap v : is_u32 v -> toggle_endian32 v = swap32 v.
Proof.
  intros Hv. rewrite toggle32_sum by done. unfold swap32. rewrite u32_bytes_spec by done. cbn [rev app].
  pose proof (byte_bound v 24 ltac:(lia) Hv). rewrite bytes_u32_four by (done || apply Z.mod_pos_bound; lia). lia.
Qed.

Lemma swap16_involutive v : is_u16 v -> is_u16 (swap16 v) /\ swap16 (swap16 v) = v.
Proof.
  intros Hv. assert (E : u16_bytes (swap16 v) = rev (u16_bytes v)).
  { unfold swap16, bytes_u16. unfold u16_bytes at 1.
    apply Z_to_little_endian_to_Z; [by rewrite length_rev, length_u16_bytes|lia|].
    rewrite u16_bytes_spec by done. pose proof (hi_byte v Hv).
    repeat constructor; cbn; pose proof (Z.mod_pos_bound v 256 ltac:(lia)); lia. }
  split; [|unfold swap16 at 1; by rewrite E, rev_involutive, bytes_u16_bytes].
  rewrite <-toggle_endian16_swap, toggle16_sum by done.
  pose proof (hi_byte v Hv).
  pose proof (Z.mod_pos_bound v 256 ltac:(lia)). unfold is_u16. lia.
Qed.

Lemma toggle16_range v : is_u16 v -> is_u16 (toggle_endian16 v).
Proof. intros Hv. rewrite toggle_endian16_swap by done. by apply swap16_involutive. Qed.

Lemma toggle16_twice v : is_u16 v -> toggle_endian16 (toggle_endian16 v) = v.
Proof.
  intros Hv. destruct (swap16_involutive v Hv) as [Hr Hi]. by rewrite (toggle_endian16_swap v), toggle_endian16_swap.
Qed.

Lemma toggle32_range v : is_u32 v -> is_u32 (toggle_endian32 v).
Proof.
  intros Hv. rewrite toggle32_sum by done. pose proof (byte_bound v 24 ltac:(lia) Hv).
  pose proof (Z.mod_pos_bound v 256 ltac:(lia)). pose proof (Z.mod_pos_bound (v / 256) 256 ltac:(lia)).
  pose proof (Z.mod_pos_bound (v / 2 ^ 16) 256 ltac:(lia)). unfold is_u32. lia.
Qed.

(** C37: the two byte swaps, which the code writes out with masks and shifts,
    are the conversion between host and network order: on every 16-bit and every
    32-bit value they agree with reversing the bytes of the value in memory, and
    the 16-bit one, which the stack applies on both ways, undoes itself. *)
Theorem toggle_endian_swaps v :
  (is_u16 v -> toggle_endian16 v = swap16 v /\ toggle_endian16 (toggle_endian16 v) = v) /\
  (is_u32 v -> toggle_endian32 v = swap32 v).
Proof.
  split; [|apply toggle_endian32_swap]. intros Hv. split; [by apply toggle_endian16_swap|by apply toggle16_twice].
Qed.

Lemma toggle_endian_swaps_witness : toggle_endian16 0x1234 = 0x3412 /\ toggle_endian32 0x0a00020f = 0x0f02000a.
Proof.
  destruct (toggle_endian_swaps 0x1234) as [H16 _]. destruct (toggle_endian_swaps 0x0a00020f) as [_ H32].
  destruct (H16 ltac:(by vm_compute)) as [E1 _]. rewrite E1, (H32 ltac:(by vm_compute)). by vm_compute.
Defined.

(** ** Headers on the wire *)

Lemma eth_of_bytes h rest :
  length (eth_dst h) = 6%nat -> length (eth_src h) = 6%nat -> is_u16 (eth_typ h) -> eth_of (eth_bytes h ++ rest) = h.
Proof.
  intros H1 H2 H3. unfold eth_of, eth_bytes. rewrite <-!app_assoc.
  rewrite take_app_length', drop_app_length', take_app_length' by done.
  rewrite (app_assoc (eth_dst h)), drop_app_length' by (rewrite length_app; lia).
  rewrite take_app_length' by (by rewrite length_u16_bytes). rewrite bytes_u16_bytes by done. by destruct h.
Qed.

Lemma length_eth_bytes h : length (eth_dst h) = 6%nat -> length (eth_src h) = 6%nat -> length (eth_bytes h) = 14%nat.
Proof. intros H1 H2. unfold eth_bytes. rewrite !length_app, length_u16_bytes, H1, H2. done. Qed.

Lemma u32_bytes_four z : exists a b c d, u32_bytes z = [a; b; c; d].
Proof.
  pose proof (length_u32_bytes z). destruct (u32_bytes z) as [|a [|b [|c [|d [|]]]]]; try done. by exists a, b, c, d.
Qed.

Record ip_ok (h : IpHeader) : Prop := {
  io_len : is_u16 (ip_len h); io_id : is_u16 (id h); io_frag : is_u16 (fragment h); io_sum : is_u16 (checksum h);
  io_src : is_u32 (src_ip_addr h); io_dst : is_u32 (dst_ip_addr h)
}.

Lemma ip_of_bytes h rest : ip_ok h -> ip_of (ip_bytes h ++ rest) = h.
Proof.
  intros [H1 H2 H3 H4 H5 H6]. unfold ip_of, ip_bytes. rewrite <-!app_assoc.
  destruct (u16_bytes_two (ip_len h)) as (a1 & a2 & E1), (u16_bytes_two (id h)) as (b1 & b2 & E2),
    (u16_bytes_two (fragment h)) as (c1 & c2 & E3), (u16_bytes_two (checksum h)) as (d1 & d2 & E4),
    (u32_bytes_four (src_ip_addr h)) as (e1 & e2 & e3 & e4 & E5), (u32_bytes_four (dst_ip_addr h)) as (f1 & f2 & f3 & f4 & E6).
  rewrite E1, E2, E3, E4, E5, E6. cbn [app take drop lookup_total list_lookup_total]. rewrite ?drop_0, ?take_0.
  rewrite <-E1, <-E2, <-E3, <-E4, <-E5, <-E6, !bytes_u16_bytes, !bytes_u32_bytes by done. by destruct h.
Qed.

Lemma length_ip_bytes h : length (ip_bytes h) = 20%nat.
Proof. unfold ip_bytes. by rewrite !length_app, !length_u16_bytes, !length_u32_bytes. Qed.

Lemma udp_of_bytes h rest :
  is_u16 (src_port h) -> is_u16 (dst_port h) -> is_u16 (udp_len h) -> is_u16 (udp_checksum h) ->
  udp_of (udp_bytes h ++ rest) = h.
Proof.
  intros H1 H2 H3 H4. unfold udp_of, udp_bytes. rewrite <-!app_assoc.
  destruct (u16_bytes_two (src_port h)) as (a1 & a2 & E1), (u16_bytes_two (dst_port h)) as (b1 & b2 & E2),
    (u16_bytes_two (udp_len h)) as (c1 & c2 & E3), (u16_bytes_two (udp_checksum h)) as (d1 & d2 & E4).
  rewrite E1, E2, E3, E4. cbn [app take drop]. rewrite ?drop_0, ?take_0.
  rewrite <-E1, <-E2, <-E3, <-E4, !bytes_u16_bytes by done. by destruct h.
Qed.

Lemma length_udp_bytes h : length (udp_bytes h) = 8%nat.
Proof. unfold udp_bytes. by rewrite !length_app, !length_u16_bytes. Qed.

Lemma arp_of_bytes h rest :
  is_u16 (htype h) -> is_u16 (ptype h) -> is_u16 (oper h) -> is_u32 (spa h) -> is_u32 (tpa h) ->
  length (sha h) = 6%nat -> length (tha h) = 6%nat -> arp_of (arp_bytes h ++ rest) = h.
Proof.
  intros H1 H2 H3 H4 H5 H6 H7. unfold arp_of, arp_bytes. rewrite <-!app_assoc.
  destruct (u16_bytes_two (htype h)) as (a1 & a2 & E1), (u16_bytes_two (ptype h)) as (b1 & b2 & E2),
    (u16_bytes_two (oper h)) as (c1 & c2 & E3), (u32_bytes_four (spa h)) as (d1 & d2 & d3 & d4 & E4),
    (u32_bytes_four (tpa h)) as (e1 & e2 & e3 & e4 & E5).
  destruct h as [ht pt hl pl op sh sp th tp]. cbn in *.
  destruct sh as [|s1 [|s2 [|s3 [|s4 [|s5 [|s6 [|]]]]]]]; try done.
  destruct th as [|t1 [|t2 [|t3 [|t4 [|t5 [|t6 [|]]]]]]]; try done.
  rewrite E1, E2, E3, E4, E5. cbn [app take drop lookup_total list_lookup_total]. rewrite ?drop_0, ?take_0.
  rewrite <-E1, <-E2, <-E3, <-E4, <-E5, !bytes_u16_bytes, !bytes_u32_bytes by done. done.
Qed.

(** ** What the stack relies on in the device

    [boxes] are the buffers on the heap that the stack owns, [posted] the frames
    handed to the device so far, oldest first.  [tx_ready] holds when the device can
    take a frame. *)

Class NicLaws (D : Type) `{!Nic D} := {
  nok : D -> Prop;
  boxes : D -> gset Z;
  posted : D -> list (list Z);
  tx_ready : D -> Prop;
  box_new_law d p d' : nok d -> box_new d = Done (p, d') ->
    nok d' /\ 0 < p /\ p + 2064 < 2 ^ 64 /\ p ∉ boxes d /\ boxes d' = {[p]} ∪ boxes d /\
    posted d' = posted d /\ (tx_ready d -> tx_ready d');
  box_drop_law d p : nok d -> p ∈ boxes d ->
    exists d', box_drop p d = Done (tt, d') /\ nok d' /\ boxes d' = boxes d ∖ {[p]} /\ posted d' = posted d;
  nic_send_law d m : nok d -> mbuf_ok m -> m_ptr m ∈ boxes d ->
    exists r d', nic_send m d = Done (r, d') /\ nok d' /\ boxes d' = boxes d ∖ {[m_ptr m]} /\
      (tx_ready d -> r = Ok tt) /\
      posted d' = posted d ++ match r with Ok _ => [packet m] | Err _ => [] end
}.

Lemma own_new (p : Z) (X : gset Z) : p ∈ {[p]} ∪ X.
Proof. set_solver. Qed.
Lemma give_back (p : Z) (X : gset Z) : p ∉ X -> ({[p]} ∪ X) ∖ {[p]} = X.
Proof. set_solver. Qed.

(** The frame of a datagram.  The checksum is that of the code, which depends on the
    address [p] of the header. *)
Definition datagram (sp dp : Z) (bs : list Z) : list Z :=
  udp_bytes (mkUdp (toggle_endian16 sp) (toggle_endian16 dp) (toggle_endian16 (8 + Z.of_nat (length bs))) 0) ++ bs.
Definition ip_packet (p dst proto : Z) (bs : list Z) : list Z :=
  ip_bytes (mkIp 0x45 0 (toggle_endian16 (20 + Z.of_nat (length bs))) 0 0 100 proto (ip_checksum p 0)
    (toggle_endian32 LOCAL_IP_ADDR) (toggle_endian32 dst)) ++ bs.
Definition frame (mac : list Z) (typ : Z) (bs : list Z) : list Z :=
  eth_bytes (mkEth mac LOCAL_MAC_ADDR (toggle_endian16 typ)) ++ bs.

(** The hardware address a packet goes to, when no request is needed. *)
Definition route (t : list Entry) (a : Z) : option (list Z) :=
  if a =? 0 then Some ETHERNET_MAC_ADDR_BROADCAST
  else match select t a with
       | Some i => match t !! i with
                   | Some e => if decide (mac_addr e = ETHERNET_MAC_ADDR_ANY) then None else Some (mac_addr e)
                   | None => None
                   end
       | None => match get_unused t with Some _ => None | None => Some GATEWAY_MAC_ADDR end
       end.

Section send.
Context {D : Type} `{!Nic D} `{!NicLaws D} {U : Type} `{!Pipe.ProcMem U}.
Implicit Types s : net D U.

Definition with_dev (d : D) s : net D U := mkNet d (user s) (arp_table s) (udp_table s) (woken s).

Lemma wp_on_dev {A} (m : M D A) s (Q : A -> net D U -> Prop) :
  wp m (dev s) (fun x d => Q x (with_dev d s)) -> wp (on_dev m) s Q.
Proof using Type. unfold wp, on_dev. by destruct (m (dev s)) as [[x d]| | | |]. Qed.

Lemma wp_on_user {A} (m : M U A) s (Q : A -> net D U -> Prop) :
  wp m (user s) (fun x u => Q x (mkNet (dev s) u (arp_table s) (udp_table s) (woken s))) -> wp (on_user m) s Q.
Proof using Type. unfold wp, on_user. by destruct (m (user s)) as [[x d]| | | |]. Qed.

(** A packet handed to Ethernet is the frame that is posted. *)
Lemma eth_tx_spec m typ mac s (Q : unit -> net D U -> Prop) :
  nok (dev s) -> mbuf_ok m -> m_ptr m ∈ boxes (dev s) -> length mac = 6%nat -> 14 <= off m ->
  (forall d, nok d -> boxes d = boxes (dev s) ∖ {[m_ptr m]} ->
     (tx_ready (dev s) -> posted d = posted (dev s) ++ [frame mac typ (packet m)]) -> Q tt (with_dev d s)) ->
  wp (eth_tx m typ mac) s Q.
Proof using Type*.
  intros Hd Hm Hb Hmac Ho HQ. unfold eth_tx. set (h := eth_bytes _).
  assert (Hh : Z.of_nat (length h) = 14) by (unfold h; by rewrite length_eth_bytes).
  eapply wp_bind, push_ok; [done|lia|]. intros m' Hm' _ Ep Epk. apply wp_bind, wp_on_dev.
  destruct (nic_send_law (dev s) m' Hd Hm' ltac:(by rewrite Ep)) as (r & d' & E & Hn & Eb & Hok & Eq).
  apply (wp_Done _ _ _ _ _ E). cbn beta. apply wp_ret. apply HQ; [done|by rewrite Eb, Ep|].
  intros Hr. by rewrite Eq, (Hok Hr), Epk.
Qed.

Lemma resolve_spec a mac s :
  a <> 0 -> route (arp_table s) a = Some mac ->
  exists r, resolve a s = Done (r, s) /\ mac = match r with Ok mac => mac | Err _ => GATEWAY_MAC_ADDR end.
Proof using Type.
  intros Ha Hr. unfold route in Hr. rewrite (proj2 (Z.eqb_neq _ _)) in Hr by done.
  unfold resolve, bind, get. destruct (select (arp_table s) a) as [i|].
  - unfold get_at, unwrap. destruct (arp_table s !! i) as [e|]; [|done]. case_decide; [done|]. simplify_eq.
    eexists (Ok _). cbn. by rewrite decide_False.
  - destruct (get_unused (arp_table s)); [done|]. simplify_eq. by eexists (Err _).
Qed.

Lemma ip_tx_spec m dst proto mac s (Q : unit -> net D U -> Prop) :
  nok (dev s) -> mbuf_ok m -> m_ptr m ∈ boxes (dev s) -> tx_ready (dev s) -> blank m -> 34 <= off m ->
  route (arp_table s) dst = Some mac -> length mac = 6%nat ->
  (forall p d, nok d -> boxes d = boxes (dev s) ∖ {[m_ptr m]} ->
     posted d = posted (dev s) ++ [frame mac IPv4 (ip_packet p dst proto (packet m))] -> Q tt (with_dev d s)) ->
  wp (ip_tx m dst proto) s Q.
Proof using Type*.
  intros Hd Hm Hb Hr Hbl Ho Hrt Hmac HQ. unfold ip_tx. change IP_SIZE with 20.
  eapply wp_bind, prepend_ok; [done|lia|]. intros m1 Hm1 Eo El Eb Ep. cbn beta iota.
  destruct (prepend_blank m m1 20 Hm Hm1 Hbl ltac:(lia) Eo El Eb) as [Epk Hbl1].
  pose proof (mo_len m Hm). eapply wp_bind, load_head; [done|lia|]. rewrite Epk, take_app_length' by done.
  change (ip_of (replicate (Z.to_nat 20) 0)) with (mkIp 0 0 0 0 0 0 0 0 0 0). cbv zeta. cbn [id fragment].
  rewrite get_len_ok, El by done. pose proof (length_packet m Hm) as Elp.
  pose proof (mo_fit m Hm) as Hfit. change MBUF_SIZE with 2048 in Hfit. rewrite wrap_small by lia.
  eapply wp_bind, store_ok; [done|rewrite length_ip_bytes; lia|].
  intros m2 Hm2 Eo2 El2 Eh2 Ep2 Epk2 _. rewrite length_ip_bytes, Epk, drop_app_length' in Epk2 by done.
  assert (Hfr : packet m2 = ip_packet (head m1) dst proto (packet m)).
  { rewrite Epk2. unfold ip_packet. rewrite Elp. by replace (20 + len m) with (len m + 20) by lia. }
  assert (HQ' : forall mac', mac' = mac -> wp (eth_tx m2 IPv4 mac') s Q).
  { intros mac' ->. apply eth_tx_spec; [done|done|congruence|done|lia|].
    intros d Hd' Ebx Eps. apply (HQ (head m1)); [done|congruence|]. by rewrite Eps, Hfr. }
  case_match eqn:E0; [apply HQ'; unfold route in Hrt; rewrite E0 in Hrt; congruence|].
  apply Z.eqb_neq in E0. destruct (resolve_spec dst mac s E0 Hrt) as (r & Er & ->).
  eapply wp_bind, (wp_Done _ _ _ _ _ Er). destruct r; by apply HQ'.
Qed.

Lemma udp_tx_spec m cb mac s (Q : unit -> net D U -> Prop) :
  nok (dev s) -> mbuf_ok m -> m_ptr m ∈ boxes (dev s) -> tx_ready (dev s) -> blank m -> 42 <= off m ->
  route (arp_table s) (peer_addr cb) = Some mac -> length mac = 6%nat ->
  (forall p d, nok d -> boxes d = boxes (dev s) ∖ {[m_ptr m]} ->
     posted d = posted (dev s) ++
       [frame mac IPv4 (ip_packet p (peer_addr cb) UDP_PROTO (datagram (port cb) (peer_port cb) (packet m)))] ->
     Q tt (with_dev d s)) ->
  wp (udp_tx m cb) s Q.
Proof using Type*.
  intros Hd Hm Hb Hr Hbl Ho Hrt Hmac HQ. unfold udp_tx. change UDP_SIZE with 8.
  eapply wp_bind, prepend_ok; [done|lia|]. intros m1 Hm1 Eo El Eb Ep. cbn beta iota.
  destruct (prepend_blank m m1 8 Hm Hm1 Hbl ltac:(lia) Eo El Eb) as [Epk Hbl1].
  pose proof (mo_len m Hm). rewrite get_len_ok, El by done. pose proof (length_packet m Hm) as Elp.
  pose proof (mo_fit m Hm) as Hfit. change MBUF_SIZE with 2048 in Hfit. rewrite wrap_small by lia.
  eapply wp_bind, store_ok; [done|rewrite length_udp_bytes; lia|].
  intros m2 Hm2 Eo2 El2 Eh2 Ep2 Epk2 Hbl2. rewrite length_udp_bytes, Epk, drop_app_length' in Epk2 by done.
  eapply ip_tx_spec; [done|done|congruence|done|by apply Hbl2|lia|done|done|].
  intros p d Hd' Ebx Eps. apply (HQ p); [done|congruence|]. rewrite Eps, Epk2. unfold datagram. rewrite Elp.
  by replace (8 + len m) with (len m + 8) by lia.
Qed.

Lemma socket_write_spec idx cb addr n bs mac p d1 s (Q : result Z -> net D U -> Prop) :
  nok (dev s) -> tx_ready (dev s) -> box_new (dev s) = Done (p, d1) ->
  udp_table s !! idx = Some cb -> cb_used cb = true ->
  Pipe.copy_in addr n (user s) = Done ((bs, Ok tt), user s) -> Z.of_nat (length bs) = n -> n <= MBUF_SIZE - 42 ->
  route (arp_table s) (peer_addr cb) = Some mac -> length mac = 6%nat ->
  (forall p d, nok d -> boxes d = boxes (dev s) ->
     posted d = posted (dev s) ++
       [frame mac IPv4 (ip_packet p (peer_addr cb) UDP_PROTO (datagram (port cb) (peer_port cb) bs))] ->
     Q (Ok n) (with_dev d s)) ->
  wp (socket_write idx addr n) s Q.
Proof using Type*.
  intros Hd Hr Ea Hcb Hus Hin Hlen Hn Hrt Hmac HQ. change MBUF_SIZE with 2048 in Hn.
  destruct (box_new_law _ _ _ Hd Ea) as (Hd1 & Hp1 & Hp2 & Hni & Ebx & Eps & Hr1).
  unfold socket_write. change (ETH_SIZE + IP_SIZE + UDP_SIZE) with 42.
  apply wp_bind, wp_on_dev. unfold alloc. change (MBUF_SIZE <? 42) with false. cbn iota.
  eapply wp_bind, (wp_Done _ _ _ _ _ Ea). cbn beta. apply wp_ret.
  destruct (alloc_ok p 42 Hp1 Hp2 ltac:(by change MBUF_SIZE with 2048)) as (Hm & Epk & Eo & Hbl).
  pose proof (length_packet _ Hm) as Elen. rewrite Epk in Elen. cbn [length Z.of_nat] in Elen.
  eapply wp_bind, append_ok; [done|lia|rewrite Eo, <-Elen; change MBUF_SIZE with 2048; lia|].
  intros m1 Hm1 Eo1 Eh1 El1 Eb1 Ep1. cbn beta iota. apply wp_bind, wp_on_user. eapply wp_Done; [exact Hin|]. cbn beta iota.
  eapply wp_bind, store_ok; [done|lia|]. intros m2 Hm2 Eo2 El2 _ Ep2 Epk2 Hbl2.
  assert (Hbl1 : blank m2).
  { apply Hbl2. unfold blank. rewrite Eo1, Eb1. exact Hbl. }
  rewrite drop_ge in Epk2 by (pose proof (length_packet m1 Hm1); lia). rewrite app_nil_r in Epk2.
  unfold udp_send. apply wp_bind, wp_bind, wp_get. eapply wp_bind, wp_get_at; [exact Hcb|]. rewrite Hus. cbn [negb].
  eapply wp_bind, (udp_tx_spec m2 cb mac); cbn [dev arp_table with_dev]; try done; [|by apply Hr1|lia|].
  { rewrite Ebx, Ep2, Ep1. apply own_new. }
  intros p' d Hd' Ebx' Eps'. cbn [dev with_dev] in Ebx', Eps'. cbn beta. do 2 apply wp_ret. cbn iota. apply (HQ p'); [done| |].
  - rewrite Ebx', Ebx, Ep2, Ep1. cbn [m_ptr mbuf_at]. by apply give_back.
  - by rewrite Eps', Eps, Epk2.
Qed.

End send.

Section receive.
Context {D : Type} `{!Nic D} `{!NicLaws D} {U : Type} `{!Pipe.ProcMem U}.
Implicit Types s : net D U.

(** [s] with the buffer [m] on the queue of socket [i], and the socket woken. *)
Definition delivered (i : nat) (cb : ControlBlock) (m : MBuf) s : net D U :=
  mkNet (dev s) (user s) (arp_table s)
    (<[i := mkCb (cb_used cb) (port cb) (peer_addr cb) (peer_port cb) (mbuf_queue cb ++ [m])]> (udp_table s))
    (woken s ++ [i]).

Lemma udp_rx_spec m h bs i cb s (Q : result unit -> net D U -> Prop) :
  mbuf_ok m -> packet m = udp_bytes h ++ bs ->
  is_u16 (src_port h) -> is_u16 (dst_port h) -> is_u16 (udp_len h) -> is_u16 (udp_checksum h) ->
  find (udp_table s) (toggle_endian16 (dst_port h)) = Some i -> udp_table s !! i = Some cb ->
  (forall m', mbuf_ok m' -> m_ptr m' = m_ptr m -> packet m' = bs -> Q (Ok tt) (delivered i cb m' s)) ->
  wp (udp_rx m) s Q.
Proof using Type.
  intros Hm Epk H1 H2 H3 H4 Hf Hcb HQ. pose proof (length_packet m Hm) as El.
  rewrite Epk, length_app, length_udp_bytes in El. unfold udp_rx. change UDP_SIZE with 8.
  apply (pop_load m 8 (fun bs m => _)); [done|lia|]. intros m' Hm' Ep Epk' _. rewrite Epk in Epk' |- *.
  rewrite drop_app_length' in Epk' by (by rewrite length_udp_bytes).
  rewrite take_app_length' by (by rewrite length_udp_bytes).
  rewrite <-(app_nil_r (udp_bytes h)), udp_of_bytes by done. apply wp_bind, wp_get. rewrite Hf.
  eapply wp_bind, wp_get_at; [exact Hcb|]. apply wp_bind, wp_modify, wp_bind, wp_modify, wp_ret. by apply HQ.
Qed.

Lemma ip_rx_spec m h hu bs pad i cb s (Q : unit -> net D U -> Prop) :
  mbuf_ok m -> packet m = ip_bytes h ++ (udp_bytes hu ++ bs) ++ pad -> ip_ok h -> protocol h = UDP_PROTO ->
  toggle_endian16 (ip_len h) = 28 + Z.of_nat (length bs) ->
  is_u16 (src_port hu) -> is_u16 (dst_port hu) -> is_u16 (udp_len hu) -> is_u16 (udp_checksum hu) ->
  find (udp_table s) (toggle_endian16 (dst_port hu)) = Some i -> udp_table s !! i = Some cb ->
  (forall m', mbuf_ok m' -> m_ptr m' = m_ptr m -> packet m' = bs -> Q tt (delivered i cb m' s)) ->
  wp (ip_rx m) s Q.
Proof using Type.
  intros Hm Epk Hh Hp Hl H1 H2 H3 H4 Hf Hcb HQ. pose proof (length_packet m Hm) as El.
  pose proof (mo_fit m Hm) as Hfit. pose proof (mo_off m Hm). change MBUF_SIZE with 2048 in Hfit.
  rewrite Epk, !length_app, length_udp_bytes, length_ip_bytes in El. unfold ip_rx. change IP_SIZE with 20.
  apply (pop_load m 20 (fun bs m => _)); [done|lia|]. intros m1 Hm1 Ep1 Epk1 El1. rewrite Epk in Epk1 |- *.
  rewrite drop_app_length' in Epk1 by (by rewrite length_ip_bytes).
  rewrite take_app_length' by (by rewrite length_ip_bytes). cbv zeta.
  rewrite <-(app_nil_r (ip_bytes h)), ip_of_bytes, Hl by done. rewrite wrap_small by lia.
  rewrite get_len_ok by done. rewrite usize_sub_small by lia.
  eapply wp_bind, trim_ok; [done|lia|]. intros r m2 Hm2 Ep2 Epk2. cbn beta iota. rewrite Hp. cbn.
  rewrite Epk1, take_app_length' in Epk2 by (rewrite length_app, length_udp_bytes; lia).
  eapply wp_bind, udp_rx_spec; [done|done|done|done|done|done|done|done|].
  intros m' Hm' Ep' Epk'. apply wp_ret. apply HQ; [done|congruence|done].
Qed.

Lemma eth_rx_spec m he h hu bs pad i cb s (Q : unit -> net D U -> Prop) :
  mbuf_ok m -> packet m = eth_bytes he ++ ip_bytes h ++ (udp_bytes hu ++ bs) ++ pad ->
  length (eth_dst he) = 6%nat -> length (eth_src he) = 6%nat -> is_u16 (eth_typ he) ->
  toggle_endian16 (eth_typ he) = IPv4 -> ip_ok h -> protocol h = UDP_PROTO ->
  toggle_endian16 (ip_len h) = 28 + Z.of_nat (length bs) ->
  is_u16 (src_port hu) -> is_u16 (dst_port hu) -> is_u16 (udp_len hu) -> is_u16 (udp_checksum hu) ->
  find (udp_table s) (toggle_endian16 (dst_port hu)) = Some i -> udp_table s !! i = Some cb ->
  (forall m', mbuf_ok m' -> m_ptr m' = m_ptr m -> packet m' = bs -> Q tt (delivered i cb m' s)) ->
  wp (eth_rx m) s Q.
Proof using Type.
  intros Hm Epk L1 L2 Ht Hty Hh Hp Hl H1 H2 H3 H4 Hf Hcb HQ. pose proof (length_packet m Hm) as El.
  rewrite Epk, length_app, length_eth_bytes in El by done. unfold eth_rx. change ETH_SIZE with 14.
  apply (pop_load m 14 (fun bs m => _)); [done|lia|]. intros m1 Hm1 Ep1 Epk1 El1. rewrite Epk in Epk1 |- *.
  rewrite drop_app_length' in Epk1 by (by rewrite length_eth_bytes).
  rewrite take_app_length' by (by rewrite length_eth_bytes). cbv zeta.
  rewrite <-(app_nil_r (eth_bytes he)), eth_of_bytes, Hty by done. change (IPv4 =? IPv4) with true. cbn iota.
  eapply ip_rx_spec; [done|exact Epk1|done|done|done|done|done|done|done|done|done|].
  intros m' Hm' Ep' Epk'. apply HQ; [done|congruence|done].
Qed.

(** A frame that carries a UDP datagram with payload [bs] to port [dp], and padding. *)
Definition carries (f : list Z) (dp : Z) (bs : list Z) : Prop :=
  exists he h hu pad, f = eth_bytes he ++ ip_bytes h ++ (udp_bytes hu ++ bs) ++ pad /\
    (length (eth_dst he) = 6%nat /\ length (eth_src he) = 6%nat /\ is_u16 (eth_typ he) /\
     toggle_endian16 (eth_typ he) = IPv4) /\
    (ip_ok h /\ protocol h = UDP_PROTO /\ toggle_endian16 (ip_len h) = 28 + Z.of_nat (length bs)) /\
    (is_u16 (src_port hu) /\ is_u16 (dst_port hu) /\ is_u16 (udp_len hu) /\ is_u16 (udp_checksum hu)) /\
    toggle_endian16 (dst_port hu) = dp.

Lemma eth_rx_carries m dp bs i cb s (Q : unit -> net D U -> Prop) :
  mbuf_ok m -> carries (packet m) dp bs -> find (udp_table s) dp = Some i -> udp_table s !! i = Some cb ->
  (forall m', mbuf_ok m' -> m_ptr m' = m_ptr m -> packet m' = bs -> Q tt (delivered i cb m' s)) ->
  wp (eth_rx m) s Q.
Proof using Type.
  intros Hm (he & h & hu & pad & Epk & (L1 & L2 & L3 & L4) & (H1 & H2 & H3) & (U1 & U2 & U3 & U4) & <-) Hf Hcb HQ.
  by eapply (eth_rx_spec m he h hu bs pad i cb).
Qed.

(** The table with [m] at the end of the queue of socket [i]. *)
Definition queue_on (t : list ControlBlock) (im : nat * MBuf) : list ControlBlock :=
  alter (fun cb => mkCb (cb_used cb) (port cb) (peer_addr cb) (peer_port cb) (mbuf_queue cb ++ [im.2])) im.1 t.

Lemma delivered_queue_on i cb m s : udp_table s !! i = Some cb -> udp_table (delivered i cb m s) = queue_on (udp_table s) (i, m).
Proof using Type.
  intros Hi. cbn [udp_table delivered]. unfold queue_on. cbn [fst snd]. apply list_eq. intros j. destruct (decide (j = i)) as [->|Hne].
  - rewrite list_lookup_insert_eq by (by eapply lookup_lt_Some). by rewrite list_lookup_alter_eq, Hi.
  - by rewrite list_lookup_insert_ne, list_lookup_alter_ne.
Qed.

Lemma find_lookup t p i : find t p = Some i -> exists cb, t !! i = Some cb.
Proof using Type.
  unfold find. destruct (list_find _ t) as [[k cb]|] eqn:E; [|done]. cbn. intros [= <-]. apply list_find_Some in E as [E _]. by exists cb.
Qed.

Lemma find_queue_on t im p : find (queue_on t im) p = find t p.
Proof using Type.
  unfold find. set (g := fun cb => (cb_used cb, port cb)).
  assert (Hf : forall t, fst <$> list_find (fun cb => cb_used cb = true /\ port cb = p) t =
    fst <$> list_find (fun x : bool * Z => x.1 = true /\ x.2 = p) (g <$> t)).
  { intros t'. rewrite list_find_fmap. cbn. by destruct (list_find _ t') as [[k x]|]. }
  rewrite !Hf. do 2 f_equal. apply list_eq. intros j. unfold queue_on. rewrite !list_lookup_fmap.
  destruct (decide (j = im.1)) as [->|Hne]; [rewrite list_lookup_alter_eq|by rewrite list_lookup_alter_ne].
  by destruct (t !! im.1).
Qed.

(** Reading the oldest packet of a socket. *)
Lemma udp_read_spec idx cb m q addr n u' s (Q : result Z -> net D U -> Prop) :
  nok (dev s) -> udp_table s !! idx = Some cb -> mbuf_queue cb = m :: q -> mbuf_ok m -> m_ptr m ∈ boxes (dev s) ->
  0 <= n -> let k := Z.min n (Z.of_nat (length (packet m))) in
  Pipe.copy_out addr (take (Z.to_nat k) (packet m)) k (user s) = Done (Ok tt, u') ->
  (forall d, nok d -> boxes d = boxes (dev s) ∖ {[m_ptr m]} -> posted d = posted (dev s) ->
     Q (Ok k) (mkNet d u' (arp_table s)
       (<[idx := mkCb (cb_used cb) (port cb) (peer_addr cb) (peer_port cb) q]> (udp_table s)) (woken s))) ->
  wp (udp_read idx addr n) s Q.
Proof using Type*.
  intros Hd Hcb Hq Hm Hb Hn k Hout HQ. unfold udp_read. apply wp_bind, wp_get. eapply wp_bind, wp_get_at; [done|].
  rewrite Hq. apply wp_bind, wp_modify. rewrite get_len_ok by done. pose proof (length_packet m Hm) as El.
  assert (Ek : (if len m <? n then len m else n) = k) by (unfold k; rewrite El; case_match; lia).
  cbv zeta. rewrite Ek. pose proof (mo_len m Hm). eapply wp_bind, load_head; [done|unfold k; lia|].
  apply wp_bind, wp_on_user. eapply wp_Done; [exact Hout|]. cbn beta iota. apply wp_bind, wp_on_dev.
  destruct (box_drop_law (dev s) (m_ptr m) Hd Hb) as (d & Edr & Hd' & Ebx & Eps).
  eapply wp_Done; [exact Edr|]. cbn beta. apply wp_ret. by apply HQ.
Qed.

End receive.

Lemma is_u16_toggle_len k : 0 <= k < 2 ^ 16 -> is_u16 (toggle_endian16 k) /\ toggle_endian16 (toggle_endian16 k) = k.
Proof. intros Hk. split; [by apply toggle16_range|by apply toggle16_twice]. Qed.

Section end_to_end.
Context {D : Type} `{!Nic D} `{!NicLaws D} {U : Type} `{!Pipe.ProcMem U}.
Context {D' : Type} `{!Nic D'} `{!NicLaws D'} {U' : Type} `{!Pipe.ProcMem U'}.

(** A frame that [socket_write] posts carries the datagram. *)
Lemma frame_carries p mac dst sp dp bs pad :
  length mac = 6%nat -> is_u16 sp -> is_u16 dp -> is_u32 dst -> 28 + Z.of_nat (length bs) <= MBUF_SIZE ->
  carries (frame mac IPv4 (ip_packet p dst UDP_PROTO (datagram sp dp bs)) ++ pad) dp bs.
Proof using Type.
  intros Hmac Hsp Hdp Hdst Hn. change MBUF_SIZE with 2048 in Hn. unfold carries, frame, ip_packet, datagram.
  rewrite length_app, length_udp_bytes.
  destruct (is_u16_toggle_len (8 + Z.of_nat (length bs)) ltac:(lia)) as [Hu8 _].
  destruct (is_u16_toggle_len (20 + Z.of_nat (8 + length bs)%nat) ltac:(lia)) as [Hu28 Eu28].
  eexists _, _, _, pad. split; [by rewrite <-!app_assoc|].
  cbn [eth_dst eth_src eth_typ ip_len protocol src_port dst_port udp_len udp_checksum]. split_and!; try done; try by apply toggle16_range.
  - split; cbn [ip_len id fragment checksum src_ip_addr dst_ip_addr];
      [done|done|done|by apply wrap_bound|by vm_compute|by apply toggle32_range].
  - rewrite Eu28. lia.
  - by rewrite toggle16_twice.
Qed.

(** C31: a datagram written to a socket on one machine is the datagram read from
    the peer's socket on another, whatever the two devices and process memories are.  The
    sender has the hardware address of the peer in its ARP table, a buffer and a free place
    on the transmit ring, and its message, at most 2006 bytes long, can be read from its
    memory; the receiver has an open socket, with nothing queued, on the destination port.
    The write returns the number of bytes and hands exactly one frame to the device;
    it leaves the tables as they were and leaks no buffer.  When that frame arrives,
    with whatever padding the link adds, the peer's stack queues the payload on the socket that is
    bound to the destination port and wakes it; the read copies the payload, cut
    to the length asked for, to the reader's memory, returns its length and frees the
    buffer. *)
Theorem datagram_delivered idx cb addr n bs mac p d1 (s : net D U) i cb' (s' : net D' U') :
  nok (dev s) -> tx_ready (dev s) -> box_new (dev s) = Done (p, d1) ->
  udp_table s !! idx = Some cb -> cb_used cb = true -> is_u16 (port cb) -> is_u16 (peer_port cb) -> is_u32 (peer_addr cb) ->
  Pipe.copy_in addr n (user s) = Done ((bs, Ok tt), user s) -> Z.of_nat (length bs) = n -> n <= MBUF_SIZE - 42 ->
  route (arp_table s) (peer_addr cb) = Some mac -> length mac = 6%nat ->
  nok (dev s') -> find (udp_table s') (peer_port cb) = Some i -> udp_table s' !! i = Some cb' -> mbuf_queue cb' = [] ->
  wp (socket_write idx addr n) s (fun r s1 =>
    r = Ok n /\ boxes (dev s1) = boxes (dev s) /\ arp_table s1 = arp_table s /\ udp_table s1 = udp_table s /\
    exists fr, posted (dev s1) = posted (dev s) ++ [fr] /\
    forall m pad, mbuf_ok m -> packet m = fr ++ pad -> m_ptr m ∈ boxes (dev s') ->
    wp (eth_rx m) s' (fun _ s2 => woken s2 = woken s' ++ [i] /\
      forall addr' n' u', 0 <= n' -> let k := Z.min n' n in
      Pipe.copy_out addr' (take (Z.to_nat k) bs) k (user s') = Done (Ok tt, u') ->
      wp (udp_read i addr' n') s2 (fun r s3 =>
        r = Ok k /\ user s3 = u' /\ udp_table s3 = udp_table s' /\ boxes (dev s3) = boxes (dev s') ∖ {[m_ptr m]}))).
Proof using Type*.
  intros Hd Hr Ea Hcb Hus Hp Hpp Hpa Hin Hl Hn Hrt Hmac Hd' Hf Hcb' Hq.
  eapply socket_write_spec; try done. intros q d Hd2 Ebx Eps. split_and!; try done. eexists. split; [exact Eps|].
  intros m pad Hm Epk Hb. eapply (eth_rx_carries m (peer_port cb) bs i cb'); [done| |done|done|].
  { rewrite Epk. apply frame_carries; try done. change MBUF_SIZE with 2048 in *. lia. }
  intros m' Hm' Ep' Epk'. split; [done|].
  intros addr' n' u' Hn' k Hout. eapply (udp_read_spec i _ m' []); cbn [dev delivered udp_table]; try done.
  - apply list_lookup_insert_eq. by eapply lookup_lt_Some.
  - cbn. by rewrite Hq.
  - by rewrite Ep'.
  - rewrite Epk', Hl. exact Hout.
  - intros d3 Hd3 Ebx3 Eps3. rewrite Epk', Hl. split_and!; try done; [|cbn; by rewrite Ebx3, Ep'].
    cbn. rewrite list_insert_insert_eq, list_insert_id; [done|]. rewrite Hcb'. f_equal. destruct cb'; cbn in *. by rewrite Hq.
Qed.
End end_to_end.

(** ** Frames the stack survives *)

Inductive fate := Returns | Panics | Undefined.

(** What a packet does to the stack.  For an ARP packet the table matters, for an IP packet the
    length field comes before the protocol. *)
Definition arp_fate (t : list Entry) (f : list Z) : fate :=
  if Z.of_nat (length f) <? 28 then Panics
  else
    let op := toggle_endian16 (oper (arp_of f)) in
    if (op =? Request) || ((op =? Reply) && bool_decide (is_Some (get_unused t))) then Returns else Panics.
Definition ip_fate (f : list Z) : fate :=
  let n := wrap 16 (toggle_endian16 (ip_len (ip_of f)) - 20) in
  if Z.of_nat (length f) <? 20 then Panics
  else if Z.of_nat (length f) - 20 <? n then Panics
  else if protocol (ip_of f) =? TCP_PROTO then Panics
  else if protocol (ip_of f) =? UDP_PROTO then (if n <? 8 then Panics else Returns)
  else Undefined.
Definition frame_fate (t : list Entry) (f : list Z) : fate :=
  if Z.of_nat (length f) <? 14 then Panics
  else
    let typ := toggle_endian16 (eth_typ (eth_of f)) in
    if typ =? IPv4 then ip_fate (drop 14 f) else if typ =? ARP then arp_fate t (drop 14 f) else Panics.

Lemma take_lookup_total k i (l : list Z) : (i < k)%nat -> take k l !!! i = l !!! i.
Proof. intros H. rewrite !list_lookup_total_alt. by rewrite lookup_take_lt. Qed.

Lemma drop_take k a b (l : list Z) : (a + b <= k)%nat -> take b (drop a (take k l)) = take b (drop a l).
Proof. intros H. rewrite skipn_firstn_comm, take_take. f_equal. lia. Qed.

Lemma eth_of_take f : eth_of (take 14 f) = eth_of f.
Proof. unfold eth_of. rewrite take_take, !drop_take by lia. done. Qed.
Lemma ip_of_take f : ip_of (take 20 f) = ip_of f.
Proof. unfold ip_of. by rewrite !take_lookup_total, !drop_take by lia. Qed.
Lemma arp_of_take f : arp_of (take 28 f) = arp_of f.
Proof. unfold arp_of. by rewrite !take_lookup_total, take_take, !drop_take by lia. Qed.

Definition meets {A} (v : fate) (o : outcome A) : Prop :=
  match v with
  | Returns => exists x, o = Done x
  | Panics => exists msg, o = Panic msg
  | Undefined => o = Undef
  end.

Lemma pop_load_meets {S B} m n (k : list Z -> MBuf -> M S B) s v :
  mbuf_ok m -> 0 <= n <= len m ->
  (forall m', mbuf_ok m' -> m_ptr m' = m_ptr m -> packet m' = drop (Z.to_nat n) (packet m) -> len m' = len m - n ->
     meets v (k (take (Z.to_nat n) (packet m)) m' s)) ->
  meets v (bind (pop m n) (fun '(p, m') => bind (load m' p n) (fun bs => k bs m')) s).
Proof.
  intros Hm Hn HQ. destruct (pop_load_eq m n k s Hm Hn) as (m' & H1 & H2 & H3 & H4 & E). rewrite E. by apply HQ.
Qed.

Lemma pop_short_meets {S B} m n (k : Z * MBuf -> M S B) s : mbuf_ok m -> len m < n < 2 ^ 63 -> meets Panics (bind (pop m n) k s).
Proof. intros Hm Hn. eexists. unfold bind. by rewrite pop_short. Qed.

Section robust.
Context {D : Type} `{!Nic D} `{!NicLaws D} {U : Type} `{!Pipe.ProcMem U}.
Implicit Types s : net D U.

Lemma wp_returns {S A} (m : M S A) (s : S) Q : wp m s Q -> meets Returns (m s).
Proof using Type. intros Hw. destruct (wp_elim _ _ _ Hw) as (x & s' & E & _). by exists (x, s'). Qed.

Lemma arp_tx_ok op hw mac ip p d1 s (Q : unit -> net D U -> Prop) :
  nok (dev s) -> box_new (dev s) = Done (p, d1) -> length hw = 6%nat -> length mac = 6%nat ->
  (forall d, nok d -> boxes d = boxes (dev s) -> Q tt (with_dev d s)) -> wp (arp_tx op hw mac ip) s Q.
Proof using Type*.
  intros Hd Ea Hhw Hmac HQ. destruct (box_new_law _ _ _ Hd Ea) as (Hd1 & Hp1 & Hp2 & Hni & Ebx & _).
  unfold arp_tx. apply wp_bind, wp_on_dev. unfold alloc. change (MBUF_SIZE <? 128) with false. cbn iota.
  eapply wp_bind, (wp_Done _ _ _ _ _ Ea). cbn beta. apply wp_ret.
  destruct (alloc_ok p 128 Hp1 Hp2 ltac:(by change MBUF_SIZE with 2048)) as (Hm & Epk & Eo & _).
  pose proof (length_packet _ Hm) as Elen. rewrite Epk in Elen. cbn [length Z.of_nat] in Elen.
  eapply wp_bind, append_ok; [done|by change ARP_SIZE with 28; lia|by rewrite Eo, <-Elen|].
  intros m1 Hm1 Eo1 Eh1 El1 Eb1 Ep1. cbn beta iota. rewrite <-Elen, Z.add_0_r, <-Eh1.
  set (h := arp_bytes _). assert (Hh : length h = 28%nat).
  { unfold h, arp_bytes. cbn [sha tha hlen plen]. rewrite !length_app, !length_u16_bytes, !length_u32_bytes, Hhw. done. }
  eapply wp_bind, store_ok; [done|rewrite Hh, El1, <-Elen; by change ARP_SIZE with 28|].
  intros m2 Hm2 Eo2 El2 _ Ep2 _ _. eapply eth_tx_spec; cbn [dev with_dev]; [done|done| |done|lia|].
  { rewrite Ebx, Ep2, Ep1. apply own_new. }
  intros d Hd' Eb' _. apply HQ; [done|]. rewrite Eb', Ebx, Ep2, Ep1. cbn [m_ptr mbuf_at]. by apply give_back.
Qed.

Lemma drop_mbuf_ok m x d s :
  nok d -> boxes d = boxes (dev s) -> m_ptr m ∈ boxes (dev s) -> m_ptr x = m_ptr m ->
  forall s', dev s' = d -> wp (drop_mbuf x) s' (fun _ _ => True).
Proof using Type*.
  intros Hd Eb Hb Ex s' Es'. apply wp_on_dev. rewrite Es', Ex.
  destruct (box_drop_law d (m_ptr m) Hd ltac:(by rewrite Eb)) as (d' & E & _). by apply (wp_Done _ _ _ _ _ E).
Qed.

Lemma arp_rx_returns m p d1 s :
  nok (dev s) -> mbuf_ok m -> m_ptr m ∈ boxes (dev s) -> box_new (dev s) = Done (p, d1) ->
  meets (arp_fate (arp_table s) (packet m)) (arp_rx m s).
Proof using Type*.
  intros Hd Hm Hb Ea. pose proof (length_packet m Hm) as El. unfold arp_fate, arp_rx. change ARP_SIZE with 28.
  rewrite El. destruct (Z.ltb_spec (len m) 28) as [Hl|Hl]; [apply pop_short_meets; [done|lia]|].
  apply (pop_load_meets m 28 (fun bs m => _)); [done|lia|]. intros m' Hm' Ep _ _. change (Z.to_nat 28) with 28%nat.
  rewrite arp_of_take. cbv zeta.
  set (op := toggle_endian16 _). destruct (op =? Request) eqn:Eq; cbn [orb].
  { eapply wp_returns, wp_bind, arp_tx_ok; [done|done| | |].
    1-2: cbn [sha arp_of]; rewrite length_take, length_drop; lia.
    intros d Hd' Ebx. by apply (drop_mbuf_ok m m' d s). }
  destruct (op =? Reply) eqn:Eq2; cbn [andb]; [|by eexists].
  unfold bind, get, unwrap. destruct (get_unused (arp_table s)) as [i|]; [|rewrite bool_decide_false by (by intros [? ?]); by eexists].
  rewrite bool_decide_true by done. cbn. eapply wp_returns. by apply (drop_mbuf_ok m m' (dev s) s).
Qed.

Lemma udp_rx_returns m s :
  nok (dev s) -> mbuf_ok m -> m_ptr m ∈ boxes (dev s) -> 8 <= len m -> wp (udp_rx m) s (fun _ _ => True).
Proof using Type*.
  intros Hd Hm Hb Hl. unfold udp_rx. change UDP_SIZE with 8. apply (pop_load m 8 (fun bs m => _)); [done|lia|].
  intros m' Hm' Ep _ _. apply wp_bind, wp_get. unfold find. destruct (list_find _ (udp_table s)) as [[i cb]|] eqn:E; cbn [fmap option_fmap option_map fst].
  - apply list_find_Some in E as (E & _). eapply wp_bind, wp_get_at; [exact E|].
    by apply wp_bind, wp_modify, wp_bind, wp_modify, wp_ret.
  - eapply wp_bind, wp_mono; [by apply (drop_mbuf_ok m m' (dev s) s)|]. intros. by apply wp_ret.
Qed.

Lemma ip_rx_returns m s :
  nok (dev s) -> mbuf_ok m -> m_ptr m ∈ boxes (dev s) -> meets (ip_fate (packet m)) (ip_rx m s).
Proof using Type*.
  intros Hd Hm Hb. pose proof (length_packet m Hm) as El. unfold ip_fate, ip_rx. change IP_SIZE with 20. cbv zeta.
  rewrite El. destruct (Z.ltb_spec (len m) 20) as [Hl|Hl]; [apply pop_short_meets; [done|lia]|].
  apply (pop_load_meets m 20 (fun bs m => _)); [done|lia|]. intros m1 Hm1 Ep1 Epk1 El1. change (Z.to_nat 20) with 20%nat.
  rewrite ip_of_take. cbv zeta. set (n := wrap 16 _). pose proof (wrap_bound 16 (toggle_endian16 (ip_len (ip_of (packet m))) - 20) ltac:(lia)) as Hn.
  fold n in Hn. pose proof (mo_fit m1 Hm1) as Hfit. pose proof (mo_off m1 Hm1). change MBUF_SIZE with 2048 in Hfit.
  rewrite get_len_ok by done. rewrite <-El1. destruct (Z.ltb_spec (len m1) n) as [Hgt|Hle].
  { eexists. unfold bind at 1, trim.
       assert (Es : len m1 ⊟ n = len m1 - n + 2 ^ 64).
       { unfold usize_sub, wrap. symmetry. apply (Z.mod_unique _ _ (-1)); lia. }
       rewrite Es, (wrap_small 64 (len m1)), (proj2 (Z.ltb_lt _ _)) by lia. done. }
  rewrite usize_sub_small by lia.
  assert (Ht : wp (trim m1 (len m1 - n)) s (fun x s' => s' = s /\ mbuf_ok x.2 /\ m_ptr x.2 = m_ptr m1 /\ len x.2 = n)).
  { apply trim_ok; [done|lia|]. intros r m' Hm' Ep' Epk'. split_and!; [done|done|done|]. cbn [snd].
    pose proof (length_packet m1 Hm1). rewrite <-(length_packet m' Hm'), Epk', length_take. lia. }
  destruct (wp_elim _ _ _ Ht) as ([r m2] & s' & E & -> & Hm2 & Ep2 & El2). cbn [snd] in *.
  unfold bind at 1. rewrite E. cbn iota. destruct (protocol _ =? TCP_PROTO); [by eexists|].
  destruct (protocol _ =? UDP_PROTO); [|done]. destruct (Z.ltb_spec n 8) as [Hn8|Hn8].
  - unfold bind at 1, udp_rx. eexists. change UDP_SIZE with 8. unfold bind at 1. by rewrite pop_short by (done || lia).
  - eapply (wp_returns _ _ (fun _ _ => True)), wp_bind, wp_mono; [apply udp_rx_returns; [done|done|congruence|lia]|]. intros. by apply wp_ret.
Qed.

(** C34: what a frame from the network does to the kernel.  [frame_fate] decides it for
    every frame, given that a buffer can be allocated: [eth_rx] returns,
    panics, or matches on an enum that holds none of its values, which is undefined behaviour, and
    nothing else happens.  So any host on the link can panic the kernel, with a
    frame of an unknown type (IPv6 among them), a TCP packet, a packet whose length field does not
    fit, or an ARP reply when the table is full; and any IP packet of another protocol than TCP and UDP, ICMP
    among them, whose length fits has undefined behaviour. *)
Theorem eth_rx_fate m p d1 s :
  nok (dev s) -> mbuf_ok m -> m_ptr m ∈ boxes (dev s) -> box_new (dev s) = Done (p, d1) ->
  meets (frame_fate (arp_table s) (packet m)) (eth_rx m s).
Proof using Type*.
  intros Hd Hm Hb Ea. pose proof (length_packet m Hm) as El. unfold frame_fate, eth_rx. change ETH_SIZE with 14. cbv zeta.
  rewrite El. destruct (Z.ltb_spec (len m) 14) as [Hl|Hl]; [apply pop_short_meets; [done|lia]|].
  apply (pop_load_meets m 14 (fun bs m => _)); [done|lia|]. intros m1 Hm1 Ep1 Epk1 El1.
  change (Z.to_nat 14) with 14%nat in *. rewrite eth_of_take, <-Epk1. cbv zeta. set (typ := toggle_endian16 _).
  destruct (typ =? IPv4); [apply ip_rx_returns; [done|done|congruence]|].
  destruct (typ =? ARP); [|by eexists]. eapply arp_rx_returns; [done|done|congruence|done].
Qed.

(** A write of 2007 to 2048 bytes overruns the buffer.  [append] compares the
    length with the size of the whole buffer and forgets the headroom for the headers, so
    the check passes and the user's bytes are copied past the end of the
    buffer, into whatever the heap holds there. *)
Theorem socket_write_overruns idx addr n bs p d1 s :
  nok (dev s) -> box_new (dev s) = Done (p, d1) -> MBUF_SIZE - 42 < n <= MBUF_SIZE ->
  Pipe.copy_in addr n (user s) = Done ((bs, Ok tt), user s) -> Z.of_nat (length bs) = n ->
  socket_write idx addr n s = Undef.
Proof using Type*.
  intros Hd Ea Hn Hin Hl. change MBUF_SIZE with 2048 in Hn.
  destruct (box_new_law _ _ _ Hd Ea) as (_ & Hp1 & Hp2 & _).
  destruct (alloc_ok p 42 Hp1 Hp2 ltac:(by change MBUF_SIZE with 2048)) as (Hm & Epk & Eo & _).
  unfold socket_write. change (ETH_SIZE + IP_SIZE + UDP_SIZE) with 42. unfold bind at 1, on_dev, alloc.
  change (MBUF_SIZE <? 42) with false. cbn iota. unfold bind at 1. rewrite Ea. cbn [ret].
  unfold bind at 1, append. change (len (mbuf_at p 42)) with 0. change MBUF_SIZE with 2048. rewrite Z.add_0_l.
  rewrite !(as_isize_small n), (proj2 (Z.ltb_ge _ _)) by lia. cbn [ret].
  unfold bind at 1, on_user. cbn [user]. rewrite Hin. unfold bind at 1, store, get_buf_head. cbn [Mbuf.head].
  change (Mbuf.head (mbuf_at p 42) - buf_ptr _) with (off (mbuf_at p 42)). rewrite Eo, Hl.
  change MBUF_SIZE with 2048. by rewrite (proj2 (Z.leb_gt (42 + n) 2048)), andb_false_r by lia.
Qed.

(** ** Ports *)

Lemma port_free_iff t p : port_free t p = true <-> forall j cb, t !! j = Some cb -> cb_used cb = true -> port cb <> p.
Proof using Type.
  unfold port_free. rewrite forallb_forall. split.
  - intros Hf j cb Hj Hu Hp. specialize (Hf cb). rewrite Hu, Hp, Z.eqb_refl in Hf. cbn in Hf.
    assert (false = true); [|done]. apply Hf. by eapply list_elem_of_In, list_elem_of_lookup_2.
  - intros Hf cb Hin. apply list_elem_of_In, list_elem_of_lookup_1 in Hin as [j Hj]. specialize (Hf j cb Hj).
    destruct (cb_used cb); [|done]. cbn. rewrite negb_true_iff. apply Z.eqb_neq. by apply Hf.
Qed.

(** Sixteen sockets cannot hold all of the first sixteen candidates, since one of them has no port. *)
Lemma port_free_exists t idx cb :
  length t = CB_TABLE_SIZE -> t !! idx = Some cb -> port cb = 0 ->
  exists p, USABLE_PORT_MIN <= p < USABLE_PORT_MIN + 16 /\ port_free t p = true.
Proof using Type.
  intros Hlen Hidx H0. destruct (decide (Exists (fun p => port_free t p = true) (seqZ USABLE_PORT_MIN 16))) as [He|He].
  { apply Exists_exists in He as (p & Hp & Hf). exists p. split; [|done]. by apply elem_of_seqZ in Hp. }
  exfalso. assert (Hsub : (0 :: seqZ USABLE_PORT_MIN 16) ⊆ (port <$> t)).
  { intros p Hp. apply list_elem_of_fmap. apply elem_of_cons in Hp as [->|Hp].
    - exists cb. split; [done|]. by eapply list_elem_of_lookup_2.
    - destruct (decide (Exists (fun cb => cb_used cb = true /\ port cb = p) t)) as [Ht|Ht].
      + apply Exists_exists in Ht as (cb' & Hin & _ & Ep). by exists cb'.
      + destruct He. apply Exists_exists. exists p. split; [done|]. apply port_free_iff. intros j cb' Hj Hu Ep.
        apply Ht, Exists_exists. exists cb'. split; [by eapply list_elem_of_lookup_2|done]. }
  assert (Hle : (length (0%Z :: seqZ USABLE_PORT_MIN 16) <= length (port <$> t))%nat).
  { apply submseteq_length, NoDup_submseteq; [|exact Hsub]. constructor; [|apply NoDup_seqZ].
    rewrite elem_of_seqZ. unfold USABLE_PORT_MIN. lia. }
  rewrite length_fmap, Hlen, length_cons, length_seqZ in Hle. unfold CB_TABLE_SIZE in Hle. lia.
Qed.

(** The search of [udp_connect] finds the lowest free port. *)
Lemma lowest_free_port t p0 :
  USABLE_PORT_MIN <= p0 < USABLE_PORT_MIN + 16 -> port_free t p0 = true ->
  exists k p, list_find (fun p => port_free t p = true) (seqZ USABLE_PORT_MIN (USABLE_PORT_MAX - USABLE_PORT_MIN + 1)) = Some (k, p) /\
    USABLE_PORT_MIN <= p <= p0 /\ port_free t p = true /\ forall q, USABLE_PORT_MIN <= q < p -> port_free t q = false.
Proof using Type.
  intros Hp0 Hf. unfold USABLE_PORT_MIN in *. set (l := seqZ _ _).
  assert (Hin : p0 ∈ l) by (apply elem_of_seqZ; unfold USABLE_PORT_MAX; lia).
  destruct (list_find_elem_of (fun p => port_free t p = true) l p0 Hin Hf) as [[k p] E]. exists k, p.
  pose proof E as E'. apply list_find_Some in E' as (Hk & Hfp & Hmin). apply lookup_seqZ in Hk as [-> Hk].
  assert (Hall : forall q, 49152 <= q < 49152 + Z.of_nat k -> port_free t q = false).
  { intros q Hq. apply not_true_is_false. apply (Hmin (Z.to_nat (q - 49152))); [|lia]. apply lookup_seqZ. lia. }
  split_and!; [done|lia| |done|done]. destruct (decide (49152 + Z.of_nat k <= p0)); [done|].
  rewrite Hall in Hf by lia. done.
Qed.

(** [connect] on every branch.  On an open socket without a port it always
    succeeds: the error for a lack of ports cannot occur, since sixteen sockets cannot
    use up the first sixteen of the ephemeral ports; the port it takes is the lowest that no open
    socket has.  A socket that has a port keeps it. *)
Theorem udp_connect_spec idx addr s :
  length (udp_table s) = CB_TABLE_SIZE ->
  match udp_table s !! idx with
  | None => exists msg, udp_connect idx addr s = Panic msg
  | Some cb =>
      if cb_used cb then exists p,
        udp_connect idx addr s = Done (Ok tt, mkNet (dev s) (user s) (arp_table s)
          (<[idx := mkCb true p (sa_addr addr) (sa_port addr) (mbuf_queue cb)]> (udp_table s)) (woken s)) /\
        if port cb =? 0 then
          USABLE_PORT_MIN <= p < USABLE_PORT_MIN + 16 /\
          (forall j cb', udp_table s !! j = Some cb' -> cb_used cb' = true -> port cb' <> p) /\
          (forall q, USABLE_PORT_MIN <= q < p -> exists j cb', udp_table s !! j = Some cb' /\ cb_used cb' = true /\ port cb' = q)
        else p = port cb
      else exists msg, udp_connect idx addr s = Done (Err msg, s)
  end.
Proof using Type.
  intros Hlen. unfold udp_connect, bind, get, get_at, unwrap. destruct (udp_table s !! idx) as [cb|] eqn:Hcb; [|by eexists].
  cbn. destruct (cb_used cb) eqn:Hu; cbn; [|by eexists]. destruct (Z.eqb_spec (port cb) 0) as [H0|H0]; cbn; [|by eexists].
  set (t := <[idx := _]> (udp_table s)). pose proof (lookup_lt_Some _ _ _ Hcb) as Hlt.
  assert (Hsame : forall p, p <> 0 -> port_free t p = true <-> port_free (udp_table s) p = true).
  { intros p Hp. rewrite !port_free_iff. unfold t. rewrite H0. split; intros Hf j cb' Hj Hu'.
    - destruct (decide (j = idx)) as [->|Hne]; [congruence|]. apply (Hf j); [|done]. by rewrite list_lookup_insert_ne.
    - destruct (decide (j = idx)) as [->|Hne]; [|rewrite list_lookup_insert_ne in Hj by done; by apply (Hf j)].
      rewrite list_lookup_insert_eq in Hj by done. injection Hj as <-. cbn. congruence. }
  destruct (port_free_exists (udp_table s) idx cb Hlen Hcb H0) as (p0 & Hp0 & Hf0).
  destruct (lowest_free_port t p0 Hp0) as (k & p & E & Hp & Hfp & Hmin); [apply Hsame; [unfold USABLE_PORT_MIN in *; lia|done]|].
  assert (Hp1 : p <> 0) by (unfold USABLE_PORT_MIN in *; lia).
  rewrite E. cbn. exists p. unfold t. rewrite list_insert_insert_eq. split; [done|]. split_and!; [lia|lia| |].
  - by apply port_free_iff, Hsame.
  - intros q Hq. assert (Hq1 : q <> 0) by (unfold USABLE_PORT_MIN in *; lia).
    destruct (decide (Exists (fun cb' => cb_used cb' = true /\ port cb' = q) (udp_table s))) as [He|He].
    + apply Exists_exists in He as (cb' & Hin & Hc). apply list_elem_of_lookup_1 in Hin as [j Hj]. by exists j, cb'.
    + exfalso. assert (Hfq : port_free t q = true); [|by rewrite Hmin in Hfq]. apply Hsame, port_free_iff; [done|].
      intros j cb' Hj Hu' Ep. apply He, Exists_exists. exists cb'. split; [by eapply list_elem_of_lookup_2|done].
Qed.

End robust.

End Net.
