(* ===== verification/E1000.v ===== *)
(** * The network card driver

    Models [kernel/src/e1000.rs]: the transmit and receive rings of the 82540EM,
    [init], [send] and [recv].  The card is not part of the code: its registers are
    the interface [Regs], with the documented behaviour of the four ring
    pointers as its laws.  The tails are written by the driver alone; the card
    advances the heads, and a ring is empty for it when head and tail are equal.
    Buffers live on the heap of [Kalloc.v].  The card takes no step while the driver
    runs; [tx_step] interleaves whole calls of the driver with steps of the card. *)

From S2P Require Import Prelude Param Bytes Kalloc Mbuf Pages PageTable UserMem Pipe Net.

Module E1000.
Import Mbuf Net.

(** ** Descriptors and registers *)

Record TxDesc := mkTx {
  t_addr : Z; t_length : Z; t_cso : Z; t_cmd : Z; t_status : Z; t_css : Z; t_special : Z
}.
Definition tx_new : TxDesc := mkTx 0 0 0 0 0 0 0.

Record RxDesc := mkRx { r_addr : Z; r_length : Z; r_csum : Z; r_status : Z; r_errors : Z; r_special : Z }.
Definition rx_new : RxDesc := mkRx 0 0 0 0 0 0.

Definition TX_RING_SIZE : Z := 16.
Definition RX_RING_SIZE : Z := 16.

Definition E1000_ICR : Z := 0x000C0.
Definition E1000_IMS : Z := 0x000d0.
Definition E1000_TCTL : Z := 0x0400.
Definition E1000_RCTL : Z := 0x0100.
Definition E1000_TIPG : Z := 0x0410.
Definition E1000_RDBAL : Z := 0x02800.
Definition E1000_RDTR : Z := 0x02820.
Definition E1000_RADV : Z := 0x0282C.
Definition E1000_RDH : Z := 0x02810.
Definition E1000_RDT : Z := 0x02818.
Definition E1000_RDLEN : Z := 0x02808.
Definition E1000_TDBAL : Z := 0x03800.
Definition E1000_TDLEN : Z := 0x03808.
Definition E1000_TDH : Z := 0x03810.
Definition E1000_TDT : Z := 0x03818.
Definition E1000_RA : Z := 0x05400.

Definition E1000_TXD_STAT_DD : Z := 0x01.
Definition E1000_TXD_CMD_EOP : Z := 0x01.
Definition E1000_TXD_CMD_RS : Z := 0x08.
Definition E1000_RXD_STAT_DD : Z := 0x01.

(** The registers of the card, at [E1000_REGS_ADDR]. *)
Class Regs (R : Type) := {
  write_e1000_regs : Z -> Z -> M R unit;
  read_e1000_regs : Z -> M R Z
}.

Record E1000 := mkE1000 {
  tx_ring : list TxDesc; tx_mbufs : list (option MBuf); rx_ring : list RxDesc; rx_mbufs : list (option MBuf)
}.
Definition new : E1000 := mkE1000 (replicate 16 tx_new) (replicate 16 None) (replicate 16 rx_new) (replicate 16 None).

(** The driver with what it works on.  [self] is the address of the structure and
    [frames] records the packets that were put on the transmit ring, oldest first. *)
Record nic (R : Type) := mkNic {
  regs : R; heap : Kalloc.heap; self : Z; drv : E1000; frames : list (list Z)
}.
Arguments mkNic {R}.
Arguments regs {R}.
Arguments heap {R}.
Arguments self {R}.
Arguments drv {R}.
Arguments frames {R}.

Section ops.
Context {R : Type} `{!Regs R}.

Definition on_regs {A} (m : M R A) : M (nic R) A := fun s =>
  match m (regs s) with
  | Done (x, r) => Done (x, mkNic r (heap s) (self s) (drv s) (frames s))
  | Panic msg => Panic msg
  | Sleep => Sleep
  | OutOfFuel => OutOfFuel
  | Undef => Undef
  end.
Definition on_heap {A} (m : M Kalloc.heap A) : M (nic R) A := fun s =>
  match m (heap s) with
  | Done (x, h) => Done (x, mkNic (regs s) h (self s) (drv s) (frames s))
  | Panic msg => Panic msg
  | Sleep => Sleep
  | OutOfFuel => OutOfFuel
  | Undef => Undef
  end.
Definition set_drv (d : E1000) : M (nic R) unit := modify (fun s => mkNic (regs s) (heap s) (self s) d (frames s)).
Definition post (f : list Z) : M (nic R) unit :=
  modify (fun s => mkNic (regs s) (heap s) (self s) (drv s) (frames s ++ [f])).
Definition write_reg (i v : Z) : M (nic R) unit := on_regs (write_e1000_regs i v).
Definition read_reg (i : Z) : M (nic R) Z := on_regs (read_e1000_regs i).

#[export] Instance nic_box : BoxHeap (nic R) := {|
  box_new := on_heap box_new;
  box_drop p := on_heap (box_drop p)
|}.

(** ** Initialisation *)

Definition set_tx_status (t : TxDesc) (v : Z) : TxDesc :=
  mkTx (t_addr t) (t_length t) (t_cso t) (t_cmd t) v (t_css t) (t_special t).
Definition set_tx_cmd (t : TxDesc) (v : Z) : TxDesc :=
  mkTx (t_addr t) (t_length t) (t_cso t) v (t_status t) (t_css t) (t_special t).
Definition set_rx_addr (t : RxDesc) (v : Z) : RxDesc :=
  mkRx v (r_length t) (r_csum t) (r_status t) (r_errors t) (r_special t).

(** [tx_ring] is the first field; [rx_ring] follows 256 bytes of descriptors and
    sixteen pointers. *)
Definition tx_init : M (nic R) unit :=
  let! s := get in
  let d := drv s in
  set_drv (mkE1000 ((fun t => set_tx_status t E1000_TXD_STAT_DD) <$> tx_ring d) (tx_mbufs d) (rx_ring d) (rx_mbufs d)) ;;
  write_reg E1000_TDBAL (wrap 32 (self s)) ;;
  write_reg E1000_TDLEN 256 ;;
  write_reg E1000_TDT 0 ;;
  write_reg E1000_TDH 0 ;;
  write_reg E1000_TCTL (Z.lor (Z.lor (Z.lor (Z.shiftl 0x40 12) (Z.shiftl 0xf 4)) (Z.shiftl 1 3)) (Z.shiftl 1 1)) ;;
  let! s := get in
  let d := drv s in
  set_drv (mkE1000 ((fun t => set_tx_cmd t 9) <$> tx_ring d) (tx_mbufs d) (rx_ring d) (rx_mbufs d)).

Definition arm (i : nat) : M (nic R) unit :=
  let! m := alloc 0 in
  let! s := get in
  let d := drv s in
  let! t := get_at (rx_ring d) i in
  let! old := get_at (rx_mbufs d) i in
  set_drv (mkE1000 (tx_ring d) (tx_mbufs d) (<[i := set_rx_addr t (get_buf_head m)]> (rx_ring d))
    (<[i := Some m]> (rx_mbufs d))) ;;
  match old with Some o => box_drop (m_ptr o) | None => ret tt end.

Definition rx_init : M (nic R) unit :=
  write_reg E1000_RDT RX_RING_SIZE ;;
  mfor (seq 0 16) arm ;;
  let! s := get in
  write_reg E1000_RDBAL (wrap 32 (self s + 384)) ;;
  write_reg E1000_RDLEN 256 ;;
  write_reg E1000_RDT (RX_RING_SIZE - 1) ;;
  write_reg E1000_RDH 0.

Definition init : M (nic R) unit :=
  write_reg E1000_IMS 0 ;;
  tx_init ;;
  rx_init ;;
  write_reg E1000_RA 0x12005452 ;;
  write_reg (E1000_RA + 8) 0x10005634 ;;
  write_reg E1000_TCTL (Z.lor (Z.lor (Z.lor (Z.shiftl 0x40 12) (Z.shiftl 0x10 4)) (Z.shiftl 1 3)) (Z.shiftl 1 1)) ;;
  write_reg E1000_TIPG (Z.lor (Z.lor 10 (Z.shiftl 8 10)) (Z.shiftl 6 20)) ;;
  write_reg E1000_RCTL (Z.lor (Z.lor (Z.shiftl 0x4 24) (Z.shiftl 0x8 12)) (Z.shiftl 1 1)) ;;
  write_reg E1000_RDTR 0 ;;
  write_reg E1000_RADV 0 ;;
  write_reg E1000_IMS (Z.shiftl 1 7).

(** ** Sending *)

Definition drop_old (old : option MBuf) : M (nic R) unit :=
  match old with Some o => box_drop (m_ptr o) | None => ret tt end.

Definition send (m : MBuf) : M (nic R) (result unit) :=
  let! pos := read_reg E1000_TDT in
  let! s := get in
  let d := drv s in
  let! tail := get_at (tx_ring d) (Z.to_nat pos) in
  if Z.land (t_status tail) E1000_TXD_STAT_DD =? 0 then
    box_drop (m_ptr m) ;; ret (Err "a previous transmittion is still in flight")
  else
    let tail := mkTx (get_buf_head m) (wrap 16 (get_len m)) (t_cso tail) (Z.lor E1000_TXD_CMD_EOP E1000_TXD_CMD_RS) 0
      (t_css tail) (t_special tail) in
    let! old := get_at (tx_mbufs d) (Z.to_nat pos) in
    set_drv (mkE1000 (<[Z.to_nat pos := tail]> (tx_ring d)) (<[Z.to_nat pos := Some m]> (tx_mbufs d)) (rx_ring d) (rx_mbufs d)) ;;
    drop_old old ;;
    write_reg E1000_TDT ((pos + 1) `mod` TX_RING_SIZE) ;;
    post (packet m) ;;
    ret (Ok tt).

#[export] Instance e1000_nic : Nic (nic R) := {| nic_heap := nic_box; nic_send := send |}.

(** ** Receiving *)

Section recv.
Context {U : Type} `{!Pipe.ProcMem U}.

Definition next_rx : M (net (nic R) U) nat :=
  let! rdt := on_dev (read_reg E1000_RDT) in ret (Z.to_nat (u32_add rdt 1 `mod` RX_RING_SIZE)).

(** A round of the loop takes the packet of descriptor [pos] off the ring. *)
Definition take_packet (pos : nat) : M (nic R) MBuf :=
  let! m' := alloc 0 in
  let! s := get in
  let d := drv s in
  let! old := get_at (rx_mbufs d) pos in
  let! m := unwrap old "called `Option::unwrap()` on a `None` value" in
  let! tail := get_at (rx_ring d) pos in
  let! '(_, m) := append m (r_length tail) in
  set_drv (mkE1000 (tx_ring d) (tx_mbufs d)
    (<[pos := mkRx (get_buf_head m') (r_length tail) (r_csum tail) 0 (r_errors tail) (r_special tail)]> (rx_ring d))
    (<[pos := Some m']> (rx_mbufs d))) ;;
  write_reg E1000_RDT (Z.of_nat pos) ;;
  ret m.

(** Each round clears the descriptor it takes, so the ring bounds the rounds. *)
Fixpoint recv_loop (fuel : nat) (pos : nat) : M (net (nic R) U) unit :=
  match fuel with
  | O => fun _ => OutOfFuel
  | S fuel =>
      let! s := get in
      let! tail := get_at (rx_ring (drv (dev s))) pos in
      if Z.land (r_status tail) E1000_RXD_STAT_DD =? 0 then ret tt
      else
        let! m := on_dev (take_packet pos) in
        eth_rx m ;;
        let! pos := next_rx in
        recv_loop fuel pos
  end.

Definition recv : M (net (nic R) U) unit := let! pos := next_rx in recv_loop 17 pos.

(** Without the wake-up of the processes that sleep on the address of the driver: there are none. *)
Definition intr : M (net (nic R) U) unit :=
  recv ;;
  let! _ := on_dev (read_reg E1000_ICR) in ret tt.

End recv.
End ops.

(** ** The card *)

(** What the manual says of the registers: a tail holds what was last written to it,
    and [advance], the card's own step, moves the transmit head by one. *)
Class RegsLaws (R : Type) `{!Regs R} := {
  rok : R -> Prop;
  tdh : R -> Z;
  tdt : R -> Z;
  rdt : R -> Z;
  advance : R -> R;
  read_law r i : rok r -> exists v r', read_e1000_regs i r = Done (v, r') /\ rok r' /\
    tdh r' = tdh r /\ tdt r' = tdt r /\ rdt r' = rdt r /\ (i = E1000_TDT -> v = tdt r) /\ (i = E1000_RDT -> v = rdt r);
  write_law r i v : rok r -> exists r', write_e1000_regs i v r = Done (tt, r') /\ rok r' /\
    tdh r' = (if decide (i = E1000_TDH) then v else tdh r) /\
    tdt r' = (if decide (i = E1000_TDT) then v else tdt r) /\
    rdt r' = (if decide (i = E1000_RDT) then v else rdt r);
  advance_law r : rok r -> rok (advance r) /\
    tdh (advance r) = (tdh r + 1) `mod` 16 /\ tdt (advance r) = tdt r /\ rdt (advance r) = rdt r
}.

(** ** Buffers on the rings *)

Definition ptr (o : option MBuf) : list Z := match o with Some m => [m_ptr m] | None => [] end.
Definition ring_ptrs (l : list (option MBuf)) : list Z := concat (ptr <$> l).

Lemma ring_ptrs_insert l i o :
  l !! i = Some o -> exists rest, ring_ptrs l ≡ₚ ptr o ++ rest /\ forall x, ring_ptrs (<[i := x]> l) ≡ₚ ptr x ++ rest.
Proof.
  intros Hi. exists (ring_ptrs (take i l) ++ ring_ptrs (drop (S i) l)).
  assert (Hp : forall x, ring_ptrs (take i l ++ x :: drop (S i) l) ≡ₚ ptr x ++ ring_ptrs (take i l) ++ ring_ptrs (drop (S i) l)).
  { intros x. unfold ring_ptrs. rewrite fmap_app, concat_app, fmap_cons. cbn [concat]. solve_Permutation. }
  split; [rewrite <-Hp; by rewrite take_drop_middle|]. intros x. rewrite <-Hp.
  by rewrite insert_take_drop by (by eapply lookup_lt_Some).
Qed.

Lemma elem_of_ring_ptrs l i m : l !! i = Some (Some m) -> m_ptr m ∈ ring_ptrs l.
Proof. intros Hi. destruct (ring_ptrs_insert l i _ Hi) as (rest & -> & _). cbn. left. Qed.

Section laws.
Context {R : Type} `{!Regs R} `{!RegsLaws R} (lo hi : Z) (Hlo : 0 < lo) (Hhi : hi <= 2 ^ 63).
Implicit Types s : nic R.

Definition held s : list Z := ring_ptrs (tx_mbufs (drv s)) ++ ring_ptrs (rx_mbufs (drv s)).
(** The buffers on the heap that are on neither ring. *)
Definition nic_boxes s : gset Z := hboxes (heap s) ∖ list_to_set (held s).

Record nic_ok s : Prop := {
  no_regs : rok (regs s);
  no_tdt : 0 <= tdt (regs s) < 16;
  no_heap : Kalloc.heap_inv lo hi (heap s);
  no_tx : length (tx_ring (drv s)) = 16%nat;
  no_txb : length (tx_mbufs (drv s)) = 16%nat;
  no_nodup : NoDup (held s);
  no_held : forall p, p ∈ held s -> p ∈ hboxes (heap s);
  no_bufs : forall i m, tx_mbufs (drv s) !! i = Some (Some m) -> mbuf_ok m
}.

Definition nic_ready s : Prop :=
  exists t, tx_ring (drv s) !! Z.to_nat (tdt (regs s)) = Some t /\ Z.land (t_status t) E1000_TXD_STAT_DD <> 0.

Lemma box_new_nic s p s' :
  nic_ok s -> box_new s = Done (p, s') ->
  nic_ok s' /\ 0 < p /\ p + 2064 < 2 ^ 64 /\ p ∉ nic_boxes s /\ nic_boxes s' = {[p]} ∪ nic_boxes s /\
  frames s' = frames s /\ drv s' = drv s /\ regs s' = regs s /\ p ∉ held s.
Proof using Hlo Hhi.
  intros [H1 H2 H3 H4 H5 H6 H7 H8] E. cbn [box_new nic_box] in E. unfold on_heap in E.
  destruct (box_new (heap s)) as [[q h]| | | |] eqn:Eh; try done. injection E as <- <-.
  destruct (box_new_heap lo hi Hlo Hhi _ _ _ H3 Eh) as (Hi & Hq1 & Hq2 & Hni & Eb).
  assert (Hnh : q ∉ held s) by (intros Hh; by apply Hni, H7).
  split_and!; try done; [|lia|lia| |].
  - split; try done. cbn [heap]. intros x Hx. rewrite Eb. apply elem_of_union. right. by apply H7.
  - unfold nic_boxes. rewrite elem_of_difference. naive_solver.
  - unfold nic_boxes. cbn [heap]. rewrite Eb. change (held _) with (held s). apply set_eq. intros x.
    rewrite elem_of_union, !elem_of_difference, elem_of_union, elem_of_singleton, elem_of_list_to_set. naive_solver.
Qed.

Lemma box_drop_nic s p :
  nic_ok s -> p ∈ nic_boxes s ->
  exists s', box_drop p s = Done (tt, s') /\ nic_ok s' /\ nic_boxes s' = nic_boxes s ∖ {[p]} /\
    frames s' = frames s /\ drv s' = drv s /\ regs s' = regs s.
Proof using Hlo Hhi.
  intros [H1 H2 H3 H4 H5 H6 H7 H8] Hp. unfold nic_boxes in Hp. apply elem_of_difference in Hp as [Hp Hnp].
  rewrite elem_of_list_to_set in Hnp.
  destruct (box_drop_heap lo hi Hlo Hhi _ _ H3 Hp) as (h' & E & Hi & Eb).
  eexists. cbn [box_drop nic_box]. unfold on_heap. rewrite E. split_and!; try done.
  - split; try done. cbn [heap]. intros x Hx. rewrite Eb. apply elem_of_difference. split; [by apply H7|].
    rewrite elem_of_singleton. intros ->. done.
  - unfold nic_boxes. cbn [heap]. rewrite Eb. change (held _) with (held s). apply set_eq. intros x.
    rewrite !elem_of_difference, elem_of_singleton. naive_solver.
Qed.

Lemma read_reg_spec i s (Q : Z -> nic R -> Prop) :
  rok (regs s) ->
  (forall v r, rok r -> tdh r = tdh (regs s) -> tdt r = tdt (regs s) -> rdt r = rdt (regs s) ->
     (i = E1000_TDT -> v = tdt (regs s)) -> (i = E1000_RDT -> v = rdt (regs s)) ->
     Q v (mkNic r (heap s) (self s) (drv s) (frames s))) ->
  wp (read_reg i) s Q.
Proof using Type.
  intros Hr HQ. destruct (read_law (regs s) i Hr) as (v & r & E & H1 & H2 & H3 & H4 & H5 & H6).
  unfold wp, read_reg, on_regs. rewrite E. by apply HQ.
Qed.

Lemma write_reg_spec i v s (Q : unit -> nic R -> Prop) :
  rok (regs s) ->
  (forall r, rok r -> tdh r = (if decide (i = E1000_TDH) then v else tdh (regs s)) ->
     tdt r = (if decide (i = E1000_TDT) then v else tdt (regs s)) ->
     rdt r = (if decide (i = E1000_RDT) then v else rdt (regs s)) ->
     Q tt (mkNic r (heap s) (self s) (drv s) (frames s))) ->
  wp (write_reg i v) s Q.
Proof using Type.
  intros Hr HQ. destruct (write_law (regs s) i v Hr) as (r & E & H1 & H2 & H3 & H4).
  unfold wp, write_reg, on_regs. rewrite E. by apply HQ.
Qed.

Lemma nic_ok_regs s r fr :
  nic_ok s -> rok r -> 0 <= tdt r < 16 -> nic_ok (mkNic r (heap s) (self s) (drv s) fr).
Proof using Type. intros [H1 H2 H3 H4 H5 H6 H7 H8] Hr Ht. by split. Qed.

(** A buffer [m] of the stack takes the place of [old] on a ring. *)
Lemma swap_held s s1 m old rest :
  nic_ok s -> m_ptr m ∈ nic_boxes s -> heap s1 = heap s ->
  held s ≡ₚ ptr old ++ rest -> held s1 ≡ₚ m_ptr m :: rest ->
  NoDup (held s1) /\ (forall p, p ∈ held s1 -> p ∈ hboxes (heap s1)) /\
  nic_boxes s1 = (nic_boxes s ∖ {[m_ptr m]}) ∪ list_to_set (ptr old) /\
  (forall p, p ∈ ptr old -> p ∈ nic_boxes s1 /\ p ∉ nic_boxes s).
Proof using Type.
  intros [H1 H2 H3 H4 H5 H6 H7 H8] Hm Ehp Eh Eh1.
  unfold nic_boxes in Hm. apply elem_of_difference in Hm as [Hm Hnm]. rewrite elem_of_list_to_set, Eh in Hnm.
  assert (Hnd : NoDup (ptr old ++ rest)) by (by rewrite <-Eh). apply NoDup_app in Hnd as (Hn1 & Hn2 & Hn3).
  assert (Hb : nic_boxes s1 = (nic_boxes s ∖ {[m_ptr m]}) ∪ list_to_set (ptr old)).
  { apply set_eq. intros x. unfold nic_boxes. rewrite Ehp.
    rewrite elem_of_union, !elem_of_difference, !elem_of_list_to_set, elem_of_singleton, Eh1, Eh, elem_of_cons, !(elem_of_app (ptr old)).
    assert (x ∈ ptr old -> x ∈ hboxes (heap s)) by (intros; apply H7; rewrite Eh; apply elem_of_app; by left).
    assert (x ∈ ptr old -> x <> m_ptr m) by (intros ? ->; apply Hnm, elem_of_app; by left).
    destruct (decide (x ∈ ptr old)) as [Hx|Hx]; [pose proof (Hn2 x Hx)|]; naive_solver. }
  split_and!.
  - rewrite Eh1. constructor; [|done]. intros Hx. apply Hnm, elem_of_app. by right.
  - intros p. rewrite Ehp, Eh1, elem_of_cons. intros [->|Hp]; [done|]. apply H7. rewrite Eh. apply elem_of_app. by right.
  - exact Hb.
  - intros p Hp. split; [rewrite Hb; apply elem_of_union; right; by apply elem_of_list_to_set|].
    unfold nic_boxes. rewrite elem_of_difference, elem_of_list_to_set, Eh, elem_of_app. naive_solver.
Qed.

Lemma put_on_ring s m pos old ring' :
  nic_ok s -> mbuf_ok m -> m_ptr m ∈ nic_boxes s -> tx_mbufs (drv s) !! pos = Some old -> length ring' = 16%nat ->
  let s1 := mkNic (regs s) (heap s) (self s)
    (mkE1000 ring' (<[pos := Some m]> (tx_mbufs (drv s))) (rx_ring (drv s)) (rx_mbufs (drv s))) (frames s) in
  nic_ok s1 /\ nic_boxes s1 = (nic_boxes s ∖ {[m_ptr m]}) ∪ list_to_set (ptr old) /\
  (forall p, p ∈ ptr old -> p ∈ nic_boxes s1 /\ p ∉ nic_boxes s).
Proof using Type.
  intros Hs Hmo Hm Hold Hlen s1. destruct (ring_ptrs_insert _ _ _ Hold) as (rest & Ep & Epx).
  set (rx := ring_ptrs (rx_mbufs (drv s))).
  destruct (swap_held s s1 m old (rest ++ rx) Hs Hm eq_refl) as (W1 & W2 & W3 & W4).
  { unfold held. rewrite Ep. fold rx. solve_Permutation. }
  { unfold held, s1. cbn [drv tx_mbufs rx_mbufs]. rewrite (Epx (Some m)). fold rx. cbn [ptr]. solve_Permutation. }
  split_and!; [|done|done]. destruct Hs as [H1 H2 H3 H4 H5 H6 H7 H8].
  split; try done; [cbn; by rewrite length_insert|]. intros i x. cbn [drv tx_mbufs s1]. intros Hx.
  destruct (decide (i = pos)) as [->|Hne].
  - rewrite list_lookup_insert_eq in Hx by (by eapply lookup_lt_Some). by injection Hx as <-.
  - rewrite list_lookup_insert_ne in Hx by done. by eapply H8.
Qed.

Lemma put_on_rx s m pos old ring' :
  nic_ok s -> m_ptr m ∈ nic_boxes s -> rx_mbufs (drv s) !! pos = Some old ->
  let s1 := mkNic (regs s) (heap s) (self s)
    (mkE1000 (tx_ring (drv s)) (tx_mbufs (drv s)) ring' (<[pos := Some m]> (rx_mbufs (drv s)))) (frames s) in
  nic_ok s1 /\ nic_boxes s1 = (nic_boxes s ∖ {[m_ptr m]}) ∪ list_to_set (ptr old).
Proof using Type.
  intros Hs Hm Hold s1. destruct (ring_ptrs_insert _ _ _ Hold) as (rest & Ep & Epx).
  set (tx := ring_ptrs (tx_mbufs (drv s))).
  destruct (swap_held s s1 m old (rest ++ tx) Hs Hm eq_refl) as (W1 & W2 & W3 & _).
  { unfold held. rewrite Ep. fold tx. solve_Permutation. }
  { unfold held, s1. cbn [drv tx_mbufs rx_mbufs]. rewrite (Epx (Some m)). fold tx. cbn [ptr]. solve_Permutation. }
  split; [|done]. destruct Hs as [H1 H2 H3 H4 H5 H6 H7 H8]. by split.
Qed.

(** The descriptor that [send] writes. *)
Definition tx_desc (m : MBuf) (t : TxDesc) : TxDesc := mkTx (head m) (len m) (t_cso t) 9 0 (t_css t) (t_special t).

Record sent_ok s (m : MBuf) (r : result unit) s' : Prop := {
  so_ok : nic_ok s';
  so_boxes : nic_boxes s' = nic_boxes s ∖ {[m_ptr m]};
  so_tdh : tdh (regs s') = tdh (regs s);
  so_rdt : rdt (regs s') = rdt (regs s);
  so_rx : rx_ring (drv s') = rx_ring (drv s) /\ rx_mbufs (drv s') = rx_mbufs (drv s);
  so_cases : exists t, tx_ring (drv s) !! Z.to_nat (tdt (regs s)) = Some t /\
    if Z.land (t_status t) E1000_TXD_STAT_DD =? 0 then
      (exists msg, r = Err msg) /\ frames s' = frames s /\ tdt (regs s') = tdt (regs s) /\
      tx_ring (drv s') = tx_ring (drv s) /\ tx_mbufs (drv s') = tx_mbufs (drv s)
    else
      r = Ok tt /\ frames s' = frames s ++ [packet m] /\ tdt (regs s') = (tdt (regs s) + 1) `mod` 16 /\
      tx_ring (drv s') = <[Z.to_nat (tdt (regs s)) := tx_desc m t]> (tx_ring (drv s)) /\
      tx_mbufs (drv s') = <[Z.to_nat (tdt (regs s)) := Some m]> (tx_mbufs (drv s))
}.

Lemma drop_old_spec old s (Q : unit -> nic R -> Prop) :
  nic_ok s -> (forall p, p ∈ ptr old -> p ∈ nic_boxes s) ->
  (forall s', nic_ok s' -> nic_boxes s' = nic_boxes s ∖ list_to_set (ptr old) -> frames s' = frames s ->
     drv s' = drv s -> regs s' = regs s -> Q tt s') ->
  wp (drop_old old) s Q.
Proof using Hlo Hhi.
  intros Hs Hp HQ. destruct old as [o|]; cbn [drop_old].
  - destruct (box_drop_nic s (m_ptr o) Hs (Hp _ ltac:(left))) as (s' & E & H1 & H2 & H3 & H4 & H5).
    apply (wp_Done _ _ _ _ _ E). apply HQ; try done. rewrite H2. cbn [ptr list_to_set list_to_set]. set_solver.
  - apply wp_ret. apply HQ; try done. cbn. set_solver.
Qed.

Lemma send_spec s m : nic_ok s -> mbuf_ok m -> m_ptr m ∈ nic_boxes s -> wp (send m) s (sent_ok s m).
Proof using Hlo Hhi.
  intros Hs Hm Hb. pose proof Hs as [H1 H2 H3 H4 H5 H6 H7 H8]. unfold send.
  eapply wp_bind, read_reg_spec; [done|]. intros v r1 Hr1 E1 E2 E3 Ev _. rewrite (Ev eq_refl). clear v Ev.
  set (s0 := mkNic r1 _ _ _ _). assert (Hs0 : nic_ok s0) by (split; try done; cbn; by rewrite E2).
  apply wp_bind, wp_get. set (pos := Z.to_nat (tdt (regs s))).
  destruct (lookup_lt_is_Some_2 (tx_ring (drv s)) pos ltac:(lia)) as [t Ht].
  destruct (lookup_lt_is_Some_2 (tx_mbufs (drv s)) pos ltac:(lia)) as [old Hold].
  cbv zeta. eapply wp_bind, wp_get_at; [exact Ht|]. destruct (Z.land (t_status t) E1000_TXD_STAT_DD =? 0) eqn:Edd.
  - destruct (box_drop_nic s0 (m_ptr m) Hs0 Hb) as (s' & E & D1 & D2 & D3 & D4 & D5).
    eapply wp_bind, (wp_Done _ _ _ _ _ E), wp_ret.
    split; rewrite ?D4, ?D5; try done. exists t. rewrite Edd. split_and!; try done. by eexists.
  - eapply wp_bind, wp_get_at; [exact Hold|]. apply wp_bind, wp_modify.
    rewrite get_len_ok by done. pose proof (mo_fit m Hm). pose proof (mo_off m Hm). pose proof (mo_len m Hm).
    change MBUF_SIZE with 2048 in *. rewrite wrap_small by lia.
    destruct (put_on_ring s0 m pos old (<[pos := tx_desc m t]> (tx_ring (drv s))) Hs0 Hm Hb Hold
      ltac:(by rewrite length_insert)) as (P1 & P2 & P3).
    match type of P1 with nic_ok ?x => set (s1 := x) in *; match goal with |- wp _ ?y _ => change y with s1 end end.
    eapply wp_bind, drop_old_spec; [exact P1|naive_solver|].
    intros s2 D1 D2 D3 D4 D5. eapply wp_bind, write_reg_spec; [apply D1|]. intros r2 Hr2 W1 W2 W3.
    rewrite decide_False in W1 by done. rewrite decide_False in W3 by done. rewrite decide_True in W2 by done.
    apply wp_bind, wp_modify, wp_ret. rewrite D5 in W1, W3. change (regs s1) with r1 in W1, W3.
    assert (Hok : nic_ok (mkNic r2 (heap s2) (self s2) (drv s2) (frames s2 ++ [packet m]))).
    { apply nic_ok_regs; [done|done|]. rewrite W2. by apply Z.mod_pos_bound. }
    split; cbn [regs drv frames]; [exact Hok| |congruence|congruence|by rewrite D4|].
    + change (nic_boxes s2 = nic_boxes s ∖ {[m_ptr m]}). rewrite D2, P2. apply set_eq. intros x.
      rewrite elem_of_difference, elem_of_union, !elem_of_difference, elem_of_singleton, elem_of_list_to_set.
      assert (Hx : x ∈ ptr old -> x ∉ nic_boxes s) by apply P3. change (nic_boxes s0) with (nic_boxes s). clear -Hx. tauto.
    + exists t. rewrite Edd, D3, D4. done.
Qed.

Definition e1000_laws : NicLaws (nic R).
Proof using lo hi Hlo Hhi RegsLaws0.
  refine {| nok := nic_ok; boxes := nic_boxes; posted := frames; tx_ready := nic_ready |}.
  - intros s p s' Hs E. destruct (box_new_nic s p s' Hs E) as (N1 & N2 & N3 & N4 & N5 & N6 & N7 & N8 & _).
    split_and!; try done. unfold nic_ready. by rewrite N7, N8.
  - intros s p Hs Hp. destruct (box_drop_nic s p Hs Hp) as (s' & E & N1 & N2 & N3 & _). by exists s'.
  - intros s m Hs Hm Hb. destruct (wp_elim _ _ _ (send_spec s m Hs Hm Hb)) as (r & s' & E & [S1 S2 _ _ _ (t & Ht & Hc)]).
    exists r, s'. split_and!; [done|done|done| |].
    + intros (t' & Ht' & Hne). assert (t' = t) as -> by congruence. rewrite (proj2 (Z.eqb_neq _ _)) in Hc by done. apply Hc.
    + destruct (_ =? _).
      * destruct Hc as ((msg & ->) & -> & _). by rewrite app_nil_r.
      * by destruct Hc as (-> & -> & _).
Defined.

(** ** The transmit ring between driver and card *)

(** What the card reads at an address: the bytes of the buffer on the ring that
    holds them.  A buffer that has been freed is not on the ring. *)
Definition covers (a n : Z) (o : option MBuf) : bool :=
  match o with Some m => (buf_ptr m <=? a) && (a + n <=? buf_ptr m + MBUF_SIZE) | None => false end.
Definition dma_read (bufs : list (option MBuf)) (a n : Z) : option (list Z) :=
  match list_find (fun o => covers a n o = true) bufs with
  | Some (_, Some m) => Some (take (Z.to_nat n) (drop (Z.to_nat (a - buf_ptr m)) (buf m)))
  | _ => None
  end.

(** The steps: calls of the driver and of the heap by the stack, and the card, which takes
    the descriptor at the head when the ring is not empty, sends what it points to, and
    reports the descriptor as done when the driver asked for it. *)
Definition report (t : TxDesc) : TxDesc :=
  if Z.land (t_cmd t) E1000_TXD_CMD_RS =? 0 then t else set_tx_status t (Z.lor (t_status t) E1000_TXD_STAT_DD).
Definition card_step s (t : TxDesc) : nic R :=
  mkNic (advance (regs s)) (heap s) (self s)
    (mkE1000 (<[Z.to_nat (tdh (regs s)) := report t]> (tx_ring (drv s))) (tx_mbufs (drv s)) (rx_ring (drv s)) (rx_mbufs (drv s)))
    (frames s).

Inductive tx_step : nic R * list (option (list Z)) -> nic R * list (option (list Z)) -> Prop :=
| step_send s m r s' wire : mbuf_ok m -> m_ptr m ∈ nic_boxes s -> send m s = Done (r, s') -> tx_step (s, wire) (s', wire)
| step_new s p s' wire : box_new s = Done (p, s') -> tx_step (s, wire) (s', wire)
| step_drop s p s' wire : p ∈ nic_boxes s -> box_drop p s = Done (tt, s') -> tx_step (s, wire) (s', wire)
| step_card s t wire :
    tdh (regs s) <> tdt (regs s) -> tx_ring (drv s) !! Z.to_nat (tdh (regs s)) = Some t ->
    tx_step (s, wire) (card_step s t, wire ++ [dma_read (tx_mbufs (drv s)) (t_addr t) (t_length t)]).

Definition slot (h : Z) (j : nat) : nat := Z.to_nat ((h + Z.of_nat j) `mod` 16).

Lemma slot_lt h j : (slot h j < 16)%nat.
Proof using Type. unfold slot. pose proof (Z.mod_pos_bound (h + Z.of_nat j) 16 ltac:(lia)). lia. Qed.

Lemma slot_inj h j k : (j < 16)%nat -> (k < 16)%nat -> slot h j = slot h k -> j = k.
Proof using Type.
  unfold slot. intros Hj Hk E. pose proof (Z.mod_pos_bound (h + Z.of_nat j) 16 ltac:(lia)).
  pose proof (Z.mod_pos_bound (h + Z.of_nat k) 16 ltac:(lia)).
  assert (E' : (h + Z.of_nat j) `mod` 16 = (h + Z.of_nat k) `mod` 16) by lia.
  pose proof (Z.div_mod (h + Z.of_nat j) 16 ltac:(lia)). pose proof (Z.div_mod (h + Z.of_nat k) 16 ltac:(lia)). lia.
Qed.

Lemma slot_next h j : slot ((h + 1) `mod` 16) j = slot h (S j).
Proof using Type. unfold slot. rewrite Z.add_mod_idemp_l by lia. do 2 f_equal. lia. Qed.

Lemma dma_read_ring s i m :
  nic_ok s -> tx_mbufs (drv s) !! i = Some (Some m) -> dma_read (tx_mbufs (drv s)) (head m) (len m) = Some (packet m).
Proof using Type.
  intros Hs Hi. pose proof Hs as [H1 H2 H3 H4 H5 H6 H7 H8]. pose proof (H8 i m Hi) as Hm.
  pose proof (head_off m Hm) as Eh. pose proof (buf_ptr_small m Hm) as Eb. destruct (Hm) as [_ _ M3 M4 M5].
  assert (Hc : covers (head m) (len m) (Some m) = true).
  { cbn. apply andb_true_iff. rewrite !Z.leb_le. lia. }
  destruct (list_find_elem_of (fun o => covers (head m) (len m) o = true) _ _ (list_elem_of_lookup_2 _ _ _ Hi) Hc) as [[j o] E].
  unfold dma_read. rewrite E. apply list_find_Some in E as (Hj & Hcj & _). destruct o as [m'|]; [|done].
  assert (m' = m) as ->; [|done]. cbn in Hcj. apply andb_true_iff in Hcj. rewrite !Z.leb_le in Hcj.
  rewrite (buf_ptr_small m' (H8 j m' Hj)) in Hcj. destruct (decide (j = i)) as [->|Hne]; [congruence|]. exfalso.
  assert (Hp : m_ptr m' <> m_ptr m).
  { intros Ep. apply NoDup_app in H6 as [H6 _]. destruct (ring_ptrs_insert _ _ _ Hi) as (rest & Er & Erx).
    rewrite Er in H6. cbn [ptr] in H6. apply NoDup_cons in H6 as [H6 _]. apply H6.
    specialize (Erx None). cbn [ptr app] in Erx. rewrite <-Erx, <-Ep.
    apply (elem_of_ring_ptrs _ j). by rewrite list_lookup_insert_ne. }
  assert (Hin : forall k x, tx_mbufs (drv s) !! k = Some (Some x) -> m_ptr x ∈ hboxes (heap s)).
  { intros k x Hx. apply H7. apply elem_of_app. left. by eapply elem_of_ring_ptrs. }
  destruct (boxes_apart lo hi (heap s) _ _ H3 (Hin _ _ Hj) (Hin _ _ Hi) Hp); change MBUF_SIZE with 2048 in *; lia.
Qed.

(** A descriptor in flight: it points to the packet of a buffer that the ring keeps. *)
Definition in_flight (d : E1000) (i : nat) (f : list Z) : Prop :=
  exists t m, tx_ring d !! i = Some t /\ tx_mbufs d !! i = Some (Some m) /\
    t_addr t = head m /\ t_length t = len m /\ packet m = f /\
    Z.land (t_status t) E1000_TXD_STAT_DD = 0 /\ Z.land (t_cmd t) E1000_TXD_CMD_RS <> 0.
Definition free_slot (d : E1000) (i : nat) : Prop :=
  exists t, tx_ring d !! i = Some t /\ Z.land (t_status t) E1000_TXD_STAT_DD <> 0.

(** [pend] are the frames on the ring, from the head on. *)
Record ring_ok s (wire : list (option (list Z))) (pend : list (list Z)) : Prop := {
  ri_ok : nic_ok s;
  ri_tdh : 0 <= tdh (regs s) < 16;
  ri_len : (length pend <= 16)%nat;
  ri_tdt : tdt (regs s) = (tdh (regs s) + Z.of_nat (length pend)) `mod` 16;
  ri_frames : Some <$> frames s = wire ++ (Some <$> pend);
  ri_pend : forall j f, pend !! j = Some f -> in_flight (drv s) (slot (tdh (regs s)) j) f;
  ri_free : forall j, (length pend <= j < 16)%nat -> free_slot (drv s) (slot (tdh (regs s)) j)
}.

Lemma slot_tdt s wire pend : ring_ok s wire pend -> Z.to_nat (tdt (regs s)) = slot (tdh (regs s)) (length pend).
Proof using Type. intros [_ _ _ -> _ _ _]. done. Qed.
Lemma slot_0 h : 0 <= h < 16 -> slot h 0 = Z.to_nat h.
Proof using Type. intros Hh. unfold slot. rewrite Z.add_0_r, Z.mod_small by done. done. Qed.
Lemma slot_16 h : slot h 16 = slot h 0.
Proof using Type. unfold slot. rewrite Z.add_0_r. change (Z.of_nat 16) with (1 * 16). by rewrite Z.mod_add. Qed.

Lemma in_flight_ne d d' i i' f t o :
  i <> i' -> tx_ring d' = <[i := t]> (tx_ring d) ->
  tx_mbufs d' = <[i := o]> (tx_mbufs d) \/ tx_mbufs d' = tx_mbufs d -> in_flight d i' f -> in_flight d' i' f.
Proof using Type.
  intros Hne E1 E2 (t' & m & H1 & H2 & H3). exists t', m. rewrite E1.
  destruct E2 as [-> | ->]; rewrite !list_lookup_insert_ne by done; done.
Qed.

Lemma in_flight_eq d d' i f :
  tx_ring d' = tx_ring d -> tx_mbufs d' = tx_mbufs d -> in_flight d i f -> in_flight d' i f.
Proof using Type. intros E1 E2. unfold in_flight. by rewrite E1, E2. Qed.

Lemma ring_ok_send s m r s' wire pend :
  ring_ok s wire pend -> mbuf_ok m -> m_ptr m ∈ nic_boxes s -> send m s = Done (r, s') ->
  ring_ok s' wire (if decide (length pend = 16%nat) then pend else pend ++ [packet m]) /\
  (length pend = 16%nat -> frames s' = frames s).
Proof using Hlo Hhi.
  intros Hring Hm Hb E. pose proof (slot_tdt _ _ _ Hring) as Es. destruct Hring as [I1 I2 I3 I4 I5 I6 I7].
  destruct (wp_elim _ _ _ (send_spec s m I1 Hm Hb)) as (r0 & s0 & E0 & [S1 S2 S3 S4 S5 (t & Ht & Hc)]).
  assert (s0 = s') as -> by congruence. rewrite Es in Ht, Hc. case_decide as Hfull.
  - destruct (pend !! 0%nat) as [f|] eqn:Hp; [|apply lookup_ge_None in Hp; lia].
    destruct (I6 _ _ Hp) as (t' & m' & Ht' & _ & _ & _ & _ & Hdd & _). rewrite Hfull, slot_16 in Ht. assert (t' = t) as -> by congruence.
    rewrite Hdd in Hc. destruct Hc as (_ & C1 & C2 & C3 & C4). split; [|done].
    split; rewrite ?S3, ?C1, ?C2; try done.
    + intros j g Hj. eapply in_flight_eq; [done|done|]. by apply I6.
    + intros j Hj. lia.
  - destruct (I7 (length pend) ltac:(lia)) as (t' & Ht' & Hdd). assert (t' = t) as -> by congruence.
    rewrite (proj2 (Z.eqb_neq _ _)) in Hc by done. destruct Hc as (_ & C1 & C2 & C3 & C4). split; [|done].
    set (k := length pend) in *. set (i := slot (tdh (regs s)) k) in *.
    assert (Hsl : forall j, (j < 16)%nat -> j <> k -> i <> slot (tdh (regs s)) j).
    { intros j Hj Hne E2. apply Hne. symmetry. apply (slot_inj (tdh (regs s))); [lia|lia|done]. }
    split; rewrite ?S3; try done.
    + rewrite length_app. cbn. lia.
    + rewrite C2, I4, Z.add_mod_idemp_l, length_app by lia. cbn [length]. f_equal. lia.
    + rewrite C1, !fmap_app, I5, app_assoc. done.
    + intros j g Hj. apply lookup_snoc_Some in Hj as [[Hj1 Hj2]|[-> <-]].
      * eapply in_flight_ne; [|exact C3|left; exact C4|by apply I6]. apply Hsl; lia.
      * exists (tx_desc m t), m. rewrite C3, C4, !list_lookup_insert_eq; [done|..].
        -- rewrite (no_txb _ I1). apply slot_lt.
        -- rewrite (no_tx _ I1). apply slot_lt.
    + intros j. rewrite length_app. cbn [length]. intros Hj. destruct (I7 j ltac:(lia)) as (t' & Hj1 & Hj2).
      exists t'. rewrite C3, list_lookup_insert_ne; [done|]. apply Hsl; lia.
Qed.

Lemma report_done t : Z.land (t_cmd t) E1000_TXD_CMD_RS <> 0 -> Z.land (t_status (report t)) E1000_TXD_STAT_DD <> 0.
Proof using Type.
  intros Hrs. unfold report. rewrite (proj2 (Z.eqb_neq _ _)) by done. cbn [t_status set_tx_status]. intros E.
  apply (f_equal (fun z => Z.testbit z 0)) in E. by rewrite Z.land_spec, Z.lor_spec, orb_true_r in E.
Qed.

Lemma ring_ok_card s t wire pend :
  ring_ok s wire pend -> tdh (regs s) <> tdt (regs s) -> tx_ring (drv s) !! Z.to_nat (tdh (regs s)) = Some t ->
  length pend <> 16%nat /\
  ring_ok (card_step s t) (wire ++ [dma_read (tx_mbufs (drv s)) (t_addr t) (t_length t)]) (tail pend).
Proof using Type.
  intros [I1 I2 I3 I4 I5 I6 I7] Hne Ht.
  assert (Hfull : length pend <> 16%nat).
  { intros E. rewrite I4, E in Hne. change (Z.of_nat 16) with (1 * 16) in Hne. rewrite Z.mod_add, Z.mod_small in Hne by lia. done. }
  split; [done|]. destruct pend as [|f pend]; [cbn in I4; rewrite Z.add_0_r, Z.mod_small in I4 by lia; congruence|].
  destruct (I6 0%nat f eq_refl) as (t' & m & F1 & F2 & F3 & F4 & F5 & F6 & F7). rewrite slot_0 in F1, F2 by done.
  assert (t' = t) as -> by congruence. rewrite F3, F4, (dma_read_ring s _ m I1 F2), F5. cbn [tail length] in *.
  destruct (advance_law (regs s) (no_regs _ I1)) as (A1 & A2 & A3 & A4).
  assert (Hsl : forall j, (S j < 16)%nat -> Z.to_nat (tdh (regs s)) <> slot (tdh (regs s)) (S j)).
  { intros j Hj E. rewrite <-slot_0 in E by done. apply slot_inj in E; lia. }
  split; cbn [regs drv frames card_step]; rewrite ?A2, ?A3.
  - destruct I1 as [H1 H2 H3 H4 H5 H6 H7 H8]. split; try done; cbn [regs drv tx_ring card_step]; [by rewrite A3|by rewrite length_insert].
  - by apply Z.mod_pos_bound.
  - lia.
  - rewrite I4, Z.add_mod_idemp_l by lia. f_equal. lia.
  - rewrite I5, <-app_assoc. done.
  - intros j g Hj. pose proof (lookup_lt_Some _ _ _ Hj). rewrite slot_next.
    eapply (in_flight_ne _ _ _ _ _ _ None); [apply (Hsl j); lia|done|by right|]. by apply (I6 (S j)).
  - intros j Hj. rewrite slot_next. destruct (decide (S j = 16%nat)) as [->|Hj'].
    + rewrite slot_16, slot_0 by done. exists (report t). cbn [tx_ring]. split; [|by apply report_done].
      apply list_lookup_insert_eq. rewrite (no_tx _ I1). lia.
    + destruct (I7 (S j) ltac:(lia)) as (t' & G1 & G2). exists t'. cbn [tx_ring].
      rewrite list_lookup_insert_ne by (apply Hsl; lia). done.
Qed.

Lemma ring_ok_step c c' pend :
  tx_step c c' -> ring_ok c.1 c.2 pend ->
  (exists pend', ring_ok c'.1 c'.2 pend') /\
  (length pend = 16%nat -> ring_ok c'.1 c'.2 pend /\ c'.2 = c.2 /\ frames c'.1 = frames c.1).
Proof using Hlo Hhi.
  intros Hst Hr. destruct Hst as [s m r s' wire Hm Hb E|s p s' wire E|s p s' wire Hp E|s t wire Hne Ht]; cbn [fst snd] in *.
  - destruct (ring_ok_send _ _ _ _ _ _ Hr Hm Hb E) as [Hr' Hf]. split; [by eexists|].
    intros Hfull. rewrite decide_True in Hr' by done. split_and!; [done|done|by apply Hf].
  - destruct (box_new_nic s p s' (ri_ok _ _ _ Hr) E) as (N1 & _ & _ & _ & _ & N6 & N7 & N8 & _).
    assert (Hr' : ring_ok s' wire pend) by (destruct Hr; split; rewrite ?N6, ?N7, ?N8; done). split; [by exists pend|done].
  - destruct (box_drop_nic s p (ri_ok _ _ _ Hr) Hp) as (s0 & E0 & N1 & _ & N6 & N7 & N8).
    assert (s0 = s') as -> by congruence.
    assert (Hr' : ring_ok s' wire pend) by (destruct Hr; split; rewrite ?N6, ?N7, ?N8; done). split; [by exists pend|done].
  - destruct (ring_ok_card s t wire pend Hr Hne Ht) as [Hf Hr']. split; [by eexists|done].
Qed.

(** ** Initialisation and the receive ring *)

(** The heap can serve [k] more buffers. *)
Fixpoint can_box (k : nat) (h : Kalloc.heap) : Prop :=
  match k with
  | O => True
  | S k => exists p h', box_new h = Done (p, h') /\ can_box k h'
  end.

Lemma alloc_nic k s (Q : MBuf -> nic R -> Prop) :
  nic_ok s -> can_box (S k) (heap s) ->
  (forall m s', nic_ok s' -> mbuf_ok m -> off m = 0 -> len m = 0 -> m_ptr m ∉ nic_boxes s ->
     nic_boxes s' = {[m_ptr m]} ∪ nic_boxes s -> drv s' = drv s -> regs s' = regs s -> frames s' = frames s ->
     can_box k (heap s') -> Q m s') ->
  wp (alloc 0) s Q.
Proof using Hlo Hhi.
  intros Hs (p & h' & E & Hc) HQ. unfold alloc. change (MBUF_SIZE <? 0) with false. cbn iota.
  set (s' := mkNic (regs s) h' (self s) (drv s) (frames s)).
  assert (E' : box_new s = Done (p, s')) by (cbn [box_new nic_box]; unfold on_heap; by rewrite E).
  destruct (box_new_nic s p s' Hs E') as (N1 & N2 & N3 & N4 & N5 & N6 & N7 & N8 & _).
  eapply wp_bind, (wp_Done _ _ _ _ _ E'), wp_ret.
  destruct (alloc_ok p 0 N2 N3 ltac:(by change MBUF_SIZE with 2048)) as (A1 & A2 & A3 & _). by apply HQ.
Qed.

(** A descriptor that waits for a packet, and one that holds [pkt]. *)
Definition rx_empty (d : E1000) (i : nat) : Prop :=
  exists t m, rx_ring d !! i = Some t /\ rx_mbufs d !! i = Some (Some m) /\ mbuf_ok m /\ off m = 0 /\ len m = 0 /\
    r_addr t = head m /\ Z.land (r_status t) E1000_RXD_STAT_DD = 0.
Definition rx_full (d : E1000) (i : nat) (pkt : list Z) : Prop :=
  exists t m, rx_ring d !! i = Some t /\ rx_mbufs d !! i = Some (Some m) /\ mbuf_ok m /\ off m = 0 /\ len m = 0 /\
    r_length t = Z.of_nat (length pkt) /\ (length pkt <= 2048)%nat /\ take (length pkt) (buf m) = pkt /\
    Z.land (r_status t) E1000_RXD_STAT_DD <> 0.

(** After [n] rounds of the loop of [rx_init], with room for [x] buffers beyond those of the ring. *)
Record armed s0 (x n : nat) s : Prop := {
  ar_ok : nic_ok s;
  ar_regs : regs s = regs s0;
  ar_frames : frames s = frames s0;
  ar_tx : tx_ring (drv s) = tx_ring (drv s0) /\ tx_mbufs (drv s) = tx_mbufs (drv s0);
  ar_box : can_box (16 - n + x) (heap s);
  ar_rx : length (rx_ring (drv s)) = 16%nat;
  ar_done : forall i, (i < n)%nat -> rx_empty (drv s) i;
  ar_todo : forall i, (n <= i < 16)%nat -> rx_mbufs (drv s) !! i = Some None /\ rx_ring (drv s) !! i = Some rx_new
}.

Lemma arm_spec s0 x n s : (n < 16)%nat -> armed s0 x n s -> wp (arm n) s (fun _ s' => armed s0 x (S n) s').
Proof using Hlo Hhi.
  intros Hn [A1 A2 A3 A4 A5 A6 A7 A8]. unfold arm. destruct (A8 n ltac:(lia)) as [Hm Hr].
  replace (16 - n + x)%nat with (S (16 - S n + x)) in A5 by lia. eapply wp_bind, alloc_nic; [done|exact A5|].
  intros m s' N1 M1 M2 M3 N2 N3 N4 N5 N6 N7. apply wp_bind, wp_get. cbv zeta. rewrite N4.
  eapply wp_bind, wp_get_at; [exact Hr|]. eapply wp_bind, wp_get_at; [exact Hm|]. apply wp_bind, wp_modify, wp_ret.
  destruct (put_on_rx s' m n None (<[n := set_rx_addr rx_new (get_buf_head m)]> (rx_ring (drv s))) N1) as [P1 _].
  { rewrite N3. apply own_new. }
  { by rewrite N4. }
  rewrite N4 in P1. pose proof (lookup_lt_Some _ _ _ Hm) as Hlm. split; cbn [regs frames drv heap tx_ring tx_mbufs rx_ring]; try done; try congruence.
  - by rewrite length_insert.
  - intros i Hi. destruct (decide (i = n)) as [->|Hne].
    + exists (set_rx_addr rx_new (head m)), m. cbn [rx_ring rx_mbufs]. rewrite !list_lookup_insert_eq by lia. done.
    + unfold rx_empty. cbn [rx_ring rx_mbufs]. rewrite !list_lookup_insert_ne by done. apply A7. lia.
  - intros i Hi. cbn [rx_mbufs rx_ring]. rewrite !list_lookup_insert_ne by lia. apply A8. lia.
Qed.

(** The driver before [init]. *)
Record booted s : Prop := {
  bo_regs : rok (regs s);
  bo_heap : Kalloc.heap_inv lo hi (heap s);
  bo_drv : drv s = new;
  bo_frames : frames s = []
}.

Lemma tx_init_spec s (Q : unit -> nic R -> Prop) :
  booted s ->
  (forall r, rok r -> tdh r = 0 -> tdt r = 0 ->
     Q tt (mkNic r (heap s) (self s) (mkE1000 (replicate 16 (mkTx 0 0 0 9 1 0 0)) (replicate 16 None) (replicate 16 rx_new)
       (replicate 16 None)) [])) ->
  wp tx_init s Q.
Proof using Type.
  intros [B1 B2 B3 B4] HQ. unfold tx_init. apply wp_bind, wp_get. cbv zeta. rewrite B3. apply wp_bind, wp_modify.
  repeat (eapply wp_bind, write_reg_spec; [done|]; cbn [regs heap self drv frames]; let H := fresh "W" in
    intros ? ? H ? ?; repeat case_decide; try done).
  apply wp_bind, wp_get. cbv zeta. cbn [drv]. apply wp_modify. cbn [regs heap self frames]. rewrite B4.
  apply HQ; [done|congruence|congruence].
Qed.

Lemma rx_init_spec x s (Q : unit -> nic R -> Prop) :
  armed s x 0 s ->
  (forall s1 r, armed s x 16 (mkNic (regs s) (heap s1) (self s1) (drv s1) (frames s)) ->
     rok r -> tdh r = tdh (regs s) -> tdt r = tdt (regs s) -> rdt r = 15 ->
     Q tt (mkNic r (heap s1) (self s1) (drv s1) (frames s))) ->
  wp rx_init s Q.
Proof using Hlo Hhi.
  intros Ha HQ. unfold rx_init. eapply wp_bind, write_reg_spec; [apply Ha|]. intros r1 Hr1 W1 W2 W3.
  rewrite decide_False in W1 by done. rewrite decide_False in W2 by done.
  set (s1 := mkNic r1 _ _ _ _). assert (Ha1 : armed s1 x 0 s1).
  { destruct Ha as [A1 A2 A3 A4 A5 A6 A7 A8]. split; try done. apply nic_ok_regs; [done|done|]. rewrite W2. apply A1. }
  eapply wp_bind, (wp_mfor _ _ (fun seen s => armed s1 x (length seen) s)); [done| |].
  { intros seen i todo s' El Hs. pose proof (f_equal length El) as Ell. rewrite length_app, length_seq in Ell. cbn in Ell.
    assert (i = length seen) as ->.
    { pose proof (list_lookup_middle seen todo i (length seen) eq_refl) as Hx. rewrite <-El in Hx.
      apply lookup_seq in Hx as [-> _]. lia. }
    rewrite length_app. cbn [length]. rewrite Nat.add_1_r. apply arm_spec; [lia|done]. }
  intros s2 Ha2. rewrite length_seq in Ha2. apply wp_bind, wp_get. pose proof (no_regs _ (ar_ok _ _ _ _ Ha2)) as Hr2.
  pose proof (ar_regs _ _ _ _ Ha2) as E2. pose proof (ar_frames _ _ _ _ Ha2) as E3.
  do 3 (eapply wp_bind, write_reg_spec; [done|]; cbn [regs heap self drv frames]; intros ? ? ? ? ?; repeat case_decide; try done).
  eapply write_reg_spec; [done|]; cbn [regs heap self drv frames]; intros r3 ? ? ? ?; repeat case_decide; try done.
  rewrite E3. change (frames s1) with (frames s). change (regs s1) with r1 in E2. change (RX_RING_SIZE - 1) with 15 in *.
  apply HQ; [|done|congruence..].
  destruct Ha2 as [A1 A2 A3 A4 A5 A6 A7 A8]. split; try done. apply (nic_ok_regs s2); [done|apply Ha|apply Ha].
Qed.

(** What [init] leaves behind: the transmit ring is empty, every receive descriptor has a buffer,
    and the card may fill all of them but the last. *)
Record ready (x : nat) s : Prop := {
  re_ring : ring_ok s [] [];
  re_frames : frames s = [];
  re_rdt : rdt (regs s) = 15;
  re_rx : forall i, (i < 16)%nat -> rx_empty (drv s) i;
  re_box : can_box x (heap s)
}.

Lemma init_spec x s : booted s -> can_box (16 + x) (heap s) -> wp init s (fun _ s' => ready x s').
Proof using Hlo Hhi.
  intros Hb Hc. unfold init. eapply wp_bind, write_reg_spec; [apply Hb|]. intros r1 Hr1 _ _ _.
  eapply wp_bind, tx_init_spec; [destruct Hb; by split|]. cbn [heap self]. intros r2 Hr2 T1 T2.
  set (d := mkE1000 _ _ _ _). set (s2 := mkNic r2 _ _ _ _).
  assert (Hk2 : nic_ok s2).
  { split; try done; [cbn; by rewrite T2|by destruct Hb|by apply NoDup_nil_2|intros p Hp; by apply elem_of_nil in Hp|].
    intros i m Hi. by apply (lookup_replicate_1 16) in Hi as [? _]. }
  assert (Ha : armed s2 x 0 s2).
  { split; try done; [intros; lia|]. intros i Hi. cbn [drv s2 rx_mbufs rx_ring d]. by rewrite !(lookup_replicate_2 16) by lia. }
  eapply wp_bind, rx_init_spec; [exact Ha|]. intros s3 r3 Ha3 Hr3 E1 E2 E3.
  do 7 (eapply wp_bind, write_reg_spec; [done|]; cbn [regs heap self drv frames]; intros ? ? ? ? ?; repeat case_decide; try done).
  eapply write_reg_spec; [done|]; cbn [regs heap self drv frames]; intros rf Hrf ? ? ?; repeat case_decide; try done.
  cbn [regs s2] in E1, E2. assert (Eh : tdh rf = 0) by congruence. assert (Et : tdt rf = 0) by congruence.
  destruct Ha3 as [A1 A2 A3 [A4 A4'] A5 A6 A7 A8]. cbn [drv] in *.
  split; cbn [regs drv frames]; [|reflexivity|congruence|exact A7|exact A5].
  split; cbn [regs drv frames]; rewrite ?Eh; [|lia|cbn; lia|by rewrite Et|reflexivity|intros j f Hj; discriminate Hj|].
  - apply (nic_ok_regs _ rf (frames s2)) in A1; [done|done|by rewrite Et].
  - intros j Hj. exists (mkTx 0 0 0 9 1 0 0). rewrite A4. split; [|done]. cbn [tx_ring drv s2 d].
    apply lookup_replicate_2. apply slot_lt.
Qed.

(** ** Receiving *)

Lemma take_packet_spec d pos pkt k (Q : MBuf -> nic R -> Prop) :
  nic_ok d -> can_box (S k) (heap d) -> rx_full (drv d) pos pkt -> (pos < 16)%nat ->
  (forall m d', nic_ok d' -> mbuf_ok m -> packet m = pkt -> m_ptr m ∈ nic_boxes d' -> can_box k (heap d') ->
     frames d' = frames d -> tdh (regs d') = tdh (regs d) -> tdt (regs d') = tdt (regs d) -> rdt (regs d') = Z.of_nat pos ->
     rx_empty (drv d') pos ->
     (forall i, i <> pos -> rx_ring (drv d') !! i = rx_ring (drv d) !! i /\ rx_mbufs (drv d') !! i = rx_mbufs (drv d) !! i) ->
     Q m d') ->
  wp (take_packet pos) d Q.
Proof using Hlo Hhi.
  intros Hd Hc (t & m & F1 & F2 & F3 & F4 & F5 & F6 & F7 & F8 & F9) Hpos HQ. unfold take_packet.
  eapply wp_bind, alloc_nic; [done|exact Hc|]. intros m' d1 N1 M1 M2 M3 N2 N3 N4 N5 N6 N7.
  apply wp_bind, wp_get. cbv zeta. rewrite N4. eapply wp_bind, wp_get_at; [exact F2|].
  eapply wp_bind, wp_unwrap; [done|]. eapply wp_bind, wp_get_at; [exact F1|].
  eapply wp_bind, append_ok; [done|lia|change MBUF_SIZE with 2048; lia|].
  intros m1 P1 P2 _ P4 P5 P6. cbn beta iota. apply wp_bind, wp_modify.
  set (t' := mkRx _ _ _ _ _ _). set (ring' := <[pos := t']> (rx_ring (drv d))).
  destruct (put_on_rx d1 m' pos (Some m) ring' N1) as [K1 K2]; [rewrite N3; apply own_new|by rewrite N4|].
  rewrite N4 in K1, K2. match type of K1 with nic_ok ?x => set (d2 := x) in * end.
  eapply wp_bind, write_reg_spec; [apply K1|]. intros r Hr W1 W2 W3.
  rewrite decide_False in W1 by done. rewrite decide_False in W2 by done. rewrite decide_True in W3 by done.
  apply wp_ret. cbn [heap self drv frames]. apply HQ; cbn [heap drv frames regs rx_ring rx_mbufs]; try done.
  - apply (nic_ok_regs d2); [done|done|]. rewrite W2. apply K1.
  - unfold packet. rewrite P2, P5, F4, P4, F5, F6, Z.add_0_l, Nat2Z.id. done.
  - change (m_ptr m1 ∈ nic_boxes d2). rewrite K2, P6. apply elem_of_union. right. cbn. set_solver.
  - rewrite W1. cbn. by rewrite N5.
  - rewrite W2. cbn. by rewrite N5.
  - exists t', m'. pose proof (lookup_lt_Some _ _ _ F1). pose proof (lookup_lt_Some _ _ _ F2).
    cbn [drv d2 rx_ring rx_mbufs]. unfold ring'. rewrite !list_lookup_insert_eq by lia. done.
  - intros i Hi. cbn [drv d2 rx_ring rx_mbufs]. unfold ring'. by rewrite !list_lookup_insert_ne.
Qed.

(** The receive ring: the packets [pkts] wait, in order, from the descriptor after the tail on. *)
Record rx_ok (d : nic R) (pkts : list (list Z)) : Prop := {
  rx_nic : nic_ok d;
  rx_tail : 0 <= rdt (regs d) < 16;
  rx_len : (length pkts <= 16)%nat;
  rx_box : can_box (length pkts) (heap d);
  rx_wait : forall j pkt, pkts !! j = Some pkt -> rx_full (drv d) (slot (rdt (regs d) + 1) j) pkt;
  rx_rest : forall j, (length pkts <= j < 16)%nat -> rx_empty (drv d) (slot (rdt (regs d) + 1) j)
}.

Lemma slot_after h j : slot (Z.of_nat (slot h 0) + 1) j = slot h (S j).
Proof using Type.
  unfold slot. pose proof (Z.mod_pos_bound (h + Z.of_nat 0) 16 ltac:(lia)). rewrite Z2Nat.id by lia.
  rewrite <-Z.add_assoc, Z.add_mod_idemp_l by lia. do 2 f_equal. lia.
Qed.

Section recv.
Context {U : Type} `{!Pipe.ProcMem U}.
Implicit Types n : net (nic R) U.

Lemma next_rx_spec n (Q : nat -> net (nic R) U -> Prop) :
  rok (regs (dev n)) -> 0 <= rdt (regs (dev n)) < 16 ->
  (forall r, rok r -> tdh r = tdh (regs (dev n)) -> tdt r = tdt (regs (dev n)) -> rdt r = rdt (regs (dev n)) ->
     Q (slot (rdt (regs (dev n)) + 1) 0)
       (with_dev (mkNic r (heap (dev n)) (self (dev n)) (drv (dev n)) (frames (dev n))) n)) ->
  wp next_rx n Q.
Proof using Type.
  intros Hr Ht HQ. unfold next_rx. apply wp_bind, wp_on_dev, read_reg_spec; [done|].
  intros v r Hr' E1 E2 E3 _ Ev. rewrite (Ev eq_refl). apply wp_ret.
  assert (Es : Z.to_nat (u32_add (rdt (regs (dev n))) 1 `mod` RX_RING_SIZE) = slot (rdt (regs (dev n)) + 1) 0).
  { unfold slot, u32_add. rewrite wrap_small by lia. by rewrite Z.add_0_r. }
  rewrite Es. by apply HQ.
Qed.

(** Taking the first packet leaves the others. *)
Lemma rx_ok_next d d' pkt pkts :
  rx_ok d (pkt :: pkts) -> nic_ok d' -> can_box (length pkts) (heap d') ->
  let pos := slot (rdt (regs d) + 1) 0 in
  rdt (regs d') = Z.of_nat pos -> rx_empty (drv d') pos ->
  (forall i, i <> pos -> rx_ring (drv d') !! i = rx_ring (drv d) !! i /\ rx_mbufs (drv d') !! i = rx_mbufs (drv d) !! i) ->
  rx_ok d' pkts.
Proof using Type.
  intros [R1 R2 R3 R4 R5 R6] Hd' Hc pos Et He Hsame. cbn [length] in *.
  assert (Hother : forall j, (S j < 16)%nat -> slot (rdt (regs d) + 1) (S j) <> pos).
  { intros j Hj E. apply slot_inj in E; lia. }
  split; rewrite ?Et; try done; [pose proof (slot_lt (rdt (regs d) + 1) 0); unfold pos; lia|lia| |].
  - intros j q Hj. pose proof (lookup_lt_Some _ _ _ Hj). unfold pos. rewrite slot_after. unfold rx_full.
    destruct (Hsame _ (Hother j ltac:(lia))) as [-> ->]. by apply (R5 (S j)).
  - intros j Hj. unfold pos. rewrite slot_after. destruct (decide (S j = 16%nat)) as [->|Hne]; [by rewrite slot_16|].
    unfold rx_empty. destruct (Hsame _ (Hother j ltac:(lia))) as [-> ->]. apply (R6 (S j)). lia.
Qed.

(** A packet with the socket it is for and its payload. *)
Definition dgram : Type := list Z * nat * list Z.
Definition for_socket (t : list ControlBlock) (x : dgram) : Prop :=
  exists dp, carries x.1.1 dp x.2 /\ find t dp = Some x.1.2.

Lemma for_socket_queue_on t im x : for_socket t x -> for_socket (queue_on t im) x.
Proof using Type. intros (dp & Hc & Hf). exists dp. by rewrite find_queue_on. Qed.

(** The sockets after the datagrams [xs] have been queued in buffers [ms]. *)
Definition queued (t : list ControlBlock) (xs : list dgram) (ms : list MBuf) : list ControlBlock :=
  foldl queue_on t (zip (snd ∘ fst <$> xs) ms).

Lemma recv_loop_spec xs : forall fuel n (Q : unit -> net (nic R) U -> Prop),
  rx_ok (dev n) (fst ∘ fst <$> xs) -> Forall (for_socket (udp_table n)) xs -> (length xs < fuel)%nat ->
  (forall n' ms, rx_ok (dev n') [] -> length ms = length xs -> packet <$> ms = snd <$> xs ->
     udp_table n' = queued (udp_table n) xs ms -> woken n' = woken n ++ (snd ∘ fst <$> xs) ->
     arp_table n' = arp_table n -> frames (dev n') = frames (dev n) -> Q tt n') ->
  wp (recv_loop fuel (slot (rdt (regs (dev n)) + 1) 0)) n Q.
Proof using Hlo Hhi.
  induction xs as [|[[pkt i] bs] xs IH]; intros fuel n Q Hrx Hfs Hfuel HQ; (destruct fuel as [|fuel]; [cbn in Hfuel; lia|]);
    cbn [recv_loop]; apply wp_bind, wp_get.
  - destruct (rx_rest _ _ Hrx 0%nat ltac:(cbn; lia)) as (t & m & E1 & E2 & E3 & E4 & E5 & E6 & E7).
    eapply wp_bind, wp_get_at; [exact E1|]. rewrite E7. apply wp_ret. apply (HQ n []); try done. by rewrite app_nil_r.
  - pose proof (rx_wait _ _ Hrx 0%nat pkt eq_refl) as Hfull.
    pose proof Hfull as (t & m & E1 & _ & _ & _ & _ & _ & _ & _ & E9). set (pos := slot _ 0) in *.
    eapply wp_bind, wp_get_at; [exact E1|]. rewrite (proj2 (Z.eqb_neq _ _)) by done.
    apply wp_bind, wp_on_dev. eapply take_packet_spec; [apply Hrx|apply (rx_box _ _ Hrx)|exact Hfull|apply slot_lt|].
    intros m1 d1 T1 T2 T3 T4 T5 T6 T7 T8 T9 T10 T11.
    pose proof (rx_ok_next (dev n) d1 pkt _ Hrx T1 T5 T9 T10 T11) as Hrx1.
    apply Forall_cons_iff in Hfs as [(dp & Hc & Hf) Hfs]. cbn [fst snd] in Hc, Hf.
    destruct (find_lookup _ _ _ Hf) as [cb Hcb]. change (rx_ok d1 (fst ∘ fst <$> xs)) in Hrx1.
    eapply wp_bind, (eth_rx_carries m1 dp bs i cb); [done|by rewrite T3|exact Hf|exact Hcb|].
    intros m2 G1 G2 G3. eapply wp_bind, next_rx_spec; [apply T1|apply Hrx1|].
    cbn [dev delivered with_dev]. intros r Hr V1 V2 V3. rewrite <-V3.
    set (n2 := with_dev _ _). assert (Et2 : udp_table n2 = queue_on (udp_table n) (i, m2)) by (by rewrite <-(delivered_queue_on i cb m2 n Hcb)).
    apply (IH fuel n2).
    + destruct Hrx1 as [X1 X2 X3 X4 X5 X6]. split; cbn [dev n2 with_dev regs heap drv]; rewrite ?V3; try done.
      apply nic_ok_regs; [done|done|]. rewrite V2. apply T1.
    + rewrite Et2. eapply Forall_impl; [exact Hfs|]. intros x. apply for_socket_queue_on.
    + cbn in Hfuel. lia.
    + intros n' ms Y1 Y2 Y3 Y4 Y5 Y6 Y7. apply (HQ n' (m2 :: ms)); try done.
      * cbn. by rewrite Y2.
      * cbn. by rewrite G3, Y3.
      * rewrite Y4, Et2. done.
      * rewrite Y5. cbn [woken n2 with_dev delivered]. rewrite <-app_assoc. done.
      * by rewrite Y7.
Qed.


(** C33: what arrives is delivered.  When every packet that waits on the receive ring is a
    UDP datagram for an open socket, and the heap has room for the fresh buffers, an interrupt takes all of them off the ring in the order of arrival: it
    queues each payload on the socket that is bound to its port and wakes that
    socket, gives every descriptor a fresh buffer and clears it, and returns the descriptors to the card.
    Sixteen descriptors bound the rounds of the loop, also when all of them are full. *)
Theorem intr_delivers xs n :
  rx_ok (dev n) (fst ∘ fst <$> xs) -> Forall (for_socket (udp_table n)) xs ->
  wp intr n (fun _ n' => exists ms,
    packet <$> ms = snd <$> xs /\ udp_table n' = queued (udp_table n) xs ms /\
    woken n' = woken n ++ (snd ∘ fst <$> xs) /\ rx_ok (dev n') [] /\
    arp_table n' = arp_table n /\ frames (dev n') = frames (dev n)).
Proof using Hlo Hhi.
  intros Hrx Hfs. pose proof (rx_len _ _ Hrx) as Hlen. rewrite length_fmap in Hlen. unfold intr, recv. apply wp_bind.
  eapply wp_bind, next_rx_spec; [apply Hrx|apply Hrx|]. intros r Hr E1 E2 E3. rewrite <-E3. set (n1 := with_dev _ _).
  apply (recv_loop_spec xs 17 n1); [|done|lia|].
  - destruct Hrx as [X1 X2 X3 X4 X5 X6]. split; cbn [dev n1 with_dev regs heap drv]; rewrite ?E3; try done.
    apply nic_ok_regs; [done|done|]. rewrite E2. apply X1.
  - intros n' ms Y1 Y2 Y3 Y4 Y5 Y6 Y7. apply wp_bind, wp_on_dev, read_reg_spec; [apply Y1|].
    intros v r2 Hr2 F1 F2 F3 _ _. apply wp_ret. exists ms. split_and!; try done.
    destruct Y1 as [X1 X2 X3 X4 X5 X6]. split; cbn [dev with_dev regs heap drv]; rewrite ?F3; try done.
    apply nic_ok_regs; [done|done|]. rewrite F2. apply X1.
Qed.

End recv.

(** The steps from a ring in order. *)
Lemma ring_ok_steps c c' pend : rtc tx_step c c' -> ring_ok c.1 c.2 pend -> exists pend', ring_ok c'.1 c'.2 pend'.
Proof using Hlo Hhi.
  intros Hst. revert pend. induction Hst as [c|c c1 c' Hs _ IH]; intros pend Hr; [by exists pend|].
  destruct (proj1 (ring_ok_step _ _ _ Hs Hr)) as [pend1 Hr1]. by eapply IH.
Qed.

Lemma ring_full_steps c c' pend :
  rtc tx_step c c' -> ring_ok c.1 c.2 pend -> length pend = 16%nat -> c'.2 = c.2 /\ frames c'.1 = frames c.1.
Proof using Hlo Hhi.
  intros Hst. induction Hst as [c|c c1 c' Hs _ IH]; intros Hr Hl; [done|].
  destruct (proj2 (ring_ok_step _ _ _ Hs Hr) Hl) as (Hr1 & <- & <-). by apply IH.
Qed.

(** C32: transmission is in order and uncorrupted.  After [init], whatever
    calls of [send] and of the heap the stack makes and however the steps of the card fall between them,
    the card has put on the wire exactly the frames handed to [send] so far, in
    that order and each once, but for the last ones, at most sixteen, which are
    still on the ring: a buffer is not freed or reused before the card has read it. *)
Theorem tx_in_order s :
  booted s -> can_box 16 (heap s) ->
  exists s0, init s = Done (tt, s0) /\ frames s0 = [] /\
  forall c, rtc tx_step (s0, []) c ->
  exists pend, Some <$> frames c.1 = c.2 ++ (Some <$> pend) /\ (length pend <= 16)%nat.
Proof using Hlo Hhi.
  intros Hb Hc. destruct (wp_elim _ _ _ (init_spec 0 s Hb Hc)) as ([] & s0 & E & [R1 R2 R3 R4 R5]).
  exists s0. split_and!; [done|done|]. intros c Hst. destruct (ring_ok_steps _ _ _ Hst R1) as [pend Hr].
  exists pend. split; [apply Hr|apply Hr].
Qed.

(** C35: the transmit ring can stall for good.  [send] fills all sixteen descriptors,
    which brings the tail round to the head; the card takes the ring for empty then.  Once sixteen frames are waiting,
    nothing is sent any more and no frame is taken any more, whatever happens. *)
Theorem tx_ring_stalls s s0 c c' :
  booted s -> can_box 16 (heap s) -> init s = Done (tt, s0) ->
  rtc tx_step (s0, []) c -> length (frames c.1) = (length c.2 + 16)%nat ->
  rtc tx_step c c' -> c'.2 = c.2 /\ frames c'.1 = frames c.1.
Proof using Hlo Hhi.
  intros Hb Hc E Hst Hl Hst'. destruct (wp_elim _ _ _ (init_spec 0 s Hb Hc)) as ([] & s1 & E1 & [R1 _ _ _ _]).
  assert (s1 = s0) as -> by congruence. destruct (ring_ok_steps _ _ _ Hst R1) as [pend Hr].
  apply (ring_full_steps c c' pend Hst' Hr). pose proof (f_equal length (ri_frames _ _ _ Hr)) as Hlen.
  rewrite length_app, !length_fmap in Hlen. lia.
Qed.

End laws.

(** ** A card and a machine for examples *)

Record regfile := mkRegs { cells : gmap Z Z }.
Definition cell (r : regfile) (i : Z) : Z := default 0 (cells r !! i).

#[export] Instance regfile_regs : Regs regfile := {|
  write_e1000_regs i v := fun r => Done (tt, mkRegs (<[i := v]> (cells r)));
  read_e1000_regs i := fun r => Done (cell r i, r)
|}.

Lemma cell_write r i v j : cell (mkRegs (<[i := v]> (cells r))) j = if decide (i = j) then v else cell r j.
Proof. unfold cell. cbn [cells]. case_decide as E; [subst; by rewrite lookup_insert_eq|by rewrite lookup_insert_ne]. Qed.

#[export] Instance regfile_laws : RegsLaws regfile.
Proof.
  refine {| rok := fun _ => True; tdh r := cell r E1000_TDH; tdt r := cell r E1000_TDT; rdt r := cell r E1000_RDT;
    advance r := mkRegs (<[E1000_TDH := (cell r E1000_TDH + 1) `mod` 16]> (cells r)) |}.
  - intros r i _. exists (cell r i), r. split_and!; try done; by intros ->.
  - intros r i v _. eexists. split; [done|]. by rewrite !cell_write.
  - intros r _. by rewrite !cell_write, decide_True.
Defined.

Definition sample_lo : Z := 0x80010000.
Definition sample_hi : Z := 0x80040000.
Definition sample_heap : Kalloc.heap := Kalloc.mkHeap (Kalloc.mkAllocator [(sample_lo, sample_hi - sample_lo)]) [].
Definition sample_nic : nic regfile := mkNic (mkRegs ∅) sample_heap 0x80008000 new [].

Lemma sample_booted : booted sample_lo sample_hi sample_nic.
Proof.
  split; try done. split; [|split; [done|by repeat constructor]].
  constructor; [|done]. by unfold Kalloc.region_ok, range_end, sample_lo, sample_hi.
Qed.

Fixpoint can_boxb (k : nat) (h : Kalloc.heap) : bool :=
  match k with
  | O => true
  | S k => match box_new h with Done (_, h') => can_boxb k h' | _ => false end
  end.
Lemma can_boxb_ok k : forall h, can_boxb k h = true -> can_box k h.
Proof.
  induction k as [|k IH]; intros h Hb; [done|]. cbn [can_boxb can_box] in *. destruct (box_new h) as [[p h']| | | |]; try done.
  exists p, h'. split; [done|]. by apply IH.
Qed.

Lemma sample_room : can_box 40 (heap sample_nic).
Proof. apply can_boxb_ok. by vm_compute. Qed.
Lemma sample_room16 : can_box 16 (heap sample_nic).
Proof. apply can_boxb_ok. by vm_compute. Qed.

Lemma tx_in_order_witness : exists s0, init sample_nic = Done (tt, s0) /\ frames s0 = [].
Proof.
  destruct (tx_in_order sample_lo sample_hi ltac:(done) ltac:(done) sample_nic sample_booted sample_room16) as (s0 & E & Hf & _).
  exists s0. split; [exact E|exact Hf].
Defined.

(** A burst of empty packets. *)
Fixpoint burst (k : nat) : M (nic regfile) unit :=
  match k with
  | O => ret tt
  | S k => let! m := alloc 0 in let! _ := send m in burst k
  end.

Lemma burst_steps lo hi k : 0 < lo -> hi <= 2 ^ 63 -> forall (s s' : nic regfile) pend,
  ring_ok lo hi s [] pend -> burst k s = Done (tt, s') -> rtc tx_step (s, []) (s', []).
Proof.
  intros Hlo Hhi. induction k as [|k IH]; intros s s' pend Hr E; [by injection E as ->|].
  cbn [burst] in E. unfold bind at 1, alloc in E. change (MBUF_SIZE <? 0) with false in E. cbn iota in E.
  unfold bind at 1 in E. destruct (box_new s) as [[p s1]| | | |] eqn:Eb; try done. cbn [ret] in E.
  destruct (box_new_nic lo hi Hlo Hhi s p s1 (ri_ok _ _ _ _ _ Hr) Eb) as (N1 & N2 & N3 & N4 & N5 & _).
  destruct (alloc_ok p 0 N2 N3 ltac:(by change MBUF_SIZE with 2048)) as (A1 & _).
  assert (Hm : m_ptr (mbuf_at p 0) ∈ nic_boxes s1) by (rewrite N5; apply own_new).
  pose proof (step_new s p s1 [] Eb) as S1. destruct (proj1 (ring_ok_step lo hi Hlo Hhi _ _ _ S1 Hr)) as [p1 Hr1].
  unfold bind at 1 in E. destruct (send (mbuf_at p 0) s1) as [[r s2]| | | |] eqn:Es; try done.
  pose proof (step_send s1 _ r s2 [] A1 Hm Es) as S2. destruct (proj1 (ring_ok_step lo hi Hlo Hhi _ _ _ S2 Hr1)) as [p2 Hr2].
  eapply rtc_l; [exact S1|]. eapply rtc_l; [exact S2|]. by eapply IH.
Qed.

Lemma tx_ring_stalls_witness : exists s1, length (frames s1) = 16%nat /\
  forall c, rtc tx_step (s1, []) c -> c.2 = [] /\ frames c.1 = frames s1.
Proof.
  destruct (wp_elim _ _ _ (init_spec sample_lo sample_hi ltac:(done) ltac:(done) 0 sample_nic sample_booted sample_room16))
    as ([] & s0 & E & [R1 R2 _ _ _]).
  assert (Hrun : match (let! _ := init in burst 16) sample_nic with
    | Done (_, s) => Nat.eqb (length (frames s)) 16 | _ => false end = true) by (by vm_compute).
  rewrite (bind_Done init (fun _ => burst 16) sample_nic tt s0 E) in Hrun.
  destruct (burst 16 s0) as [[[] s1]| | | |] eqn:Eb; [|discriminate Hrun..].
  apply Nat.eqb_eq in Hrun. exists s1. split; [done|]. intros c Hst.
  apply (tx_ring_stalls sample_lo sample_hi ltac:(done) ltac:(done) sample_nic s0 (s1, []) c).
  - apply sample_booted.
  - apply sample_room16.
  - exact E.
  - by apply (burst_steps sample_lo sample_hi 16 ltac:(done) ltac:(done) s0 s1 []).
  - exact Hrun.
  - exact Hst.
Defined.

(** *** A stack on top of it *)

(** A process whose memory is a list of bytes. *)
Definition flat_mem : Pipe.ProcMem (list Z) := {|
  Pipe.copy_in a n := fun u =>
    if (0 <=? a) && (0 <=? n) && (a + n <=? Z.of_nat (length u)) then Done ((take (Z.to_nat n) (drop (Z.to_nat a) u), Ok tt), u)
    else Done (([], Err "copy_in"), u);
  Pipe.copy_out a bs n := fun u =>
    if (0 <=? a) && (0 <=? n) && (a + n <=? Z.of_nat (length u)) then Done (Ok tt, splice (Z.to_nat a) (take (Z.to_nat n) bs) u)
    else Done (Err "copy_out", u)
|}.
#[local] Existing Instance flat_mem.
#[local] Instance sample_nic_laws : NicLaws (nic regfile) := e1000_laws sample_lo sample_hi eq_refl ltac:(done).

(** Socket 0 sends from port 7 to port 9 of everyone, socket 1 is bound to port 9. *)
Definition sample_sockets : list ControlBlock :=
  mkCb true 7 0 9 [] :: mkCb true 9 0 0 [] :: replicate 14 cb_new.
Definition sample_net (d : nic regfile) (u : list Z) : net (nic regfile) (list Z) :=
  mkNet d u (replicate TABLE_SIZE entry_new) sample_sockets [].



Lemma sample_nic_ready : exists d, ready sample_lo sample_hi 24 d.
Proof.
  destruct (wp_elim _ _ _ (init_spec sample_lo sample_hi ltac:(done) ltac:(done) 24 sample_nic sample_booted sample_room))
    as ([] & d & _ & Hr). by exists d.
Qed.

Lemma ready_send x (d : nic regfile) : ready sample_lo sample_hi (S x) d ->
  nok d /\ tx_ready d /\ exists p d1, box_new d = Done (p, d1) /\ can_box x (heap d1).
Proof.
  intros [R1 _ _ _ (p & h' & E & Hc)]. split_and!; [apply R1| |].
  - destruct (ri_free _ _ _ _ _ R1 0%nat ltac:(cbn; lia)) as (t & Ht & Hd). exists t. split; [|done].
    by rewrite (slot_tdt _ _ _ _ _ R1).
  - eexists p, _. cbn [box_new e1000_nic nic_box nic_heap]. unfold on_heap. rewrite E. by split.
Qed.

Lemma datagram_delivered_witness : exists d n1, socket_write 0 1 3 (sample_net d [1; 2; 3; 4; 5]) = Done (Ok 3, n1).
Proof.
  destruct sample_nic_ready as (d & Hr). destruct (ready_send 23 d Hr) as (H1 & H2 & p & d1 & H3 & _). exists d.
  pose proof (datagram_delivered 0 (mkCb true 7 0 9 []) 1 3 [2; 3; 4] ETHERNET_MAC_ADDR_BROADCAST p d1
    (sample_net d [1; 2; 3; 4; 5]) 1 (mkCb true 9 0 0 []) (sample_net d [0; 0; 0]) H1 H2 H3 eq_refl eq_refl
    ltac:(done) ltac:(done) ltac:(done) eq_refl eq_refl ltac:(done) eq_refl eq_refl H1 eq_refl eq_refl eq_refl) as Hw.
  destruct (wp_elim _ _ _ Hw) as (r & n1 & E & -> & _). exists n1. exact E.
Defined.

Lemma socket_write_overruns_witness : exists d,
  socket_write 0 0 2007 (sample_net d (replicate 2007 7)) = Undef.
Proof.
  destruct sample_nic_ready as (d & Hr). destruct (ready_send 23 d Hr) as (H1 & H2 & p & d1 & H3 & _). exists d.
  apply (socket_write_overruns 0 0 2007 (replicate 2007 7) p d1 (sample_net d (replicate 2007 7)) H1 H3); [done| |by vm_compute].
  by vm_compute.
Defined.

Lemma udp_connect_spec_witness : exists d n1,
  udp_connect 0 (mkSockAddr 2 53 0x0a000202) (sample_net d []) = Done (Ok tt, n1) /\
  udp_table n1 !! 0%nat = Some (mkCb true 7 0x0a000202 53 []).
Proof.
  exists sample_nic. pose proof (udp_connect_spec 0 (mkSockAddr 2 53 0x0a000202) (sample_net sample_nic []) eq_refl) as Hs.
  cbn [sample_net udp_table sample_sockets lookup list_lookup cb_used port Z.eqb] in Hs.
  destruct Hs as (p & E & ->). eexists. split; [exact E|]. reflexivity.
Defined.

(** A frame of type IPv6 in a buffer at [p]. *)
Definition ipv6_mbuf (p : Z) : MBuf :=
  mkMBuf p (p ⊞ 16) 14 (eth_bytes (mkEth LOCAL_MAC_ADDR GATEWAY_MAC_ADDR (toggle_endian16 0x86dd)) ++ replicate 2034 0).

Lemma ipv6_mbuf_ok p : 0 < p -> p + 2064 < 2 ^ 64 ->
  mbuf_ok (ipv6_mbuf p) /\ packet (ipv6_mbuf p) = eth_bytes (mkEth LOCAL_MAC_ADDR GATEWAY_MAC_ADDR (toggle_endian16 0x86dd)).
Proof.
  intros H1 H2. assert (Eo : off (ipv6_mbuf p) = 0) by (unfold off, buf_ptr, ipv6_mbuf; cbn [head m_ptr]; lia).
  split; [|unfold packet; rewrite Eo; by vm_compute]. split; rewrite ?Eo; [by vm_compute|done|done|done|by vm_compute].
Qed.

Lemma eth_rx_fate_witness : exists (n : net (nic regfile) (list Z)) m msg, eth_rx m n = Panic msg.
Proof.
  destruct sample_nic_ready as (d & Hr). destruct (ready_send 23 d Hr) as (H1 & _ & p & d1 & H3 & (q & h2 & Hq & _)).
  destruct (box_new_law d p d1 H1 H3) as (N1 & N2 & N3 & N4 & N5 & _). destruct (ipv6_mbuf_ok p N2 N3) as [M1 M2].
  assert (Hn : box_new d1 = Done (q, mkNic (regs d1) h2 (self d1) (drv d1) (frames d1))).
  { cbn [box_new e1000_nic nic_box nic_heap]. unfold on_heap. by rewrite Hq. }
  assert (Hp : m_ptr (ipv6_mbuf p) ∈ boxes d1) by (rewrite N5; apply own_new).
  pose proof (eth_rx_fate (ipv6_mbuf p) q _ (sample_net d1 []) N1 M1 Hp Hn) as Hw. rewrite M2 in Hw.
  change (frame_fate _ _) with Panics in Hw. destruct Hw as [msg E]. by exists (sample_net d1 []), (ipv6_mbuf p), msg.
Defined.

(** The card writes [pkt] to the buffer of descriptor [i]. *)
Definition card_receive (i : nat) (t : RxDesc) (m : MBuf) (pkt : list Z) (d : nic regfile) : nic regfile :=
  mkNic (regs d) (heap d) (self d) (mkE1000 (tx_ring (drv d)) (tx_mbufs (drv d))
    (<[i := mkRx (r_addr t) (Z.of_nat (length pkt)) 0 3 0 0]> (rx_ring (drv d)))
    (<[i := Some (mkMBuf (m_ptr m) (head m) (len m) (pkt ++ drop (length pkt) (buf m)))]> (rx_mbufs (drv d)))) (frames d).

Lemma sample_received pkt d : ready sample_lo sample_hi 24 d -> (length pkt <= 2048)%nat ->
  exists d', rx_ok sample_lo sample_hi d' [pkt].
Proof.
  intros [R1 R2 R3 R4 R5] Hl. destruct (R4 0%nat ltac:(lia)) as (t & m & E1 & E2 & E3 & E4 & E5 & E6 & E7).
  exists (card_receive 0 t m pkt d).
  set (m' := mkMBuf (m_ptr m) (head m) (len m) (pkt ++ drop (length pkt) (buf m))).
  pose proof (ri_ok _ _ _ _ _ R1) as [H1 H2 H3 H4 H5 H6 H7 H8].
  assert (Eh : held (card_receive 0 t m pkt d) = held d).
  { unfold held, ring_ptrs. cbn [card_receive drv tx_mbufs rx_mbufs]. do 2 f_equal. rewrite list_fmap_insert.
    apply list_insert_id. rewrite list_lookup_fmap, E2. done. }
  pose proof (lookup_lt_Some _ _ _ E1). pose proof (lookup_lt_Some _ _ _ E2). pose proof (mo_buf m E3) as Eb.
  split; cbn [card_receive regs heap length]; rewrite ?R3; [|lia|lia| | |].
  - split; rewrite ?Eh; done.
  - destruct R5 as (p & h' & Ep & _). by exists p, h'.
  - intros j q Hj. destruct j as [|j]; [|done]. injection Hj as <-. exists (mkRx (r_addr t) (Z.of_nat (length pkt)) 0 3 0 0), m'.
    change (slot (15 + 1) 0) with 0%nat. cbn [drv card_receive rx_ring rx_mbufs]. rewrite !list_lookup_insert_eq by lia.
    split_and!; try done; [|cbn [buf m']; by rewrite take_app_length].
    destruct E3 as [B1 B2 B3 B4 B5]. split; try done. cbn [buf m']. rewrite length_app, length_drop. lia.
  - intros j Hj. unfold rx_empty. cbn [drv card_receive rx_ring rx_mbufs].
    assert (Hne : slot (15 + 1) j <> 0%nat).
    { intros E. apply (slot_inj (15 + 1) j 0) in E; lia. }
    rewrite !list_lookup_insert_ne by done. apply R4, slot_lt.
Qed.

Definition sample_frame : list Z :=
  frame ETHERNET_MAC_ADDR_BROADCAST IPv4 (ip_packet 0 0 UDP_PROTO (datagram 7 9 [1; 2; 3])) ++ replicate 15 0.

Lemma intr_delivers_witness : exists (n : net (nic regfile) (list Z)) m,
  packet m = [1; 2; 3] /\
  wp intr n (fun _ n' => udp_table n' = queue_on sample_sockets (1%nat, m) /\ woken n' = [1%nat]) .
Proof.
  destruct sample_nic_ready as (d & Hr). destruct (sample_received sample_frame d Hr ltac:(vm_compute; lia)) as (d' & Hrx).
  assert (Hs : Forall (for_socket sample_sockets) [(sample_frame, 1%nat, [1; 2; 3])]).
  { constructor; [|done]. exists 9. split; [|done]. apply frame_carries; done. }
  pose proof (intr_delivers sample_lo sample_hi ltac:(done) ltac:(done) [(sample_frame, 1%nat, [1; 2; 3])] (sample_net d' []) Hrx Hs) as Hw.
  destruct (wp_elim _ _ _ Hw) as ([] & n' & E & ms & Hp & Ht & Hwk & _).
  destruct ms as [|m [|]]; try discriminate Hp. exists (sample_net d' []), m. split; [by injection Hp|].
  apply (wp_Done _ _ _ _ _ E). split; [exact Ht|exact Hwk].
Defined.

End E1000.
