(* ===== verification/SleepLock.v ===== *)
(** * Sleep locks, sleep and wakeup

    Models how a sleep lock ([kernel/src/sleeplock.rs]) is built from spin locks
    ([kernel/src/spinlock.rs]), [Proc::sleep] ([kernel/src/proc.rs]), [wakeup]
    and [find_runnable] ([kernel/src/process.rs]) and the scheduler
    ([kernel/src/cpu.rs]), for any number of processes that use one sleep lock on
    different CPUs.  Every process has a program counter that stops wherever the
    code can wait or another CPU can observe a difference; a step relation
    interleaves them.  Spin locks are taken when free, with sequentially
    consistent memory. *)

From stdpp Require Import functions.
From S2P Require Import Prelude.

Module SleepLock.

Inductive ProcState := Unused | Allocated | Runnable | Running | Sleeping | Zombie.

#[global] Instance proc_state_eq_dec : EqDecision ProcState.
Proof. solve_decision. Defined.

(** Where a process is: outside, in [SleepLock::lock] ([L]), in [Proc::sleep]
    ([S]), with the lock held ([Crit]), in [SleepLock::unlock] ([U]), where the
    loop of [wakeup] carries the index of the process it has come to. *)
Inductive pc :=
| Out | LAcq | LChk | LSet | LRel
| SAcq | SRel | SSched | Asleep | SBack | SRet
| Crit
| UAcq | USet | UWake (j : nat) | UWoke (j : nat) | URel.

#[global] Instance pc_eq_dec : EqDecision pc.
Proof. solve_decision. Defined.

(** [locked] and [inner_lock] of the sleep lock, and the [inner] spin lock, the
    state, whether [chan] is the lock's channel, and the program counter of every
    process.  Spin locks record the process that holds them. *)
Record kst := mkK {
  locked : bool;
  inner_lock : option nat;
  plock : nat -> option nat;
  pstate : nat -> ProcState;
  chan : nat -> bool;
  at_ : nat -> pc
}.

Definition goto (i : nat) (x : pc) (s : kst) : kst :=
  mkK (locked s) (inner_lock s) (plock s) (pstate s) (chan s) (<[i := x]> (at_ s)).
Definition set_locked (b : bool) (s : kst) : kst :=
  mkK b (inner_lock s) (plock s) (pstate s) (chan s) (at_ s).
Definition set_pstate (j : nat) (x : ProcState) (s : kst) : kst :=
  mkK (locked s) (inner_lock s) (plock s) (<[j := x]> (pstate s)) (chan s) (at_ s).
Definition set_chan (j : nat) (b : bool) (s : kst) : kst :=
  mkK (locked s) (inner_lock s) (plock s) (pstate s) (<[j := b]> (chan s)) (at_ s).

(** ** Spin locks: [SpinLock::lock] and dropping the guard *)

Definition acquire_inner (i : nat) (s : kst) : option kst :=
  match inner_lock s with
  | None => Some (mkK (locked s) (Some i) (plock s) (pstate s) (chan s) (at_ s))
  | Some _ => None
  end.
Definition release_inner (s : kst) : kst :=
  mkK (locked s) None (plock s) (pstate s) (chan s) (at_ s).
Definition acquire_proc (i j : nat) (s : kst) : option kst :=
  match plock s j with
  | None => Some (mkK (locked s) (inner_lock s) (<[j := Some i]> (plock s)) (pstate s) (chan s) (at_ s))
  | Some _ => None
  end.
Definition release_proc (j : nat) (s : kst) : kst :=
  mkK (locked s) (inner_lock s) (<[j := None]> (plock s)) (pstate s) (chan s) (at_ s).

(** ** The functions, step by step *)

(** [SleepLock::lock] *)
Definition lock_step (i : nat) (s : kst) : option kst :=
  match at_ s i with
  | Out => Some (goto i LAcq s)
  | LAcq => goto i LChk <$> acquire_inner i s
  | LChk => Some (goto i (if locked s then SAcq else LSet) s)
  | LSet => Some (goto i LRel (set_locked true s))
  | LRel => Some (goto i Crit (release_inner s))
  | _ => None
  end.

(** [Proc::sleep] with [Cpu::sched]: the switch to the scheduler, which drops
    the guard, is one step; [SBack] is the return from [sched] with the process
    lock held, where [weaked.lock()] is evaluated before the guard is dropped. *)
Definition sleep_step (i : nat) (s : kst) : option kst :=
  match at_ s i with
  | SAcq => (fun s => goto i SRel (set_pstate i Sleeping (set_chan i true s))) <$> acquire_proc i i s
  | SRel => Some (goto i SSched (release_inner s))
  | SSched => Some (goto i Asleep (release_proc i s))
  | SBack => goto i SRet <$> acquire_inner i s
  | SRet => Some (goto i LChk (release_proc i s))
  | _ => None
  end.

(** [ProcessTable::wakeup] for [n] processes *)
Definition wakeup_step (n i : nat) (s : kst) : option kst :=
  match at_ s i with
  | UWake j =>
      if decide (j < n)%nat then
        if decide (j = i) then Some (goto i (UWake (S j)) s)
        else goto i (UWoke j) <$> acquire_proc i j s
      else Some (goto i URel s)
  | UWoke j =>
      let s := if decide (pstate s j = Sleeping /\ chan s j = true) then set_pstate j Runnable s else s in
      Some (goto i (UWake (S j)) (release_proc j s))
  | _ => None
  end.

(** [SleepLock::unlock], called when the guard is dropped *)
Definition unlock_step (i : nat) (s : kst) : option kst :=
  match at_ s i with
  | Crit => Some (goto i UAcq s)
  | UAcq => goto i USet <$> acquire_inner i s
  | USet => Some (goto i (UWake 0) (set_locked false s))
  | URel => Some (goto i Out (release_inner s))
  | _ => None
  end.

(** [ProcessTable::find_runnable] finding process [j] *)
Definition find_runnable (j : nat) (s : kst) : option kst :=
  match plock s j with
  | None => if decide (pstate s j = Runnable) then Some (set_pstate j Allocated s) else None
  | Some _ => None
  end.

(** The rest of the scheduler's round, up to the return from [sched] in the
    process. *)
Definition run_process (j : nat) (s : kst) : option kst :=
  if decide (pstate s j = Allocated /\ at_ s j = Asleep) then
    (fun s => goto j SBack (set_chan j false (set_pstate j Running s))) <$> acquire_proc j j s
  else None.

Inductive step (n : nat) : kst -> kst -> Prop :=
| do_lock i s s' : (i < n)%nat -> lock_step i s = Some s' -> step n s s'
| do_sleep i s s' : (i < n)%nat -> sleep_step i s = Some s' -> step n s s'
| do_wakeup i s s' : (i < n)%nat -> wakeup_step n i s = Some s' -> step n s s'
| do_unlock i s s' : (i < n)%nat -> unlock_step i s = Some s' -> step n s s'
| do_find j s s' : (j < n)%nat -> find_runnable j s = Some s' -> step n s s'
| do_run j s s' : (j < n)%nat -> run_process j s = Some s' -> step n s s'.

Definition start : kst := mkK false None (fun _ => None) (fun _ => Running) (fun _ => false) (fun _ => Out).

(** ** The invariant *)

(** The program points at which a process holds [inner_lock], its own process
    lock, and the sleep lock. *)
Definition has_inner (x : pc) : bool :=
  match x with
  | LChk | LSet | LRel | SAcq | SRel | SRet | USet | UWake _ | UWoke _ | URel => true
  | _ => false
  end.
Definition has_proc (x : pc) : bool := match x with SRel | SSched | SBack | SRet => true | _ => false end.
Definition has_lock (x : pc) : bool := match x with LRel | Crit | UAcq | USet => true | _ => false end.
(** What a process that holds [inner_lock] knows of [locked]. *)
Definition knows (x : pc) : option bool :=
  match x with
  | SAcq | SRel => Some true
  | LSet | UWake _ | UWoke _ | URel => Some false
  | _ => None
  end.
(** The process lock of another process that [wakeup] holds. *)
Definition waking (x : pc) : option nat := match x with UWoke j => Some j | _ => None end.
(** The loop of [wakeup] still has to come to process [j]. *)
Definition will_wake (j : nat) (x : pc) : Prop :=
  match x with UWake k | UWoke k => (k <= j)%nat | _ => False end.

Definition inner_ok (o : option nat) (f : nat -> pc) : Prop := forall i, o = Some i <-> has_inner (f i) = true.
Definition proc_ok (pl : nat -> option nat) (f : nat -> pc) : Prop :=
  forall i j, pl j = Some i <-> (i = j /\ has_proc (f j) = true) \/ waking (f i) = Some j.
Record lock_ok (lk : bool) (f : nat -> pc) : Prop := {
  lo_held i : has_lock (f i) = true -> lk = true;
  lo_excl i j : has_lock (f i) = true -> has_lock (f j) = true -> i = j;
  lo_some : lk = true -> exists i, has_lock (f i) = true;
  lo_knows i b : knows (f i) = Some b -> lk = b
}.
Definition state_ok (x : pc) (st : ProcState) (ch : bool) : Prop :=
  match x with
  | SRel | SSched => st = Sleeping /\ ch = true
  | Asleep => (st = Sleeping /\ ch = true) \/ st = Runnable \/ st = Allocated
  | _ => st = Running
  end.

Record inv (n : nat) (s : kst) : Prop := {
  i_out i : (n <= i)%nat -> at_ s i = Out;
  i_inner : inner_ok (inner_lock s) (at_ s);
  i_proc : proc_ok (plock s) (at_ s);
  i_lock : lock_ok (locked s) (at_ s);
  i_state i : state_ok (at_ s i) (pstate s i) (chan s i);
  i_woken j : pstate s j = Sleeping -> locked s = false -> exists i, will_wake j (at_ s i)
}.

Lemma start_inv n : inv n start.
Proof.
  split; cbn; [done| |intros i j; cbn; naive_solver|by split|done|done].
  intros i. by split.
Qed.

(** *** Moving one process *)

Section move.
Context (f : nat -> pc) (i : nat) (y : pc).

Lemma moved_eq : (<[i := y]> f) i = y.
Proof using Type. apply fn_lookup_insert. Qed.

Lemma moved_ne j : j <> i -> (<[i := y]> f) j = f j.
Proof using Type. intros. by apply fn_lookup_insert_ne. Qed.

Ltac at_case j := destruct (decide (j = i)) as [->|?]; rewrite ?moved_eq, ?moved_ne by done.

Lemma inner_keep o : inner_ok o f -> has_inner y = has_inner (f i) -> inner_ok o (<[i := y]> f).
Proof using Type. intros Ho Hy j. at_case j; [rewrite Hy|]; apply Ho. Qed.

Lemma inner_acquire : inner_ok None f -> has_inner y = true -> inner_ok (Some i) (<[i := y]> f).
Proof using Type.
  intros Ho Hy j. at_case j; [by rewrite Hy|]. split; [by intros [= ->]|]. intros Hj. by apply Ho in Hj.
Qed.

Lemma inner_release : inner_ok (Some i) f -> has_inner y = false -> inner_ok None (<[i := y]> f).
Proof using Type.
  intros Ho Hy j. at_case j; [by rewrite Hy|]. split; [done|]. intros Hj. apply Ho in Hj. congruence.
Qed.

(** Nobody else has [inner_lock]. *)
Lemma inner_others j : inner_ok (Some i) f -> j <> i -> has_inner (f j) = false.
Proof using Type. intros Ho Hj. apply not_true_is_false. intros H. apply Ho in H. congruence. Qed.

Lemma proc_keep pl :
  proc_ok pl f -> has_proc y = has_proc (f i) -> waking y = waking (f i) -> proc_ok pl (<[i := y]> f).
Proof using Type. intros Ho Hy Hw a b. rewrite (Ho a b). at_case a; at_case b; by rewrite ?Hy, ?Hw. Qed.

Lemma proc_acquire_own pl :
  proc_ok pl f -> pl i = None -> has_proc y = true -> waking y = None -> waking (f i) = None ->
  proc_ok (<[i := Some i]> pl) (<[i := y]> f).
Proof using Type.
  intros Ho Hn Hy Hw Hf a b. destruct (decide (b = i)) as [->|Hb].
  - rewrite moved_eq, Hy, fn_lookup_insert. at_case a; [naive_solver|]. split; [naive_solver|].
    intros [[? _]|Ha]; [done|]. assert (pl i = Some a) by (apply Ho; by right). congruence.
  - rewrite (moved_ne b) by done. rewrite fn_lookup_insert_ne by done. rewrite (Ho a b). at_case a; [|done].
    rewrite Hw, Hf. done.
Qed.

Lemma proc_release_own pl :
  proc_ok pl f -> has_proc (f i) = true -> has_proc y = false -> waking y = None -> waking (f i) = None ->
  proc_ok (<[i := None]> pl) (<[i := y]> f).
Proof using Type.
  intros Ho Hf Hy Hw Hw' a b. assert (Hi : pl i = Some i) by (apply Ho; by left).
  destruct (decide (b = i)) as [->|Hb].
  - rewrite moved_eq, Hy, fn_lookup_insert. at_case a; [rewrite Hw; naive_solver|]. split; [done|].
    intros [[_ ?]|Ha]; [done|]. assert (pl i = Some a) by (apply Ho; by right). congruence.
  - rewrite (moved_ne b) by done. rewrite fn_lookup_insert_ne by done. rewrite (Ho a b). at_case a; [|done].
    by rewrite Hw, Hw'.
Qed.

Lemma proc_acquire_other pl j :
  proc_ok pl f -> pl j = None -> j <> i -> has_proc y = false -> waking y = Some j ->
  has_proc (f i) = false -> waking (f i) = None -> proc_ok (<[j := Some i]> pl) (<[i := y]> f).
Proof using Type.
  intros Ho Hn Hj Hy Hwy Hf Hw a b. destruct (decide (b = j)) as [->|Hb].
  - rewrite fn_lookup_insert, (moved_ne j) by done. destruct (decide (a = i)) as [->|Ha].
    + rewrite moved_eq, Hwy. naive_solver.
    + rewrite moved_ne by done. split; [naive_solver|]. intros H. apply Ho in H. congruence.
  - rewrite fn_lookup_insert_ne by done. rewrite (Ho a b).
    at_case a; at_case b; rewrite ?Hf, ?Hw, ?Hy, ?Hwy; naive_solver.
Qed.

Lemma proc_release_other pl j :
  proc_ok pl f -> f i = UWoke j -> has_proc y = false -> waking y = None -> proc_ok (<[j := None]> pl) (<[i := y]> f).
Proof using Type.
  intros Ho Hf Hy Hw a b. assert (Hi : pl j = Some i) by (apply Ho; right; by rewrite Hf).
  destruct (decide (b = j)) as [->|Hb].
  - rewrite fn_lookup_insert. split; [done|]. intros H. exfalso.
    assert (Hu : pl j = Some a -> a = i) by congruence.
    destruct (decide (a = i)) as [->|Ha].
    + rewrite moved_eq, Hw in H. destruct H as [[<- H]|H]; [|done]. rewrite moved_eq in H. congruence.
    + apply Ha, Hu, Ho. rewrite (moved_ne a) in H by done. destruct H as [[-> H]|H]; [|by right].
      rewrite moved_ne in H by done. by left.
  - rewrite fn_lookup_insert_ne by done. rewrite (Ho a b). at_case a; at_case b; rewrite ?Hf, ?Hy, ?Hw; cbn; naive_solver.
Qed.

Lemma lock_keep lk :
  lock_ok lk f -> has_lock y = has_lock (f i) -> (forall b, knows y = Some b -> lk = b) -> lock_ok lk (<[i := y]> f).
Proof using Type.
  intros [H1 H2 H3 H4] Hy Hk. split.
  - intros j. at_case j; [rewrite Hy|]; apply H1.
  - intros a b. at_case a; at_case b; rewrite ?Hy; apply H2.
  - intros Hl. destruct (H3 Hl) as [j Hj]. exists j. at_case j; [by rewrite Hy|done].
  - intros j b. at_case j; [apply Hk|apply H4].
Qed.

Lemma lock_take :
  lock_ok false f -> inner_ok (Some i) f -> has_lock y = true -> knows y = None -> lock_ok true (<[i := y]> f).
Proof using Type.
  intros [H1 H2 H3 H4] Ho Hy Hk.
  assert (Hno : forall j, has_lock (f j) = true -> False) by (intros j Hj; specialize (H1 j Hj); done). split.
  - done.
  - intros a b. at_case a; at_case b; try done; intros; exfalso; eauto.
  - intros _. exists i. by rewrite moved_eq.
  - intros j b. at_case j; [by rewrite Hk|]. pose proof (inner_others j Ho ltac:(done)) as Hi. by destruct (f j).
Qed.

Lemma lock_give :
  lock_ok true f -> inner_ok (Some i) f -> has_lock (f i) = true -> has_lock y = false ->
  (forall b, knows y = Some b -> b = false) -> lock_ok false (<[i := y]> f).
Proof using Type.
  intros [H1 H2 H3 H4] Ho Hf Hy Hk. split.
  - intros j. at_case j; [by rewrite Hy|]. intros Hj. by specialize (H2 i j Hf Hj).
  - intros a b. at_case a; at_case b; try (by rewrite Hy); try done. apply H2.
  - done.
  - intros j b. at_case j; [intros E; symmetry; by apply Hk|].
    pose proof (inner_others j Ho ltac:(done)) as Hi. by destruct (f j).
Qed.

Lemma state_move ps ch :
  (forall j, state_ok (f j) (ps j) (ch j)) -> state_ok y (ps i) (ch i) ->
  forall j, state_ok ((<[i := y]> f) j) (ps j) (ch j).
Proof using Type. intros Hs Hy j. by at_case j. Qed.

Lemma woken_move (ps : nat -> ProcState) lk :
  (forall j, ps j = Sleeping -> lk = false -> exists k, will_wake j (f k)) ->
  (forall j, ps j = Sleeping -> will_wake j (f i) -> will_wake j y) ->
  forall j, ps j = Sleeping -> lk = false -> exists k, will_wake j ((<[i := y]> f) k).
Proof using Type.
  intros Hs Hy j Hj Hl. destruct (Hs j Hj Hl) as [k Hk]. exists k. at_case k; auto.
Qed.
End move.

Lemma asleep_state n s i : inv n s -> pstate s i = Sleeping -> chan s i = true /\ (at_ s i = Asleep \/ has_proc (at_ s i) = true).
Proof. intros Hi Hs. pose proof (i_state _ _ Hi i) as H. destruct (at_ s i); cbn in *; naive_solver congruence. Qed.

(** A move of process [i] alone to [y], after which it holds the same locks. *)
Lemma inv_goto n s i y :
  inv n s -> (i < n)%nat ->
  has_inner y = has_inner (at_ s i) -> has_proc y = has_proc (at_ s i) -> has_lock y = has_lock (at_ s i) ->
  waking y = waking (at_ s i) -> (forall b, knows y = Some b -> locked s = b) ->
  state_ok y (pstate s i) (chan s i) ->
  (forall j, pstate s j = Sleeping -> will_wake j (at_ s i) -> will_wake j y) -> inv n (goto i y s).
Proof.
  intros [] Hi ???????. split; cbn.
  - intros k Hk. rewrite moved_ne by lia. auto.
  - by apply inner_keep.
  - by apply proc_keep.
  - by apply lock_keep.
  - by apply state_move.
  - by apply woken_move.
Qed.

(** Taking and dropping [inner_lock]. *)
Lemma inv_acquire_inner n s s' i y :
  inv n s -> (i < n)%nat -> acquire_inner i s = Some s' ->
  has_inner y = true -> has_proc y = has_proc (at_ s i) -> has_lock y = has_lock (at_ s i) ->
  waking y = waking (at_ s i) -> knows y = None ->
  state_ok y (pstate s i) (chan s i) -> (forall j, ~ will_wake j (at_ s i)) -> inv n (goto i y s').
Proof.
  intros [] Hi Ha Hy ?? Hw Hk ? Hn. unfold acquire_inner in Ha. destruct (inner_lock s) eqn:Ei; [done|].
  injection Ha as <-. split; cbn.
  - intros k Hlt. rewrite moved_ne by lia. auto.
  - by apply inner_acquire.
  - by apply proc_keep.
  - apply lock_keep; try done. by rewrite Hk.
  - by apply state_move.
  - apply woken_move; [done|]. intros j _ Hj. by destruct (Hn j).
Qed.

Lemma inv_release_inner n s i y :
  inv n s -> (i < n)%nat -> has_inner (at_ s i) = true ->
  has_inner y = false -> has_proc y = has_proc (at_ s i) -> has_lock y = has_lock (at_ s i) ->
  waking y = waking (at_ s i) -> state_ok y (pstate s i) (chan s i) ->
  (forall j, pstate s j = Sleeping -> will_wake j (at_ s i) -> will_wake j y) -> inv n (goto i y (release_inner s)).
Proof.
  intros [] Hi Hx Hy ?? Hw ? Hn. assert (Ei : inner_lock s = Some i) by (by apply i_inner0).
  rewrite Ei in i_inner0. split; cbn.
  - intros k Hlt. rewrite moved_ne by lia. auto.
  - by apply inner_release.
  - by apply proc_keep.
  - apply lock_keep; try done. intros b Hb. by destruct y.
  - by apply state_move.
  - by apply woken_move.
Qed.

Lemma inv_release_proc n s i y :
  inv n s -> (i < n)%nat -> has_proc (at_ s i) = true -> has_proc y = false ->
  has_inner y = has_inner (at_ s i) -> has_lock y = has_lock (at_ s i) -> waking y = None -> knows y = None ->
  state_ok y (pstate s i) (chan s i) -> inv n (goto i y (release_proc i s)).
Proof.
  intros [] Hi Hx Hy ?? Hw Hk ?. split; cbn.
  - intros k Hlt. rewrite moved_ne by lia. auto.
  - by apply inner_keep.
  - apply proc_release_own; try done. by destruct (at_ s i).
  - apply lock_keep; try done. by rewrite Hk.
  - by apply state_move.
  - apply woken_move; [done|]. intros j _ Hj. by destruct (at_ s i).
Qed.

Ltac at_point Hx := rewrite ?Hx; cbn; try done.

Lemma lock_step_inv n i s s' : (i < n)%nat -> lock_step i s = Some s' -> inv n s -> inv n s'.
Proof.
  intros Hn Hs Hi. unfold lock_step in Hs.
  pose proof (i_state _ _ Hi i) as Hst.
  destruct (at_ s i) eqn:Hx; try done; cbn in Hst.
  - injection Hs as <-. apply inv_goto; at_point Hx.
  - apply fmap_Some in Hs as (s1 & Ha & ->). eapply inv_acquire_inner; at_point Hx. by intros j [].
  - injection Hs as <-. destruct (locked s) eqn:El; apply inv_goto; at_point Hx; by intros b [= <-].
  - injection Hs as <-. destruct Hi. assert (El : locked s = false) by (apply (lo_knows _ _ i_lock0 i); by rewrite Hx).
    assert (Ei : inner_lock s = Some i) by (apply i_inner0; by rewrite Hx). split; cbn.
    + intros k Hlt. rewrite moved_ne by lia. auto.
    + apply inner_keep; at_point Hx.
    + apply proc_keep; at_point Hx.
    + rewrite El in i_lock0. rewrite Ei in i_inner0. by apply lock_take.
    + by apply state_move.
    + done.
  - injection Hs as <-. apply inv_release_inner; at_point Hx.
Qed.

Lemma acquire_proc_Some i j s s' :
  acquire_proc i j s = Some s' ->
  plock s j = None /\ s' = mkK (locked s) (inner_lock s) (<[j := Some i]> (plock s)) (pstate s) (chan s) (at_ s).
Proof. unfold acquire_proc. destruct (plock s j); [done|]. by intros [= <-]. Qed.

(** The process takes its own lock and writes its own state and channel. *)
Lemma inv_acquire_own n s i y st ch :
  inv n s -> (i < n)%nat -> plock s i = None -> has_proc y = true ->
  has_inner y = has_inner (at_ s i) -> has_lock y = has_lock (at_ s i) ->
  waking y = None -> waking (at_ s i) = None -> (forall b, knows y = Some b -> locked s = b) ->
  state_ok y st ch -> (st = Sleeping -> locked s = true) -> (forall j, ~ will_wake j (at_ s i)) ->
  inv n (mkK (locked s) (inner_lock s) (<[i := Some i]> (plock s)) (<[i := st]> (pstate s)) (<[i := ch]> (chan s))
           (<[i := y]> (at_ s))).
Proof.
  intros [] Hi Hp Hy ?? Hw Hw' Hk ? Hl Hn. split; cbn.
  - intros k Hlt. rewrite moved_ne by lia. auto.
  - by apply inner_keep.
  - by apply proc_acquire_own.
  - by apply lock_keep.
  - intros j. destruct (decide (j = i)) as [->|?]; [by rewrite !fn_lookup_insert|].
    by rewrite !fn_lookup_insert_ne by done.
  - intros j. destruct (decide (j = i)) as [->|Hj]; rewrite ?fn_lookup_insert, ?(fn_lookup_insert_ne (pstate s)) by done.
    + intros Hst Hf. rewrite Hl in Hf by done. done.
    + intros Hst Hf. destruct (i_woken0 j Hst Hf) as [k Hk']. exists k.
      destruct (decide (k = i)) as [->|?]; [by destruct (Hn j)|]. by rewrite fn_lookup_insert_ne by done.
Qed.

Lemma sleep_step_inv n i s s' : (i < n)%nat -> sleep_step i s = Some s' -> inv n s -> inv n s'.
Proof.
  intros Hn Hs Hi. unfold sleep_step in Hs.
  pose proof (i_state _ _ Hi i) as Hst.
  destruct (at_ s i) eqn:Hx; try done; cbn in Hst.
  - apply fmap_Some in Hs as (s1 & [Hp ->]%acquire_proc_Some & ->).
    assert (El : locked s = true) by (apply (lo_knows _ _ (i_lock _ _ Hi) i); by rewrite Hx).
    apply (inv_acquire_own n s i SRel Sleeping true); at_point Hx; [by intros b [= <-]|by intros j []].
  - injection Hs as <-. apply inv_release_inner; at_point Hx.
  - injection Hs as <-. apply inv_release_proc; at_point Hx. by left.
  - apply fmap_Some in Hs as (s1 & Ha & ->). eapply inv_acquire_inner; at_point Hx. by intros j [].
  - injection Hs as <-. apply inv_release_proc; at_point Hx.
Qed.

(** The body of the loop of [wakeup] with the lock of process [j] held. *)
Lemma inv_woke n i j s :
  inv n s -> (i < n)%nat -> at_ s i = UWoke j ->
  inv n (goto i (UWake (S j)) (release_proc j
           (if decide (pstate s j = Sleeping /\ chan s j = true) then set_pstate j Runnable s else s))).
Proof.
  intros Hinv Hi Hx. set (ps := if decide (pstate s j = Sleeping /\ chan s j = true) then <[j := Runnable]> (pstate s) else pstate s).
  assert (Hj : plock s j = Some i) by (apply (i_proc _ _ Hinv); right; by rewrite Hx).
  assert (Hps : ps j <> Sleeping /\ state_ok (at_ s j) (ps j) (chan s j)).
  { unfold ps. destruct (decide _) as [[Hs Hc]|Hns].
    - rewrite fn_lookup_insert. split; [done|].
      destruct (asleep_state _ _ _ Hinv Hs) as [_ [->|Hp]]; [cbn; tauto|].
      assert (plock s j = Some j) by (apply (i_proc _ _ Hinv); by left).
      assert (j = i) as -> by congruence. by rewrite Hx in Hp.
    - split; [|apply (i_state _ _ Hinv)]. intros Hs. apply Hns. split; [done|]. by apply (asleep_state _ _ _ Hinv). }
  assert (Hother : forall k, k <> j -> ps k = pstate s k)
    by (intros k Hk; unfold ps; destruct (decide _); [by apply fn_lookup_insert_ne|done]).
  replace (goto _ _ _) with (mkK (locked s) (inner_lock s) (<[j := None]> (plock s)) ps (chan s) (<[i := UWake (S j)]> (at_ s)))
    by (unfold ps; by destruct (decide _)).
  assert (Hstate : forall k, state_ok (at_ s k) (ps k) (chan s k)).
  { intros k. destruct (decide (k = j)) as [->|Hk]; [apply Hps|]. rewrite Hother by done. apply (i_state _ _ Hinv). }
  assert (Hpi : state_ok (UWake (S j)) (ps i) (chan s i)) by (specialize (Hstate i); by rewrite Hx in Hstate).
  destruct Hinv. split; cbn [locked inner_lock plock pstate chan at_].
  - intros k Hlt. rewrite moved_ne by lia. auto.
  - apply inner_keep; at_point Hx.
  - by apply proc_release_other.
  - apply lock_keep; at_point Hx. intros b [= <-]. apply (lo_knows _ _ i_lock0 i). by rewrite Hx.
  - by apply state_move.
  - apply woken_move.
    + intros k Hk. apply i_woken0. rewrite <-(Hother k); [done|]. intros ->. by apply Hps.
    + intros k Hk. rewrite Hx. cbn. intros Hle. assert (k <> j) by (intros ->; by apply Hps). lia.
Qed.

Lemma wakeup_step_inv n i s s' : (i < n)%nat -> wakeup_step n i s = Some s' -> inv n s -> inv n s'.
Proof.
  intros Hn Hs Hi. unfold wakeup_step in Hs.
  pose proof (i_state _ _ Hi i) as Hst.
  destruct (at_ s i) eqn:Hx; try done; cbn in Hst; [|injection Hs as <-; by apply inv_woke].
  assert (El : locked s = false) by (apply (lo_knows _ _ (i_lock _ _ Hi) i); by rewrite Hx).
  destruct (decide (j < n)%nat) as [Hj|Hj]; [destruct (decide (j = i)) as [->|Hji]|].
  - injection Hs as <-. apply inv_goto; at_point Hx; [by intros b [= <-]|].
    intros k Hk Hle. assert (k <> i) by congruence. lia.
  - apply fmap_Some in Hs as (s1 & [Hp ->]%acquire_proc_Some & ->).
    destruct Hi. split; cbn [goto locked inner_lock plock pstate chan at_].
    + intros k Hlt. rewrite moved_ne by lia. auto.
    + apply inner_keep; at_point Hx.
    + apply proc_acquire_other; at_point Hx.
    + apply lock_keep; at_point Hx. by intros b [= <-].
    + by apply state_move.
    + apply woken_move; at_point Hx.
  - injection Hs as <-. apply inv_goto; at_point Hx; [by intros b [= <-]|].
    intros k Hk Hle. pose proof (i_state _ _ Hi k) as Hsk. rewrite (i_out _ _ Hi k) in Hsk by lia. cbn in Hsk. congruence.
Qed.

Lemma unlock_step_inv n i s s' : (i < n)%nat -> unlock_step i s = Some s' -> inv n s -> inv n s'.
Proof.
  intros Hn Hs Hi. unfold unlock_step in Hs.
  pose proof (i_state _ _ Hi i) as Hst.
  destruct (at_ s i) eqn:Hx; try done; cbn in Hst.
  - injection Hs as <-. apply inv_goto; at_point Hx.
  - apply fmap_Some in Hs as (s1 & Ha & ->). eapply inv_acquire_inner; at_point Hx. by intros j [].
  - injection Hs as <-. destruct Hi. assert (El : locked s = true) by (apply (lo_held _ _ i_lock0 i); by rewrite Hx).
    assert (Ei : inner_lock s = Some i) by (apply i_inner0; by rewrite Hx). split; cbn [goto set_locked locked inner_lock plock pstate chan at_].
    + intros k Hlt. rewrite moved_ne by lia. auto.
    + apply inner_keep; at_point Hx.
    + apply proc_keep; at_point Hx.
    + rewrite El in i_lock0. rewrite Ei in i_inner0. apply lock_give; at_point Hx. by intros b [= <-].
    + by apply state_move.
    + intros j _ _. exists i. rewrite moved_eq. cbn. lia.
  - injection Hs as <-. apply inv_release_inner; at_point Hx.
Qed.

Lemma find_runnable_inv n j s s' : find_runnable j s = Some s' -> inv n s -> inv n s'.
Proof.
  intros Hs Hi. unfold find_runnable in Hs. destruct (plock s j) eqn:Hp; [done|].
  destruct (decide (pstate s j = Runnable)) as [Hr|]; [|done]. injection Hs as <-.
  destruct Hi. split; try done; cbn [set_pstate locked pstate chan at_].
  - intros i. destruct (decide (i = j)) as [->|Hij]; [|by rewrite fn_lookup_insert_ne by done].
    rewrite fn_lookup_insert. specialize (i_state0 j). rewrite Hr in i_state0.
    destruct (at_ s j); cbn in *; naive_solver.
  - intros i. destruct (decide (i = j)) as [->|Hij]; [by rewrite fn_lookup_insert|].
    rewrite fn_lookup_insert_ne by done. apply i_woken0.
Qed.

Lemma run_process_inv n j s s' : (j < n)%nat -> run_process j s = Some s' -> inv n s -> inv n s'.
Proof.
  intros Hn Hs Hi. unfold run_process in Hs. destruct (decide _) as [[Hr Hx]|]; [|done].
  apply fmap_Some in Hs as (s1 & [Hp ->]%acquire_proc_Some & ->).
  apply (inv_acquire_own n s j SBack Running false); at_point Hx. by intros k [].
Qed.

Lemma step_inv n s s' : step n s s' -> inv n s -> inv n s'.
Proof.
  intros []; [eapply lock_step_inv|eapply sleep_step_inv|eapply wakeup_step_inv
    |eapply unlock_step_inv|eapply find_runnable_inv|eapply run_process_inv]; done.
Qed.

Lemma reachable_inv n s : rtc (step n) start s -> inv n s.
Proof.
  intros H. remember start as s0 eqn:E. assert (Hi : inv n s0) by (subst; apply start_inv). clear E.
  induction H; [done|]. eauto using step_inv.
Qed.

(** C27: In every state that any interleaving of [n] processes, their CPUs' schedulers and
    their wakeups can reach, at most one process is between taking and giving back the sleep
    lock, and it is then marked locked; and no wakeup is lost: when the lock is free and no
    process is inside [lock] or [unlock], no process sleeps on it. *)
Theorem sleeplock_safe n s :
  rtc (step n) start s ->
  (forall i j, has_lock (at_ s i) = true -> has_lock (at_ s j) = true -> i = j) /\
  (locked s = true <-> exists i, has_lock (at_ s i) = true) /\
  (locked s = false -> inner_lock s = None -> forall j, pstate s j <> Sleeping).
Proof.
  intros Hr. apply reachable_inv in Hr as []. split_and!.
  - apply (lo_excl _ _ i_lock0).
  - split; [apply (lo_some _ _ i_lock0)|]. intros [i Hi]. by apply (lo_held _ _ i_lock0 i).
  - intros Hl Hn j Hj. destruct (i_woken0 j Hj Hl) as [i Hi].
    assert (inner_lock s = Some i) by (apply i_inner0; by destruct (at_ s i)). congruence.
Qed.

(** ** Running a schedule *)

Inductive act := DoLock (i : nat) | DoSleep (i : nat) | DoWakeup (i : nat) | DoUnlock (i : nat) | DoFind (j : nat) | DoRun (j : nat).

Definition act_proc (a : act) : nat :=
  match a with DoLock i | DoSleep i | DoWakeup i | DoUnlock i | DoFind i | DoRun i => i end.

Definition perform (n : nat) (a : act) (s : kst) : option kst :=
  match a with
  | DoLock i => lock_step i s
  | DoSleep i => sleep_step i s
  | DoWakeup i => wakeup_step n i s
  | DoUnlock i => unlock_step i s
  | DoFind j => find_runnable j s
  | DoRun j => run_process j s
  end.

Fixpoint schedule (n : nat) (l : list act) (s : kst) : option kst :=
  match l with
  | [] => Some s
  | a :: l => if decide (act_proc a < n)%nat then perform n a s ≫= schedule n l else None
  end.

Lemma schedule_steps n l s s' : schedule n l s = Some s' -> rtc (step n) s s'.
Proof.
  revert s. induction l as [|a l IH]; cbn; intros s H.
  - injection H as <-. apply rtc_refl.
  - destruct (decide _) as [Ha|]; [|done]. apply bind_Some in H as (s1 & H1 & H2).
    eapply rtc_l; [|by apply IH]. destruct a; cbn in *; by econstructor.
Qed.

(** Process 0 sleeps while process 1 has the lock, is woken and scheduled; before
    it has [inner_lock] again, process 1 takes the lock once more and gives it
    back. *)
Definition deadlock_schedule : list act :=
  replicate 5 (DoLock 1) ++ replicate 3 (DoLock 0) ++ replicate 3 (DoSleep 0) ++
  replicate 3 (DoUnlock 1) ++ replicate 4 (DoWakeup 1) ++ [DoUnlock 1; DoFind 0; DoRun 0] ++
  replicate 5 (DoLock 1) ++ replicate 3 (DoUnlock 1).

(** [a] is back in [sleep] with its own lock and wants [inner_lock], which [b]
    has while its [wakeup] wants the lock of [a]. *)
Definition embrace (a b : nat) (s : kst) : Prop :=
  at_ s a = SBack /\ at_ s b = UWake a /\ inner_lock s = Some b /\ plock s a = Some a.

Lemma embrace_intro n a b s : inv n s -> at_ s a = SBack -> at_ s b = UWake a -> embrace a b s.
Proof.
  intros [] Ha Hb. split_and!; [done|done| |].
  - apply i_inner0. by rewrite Hb.
  - apply i_proc0. left. by rewrite Ha.
Qed.

(** Of all processes only those two could leave their points. *)
Lemma step_elsewhere n s s' a :
  step n s s' -> (forall x, lock_step a s = Some x -> False) -> (forall x, sleep_step a s = Some x -> False) ->
  (forall x, wakeup_step n a s = Some x -> False) -> (forall x, unlock_step a s = Some x -> False) ->
  at_ s a <> Asleep -> at_ s' a = at_ s a.
Proof.
  intros Hs Hl Hsl Hw Hu Ha.
  destruct Hs as [i s s' _ H|i s s' _ H|i s s' _ H|i s s' _ H|j s s' _ H|j s s' _ H].
  - assert (i <> a) by (intros ->; eauto). unfold lock_step, acquire_inner in H.
    repeat (case_match; simplify_eq/=; try done); by rewrite fn_lookup_insert_ne by done.
  - assert (i <> a) by (intros ->; eauto). unfold sleep_step, acquire_inner, acquire_proc in H.
    repeat (case_match; simplify_eq/=; try done); by rewrite fn_lookup_insert_ne by done.
  - assert (i <> a) by (intros ->; eauto). unfold wakeup_step, acquire_proc in H.
    repeat (case_match; simplify_eq/=; try done); by rewrite fn_lookup_insert_ne by done.
  - assert (i <> a) by (intros ->; eauto). unfold unlock_step, acquire_inner in H.
    repeat (case_match; simplify_eq/=; try done); by rewrite fn_lookup_insert_ne by done.
  - unfold find_runnable in H. repeat (case_match; simplify_eq/=; try done).
  - unfold run_process, acquire_proc in H. repeat (case_match; simplify_eq/=; try done).
    rewrite fn_lookup_insert_ne; [done|]. naive_solver.
Qed.

Lemma embrace_step n a b s s' :
  (a < n)%nat -> a <> b -> inv n s -> embrace a b s -> step n s s' -> embrace a b s'.
Proof.
  intros Hn Hab Hi (Ha & Hb & Hin & Hpl) Hs. pose proof (step_inv _ _ _ Hs Hi) as Hi'.
  apply (embrace_intro n); [done| |].
  - rewrite <-Ha. apply (step_elsewhere n s); [done|..]; unfold lock_step, sleep_step, wakeup_step, unlock_step, acquire_inner;
      rewrite Ha, ?Hin; done.
  - rewrite <-Hb. apply (step_elsewhere n s); [done|..]; unfold lock_step, sleep_step, wakeup_step, unlock_step, acquire_proc;
      rewrite Hb, ?Hpl; try done. intros x. rewrite decide_True by done. by rewrite decide_False by done.
Qed.

(** C28: [Proc::sleep] takes the caller's spin lock back ([weaked.lock()]) before the guard of
    the process is dropped, the opposite order of [wakeup], so two processes that share one
    sleep lock can reach a deadlock: a state from which, whatever the CPUs do, process 0 stays
    in [sleep] with its process lock and process 1 stays in [unlock]'s [wakeup] with
    [inner_lock] for ever. *)
Theorem sleep_wakeup_deadlock :
  exists s, rtc (step 2) start s /\ forall s', rtc (step 2) s s' -> embrace 0 1 s'.
Proof.
  destruct (schedule 2 deadlock_schedule start) as [s|] eqn:E; [|by vm_compute in E].
  exists s. pose proof (schedule_steps _ _ _ _ E) as Hr. split; [done|].
  assert (Hx : (fun s => (at_ s 0%nat, at_ s 1%nat)) <$> Some s = Some (SBack, UWake 0))
    by (rewrite <-E; by vm_compute).
  injection Hx as H0 H1. pose proof (reachable_inv _ _ Hr) as Hi.
  assert (He : embrace 0 1 s) by (by eapply embrace_intro).
  clear E H0 H1 Hr. intros s' Hs'. induction Hs' as [|s1 s2 s3 H12 _ IH]; [done|].
  apply IH; [by eapply step_inv|]. eapply embrace_step; [| |apply Hi|done|done]; lia.
Qed.

(** The schedule up to the point where process 0 sleeps. *)
Lemma sleeplock_safe_witness :
  let s := default start (schedule 2 (take 11 deadlock_schedule) start) in
  pstate s 0%nat = Sleeping /\
  (forall i j, has_lock (at_ s i) = true -> has_lock (at_ s j) = true -> i = j).
Proof.
  intros s. split; [by vm_compute|].
  apply (fun H => proj1 (sleeplock_safe 2 s H)).
  apply (schedule_steps 2 (take 11 deadlock_schedule)). unfold s.
  destruct (schedule 2 (take 11 deadlock_schedule) start) eqn:E; [done|by vm_compute in E].
Defined.

End SleepLock.
