(* ===== verification/Process.v ===== *)
(** * Processes

    Models the life of a process: [kernel/src/process.rs] apart from the kernel stacks, and
    [fork], [free], [sleep], [yield_process] and the data of a process in [kernel/src/proc.rs].
    What a process owns beyond the table (pages, open files, inodes, the log) is the
    interface [ProcRes], about which the theorems assume nothing unless they say so.  A call is one step:
    [wait] and the second half of [exit] hold the lock on the parents throughout, and the slot that
    [fork] fills is [Allocated], a state in which nobody else touches it.  [wait] that sleeps
    returns [Asleep] and runs again from the start of its loop.  Deadlocks of the
    spin locks inside a call are the subject of [SleepLock.v]. *)

From stdpp Require Import strings.
From S2P Require Import Prelude Param Bytes.

Module Process.

Definition NPROC : nat := 64.

Inductive ProcState := Unused | Allocated | Runnable | Running | Sleeping | Zombie.
#[export] Instance proc_state_eq_dec : EqDecision ProcState.
Proof. solve_decision. Defined.

Record ProcInner := mkInner { state : ProcState; chan : Z; pid : Z; killed : bool; exit_status : Z }.
Definition inner_new : ProcInner := mkInner Unused 0 0 false 0.

Record VMA := mkVMA { addr_start : Z; addr_end : Z; size : Z; prot : Z; flags : Z; fd : Z }.

(** The trap frame: its address and its 36 words.  [epc], [sp] and [a0] are the
    words at the bytes 24, 48 and 112. *)
Record TrapFrame := mkTf { tf_addr : Z; tf_words : list Z }.
Definition EPC : nat := 3.
Definition SP : nat := 6.
Definition A0 : nat := 14.
Definition tf_set (k : nat) (v : Z) (t : TrapFrame) : TrapFrame := mkTf (tf_addr t) (<[k := v]> (tf_words t)).

Definition cur_max_init : Z := MAXVA - 2 * PAGESIZE.

Record ProcData (H F I : Type) := mkData {
  sz : Z; page_table : option H; trapframe : option TrapFrame; cwd : option I; o_files : list (option F);
  vm_area : list (option VMA); cur_max : Z; env_vars : option (gmap string string)
}.
Arguments mkData {H F I}.
Arguments sz {H F I}.
Arguments page_table {H F I}.
Arguments trapframe {H F I}.
Arguments cwd {H F I}.
Arguments o_files {H F I}.
Arguments vm_area {H F I}.
Arguments cur_max {H F I}.
Arguments env_vars {H F I}.

Definition data_new {H F I} : ProcData H F I :=
  mkData 0 None None None (replicate NOFILE None) (replicate 100 None) cur_max_init None.

(** What a process owns: page tables [H], open files [F], inodes [I]. *)
Class ProcRes (R H F I : Type) := {
  alloc_into_raw : M R (result Z);                      (* a zeroed page *)
  free_from_raw : Z -> M R unit;
  alloc_user_page_table : Z -> M R (option H);
  uvm_init : H -> M R (result unit);
  uvm_copy : H -> H -> Z -> M R (result unit);
  unmap_user_page_table : H -> Z -> M R unit;
  walk_addr : H -> Z -> M R bool;
  unmap_page : H -> Z -> M R (result unit);
  drop_page_table : H -> M R unit;
  copy_out : H -> Z -> list Z -> M R (result unit);
  file_clone : F -> M R unit;                           (* Arc::clone, which gives the same file *)
  file_drop : F -> M R unit;
  idup : I -> M R I;
  inode_drop : I -> M R unit;
  namei_root : M R (option I);
  begin_op : M R unit;
  end_op : M R unit
}.

(** Sharing a file and counting a reference to an inode always come back. *)
Definition returns {S A} (m : M S A) : Prop := forall s, exists a s', m s = Done (a, s').

Class CloneLaws (R H F I : Type) `{!ProcRes R H F I} : Prop := {
  clone_returns f : returns (file_clone f);
  idup_returns i : returns (idup i)
}.

Section ops.
Context {R H F I : Type} `{!ProcRes R H F I}.
(** The address of a process, which [wait] sleeps on. *)
Context (proc_addr : nat -> Z).

Record Proc := mkProc { inner : ProcInner; data : ProcData H F I }.
Definition proc_new : Proc := mkProc inner_new data_new.

Record ptable := mkPt { tables : list Proc; next_pid : Z; parents : list (option nat); res : R }.

Definition get_proc (i : nat) : M ptable Proc := let! s := get in get_at (tables s) i.
Definition set_proc (i : nat) (p : Proc) : M ptable unit :=
  modify (fun s => mkPt (<[i := p]> (tables s)) (next_pid s) (parents s) (res s)).
Definition set_data (i : nat) (d : ProcData H F I) : M ptable unit :=
  let! p := get_proc i in set_proc i (mkProc (inner p) d).
Definition set_inner (i : nat) (x : ProcInner) : M ptable unit :=
  let! p := get_proc i in set_proc i (mkProc x (data p)).
Definition set_state (i : nat) (st : ProcState) : M ptable unit :=
  let! p := get_proc i in
  let x := inner p in set_proc i (mkProc (mkInner st (chan x) (pid x) (killed x) (exit_status x)) (data p)).
Definition set_parent (i : nat) (o : option nat) : M ptable unit :=
  modify (fun s => mkPt (tables s) (next_pid s) (<[i := o]> (parents s)) (res s)).
Definition on_res {A} (m : M R A) : M ptable A := fun s =>
  match m (res s) with
  | Done (x, r) => Done (x, mkPt (tables s) (next_pid s) (parents s) r)
  | Panic msg => Panic msg
  | Sleep => Sleep
  | OutOfFuel => OutOfFuel
  | Undef => Undef
  end.

(** ** Allocating and freeing *)

Definition alloc_pid : M ptable Z :=
  let! s := get in
  modify (fun s => mkPt (tables s) (next_pid s ⊞ 1) (parents s) (res s)) ;;
  ret (next_pid s).

(** Dropping the old value of a field that is assigned. *)
Definition drop_opt {X} (f : X -> M R unit) (o : option X) : M ptable unit :=
  match o with Some x => on_res (f x) | None => ret tt end.

(** [ProcData::init_page_table] *)
Definition init_page_table (i : nat) : M ptable (result unit) :=
  let! r := on_res alloc_into_raw in
  match r with
  | Err msg => ret (Err msg)
  | Ok a =>
      let! p := get_proc i in
      let d := data p in
      set_data i (mkData (sz d) (page_table d) (Some (mkTf a (replicate 36 0))) (cwd d) (o_files d) (vm_area d) (cur_max d) (env_vars d)) ;;
      let! o := on_res (alloc_user_page_table a) in
      match o with
      | None => ret (Err "")
      | Some h =>
          let! p := get_proc i in
          let d := data p in
          drop_opt drop_page_table (page_table d) ;;
          set_data i (mkData (sz d) (Some h) (trapframe d) (cwd d) (o_files d) (vm_area d) (cur_max d) (env_vars d)) ;;
          ret (Ok tt)
      end
  end.

(** [ProcData::init_context]; the kernel context is not modelled. *)
Definition init_context (i : nat) : M ptable unit :=
  let! p := get_proc i in
  let d := data p in
  match env_vars d with
  | Some _ => ret tt
  | None => set_data i (mkData (sz d) (page_table d) (trapframe d) (cwd d) (o_files d) (vm_area d) (cur_max d) (Some ∅))
  end.

Fixpoint alloc_scan (l : list nat) (p : Z) : M ptable (option nat) :=
  match l with
  | [] => ret None
  | i :: l =>
      let! x := get_proc i in
      if decide (state (inner x) = Unused) then
        let! r := init_page_table i in
        match r with
        | Err _ => ret None
        | Ok _ =>
            init_context i ;;
            let! x := get_proc i in
            let y := inner x in
            set_inner i (mkInner Allocated (chan y) p (killed y) (exit_status y)) ;;
            ret (Some i)
        end
      else alloc_scan l p
  end.
Definition alloc_proc : M ptable (option nat) := let! p := alloc_pid in alloc_scan (seq 0 NPROC) p.

(** [ProcData::user_init] *)
Definition data_user_init (i : nat) : M ptable (result unit) :=
  let! p := get_proc i in
  let! h := unwrap (page_table (data p)) "unwrap" in
  let! r := on_res (uvm_init h) in
  match r with
  | Err msg => ret (Err msg)
  | Ok _ =>
      let! t := unwrap (trapframe (data p)) "unwrap" in
      let! o := on_res namei_root in
      let! c := unwrap o "cannot find root inode by b'/'" in
      let! p := get_proc i in
      let d := data p in
      drop_opt inode_drop (cwd d) ;;
      set_data i (mkData PAGESIZE (page_table d) (Some (tf_set SP PAGESIZE (tf_set EPC 0 t))) (Some c) (o_files d) (vm_area d) (cur_max d) (env_vars d)) ;;
      ret (Ok tt)
  end.

Definition user_init : M ptable unit :=
  let! o := alloc_proc in
  let! i := unwrap o "user_init: no proc frees" in
  let! r := data_user_init i in
  match r with
  | Err _ => panic "user_init: failed process's initilization"
  | Ok _ => set_state i Runnable
  end.

(** The loop of [free] over the pages of a region. *)
Fixpoint unmap_range (h : H) (vas : list Z) : M ptable unit :=
  match vas with
  | [] => ret tt
  | va :: vas =>
      let! b := on_res (walk_addr h va) in
      (if b then
         let! r := on_res (unmap_page h va) in
         match r with Ok _ => ret tt | Err _ => panic "cannot unmap in freeing" end
       else ret tt) ;;
      unmap_range h vas
  end.

Definition free (i : nat) : M ptable unit :=
  let! p := get_proc i in
  let d := data p in
  drop_opt (fun t => free_from_raw (tf_addr t)) (trapframe d) ;;
  (match page_table d with
   | Some h =>
       on_res (unmap_user_page_table h (sz d)) ;;
       mfor (vm_area d) (fun o => match o with
         | Some vm => unmap_range h (step_by (addr_start vm) (addr_end vm) PAGESIZE)
         | None => ret tt
         end) ;;
       on_res (drop_page_table h)
   | None => ret tt
   end) ;;
  let areas := match page_table d with Some _ => (fun _ => None) <$> vm_area d | None => vm_area d end in
  set_proc i (mkProc inner_new
    (mkData 0 None None (cwd d) (o_files d) areas cur_max_init ((fun _ => ∅) <$> env_vars d))).

(** ** Scheduling *)

Fixpoint find_scan (l : list nat) : M ptable (option nat) :=
  match l with
  | [] => ret None
  | i :: l =>
      let! x := get_proc i in
      if decide (state (inner x) = Runnable) then set_state i Allocated ;; ret (Some i) else find_scan l
  end.
Definition find_runnable : M ptable (option nat) := find_scan (seq 0 NPROC).

(** The scheduler marks the process it has found as running and switches to it. *)
Definition run (i : nat) : M ptable unit := set_state i Running.

Definition yield_process (i : nat) : M ptable unit :=
  let! x := get_proc i in
  if decide (state (inner x) = Running) then set_state i Runnable else ret tt.

(** [sleep] up to the switch. *)
Definition sleep (i : nat) (c : Z) : M ptable unit :=
  let! x := get_proc i in
  let y := inner x in
  set_inner i (mkInner Sleeping c (pid y) (killed y) (exit_status y)).

(** [sleep] after the switch. *)
Definition tidy_up (i : nat) : M ptable unit :=
  let! x := get_proc i in
  let y := inner x in
  set_inner i (mkInner (state y) 0 (pid y) (killed y) (exit_status y)).

(** [wakeup] on a core that runs [me]. *)
Definition wake (me : option nat) (c : Z) (ix : nat * Proc) : Proc :=
  let '(i, x) := ix in
  let y := inner x in
  if decide (me = Some i) then x
  else if decide (state y = Sleeping /\ chan y = c)
  then mkProc (mkInner Runnable (chan y) (pid y) (killed y) (exit_status y)) (data x) else x.
Definition wakeup (me : option nat) (c : Z) : M ptable unit :=
  modify (fun s => mkPt (imap (fun i x => wake me c (i, x)) (tables s)) (next_pid s) (parents s) (res s)).

(** ** fork *)

Definition copy_files (fs cs : list (option F)) : M ptable (list (option F)) :=
  (fix go (fs cs : list (option F)) :=
     match fs, cs with
     | f :: fs, c :: cs =>
         let! c := match f with
                   | Some f => on_res (file_clone f) ;; drop_opt file_drop c ;; ret (Some f)
                   | None => ret c
                   end in
         let! l := go fs cs in ret (c :: l)
     | _, _ => ret cs
     end) fs cs.

(** The child's variables after those of the parent have been inserted. *)
Definition copy_env (penv cenv : option (gmap string string)) : option (gmap string string) :=
  match penv with
  | Some m => Some (m ∪ default ∅ cenv)
  | None => cenv
  end.

(** [fork] by [i] once it has the slot [j]. *)
Definition fork_into (i j : nat) : M ptable (result Z) :=
  let! p := get_proc i in
  let! c := get_proc j in
  let! ch := unwrap (page_table (data c)) "unwrap" in
  let! ph := unwrap (page_table (data p)) "unwrap" in
  let! r := on_res (uvm_copy ph ch (sz (data p))) in
  match r with
  | Err _ => free j ;; ret (Err "fork: cannot uvm_copy")
  | Ok _ =>
      let! ptf := deref (trapframe (data p)) in
      let! ctf := deref (trapframe (data c)) in
      let! files := copy_files (o_files (data p)) (o_files (data c)) in
      let! d := unwrap (cwd (data p)) "unwrap" in
      let! d := on_res (idup d) in
      drop_opt inode_drop (cwd (data c)) ;;
      set_data j (mkData (sz (data p)) (Some ch) (Some (tf_set A0 0 (mkTf (tf_addr ctf) (tf_words ptf)))) (Some d) files (vm_area (data c)) (cur_max (data c))
        (copy_env (env_vars (data p)) (env_vars (data c)))) ;;
      set_parent j (Some i) ;;
      set_state j Runnable ;;
      let! c := get_proc j in
      ret (Ok (pid (inner c)))
  end.

Definition fork (i : nat) : M ptable (result Z) :=
  let! o := alloc_proc in
  match o with
  | None => ret (Err "cannot allocate new process")
  | Some j => fork_into i j
  end.

(** ** exit and wait *)

Inductive progress := Finished (r : result Z) | Asleep.

Fixpoint drop_files (l : list (option F)) : M ptable unit :=
  match l with
  | [] => ret tt
  | Some f :: l => on_res (file_drop f) ;; drop_files l
  | None :: l => drop_files l
  end.

(** [reparent]: the children of [i] go to the init process. *)
Fixpoint reparent (i : nat) (l : list nat) : M ptable unit :=
  match l with
  | [] => ret tt
  | j :: l =>
      let! s := get in
      let! o := get_at (parents s) j in
      (if decide (o = Some i) then set_parent j (Some 0%nat) ;; wakeup (Some i) (proc_addr 0) else ret tt) ;;
      reparent i l
  end.

(** [exit] up to the lock on the parents, where it may sleep on the log. *)
Definition exit_release (i : nat) : M ptable unit :=
  if decide (i = 0%nat) then panic "init exiting"
  else
    let! p := get_proc i in
    let d := data p in
    drop_files (o_files d) ;;
    on_res begin_op ;;
    drop_opt inode_drop (cwd d) ;;
    on_res end_op ;;
    set_data i (mkData (sz d) (page_table d) (trapframe d) None (replicate (length (o_files d)) None) (vm_area d) (cur_max d) (env_vars d)).

(** The rest of [exit], which holds that lock. *)
Definition exit_commit (i : nat) (status : Z) : M ptable unit :=
  reparent i (seq 1 (NPROC - 1)) ;;
  let! s := get in
  let! o := get_at (parents s) i in
  let! q := unwrap o "called `Option::unwrap()` on a `None` value" in
  wakeup (Some i) (proc_addr q) ;;
  let! p := get_proc i in
  let x := inner p in
  set_inner i (mkInner Zombie (chan x) (pid x) (killed x) status).

Definition exit (i : nat) (status : Z) : M ptable unit := exit_release i ;; exit_commit i status.

(** One round of [wait] over the table.  [kids] says whether a child was seen. *)
Fixpoint wait_scan (i : nat) (addr : Z) (l : list nat) (kids : bool) : M ptable (progress + bool) :=
  match l with
  | [] => ret (inr kids)
  | j :: l =>
      let! s := get in
      let! o := get_at (parents s) j in
      if decide (o = Some i) then
        let! c := get_proc j in
        if decide (state (inner c) = Zombie) then
          let! r := (if addr =? 0 then ret (Ok tt)
                     else
                       let! p := get_proc i in
                       let! h := unwrap (page_table (data p)) "unwrap" in
                       on_res (copy_out h addr (u32_bytes (wrap 32 (exit_status (inner c)))))) in
          match r with
          | Err msg => ret (inl (Finished (Err msg)))
          | Ok _ => free j ;; set_parent j None ;; ret (inl (Finished (Ok (pid (inner c)))))
          end
        else wait_scan i addr l true
      else wait_scan i addr l kids
  end.

Definition wait (i : nat) (addr : Z) : M ptable progress :=
  let! r := wait_scan i addr (seq 0 NPROC) false in
  match r with
  | inl p => ret p
  | inr kids =>
      let! p := get_proc i in
      if negb kids || killed (inner p) then ret (Finished (Err "children not found"))
      else sleep i (proc_addr i) ;; ret Asleep
  end.

(** ** What the operations do to the table *)

(** The calls that return satisfy [Q]; an interrupted or panicking call has no effect to speak of. *)
Definition post {A} (m : M ptable A) (s : ptable) (Q : A -> ptable -> Prop) : Prop :=
  forall a s', m s = Done (a, s') -> Q a s'.

Lemma post_bind {A B} (m : M ptable A) (k : A -> M ptable B) s Q :
  post m s (fun a s' => post (k a) s' Q) -> post (bind m k) s Q.
Proof.
  intros Hm b s'. unfold bind. destruct (m s) as [[a s1]| | | |] eqn:E; intros Hk; try discriminate.
  exact (Hm a s1 E b s' Hk).
Qed.
Lemma post_mono {A} (m : M ptable A) s (P Q : A -> ptable -> Prop) :
  post m s P -> (forall a s', P a s' -> Q a s') -> post m s Q.
Proof. intros Hm HPQ a s' E. apply HPQ, Hm, E. Qed.
Lemma post_ret {A} (a : A) s (Q : A -> ptable -> Prop) : Q a s -> post (ret a) s Q.
Proof. intros HQ b s' [= <- <-]. exact HQ. Qed.
Lemma post_get s (Q : ptable -> ptable -> Prop) : Q s s -> post get s Q.
Proof. intros HQ b s' [= <- <-]. exact HQ. Qed.
Lemma post_modify f s (Q : unit -> ptable -> Prop) : Q tt (f s) -> post (modify f) s Q.
Proof. intros HQ b s' [= <- <-]. exact HQ. Qed.
Lemma post_panic {A} msg s (Q : A -> ptable -> Prop) : post (panic msg) s Q.
Proof. intros b s' E. discriminate E. Qed.
Lemma post_unwrap {A} (o : option A) msg s (Q : A -> ptable -> Prop) :
  (forall a, o = Some a -> Q a s) -> post (unwrap o msg) s Q.
Proof. intros HQ. destruct o; [apply post_ret, HQ, eq_refl | apply post_panic]. Qed.

Lemma post_deref {A} (o : option A) s (Q : A -> ptable -> Prop) : (forall a, o = Some a -> Q a s) -> post (deref o) s Q.
Proof. intros HQ. destruct o; [apply post_ret, HQ, eq_refl | intros b s' E; discriminate E]. Qed.

Definition with_res (s : ptable) (r : R) : ptable := mkPt (tables s) (next_pid s) (parents s) r.
Definition put (i : nat) (x : Proc) (s : ptable) : ptable :=
  mkPt (<[i := x]> (tables s)) (next_pid s) (parents s) (res s).

Lemma post_on_res {A} (m : M R A) s (Q : A -> ptable -> Prop) :
  (forall a r, Q a (with_res s r)) -> post (on_res m) s Q.
Proof.
  intros HQ a s'. unfold on_res. destruct (m (res s)) as [[b r]| | | |]; intros [=]; subst. apply HQ.
Qed.
Lemma post_get_proc i s (Q : Proc -> ptable -> Prop) :
  (forall x, tables s !! i = Some x -> Q x s) -> post (get_proc i) s Q.
Proof. intros HQ. apply post_bind, post_get, post_unwrap, HQ. Qed.
Lemma post_set_proc i x s (Q : unit -> ptable -> Prop) : Q tt (put i x s) -> post (set_proc i x) s Q.
Proof. apply post_modify. Qed.

(** Calls that leave the table alone. *)
Definition quiet {A} (m : M ptable A) : Prop := forall s, post m s (fun _ s' => exists r, s' = with_res s r).

Lemma quiet_on_res {A} (m : M R A) : quiet (on_res m).
Proof. intros s. apply post_on_res. eauto. Qed.
Lemma quiet_ret {A} (a : A) : quiet (ret a).
Proof. intros s. apply post_ret. exists (res s). destruct s. reflexivity. Qed.
Lemma quiet_panic {A} msg : quiet (A := A) (panic msg).
Proof. intros s. apply post_panic. Qed.
Lemma quiet_bind {A B} (m : M ptable A) (k : A -> M ptable B) :
  quiet m -> (forall a, quiet (k a)) -> quiet (bind m k).
Proof.
  intros Hm Hk s. apply post_bind. eapply post_mono; [apply Hm|]. intros a s1 [r ->].
  eapply post_mono; [apply Hk|]. intros b s2 [r' ->]. exists r'. reflexivity.
Qed.
Lemma quiet_mfor {X} (l : list X) f : (forall x, quiet (f x)) -> quiet (mfor l f).
Proof. intros Hf. induction l as [|x l IH]; cbn; [apply quiet_ret | apply quiet_bind; auto]. Qed.
Lemma quiet_drop_opt {X} (f : X -> M R unit) o : quiet (drop_opt f o).
Proof. destruct o; [apply quiet_on_res | apply quiet_ret]. Qed.

Create HintDb quiet discriminated.
Hint Resolve quiet_on_res quiet_ret quiet_panic quiet_drop_opt : quiet.
Hint Extern 1 (quiet (bind _ _)) => apply quiet_bind; [|intros ?] : quiet.
Hint Extern 2 (quiet (match ?o with _ => _ end)) => destruct o : quiet.

Lemma quiet_unmap_range h l : quiet (unmap_range h l).
Proof. induction l; cbn; auto 10 with quiet. Qed.
Lemma quiet_drop_files l : quiet (drop_files l).
Proof. induction l as [|[f|] l IH]; cbn; auto 10 with quiet. Qed.
Lemma quiet_copy_files fs cs : quiet (copy_files fs cs).
Proof. revert cs. induction fs as [|f fs IH]; intros [|c cs]; cbn; auto 12 with quiet. Qed.

Lemma post_quiet {A B} (m : M ptable A) (k : A -> M ptable B) s Q :
  quiet m -> (forall a r, post (k a) (with_res s r) Q) -> post (bind m k) s Q.
Proof. intros Hm Hk. apply post_bind. eapply post_mono; [apply Hm|]. intros a s' [r ->]. apply Hk. Qed.

Definition kept (d d' : ProcData H F I) : Prop :=
  o_files d' = o_files d /\ cwd d' = cwd d /\ vm_area d' = vm_area d /\ cur_max d' = cur_max d /\
  default ∅ (env_vars d') = default ∅ (env_vars d) /\ sz d' = sz d.

Lemma put_put i x y s : put i y (put i x s) = put i y s.
Proof. unfold put; cbn. by rewrite list_insert_insert_eq. Qed.
Lemma put_same i x s : tables s !! i = Some x -> put i x s = s.
Proof. intros Hx. unfold put. rewrite list_insert_id by done. by destruct s. Qed.
Lemma put_lookup i x y s : tables s !! i = Some y -> tables (put i x s) !! i = Some x.
Proof. intros Hy. apply list_lookup_insert_eq, (lookup_lt_Some _ _ _ Hy). Qed.

Lemma init_page_table_post i s x :
  tables s !! i = Some x ->
  post (init_page_table i) s (fun r s' => exists d r', kept (data x) d /\
    (r = Ok tt -> is_Some (page_table d) /\ is_Some (trapframe d)) /\
    (r <> Ok tt -> page_table d = page_table (data x)) /\
    s' = put i (mkProc (inner x) d) (with_res s r')).
Proof.
  intros Hx. apply post_bind, post_on_res. intros [a|e] r.
  2:{ apply post_ret. exists (data x), r. do 3 (split; [done|]). by rewrite put_same; destruct x. }
  apply post_bind, post_get_proc. intros x1 Hx1. assert (x1 = x) as -> by (cbn in Hx1; congruence).
  apply post_bind, post_bind, post_get_proc. intros x1 Hx2. assert (x1 = x) as -> by (cbn in Hx2; congruence).
  apply post_set_proc, post_bind, post_on_res. intros [h|] r'.
  2:{ apply post_ret. eexists _, r'. split; [|split; [|split; [|reflexivity]]]; done. }
  apply post_bind, post_get_proc. intros x1 Hx3.
  cbn in Hx3. rewrite list_lookup_insert_eq in Hx3 by (apply (lookup_lt_Some _ _ _ Hx)). injection Hx3 as <-.
  apply post_quiet; [apply quiet_drop_opt|]. intros _ r''.
  apply post_bind, post_bind, post_get_proc. intros x1 Hx4.
  cbn in Hx4. rewrite list_lookup_insert_eq in Hx4 by (apply (lookup_lt_Some _ _ _ Hx)). injection Hx4 as <-.
  apply post_set_proc, post_ret. cbn. eexists _, r''.
  split; [|split; [|split; [|unfold put, with_res; cbn; by rewrite list_insert_insert_eq]]]; [done| |done].
  intros _. split; eexists; reflexivity.
Qed.

Lemma init_context_post i s x :
  tables s !! i = Some x ->
  post (init_context i) s (fun _ s' => exists d, kept (data x) d /\
    page_table d = page_table (data x) /\ trapframe d = trapframe (data x) /\ s' = put i (mkProc (inner x) d) s).
Proof.
  intros Hx. apply post_bind, post_get_proc. intros x1 Hx1. assert (x1 = x) as -> by congruence.
  cbv zeta. destruct (env_vars (data x)) as [m|] eqn:Em.
  - apply post_ret. exists (data x). rewrite put_same by (by destruct x). done.
  - apply post_bind, post_get_proc. intros x1 Hx2. assert (x1 = x) as -> by congruence.
    apply post_set_proc. eexists. split; [|split; [|split; [|reflexivity]]]; try done.
    unfold kept; cbn. by rewrite Em.
Qed.

Lemma kept_trans d1 d2 d3 : kept d1 d2 -> kept d2 d3 -> kept d1 d3.
Proof. unfold kept. intros (?&?&?&?&?&?) (?&?&?&?&?&?). repeat split; congruence. Qed.

(** A slot that was free, taken for the process [p]. *)
Definition taken (p : Z) (x y : Proc) : Prop :=
  state (inner x) = Unused /\
  inner y = mkInner Allocated (chan (inner x)) p (killed (inner x)) (exit_status (inner x)) /\ kept (data x) (data y) /\
  is_Some (page_table (data y)) /\ is_Some (trapframe (data y)).
(** A slot that was free and still is. *)
Definition spare (x y : Proc) : Prop :=
  state (inner x) = Unused /\ inner y = inner x /\ kept (data x) (data y) /\ page_table (data y) = page_table (data x).

Lemma alloc_scan_post l p s :
  post (alloc_scan l p) s (fun o s' => match o with
    | Some j => exists x y r, tables s !! j = Some x /\ taken p x y /\ s' = put j y (with_res s r)
    | None => s' = s \/ exists j x y r, tables s !! j = Some x /\ spare x y /\ s' = put j y (with_res s r)
    end).
Proof.
  induction l as [|i l IH]; [apply post_ret; by left|].
  cbn [alloc_scan]. apply post_bind, post_get_proc. intros x Hx. destruct (decide _) as [Hu|Hu]; [|exact IH].
  apply post_bind. eapply post_mono; [apply init_page_table_post, Hx|].
  intros [[]|e] s1 (d & r & Hk & Hok & Herr & ->).
  2:{ apply post_ret. right. exists i, x, (mkProc (inner x) d), r. split; [done|]. split; [|done].
      split; [done|]. split; [done|]. split; [done|]. by apply Herr. }
  apply post_bind. eapply post_mono; [apply init_context_post; by eapply put_lookup|].
  intros _ s2 (d' & Hk' & Hp & Ht & ->). rewrite put_put.
  apply post_bind, post_get_proc. intros x2 Hx2.
  erewrite put_lookup in Hx2 by exact Hx. injection Hx2 as <-.
  apply post_bind, post_bind, post_get_proc. intros x2 Hx2.
  erewrite put_lookup in Hx2 by exact Hx. injection Hx2 as <-.
  apply post_set_proc. rewrite put_put. apply post_ret. eexists x, _, r. split; [done|]. split; [|reflexivity].
  repeat split; cbn; try done; try (eapply kept_trans; eauto); rewrite ?Hp, ?Ht; by apply Hok.
Qed.

Definition bump (s : ptable) : ptable := mkPt (tables s) (next_pid s ⊞ 1) (parents s) (res s).

Lemma alloc_proc_post s :
  post alloc_proc s (fun o s' => match o with
    | Some j => exists x y r, tables s !! j = Some x /\ taken (next_pid s) x y /\ s' = put j y (with_res (bump s) r)
    | None => s' = bump s \/ exists j x y r, tables s !! j = Some x /\ spare x y /\ s' = put j y (with_res (bump s) r)
    end).
Proof.
  apply post_bind, post_bind, post_get, post_bind, post_modify, post_ret.
  exact (alloc_scan_post (seq 0 NPROC) (next_pid s) (bump s)).
Qed.

Definition freed (x y : Proc) : Prop :=
  inner y = inner_new /\ sz (data y) = 0 /\ page_table (data y) = None /\ trapframe (data y) = None /\
  o_files (data y) = o_files (data x) /\ cwd (data y) = cwd (data x) /\
  (is_Some (page_table (data x)) -> Forall (eq None) (vm_area (data y))) /\
  cur_max (data y) = cur_max_init /\ default ∅ (env_vars (data y)) = ∅.

Lemma free_post i s x :
  tables s !! i = Some x ->
  post (free i) s (fun _ s' => exists y r, freed x y /\ s' = put i y (with_res s r)).
Proof.
  intros Hx. apply post_bind, post_get_proc. intros x1 Hx1. assert (x1 = x) as -> by congruence.
  cbv zeta. apply post_quiet; [apply quiet_drop_opt|]. intros _ r. apply post_quiet.
  { destruct (page_table (data x)); [|apply quiet_ret]. apply quiet_bind; [apply quiet_on_res|intros _].
    apply quiet_bind; [|intros _; apply quiet_on_res].
    apply quiet_mfor. intros [vm|]; [apply quiet_unmap_range | apply quiet_ret]. }
  intros _ r'. apply post_set_proc. eexists _, r'. split; [|reflexivity].
  repeat split; cbn; [|by destruct (env_vars (data x))].
  intros [h ->]. apply Forall_fmap, Forall_true. done.
Qed.

(** The descriptors of the child, from those of the parent and those left in its slot. *)
Definition copied (fs cs : list (option F)) : list (option F) :=
  zip_with (fun f c => match f with Some _ => f | None => c end) fs cs.

Lemma copied_fresh fs cs : Forall (eq None) cs -> length fs = length cs -> copied fs cs = fs.
Proof.
  revert cs. induction fs as [|f fs IH]; intros [|c cs] Hcs Hl; try done.
  apply Forall_cons in Hcs as [<- Hcs]. cbn. injection Hl as Hl. unfold copied in IH. rewrite IH by done. by destruct f.
Qed.

Lemma copy_files_post fs cs s :
  length fs = length cs ->
  post (copy_files fs cs) s (fun l s' => (exists r, s' = with_res s r) /\ l = copied fs cs).
Proof.
  intros Hl l s' E. split; [exact (quiet_copy_files fs cs s l s' E)|]. revert cs Hl s l s' E.
  induction fs as [|f fs IH]; intros [|c cs] Hl s l s' E; try done; [by injection E|].
  revert l s' E. change (post (copy_files (f :: fs) (c :: cs)) s (fun l _ => l = copied (f :: fs) (c :: cs))).
  cbn [copy_files]. apply post_bind. apply (post_mono _ _ (fun c1 _ => c1 = match f with Some _ => f | None => c end)).
  - destruct f as [f|]; [|by apply post_ret].
    apply post_bind, post_on_res. intros g r. apply post_quiet; [apply quiet_drop_opt|]. intros _ r'. by apply post_ret.
  - intros c1 s1 ->. apply post_bind. intros l s2 E. injection Hl as Hl. rewrite (IH cs Hl s1 l s2 E). by apply post_ret.
Qed.

(** The child that [fork] makes of [p] in the slot [x]. *)
Record cloned (n : Z) (p x y : Proc) : Prop := {
  cl_unused : state (inner x) = Unused;
  cl_inner : inner y = mkInner Runnable (chan (inner x)) n (killed (inner x)) (exit_status (inner x));
  cl_sz : sz (data y) = sz (data p);
  cl_regs : exists tp tc, trapframe (data p) = Some tp /\ trapframe (data y) = Some tc /\
    tf_words tc = <[A0 := 0]> (tf_words tp);
  cl_table : is_Some (page_table (data y));
  cl_cwd : is_Some (cwd (data y));
  cl_files : o_files (data y) = copied (o_files (data p)) (o_files (data x));
  cl_areas : vm_area (data y) = vm_area (data x);
  cl_env : default ∅ (env_vars (data y)) = default ∅ (env_vars (data p)) ∪ default ∅ (env_vars (data x))
}.

Lemma cl_runnable n p x y : cloned n p x y -> state (inner y) = Runnable.
Proof. intros Hc. by rewrite (cl_inner _ _ _ _ Hc). Qed.
Lemma cl_pid n p x y : cloned n p x y -> pid (inner y) = n.
Proof. intros Hc. by rewrite (cl_inner _ _ _ _ Hc). Qed.

Definition spawned (i j : nat) (y : Proc) (s : ptable) (r : R) : ptable :=
  mkPt (<[j := y]> (tables s)) (next_pid s ⊞ 1) (<[j := Some i]> (parents s)) r.

Lemma copy_env_union (a b : option (gmap string string)) :
  default ∅ (copy_env a b) = default ∅ a ∪ default ∅ b.
Proof. destruct a; cbn; [done | by rewrite (left_id_L ∅ (∪))]. Qed.

Lemma fork_into_post i j s p x y r :
  tables s !! i = Some p -> state (inner p) = Running -> length (o_files (data p)) = length (o_files (data x)) ->
  tables s !! j = Some x -> taken (next_pid s) x y ->
  post (fork_into i j) (put j y (with_res (bump s) r)) (fun o s' => match o with
    | Ok n => n = next_pid s /\ exists z r', cloned n p x z /\ page_table (data z) = page_table (data y) /\ s' = spawned i j z s r'
    | Err _ => exists z r', freed y z /\ s' = put j z (with_res (bump s) r')
    end).
Proof.
  intros Hp Hrun Hlen Hx (Hu & Ha & Hk & Hpt & Htf). assert (j <> i) as Hji by (intros ->; congruence).
  apply post_bind, post_get_proc. intros p' Hp'. cbn in Hp'. rewrite list_lookup_insert_ne in Hp' by done.
  assert (p' = p) as -> by congruence.
  apply post_bind, post_get_proc. intros c Hc. erewrite put_lookup in Hc by exact Hx. injection Hc as <-.
  apply post_bind, post_unwrap. intros ch Hch. apply post_bind, post_unwrap. intros ph Hph.
  apply post_bind, post_on_res. intros [u|e] r1.
  - apply post_bind, post_deref. intros tp Htp. apply post_bind, post_deref. intros tc Htc.
    apply post_bind. eapply post_mono; [apply copy_files_post; by rewrite (proj1 Hk)|].
    intros files s2 [[r2 ->] ->].
    apply post_bind, post_unwrap. intros d Hd. apply post_bind, post_on_res. intros d' r3.
    apply post_quiet; [apply quiet_drop_opt|]. intros _ r4.
    apply post_bind, post_bind, post_get_proc. intros c Hc.
    cbn in Hc. rewrite list_lookup_insert_eq in Hc by (apply (lookup_lt_Some _ _ _ Hx)). injection Hc as <-.
    apply post_set_proc, post_bind, post_modify, post_bind, post_bind, post_get_proc. intros c Hc.
    cbn in Hc. rewrite list_insert_insert_eq, list_lookup_insert_eq in Hc by (apply (lookup_lt_Some _ _ _ Hx)). injection Hc as <-.
    apply post_set_proc, post_bind, post_get_proc. intros c Hc.
    cbn in Hc. rewrite !list_insert_insert_eq, list_lookup_insert_eq in Hc by (apply (lookup_lt_Some _ _ _ Hx)). injection Hc as <-.
    apply post_ret. cbn. rewrite Ha. split; [done|]. eexists _, r4. split; [|split].
    3:{ unfold spawned, put, with_res; cbn. rewrite !list_insert_insert_eq. reflexivity. }
    2:{ by rewrite Hch. }
    destruct Hk as (Hkf & _ & Hka & _ & Hke & _). split; cbn; rewrite ?Ha; eauto; [congruence|].
    by rewrite copy_env_union, Hke.
  - apply post_bind. eapply post_mono; [apply free_post; by eapply put_lookup|].
    intros _ s2 (z & r2 & Hz & ->). apply post_ret. exists z, r2. split; [done|].
    unfold put, with_res; cbn. by rewrite list_insert_insert_eq.
Qed.

Lemma fork_post i s p :
  tables s !! i = Some p -> state (inner p) = Running ->
  (forall k z, tables s !! k = Some z -> length (o_files (data z)) = NOFILE) ->
  post (fork i) s (fun r s' => match r with
    | Ok n => n = next_pid s /\ exists j x y r', tables s !! j = Some x /\ cloned n p x y /\ s' = spawned i j y s r'
    | Err _ => s' = bump s \/ exists j x y r', tables s !! j = Some x /\ state (inner x) = Unused /\
        (spare x y \/ exists z, kept (data x) (data z) /\ is_Some (page_table (data z)) /\ freed z y) /\
        s' = put j y (with_res (bump s) r')
    end).
Proof.
  intros Hp Hrun Hnf. apply post_bind. eapply post_mono; [apply alloc_proc_post|]. intros [j|] s1 Hs1.
  - destruct Hs1 as (x & y & r & Hx & Ht & ->). pose proof Ht as (Hu & _ & Hk & Hpt & _).
    eapply post_mono; [apply (fork_into_post i j s p x y r); try done; by rewrite (Hnf i p), (Hnf j x)|].
    intros [n|e] s'.
    + intros (-> & z & r' & Hc & _ & ->). split; [done|]. by exists j, x, z, r'.
    + intros (z & r' & Hz & ->). right. exists j, x, z, r'. split; [done|]. split; [done|]. split; [right; eauto | done].
  - apply post_ret. destruct Hs1 as [->|(j & x & y & r & Hx & Hs & ->)]; [by left|right].
    exists j, x, y, r. pose proof Hs as [Hu _]. split; [done|]. split; [done|]. split; [by left | done].
Qed.

(** ** The process tree *)

Definition used (x : Proc) : Prop := state (inner x) <> Unused.
Definition alive (x : Proc) : Prop := used x /\ state (inner x) <> Zombie.
Definition closed (d : ProcData H F I) : Prop := Forall (eq None) (o_files d) /\ cwd d = None.
Definition fresh (d : ProcData H F I) : Prop :=
  Forall (eq None) (vm_area d) /\ cur_max d = cur_max_init /\ default ∅ (env_vars d) = ∅ /\
  sz d = 0 /\ page_table d = None.
(** Asleep in [wait]. *)
Definition waiting (i : nat) (x : Proc) : Prop := state (inner x) = Sleeping /\ chan (inner x) = proc_addr i.

(** A slot; [E] has the processes between the two halves of [exit]. *)
Record slot_ok (E : gset nat) (i : nat) (x : Proc) : Prop := {
  so_unused : state (inner x) = Unused -> inner x = inner_new /\ closed (data x) /\ fresh (data x);
  so_zombie : state (inner x) = Zombie -> closed (data x);
  so_used : used x -> is_Some (page_table (data x)) /\ is_Some (trapframe (data x));
  so_exiting : i ∈ E -> i <> 0%nat /\ alive x /\ closed (data x);
  so_cwd : alive x -> i ∉ E -> is_Some (cwd (data x));
  so_len : length (o_files (data x)) = NOFILE
}.

Record tree_inv (s : ptable) (E : gset nat) : Prop := {
  ti_len : length (tables s) = NPROC;
  ti_plen : length (parents s) = NPROC;
  ti_slot : forall i x, tables s !! i = Some x -> slot_ok E i x;
  ti_init : exists x, tables s !! 0%nat = Some x /\ alive x;
  ti_root : parents s !! 0%nat = Some None;
  ti_used : forall i x, tables s !! i = Some x -> i <> 0%nat -> used x <-> exists q, parents s !! i = Some (Some q);
  ti_parent : forall i q, parents s !! i = Some (Some q) -> q <> i /\ exists y, tables s !! q = Some y /\ alive y;
  ti_wait : forall i q x y, parents s !! i = Some (Some q) -> tables s !! i = Some x -> tables s !! q = Some y ->
    state (inner x) = Zombie -> ~ waiting q y;
  ti_pid : forall i x, tables s !! i = Some x -> used x -> 0 <= pid (inner x) < next_pid s;
  ti_pids : forall i j x y, tables s !! i = Some x -> tables s !! j = Some y -> used x -> used y ->
    pid (inner x) = pid (inner y) -> i = j
}.

Lemma lookup_insert_cases {A} (l : list A) i k (y z : A) :
  <[i := y]> l !! k = Some z -> (k = i /\ z = y) \/ (k <> i /\ l !! k = Some z).
Proof. intros Hk. apply list_lookup_insert_Some in Hk as [(<- & <- & _)|[? ?]]; [by left|right]. done. Qed.

Ltac slots :=
  repeat match goal with
  | Hk : <[_ := _]> _ !! _ = Some _ |- _ => apply lookup_insert_cases in Hk as [[? ?]|[? Hk]]; simplify_eq
  end.

Lemma inv_res s E r : tree_inv s E -> tree_inv (with_res s r) E.
Proof. intros []. split; assumption. Qed.

(** One slot changes, nobody is born or dies. *)
Lemma inv_put s E E' i x y :
  tree_inv s E -> tables s !! i = Some x ->
  (used x <-> used y) -> (alive x <-> alive y) -> (used y -> pid (inner y) = pid (inner x)) ->
  slot_ok E' i y -> (forall k, k <> i -> k ∈ E' <-> k ∈ E) ->
  (waiting i y -> forall k z, parents s !! k = Some (Some i) -> tables s !! k = Some z -> state (inner z) <> Zombie) ->
  tree_inv (put i y s) E'.
Proof.
  intros Hi Hx Hu Ha Hpid Hs HE Hw. destruct Hi as [L PL S0 T0 R0 U P W N1 N2].
  assert (Hl : (i < length (tables s))%nat) by (apply (lookup_lt_Some _ _ _ Hx)).
  assert (Hal : forall q z, tables s !! q = Some z -> alive z -> exists z', <[i := y]> (tables s) !! q = Some z' /\ alive z').
  { intros q z Hz Haz. destruct (decide (q = i)) as [->|Hq].
    - exists y. rewrite list_lookup_insert_eq by done. split; [done|]. apply Ha. congruence.
    - exists z. by rewrite list_lookup_insert_ne. }
  assert (Hold : forall k z, <[i := y]> (tables s) !! k = Some z -> used z ->
    exists z0, tables s !! k = Some z0 /\ used z0 /\ pid (inner z0) = pid (inner z)).
  { intros k z Hk Hz. slots; [|eauto]. exists x. rewrite Hpid, Hu by done. done. }
  split; cbn; try done.
  - by rewrite length_insert.
  - intros k z Hk. slots; [done|]. destruct (S0 k z Hk) as [A B C D G K]. specialize (HE k). split; tauto.
  - destruct T0 as (z & Hz & Haz). eauto.
  - intros k z Hk Hk0. slots; [|eauto]. rewrite <- Hu. eauto.
  - intros k q Hk. destruct (P k q Hk) as (? & z & Hz & Haz). eauto.
  - intros k q a b Hk Hka Hqb Hzo Hwq.
    assert (Hxz : state (inner y) = Zombie -> state (inner x) = Zombie).
    { intros Hyz. destruct (decide (state (inner x) = Zombie)) as [|Hn]; [done|]. exfalso.
      assert (alive y) as [_ Hny]; [|done]. apply Ha. split; [|done]. apply Hu. unfold used. congruence. }
    slots; try (by eapply (Hw Hwq)); try (by eapply W; eauto).
    exact (proj1 (P _ _ Hk) eq_refl).
  - intros k z Hk Hz. destruct (Hold k z Hk Hz) as (z0 & Hz0 & Hu0 & <-). eauto.
  - intros k m a b Hk Hm Hua Hub Heq.
    destruct (Hold k a Hk Hua) as (a0 & Ha0 & Hua0 & Hpa), (Hold m b Hm Hub) as (b0 & Hb0 & Hub0 & Hpb).
    eapply N2; [exact Ha0 | exact Hb0 | done | done | congruence].
Qed.

Lemma inv_bump s E : tree_inv s E -> next_pid s < 2 ^ 64 - 1 -> tree_inv (bump s) E.
Proof.
  intros [L PL S0 [x0 [Hx0 Ha0]] R0 U P W N1 N2] Hn. split; cbn; eauto.
  intros i x Hx Hu. specialize (N1 i x Hx Hu). pose proof (N1 : 0 <= _ < _) as Hb.
  unfold usize_add. rewrite wrap_small; lia.
Qed.

Lemma free_slot_facts s E j x :
  tree_inv s E -> tables s !! j = Some x -> state (inner x) = Unused ->
  j <> 0%nat /\ j ∉ E /\ forall k, parents s !! k <> Some (Some j).
Proof.
  intros Hi Hx Hu. destruct (ti_init _ _ Hi) as (x0 & Hx0 & [Ha0 _]). split; [intros ->; congruence|]. split.
  - intros HE. destruct (so_exiting _ _ _ (ti_slot _ _ Hi j x Hx) HE) as (_ & [Hux _] & _). done.
  - intros k Hk. destruct (ti_parent _ _ Hi k j Hk) as (_ & y & Hy & [Huy _]). congruence.
Qed.

Lemma inv_spawn s E i j p x y r :
  tree_inv s E -> next_pid s < 2 ^ 64 - 1 -> 0 <= next_pid s ->
  tables s !! i = Some p -> alive p -> tables s !! j = Some x -> cloned (next_pid s) p x y ->
  tree_inv (spawned i j y s r) E.
Proof.
  intros Hi Hn Hn0 Hp Hap Hx Hc. destruct (free_slot_facts s E j x Hi Hx (cl_unused _ _ _ _ Hc)) as (Hj0 & HjE & Hjp).
  pose proof (cl_unused _ _ _ _ Hc) as Hu. pose proof (cl_runnable _ _ _ _ Hc) as Hr.
  destruct Hi as [L PL S0 T0 R0 U P W N1 N2].
  assert (Hl : (j < length (tables s))%nat) by (apply (lookup_lt_Some _ _ _ Hx)).
  assert (Hlp : (j < length (parents s))%nat) by lia.
  assert (Hij : i <> j) by (intros ->; destruct Hap as [Hup _]; unfold used in Hup; congruence).
  assert (Hal : forall q z, tables s !! q = Some z -> alive z -> <[j := y]> (tables s) !! q = Some z).
  { intros q z Hz [Huz _]. rewrite list_lookup_insert_ne; [done|]. intros <-. congruence. }
  assert (Hb : next_pid s ⊞ 1 = next_pid s + 1) by (unfold usize_add; apply wrap_small; lia).
  split; cbn; rewrite ?length_insert, ?Hb; try done.
  - intros k z Hk. slots; [|by apply S0]. split; [congruence|congruence| |done|intros _ _; exact (cl_cwd _ _ _ _ Hc)|].
    2:{ rewrite (cl_files _ _ _ _ Hc). unfold copied. rewrite length_zip_with_l_eq; [exact (so_len _ _ _ (S0 i p Hp))|].
        by rewrite (so_len _ _ _ (S0 i p Hp)), (so_len _ _ _ (S0 j x Hx)). }
    intros _.
    split; [exact (cl_table _ _ _ _ Hc)|]. destruct (cl_regs _ _ _ _ Hc) as (? & ? & _ & -> & _). eauto.
  - destruct T0 as (z & Hz & Haz). eauto.
  - by rewrite list_lookup_insert_ne.
  - intros k z Hk Hk0. slots.
    + rewrite list_lookup_insert_eq by done. split; [eauto|]. intros _. unfold used. congruence.
    + rewrite list_lookup_insert_ne by done. eauto.
  - intros k q Hk. slots; [eauto|]. destruct (P k q Hk) as (? & z & Hz & Haz). eauto.
  - intros k q a b Hk Hka Hqb Hz Hs. pose proof (proj1 Hs). slots; try congruence. by eapply W.
  - intros k z Hk Hz. slots; [rewrite (cl_pid _ _ _ _ Hc); lia|]. specialize (N1 _ _ Hk Hz). lia.
  - intros k m a b Hk Hm Hua Hub Heq.
    assert (Hcases : forall k z, tables s !! k = Some z -> used z -> pid (inner z) <> pid (inner y)).
    { intros k' z Hz Huz. rewrite (cl_pid _ _ _ _ Hc). specialize (N1 _ _ Hz Huz). lia. }
    slots; try done; try (by eapply N2); exfalso; by eapply Hcases.
Qed.

Definition reaped (j : nat) (y : Proc) (s : ptable) (r : R) : ptable :=
  mkPt (<[j := y]> (tables s)) (next_pid s) (<[j := None]> (parents s)) r.

Lemma inv_reap s E i j x y r :
  tree_inv s E -> parents s !! j = Some (Some i) -> tables s !! j = Some x ->
  state (inner x) = Zombie -> freed x y -> tree_inv (reaped j y s r) E.
Proof.
  intros Hi Hj Hx Hz (Hin & Hsz & Hpt & _ & Hof & Hcw & Hva & Hcm & Hen). destruct Hi as [L PL S0 T0 R0 U P W N1 N2].
  assert (Hj0 : j <> 0%nat) by congruence.
  assert (Huy : ~ used y) by (unfold used; rewrite Hin; cbn; tauto).
  assert (Hal : forall q z, tables s !! q = Some z -> alive z -> <[j := y]> (tables s) !! q = Some z).
  { intros q z Hq [_ Hnz]. rewrite list_lookup_insert_ne; [done|]. intros <-. congruence. }
  pose proof (lookup_lt_Some _ _ _ Hj) as Hlp. destruct (S0 j x Hx) as [_ Sz Su Se _ Sn].
  split; cbn; rewrite ?length_insert; try done.
  - intros k z Hk. slots; [|by apply S0]. split; rewrite ?Hin; try done.
    + intros _. split; [done|]. split; [unfold closed; rewrite Hof, Hcw; by apply Sz|].
      split; [|done]. apply Hva, Su. unfold used. congruence.
    + intros HE. destruct (Se HE) as (_ & [_ ?] & _). done.
    + by intros [? _].
    + congruence.
  - destruct T0 as (z & Hq & Haz). eauto.
  - by rewrite list_lookup_insert_ne.
  - intros k z Hk Hk0. slots.
    + rewrite list_lookup_insert_eq by done. split; [done | intros [q [=]]].
    + rewrite list_lookup_insert_ne by done. eauto.
  - intros k q Hk. slots. destruct (P k q Hk) as (? & z & Hq & Haz). eauto.
  - intros k q a b Hk Hka Hqb Ha Hw. slots; [|by eapply W].
    destruct Hw as [Hw _]. by rewrite Hin in Hw.
  - intros k z Hk Hu. slots; eauto.
  - intros k m a b Hk Hm Hua Hub Heq. slots; try done. by eapply N2.
Qed.

Definition woken (me : option nat) (c : Z) (s : ptable) : ptable :=
  mkPt (imap (fun i x => wake me c (i, x)) (tables s)) (next_pid s) (parents s) (res s).

Lemma wake_facts me c i x :
  let y := wake me c (i, x) in
  data y = data x /\ pid (inner y) = pid (inner x) /\ (used y <-> used x) /\
  (state (inner y) = Zombie <-> state (inner x) = Zombie) /\
  (state (inner y) = Unused <-> state (inner x) = Unused) /\ (waiting i y -> waiting i x).
Proof.
  unfold wake, used, waiting. destruct (decide _); [tauto|]. destruct (decide _) as [[Hs Hc]|]; [|tauto].
  cbn. rewrite Hs. repeat split; try done; intros; destruct_and?; try done.
Qed.
Lemma wake_unused me c i x : state (inner x) = Unused -> wake me c (i, x) = x.
Proof. intros Hu. unfold wake. destruct (decide _); [done|]. rewrite decide_False; [done|]. intros [? _]. congruence. Qed.
Lemma woken_awake me q s y : me <> Some q -> tables (woken me (proc_addr q) s) !! q = Some y -> ~ waiting q y.
Proof.
  cbn. rewrite list_lookup_imap. intros Hme Hy. destruct (tables s !! q) as [x|]; [|done]. injection Hy as <-.
  unfold wake, waiting. rewrite decide_False by done. destruct (decide _) as [|Hn]; [cbn; by intros [? _] | exact Hn].
Qed.
Lemma woken_me i c s : tables (woken (Some i) c s) !! i = tables s !! i.
Proof. cbn. rewrite list_lookup_imap. destruct (_ !! i); [|done]. cbn. by rewrite decide_True. Qed.

Lemma inv_wake s E me c : tree_inv s E -> tree_inv (woken me c s) E.
Proof.
  intros [L PL S0 T0 R0 U P W N1 N2].
  assert (Hold : forall k z, tables (woken me c s) !! k = Some z ->
    exists x, tables s !! k = Some x /\ z = wake me c (k, x)).
  { intros k z. cbn. rewrite list_lookup_imap. destruct (tables s !! k) as [x|]; [|done]. intros [= <-]. eauto. }
  assert (Hal : forall q x, tables s !! q = Some x -> alive x -> exists y, tables (woken me c s) !! q = Some y /\ alive y).
  { intros q x Hx [Hu Hz]. exists (wake me c (q, x)). cbn. rewrite list_lookup_imap, Hx. split; [done|].
    destruct (wake_facts me c q x) as (_ & _ & Hu' & Hz' & _). split; [by apply Hu' | by rewrite Hz']. }
  split; try done.
  - cbn. by rewrite length_imap.
  - intros k z Hk. destruct (Hold k z Hk) as (x & Hx & ->).
    destruct (wake_facts me c k x) as (Hd & _ & Hu & Hz & Hn & _). destruct (S0 k x Hx) as [A B C D G K].
    split; unfold alive; rewrite ?Hd, ?Hu, ?Hz, ?Hn; auto. intros Hun. rewrite wake_unused by done. auto.
  - destruct T0 as (x & Hx & Ha). eauto.
  - intros k z Hk Hk0. destruct (Hold k z Hk) as (x & Hx & ->).
    destruct (wake_facts me c k x) as (_ & _ & -> & _). eauto.
  - intros k q Hk. destruct (P k q Hk) as (? & x & Hx & Ha). eauto.
  - intros k q a b Hk Hka Hqb Hz Hw. destruct (Hold k a Hka) as (x & Hx & ->), (Hold q b Hqb) as (y & Hy & ->).
    eapply (W k q x y); try done; [by apply (wake_facts me c k x) | by apply (wake_facts me c q y)].
  - intros k z Hk Hu. destruct (Hold k z Hk) as (x & Hx & ->).
    destruct (wake_facts me c k x) as (_ & -> & Hu' & _). eapply N1; [done | by apply Hu'].
  - intros k m a b Hk Hm Hua Hub Heq. destruct (Hold k a Hk) as (x & Hx & ->), (Hold m b Hm) as (y & Hy & ->).
    destruct (wake_facts me c k x) as (_ & Hp & Hu & _), (wake_facts me c m y) as (_ & Hp' & Hu' & _).
    eapply N2; [done | done | by apply Hu | by apply Hu' | congruence].
Qed.

Definition with_parent (k : nat) (o : option nat) (s : ptable) : ptable :=
  mkPt (tables s) (next_pid s) (<[k := o]> (parents s)) (res s).

Lemma inv_adopt s E k i :
  tree_inv s E -> parents s !! k = Some (Some i) ->
  (forall x, tables s !! 0%nat = Some x -> ~ waiting 0 x) -> tree_inv (with_parent k (Some 0%nat) s) E.
Proof.
  intros [L PL S0 T0 R0 U P W N1 N2] Hk Hw. pose proof (lookup_lt_Some _ _ _ Hk) as Hl.
  assert (Hk0 : k <> 0%nat) by congruence.
  split; cbn; rewrite ?length_insert; try done.
  - by rewrite list_lookup_insert_ne.
  - intros m z Hm Hm0. destruct (decide (m = k)) as [->|Hmk]; [|rewrite list_lookup_insert_ne by done; eauto].
    rewrite list_lookup_insert_eq, (U k z Hm Hm0) by done. split; eauto.
  - intros m q Hm. slots; [|eauto]. split; [done|]. destruct T0 as (z & Hz & Ha). eauto.
  - intros m q a b Hm Ha Hb Hz. slots; eauto.
Qed.

Lemma reparent_post i l s E :
  i <> 0%nat -> tree_inv s E ->
  post (reparent i l) s (fun _ s' => tree_inv s' E /\ tables s' !! i = tables s !! i /\
    (forall k, parents s' !! k = Some (Some i) -> parents s !! k = Some (Some i) /\ k ∉ l)).
Proof.
  intros Hi0. revert s. induction l as [|j l IH]; intros s Hi.
  { apply post_ret. split; [done|]. split; [done|]. intros k Hk. split; [done | apply not_elem_of_nil]. }
  cbn [reparent]. apply post_bind, post_get, post_bind, post_unwrap. intros o Ho. apply post_bind.
  destruct (decide (o = Some i)) as [->|Hne].
  - apply post_bind, post_modify, post_modify.
    change (post (reparent i l) (with_parent j (Some 0%nat) (woken (Some i) (proc_addr 0) s))
      (fun _ s' => tree_inv s' E /\ tables s' !! i = tables s !! i /\
        (forall k, parents s' !! k = Some (Some i) -> parents s !! k = Some (Some i) /\ k ∉ j :: l))).
    eapply post_mono.
    { apply IH. eapply inv_adopt; [by apply inv_wake | exact Ho|]. intros x. apply woken_awake. congruence. }
    intros _ s' (Hi' & Ht & Hk'). split; [done|]. split; [rewrite Ht; apply woken_me|].
    intros k Hk. destruct (Hk' k Hk) as [Hp Hl]. cbn in Hp. slots. split; [done|]. by apply not_elem_of_cons.
  - apply post_ret. eapply post_mono; [by apply IH|]. intros _ s' (Hi' & Ht & Hk').
    split; [done|]. split; [done|]. intros k Hk. destruct (Hk' k Hk) as [Hp Hl]. split; [done|].
    apply not_elem_of_cons. split; [|done]. intros ->. congruence.
Qed.

Lemma inv_zombie s E i q x status :
  tree_inv s E -> tables s !! i = Some x -> alive x -> i ∈ E ->
  (forall k, parents s !! k <> Some (Some i)) -> parents s !! i = Some (Some q) ->
  (forall y, tables s !! q = Some y -> ~ waiting q y) ->
  tree_inv (put i (mkProc (mkInner Zombie (chan (inner x)) (pid (inner x)) (killed (inner x)) status) (data x)) s) (E ∖ {[i]}).
Proof.
  intros [L PL S0 T0 R0 U P W N1 N2] Hx Ha HE Hno Hq Hw. destruct (S0 i x Hx) as [_ _ Su Se _ Sn].
  destruct (Se HE) as (Hi0 & _ & Hcl). destruct Ha as [Hux Hzx].
  assert (Hal : forall k q z, parents s !! k = Some (Some q) -> tables s !! q = Some z -> <[i := mkProc (mkInner Zombie (chan (inner x)) (pid (inner x)) (killed (inner x)) status) (data x)]> (tables s) !! q = Some z).
  { intros k q' z Hk Hz. rewrite list_lookup_insert_ne; [done|]. intros <-. by apply (Hno k). }
  split; cbn; rewrite ?length_insert; try done.
  - intros k z Hk. slots; [split; cbn; try done; [by intros _; apply Su | set_solver | by intros [_ ?]]|].
    destruct (S0 k z Hk) as [A B C D G K].
    assert (k ∈ E ∖ {[i]} <-> k ∈ E) as HkE by set_solver. split; tauto.
  - destruct T0 as (z & Hz & Haz). exists z. by rewrite list_lookup_insert_ne.
  - intros k z Hk Hk0. slots; [|eauto]. rewrite <- (U i x Hx Hk0). unfold used; cbn. split; done.
  - intros k q' Hk. destruct (P k q' Hk) as (? & z & Hz & Haz). eauto.
  - intros k q' a b Hk Hka Hqb Hz Hwq. destruct (P k q' Hk) as (Hne & z & Hz' & Haz).
    rewrite (Hal k q' z Hk Hz') in Hqb. injection Hqb as ->. slots; [by eapply Hw | by eapply W].
  - intros k z Hk Hu. slots; [by apply (N1 i x) | eauto].
  - intros k m a b Hk Hm Hua Hub Heq.
    assert (Hold : forall k z, <[i := mkProc (mkInner Zombie (chan (inner x)) (pid (inner x)) (killed (inner x)) status) (data x)]> (tables s) !! k = Some z -> used z ->
      exists z0, tables s !! k = Some z0 /\ used z0 /\ pid (inner z0) = pid (inner z)).
    { intros k' z Hk' Hz. slots; eauto. }
    destruct (Hold k a Hk Hua) as (a0 & ? & ? & ?), (Hold m b Hm Hub) as (b0 & ? & ? & ?).
    eapply N2; [done | done | done | done | congruence].
Qed.

Lemma exit_commit_inv s E i x status :
  tree_inv s E -> tables s !! i = Some x -> alive x -> i ∈ E ->
  post (exit_commit i status) s (fun _ s' => tree_inv s' (E ∖ {[i]})).
Proof.
  intros Hi Hx Ha HE. destruct (so_exiting _ _ _ (ti_slot _ _ Hi i x Hx) HE) as (Hi0 & _ & _).
  apply post_bind. eapply post_mono; [by apply (reparent_post i _ s E)|]. intros _ s1 (Hi1 & Ht & Hno).
  apply post_bind, post_get, post_bind, post_unwrap. intros o Ho. apply post_bind, post_unwrap. intros q ->.
  apply post_bind, post_modify. change (post (let! p := get_proc i in
    let x := inner p in set_inner i (mkInner Zombie (chan x) (pid x) (killed x) status))
    (woken (Some i) (proc_addr q) s1) (fun _ s' => tree_inv s' (E ∖ {[i]}))).
  destruct (ti_parent _ _ Hi1 i q Ho) as [Hqi _].
  assert (Hx1 : tables (woken (Some i) (proc_addr q) s1) !! i = Some x) by (by rewrite woken_me, Ht).
  apply post_bind, post_get_proc. intros x' Hx'. assert (x' = x) as -> by congruence.
  cbv zeta. apply post_bind, post_get_proc. intros x' Hx''. assert (x' = x) as -> by congruence.
  apply post_set_proc. eapply inv_zombie; [by apply inv_wake | done | done | done | | exact Ho |].
  - intros k Hk. destruct (Hno k Hk) as [Hp Hl].
    assert (k < NPROC)%nat by (rewrite <- (ti_plen _ _ Hi); exact (lookup_lt_Some _ _ _ Hp)).
    assert (k <> 0%nat) by (intros ->; pose proof (ti_root _ _ Hi); congruence).
    apply Hl, elem_of_seq. unfold NPROC in *. lia.
  - intros y. apply woken_awake. congruence.
Qed.

Lemma exit_release_inv s E i x :
  tree_inv s E -> tables s !! i = Some x -> alive x ->
  post (exit_release i) s (fun _ s' => tree_inv s' ({[i]} ∪ E)).
Proof.
  intros Hi Hx Ha. unfold exit_release. destruct (decide (i = 0%nat)) as [|Hi0]; [apply post_panic|].
  apply post_bind, post_get_proc. intros x' Hx'. assert (x' = x) as -> by congruence. cbv zeta.
  apply post_quiet; [apply quiet_drop_files|]. intros _ r1. apply post_quiet; [apply quiet_on_res|]. intros _ r2.
  apply post_quiet; [apply quiet_drop_opt|]. intros _ r3. apply post_quiet; [apply quiet_on_res|]. intros _ r4.
  apply post_bind, post_get_proc. intros x' Hx''. assert (x' = x) as -> by (cbn in Hx''; congruence).
  apply post_set_proc. assert (Hs := ti_slot _ _ Hi i x Hx). destruct Hs as [_ _ Su _ _ Sn]. destruct Ha as [Hu Hz].
  assert (Hc : Forall (eq None) (replicate (length (o_files (data x))) (@None F))) by (by apply Forall_replicate).
  eapply inv_put; [by repeat apply inv_res | exact Hx'' | done | done | done | | set_solver |].
  - split; try done. intros _ []; set_solver.
    cbn. by rewrite length_replicate.
  - intros Hw k z Hk Hz' Hzo. eapply (ti_wait _ _ Hi k i z x); done.
Qed.

Lemma wait_scan_post i addr l kids s :
  post (wait_scan i addr l kids) s (fun v s' => match v with
    | inl p => (exists r e, p = Finished (Err e) /\ s' = with_res s r) \/
        exists j x y r, p = Finished (Ok (pid (inner x))) /\ parents s !! j = Some (Some i) /\
          tables s !! j = Some x /\ state (inner x) = Zombie /\ freed x y /\ s' = reaped j y s r
    | inr _ => s' = s /\ forall j x, j ∈ l -> parents s !! j = Some (Some i) -> tables s !! j = Some x ->
        state (inner x) <> Zombie
    end).
Proof.
  revert kids. induction l as [|j l IH]; intros kids; [apply post_ret; split; [done|set_solver]|].
  cbn [wait_scan]. apply post_bind, post_get, post_bind, post_unwrap. intros o Ho.
  assert (Hrest : forall b, (forall x, parents s !! j = Some (Some i) -> tables s !! j = Some x -> state (inner x) <> Zombie) ->
    post (wait_scan i addr l b) s (fun v s' => match v with
    | inl p => (exists r e, p = Finished (Err e) /\ s' = with_res s r) \/
        exists j x y r, p = Finished (Ok (pid (inner x))) /\ parents s !! j = Some (Some i) /\
          tables s !! j = Some x /\ state (inner x) = Zombie /\ freed x y /\ s' = reaped j y s r
    | inr _ => s' = s /\ forall k x, k ∈ j :: l -> parents s !! k = Some (Some i) -> tables s !! k = Some x ->
        state (inner x) <> Zombie
    end)).
  { intros b Hj. eapply post_mono; [apply (IH b)|]. intros [p|b'] s'; [done|]. intros [-> Hl]. split; [done|].
    intros k x [->|Hk]%elem_of_cons; eauto. }
  destruct (decide (o = Some i)) as [->|Hne]; [|apply Hrest; intros; congruence].
  apply post_bind, post_get_proc. intros x Hx.
  destruct (decide (state (inner x) = Zombie)) as [Hz|Hnz]; [|apply Hrest; intros; congruence].
  apply post_bind. apply (post_mono _ _ (fun _ s' => exists r, s' = with_res s r)).
  { destruct (addr =? 0); [apply quiet_ret|]. apply post_bind, post_get_proc. intros p Hp.
    apply post_bind, post_unwrap. intros h Hh. apply quiet_on_res. }
  intros [u|e] s1 [r ->].
  2:{ apply post_ret. left. eauto. }
  apply post_bind. eapply post_mono; [apply free_post, Hx|]. intros _ s2 (y & r' & Hf & ->).
  apply post_bind, post_modify, post_ret. right. exists j, x, y, r'. done.
Qed.

Lemma wait_inv s E i addr x :
  tree_inv s E -> tables s !! i = Some x -> alive x -> i ∉ E ->
  post (wait i addr) s (fun _ s' => tree_inv s' E).
Proof.
  intros Hi Hx Ha HE. apply post_bind. eapply post_mono; [apply wait_scan_post|].
  intros [p|b] s1.
  - intros [(r & e & -> & ->)|(j & z & y & r & -> & Hp & Hj & Hz & Hf & ->)]; apply post_ret; [by apply inv_res|].
    by eapply inv_reap.
  - intros [-> Hno]. apply post_bind, post_get_proc. intros x' Hx'. assert (x' = x) as -> by congruence.
    destruct (_ || _); [by apply post_ret|]. apply post_bind, post_bind, post_get_proc.
    intros x' Hx''. assert (x' = x) as -> by congruence. cbv zeta. apply post_bind, post_get_proc.
    intros x' Hx3. assert (x' = x) as -> by congruence. apply post_set_proc, post_ret.
    destruct (ti_slot _ _ Hi i x Hx) as [_ _ Su Se Sc Sn]. destruct Ha as [Hu Hz].
    eapply inv_put; [done | done | by split | by split | done | | done |].
    + split; try done; cbn; [by intros _; apply Su | intros _; by apply Sc].
    + intros _ k z Hk Hkz. eapply Hno; [|done..]. apply elem_of_seq.
      pose proof (lookup_lt_Some _ _ _ Hk). rewrite (ti_plen _ _ Hi) in *. lia.
Qed.

Lemma fork_inv s E i x :
  tree_inv s E -> next_pid s < 2 ^ 64 - 1 -> tables s !! i = Some x -> state (inner x) = Running ->
  post (fork i) s (fun _ s' => tree_inv s' E).
Proof.
  intros Hi Hn Hx Hr. eapply post_mono.
  { eapply fork_post; [done | done |]. intros k z Hk. exact (so_len _ _ _ (ti_slot _ _ Hi k z Hk)). }
  intros [n|e] s'.
  - intros (-> & j & y & z & r & Hj & Hc & ->). eapply inv_spawn; try done; [|split; unfold used; congruence].
    destruct (ti_init _ _ Hi) as (x0 & Hx0 & [Hu0 _]). pose proof (ti_pid _ _ Hi _ _ Hx0 Hu0). lia.
  - intros [->|(j & y & z & r & Hj & Hu & Hs & ->)]; [by apply inv_bump|].
    destruct (free_slot_facts s E j y Hi Hj Hu) as (Hj0 & HjE & _).
    destruct (so_unused _ _ _ (ti_slot _ _ Hi j y Hj) Hu) as (Hnew & [Hc1 Hc2] & Hf1 & Hf2 & Hf3 & Hf4 & Hf5).
    assert (inner z = inner_new /\ closed (data z) /\ fresh (data z) /\ o_files (data z) = o_files (data y)) as (Hnz' & Hcz & Hfz & Hoz).
    { unfold closed, fresh. destruct Hs as [(_ & Hin & (K1 & K2 & K3 & K4 & K5 & K6) & K7)|(w & (K1 & K2 & _) & Hw & Hin & G1 & G2 & _ & F1 & F2 & F3 & F4 & F5)].
      - rewrite K1, K2, K3, K4, K5, K6, K7, Hin. done.
      - rewrite Hin, G1, G2, F1, F2, F4, F5, K1, K2. split; [done|]. split; [done|]. split; [|done]. split; [by apply F3|]. done. }
    assert (Huz : state (inner z) = Unused) by (by rewrite Hnz').
    assert (Hnz : ~ used z) by (by intros ?). assert (Hny : ~ used y) by (by intros ?).
    eapply inv_put; [by apply inv_res, inv_bump | exact Hj | tauto | unfold alive; tauto | done | | done |].
    + split; [done | congruence | done | done | by intros [? _] |]. rewrite Hoz. exact (so_len _ _ _ (ti_slot _ _ Hi j y Hj)).
    + intros [? _]. congruence.
Qed.

(** ** Every interleaving of calls *)

Definition boot (r : R) : ptable := mkPt (replicate NPROC proc_new) 0 (replicate NPROC None) r.
Definition runs (s : ptable) (i : nat) : Prop := exists x, tables s !! i = Some x /\ state (inner x) = Running.

(** [st_call] is any other system call or trap of a process, which may change all that it owns. *)
Inductive step : ptable * gset nat -> ptable * gset nat -> Prop :=
| st_fork i r s s' E : runs s i -> i ∉ E -> next_pid s < 2 ^ 64 - 1 -> fork i s = Done (r, s') -> step (s, E) (s', E)
| st_wait i addr p s s' E : runs s i -> i ∉ E -> wait i addr s = Done (p, s') -> step (s, E) (s', E)
| st_release i s s' E : runs s i -> i ∉ E -> exit_release i s = Done (tt, s') -> step (s, E) (s', {[i]} ∪ E)
| st_commit i status s s' E : runs s i -> i ∈ E -> exit_commit i status s = Done (tt, s') -> step (s, E) (s', E ∖ {[i]})
| st_call i x d r s E : tables s !! i = Some x -> state (inner x) = Running -> i ∉ E ->
    is_Some (page_table d) -> is_Some (trapframe d) -> is_Some (cwd d) -> length (o_files d) = NOFILE ->
    step (s, E) (put i (mkProc (inner x) d) (with_res s r), E)
| st_sleep i c s s' E : runs s i -> (forall k, c <> proc_addr k) -> sleep i c s = Done (tt, s') -> step (s, E) (s', E)
| st_tidy i s s' E : runs s i -> tidy_up i s = Done (tt, s') -> step (s, E) (s', E)
| st_yield i s s' E : runs s i -> yield_process i s = Done (tt, s') -> step (s, E) (s', E)
| st_wakeup me c s s' E : wakeup me c s = Done (tt, s') -> step (s, E) (s', E)
| st_find o s s' E : find_runnable s = Done (o, s') -> step (s, E) (s', E)
| st_run i x s s' E : tables s !! i = Some x -> state (inner x) = Allocated -> run i s = Done (tt, s') -> step (s, E) (s', E).

Inductive reach : ptable * gset nat -> Prop :=
| reach_init r s : user_init (boot r) = Done (tt, s) -> reach (s, ∅)
| reach_step a b : reach a -> step a b -> reach b.

Definition with_state (st : ProcState) (c : Z) (x : Proc) : Proc :=
  mkProc (mkInner st c (pid (inner x)) (killed (inner x)) (exit_status (inner x))) (data x).

Lemma inv_state s E i x st c :
  tree_inv s E -> tables s !! i = Some x -> alive x -> st <> Unused -> st <> Zombie ->
  (st = Sleeping -> c <> proc_addr i) -> tree_inv (put i (with_state st c x) s) E.
Proof.
  intros Hi Hx [Hu Hz] H1 H2 H3. destruct (ti_slot _ _ Hi i x Hx) as [_ _ Su Se Sc Sn].
  eapply inv_put; [done | done | by split | by split | done | | done |].
  - split; cbn; [done | done | intros _; by apply Su | | intros _; by apply Sc | done].
    intros HE. destruct (Se HE) as (? & _ & ?). done.
  - intros [Hs Hc]. destruct (H3 Hs Hc).
Qed.

Lemma post_set_state i st s x (Q : unit -> ptable -> Prop) :
  tables s !! i = Some x -> Q tt (put i (with_state st (chan (inner x)) x) s) -> post (set_state i st) s Q.
Proof.
  intros Hx HQ. apply post_bind, post_get_proc. intros x' Hx'. assert (x' = x) as -> by congruence.
  apply post_set_proc, HQ.
Qed.

Lemma find_scan_inv l s E : tree_inv s E -> post (find_scan l) s (fun _ s' => tree_inv s' E).
Proof.
  intros Hi. induction l as [|i l IH]; [by apply post_ret|]. cbn [find_scan].
  apply post_bind, post_get_proc. intros x Hx. destruct (decide _) as [Hr|]; [|exact IH].
  apply post_bind. eapply post_set_state; [done|]. apply post_ret.
  apply inv_state; try done. split; unfold used; congruence.
Qed.

Lemma post_set_inner i y s x (Q : unit -> ptable -> Prop) :
  tables s !! i = Some x -> Q tt (put i (mkProc y (data x)) s) -> post (set_inner i y) s Q.
Proof.
  intros Hx HQ. apply post_bind, post_get_proc. intros x' Hx'. assert (x' = x) as -> by congruence.
  apply post_set_proc, HQ.
Qed.

Lemma sleep_inv s E i c x :
  tree_inv s E -> tables s !! i = Some x -> alive x -> (forall k, c <> proc_addr k) ->
  post (sleep i c) s (fun _ s' => tree_inv s' E).
Proof.
  intros Hi Hx Ha Hc. apply post_bind, post_get_proc. intros x' Hx'. assert (x' = x) as -> by congruence.
  eapply post_set_inner; [done|]. apply (inv_state s E i x Sleeping c); done.
Qed.
Lemma tidy_up_inv s E i x :
  tree_inv s E -> tables s !! i = Some x -> state (inner x) = Running ->
  post (tidy_up i) s (fun _ s' => tree_inv s' E).
Proof.
  intros Hi Hx Hr. apply post_bind, post_get_proc. intros x' Hx'. assert (x' = x) as -> by congruence.
  eapply post_set_inner; [done|]. rewrite Hr. apply (inv_state s E i x Running 0); try done.
  split; unfold used; congruence.
Qed.
Lemma yield_inv s E i x :
  tree_inv s E -> tables s !! i = Some x -> state (inner x) = Running ->
  post (yield_process i) s (fun _ s' => tree_inv s' E).
Proof.
  intros Hi Hx Hr. apply post_bind, post_get_proc. intros x' Hx'. assert (x' = x) as -> by congruence.
  rewrite decide_True by done. eapply post_set_state; [done|]. apply inv_state; try done.
  split; unfold used; congruence.
Qed.

Lemma process_step_inv a b : step a b -> tree_inv a.1 a.2 -> tree_inv b.1 b.2.
Proof.
  assert (Hrun : forall x, state (inner x) = Running -> alive x) by (intros x Hr; split; unfold used; congruence).
  intros Hs. destruct Hs as [i r s s' E [x [Hx Hr]] HE Hn Hf | i addr p s s' E [x [Hx Hr]] HE Hf | i s s' E [x [Hx Hr]] HE Hf
    | i st s s' E [x [Hx Hr]] HE Hf | i x d r s E Hx Hr HE Hp Ht Hcw Hln | i c s s' E [x [Hx Hr]] Hc Hf | i s s' E [x [Hx Hr]] Hf
    | i s s' E [x [Hx Hr]] Hf | me c s s' E Hf | o s s' E Hf | i x s s' E Hx Ha Hf]; cbn; intros Hi; try revert Hf.
  - by eapply fork_inv.
  - eapply wait_inv; eauto.
  - eapply exit_release_inv; eauto.
  - eapply exit_commit_inv; eauto.
  - eapply inv_put; [by apply inv_res | exact Hx | done | done | done | | done |].
    + split; try done; cbn; congruence.
    + intros [Hw _]. cbn in Hw. congruence.
  - eapply sleep_inv; eauto.
  - eapply tidy_up_inv; eauto.
  - eapply yield_inv; eauto.
  - intros [= <-]. by apply inv_wake.
  - by apply find_scan_inv.
  - apply (post_set_state i Running s x (fun _ s' => tree_inv s' E) Hx).
    apply inv_state; try done. split; unfold used; congruence.
Qed.

Lemma alloc_scan_head i l p s x :
  tables s !! i = Some x -> state (inner x) = Unused ->
  post (alloc_scan (i :: l) p) s (fun o _ => o = None \/ o = Some i).
Proof.
  intros Hx Hu. cbn [alloc_scan]. apply post_bind, post_get_proc. intros x' Hx'. assert (x' = x) as -> by congruence.
  rewrite decide_True by done. apply post_bind. intros [u|e] s1 _; [|apply post_ret; by left].
  apply post_bind. intros _ s2 _. apply post_bind. intros y s3 _. cbv zeta. apply post_bind. intros _ s4 _.
  apply post_ret. by right.
Qed.

Lemma inv_boot z r :
  alive z -> pid (inner z) = 0 -> slot_ok ∅ 0 z ->
  tree_inv (mkPt (<[0%nat := z]> (replicate NPROC proc_new)) 1 (replicate NPROC None) r) ∅.
Proof.
  intros Hal Hpid Hok.
  assert (Hb : forall k x, replicate NPROC proc_new !! k = Some x -> x = proc_new).
  { intros k x Hk. by apply lookup_replicate in Hk as [-> _]. }
  assert (Hz : forall k x, <[0%nat := z]> (replicate NPROC proc_new) !! k = Some x -> (k = 0%nat /\ x = z) \/ (k <> 0%nat /\ x = proc_new)).
  { intros k x Hk. slots; [by left|right]. split; [done|]. by eapply Hb. }
  assert (Hpa : forall k q, replicate NPROC (@None nat) !! k = Some (Some q) -> False).
  { intros k q Hk. by apply lookup_replicate in Hk as [? _]. }
  assert (Hnu : ~ used proc_new) by (by intros ?).
  split; cbn [tables parents next_pid].
  - by rewrite length_insert, length_replicate.
  - apply length_replicate.
  - intros k x Hk. destruct (Hz k x Hk) as [[-> ->]|[Hk0 ->]].
    + done.
    + split; try done; [|by intros [? _]]. intros _. split; [done|]. split; (split; [by apply Forall_replicate | done]).
  - exists z. done.
  - reflexivity.
  - intros k x Hk Hk0. destruct (Hz k x Hk) as [[-> ->]|[_ ->]]; [done|]. split; [done|]. intros [q Hq]. by destruct (Hpa k q).
  - intros k q Hk. by destruct (Hpa k q).
  - intros k q a b Hk. by destruct (Hpa k q).
  - intros k x Hk Hu. destruct (Hz k x Hk) as [[-> ->]|[_ ->]]; [|done]. lia.
  - intros k m a b Hk Hm Hua Hub _. destruct (Hz k a Hk) as [[-> ->]|[_ ->]]; [|done].
    destruct (Hz m b Hm) as [[-> ->]|[_ ->]]; done.
Qed.

Lemma user_init_inv r : post user_init (boot r) (fun _ s' => tree_inv s' ∅).
Proof.
  assert (Hb : forall k x, replicate NPROC proc_new !! k = Some x -> x = proc_new).
  { intros k x Hk. by apply lookup_replicate in Hk as [-> _]. }
  apply post_bind. intros o s1 Ho. assert (Hhead : o = None \/ o = Some 0%nat).
  { revert Ho. apply (post_bind _ _ (boot r) (fun o _ => o = None \/ o = Some 0%nat)).
    apply post_bind, post_get, post_bind, post_modify, post_ret.
    eapply (alloc_scan_head 0 (seq 1 63)); [reflexivity | reflexivity]. }
  apply alloc_proc_post in Ho. apply post_bind, post_unwrap. intros i ->.
  destruct Hhead as [[=]|[= ->]]. destruct Ho as (x & y & r1 & Hx & (_ & Ha & Hk & Hpt & Htf) & ->).
  apply Hb in Hx as ->.
  apply post_bind, post_bind, post_get_proc. intros y1 Hy1. cbn in Hy1. injection Hy1 as <-.
  apply post_bind, post_unwrap. intros h Hh. apply post_bind, post_on_res.
  intros [u|e] r2; [|apply post_ret, post_panic].
  apply post_bind, post_unwrap. intros t Ht. apply post_bind, post_on_res. intros on r3.
  apply post_bind, post_unwrap. intros c ->. apply post_bind, post_get_proc. intros y1 Hy1. cbn in Hy1. injection Hy1 as <-.
  cbv zeta. apply post_quiet; [apply quiet_drop_opt|]. intros _ r4.
  apply post_bind, post_bind, post_get_proc. intros y1 Hy1. cbn in Hy1. injection Hy1 as <-.
  apply post_set_proc, post_ret. eapply post_set_state; [reflexivity|].
  unfold put, with_res, with_state, boot, bump. cbn [tables next_pid parents res inner data pid killed exit_status chan].
  rewrite !list_insert_insert_eq, Ha. cbn [pid killed exit_status chan]. change (next_pid (boot r) ⊞ 1) with (0 ⊞ 1).
  change (0 ⊞ 1) with 1. apply inv_boot; [done | reflexivity|].
  split; try done. cbn. by rewrite (proj1 Hk).
Qed.

Lemma reach_inv s E : reach (s, E) -> tree_inv s E.
Proof.
  intros Hr. change (tree_inv (s, E).1 (s, E).2). induction Hr as [r s0 Hs0|a b _ IH Hst].
  - exact (user_init_inv r tt s0 Hs0).
  - exact (process_step_inv a b Hst IH).
Qed.

(** C23: the process tree stays sound in every interleaving of [fork], [wait], the two
    halves of [exit], sleeps, wake-ups, the scheduler and any other system calls, after
    [user_init].  Every process but the init process has a parent that is alive (so
    the [unwrap] in [exit] cannot fail), the init process lives, no process is asleep in [wait] while
    a child of it is a zombie, process ids are unique, and zombies have closed their files.
    A free slot has the inner state of a new process, no files, directory, mapped
    regions, environment, size or page table (a trap frame can be left by an allocation that failed);
    and a slot that [free] clears has no trap frame either. *)
Theorem process_tree s E :
  reach (s, E) ->
  tree_inv s E /\
  forall j x s', tables s !! j = Some x -> free j s = Done (tt, s') -> exists y,
    tables s' = <[j := y]> (tables s) /\ parents s' = parents s /\ freed x y.
Proof.
  intros Hr. split; [by apply reach_inv|]. intros j x s' Hx Hf.
  destruct (free_post j s x Hx tt s' Hf) as (y & r & Hy & ->). by exists y.
Qed.

(** ** exit and wait in full *)

Lemma get_proc_at i s x : tables s !! i = Some x -> get_proc i s = Done (x, s).
Proof. intros Hx. unfold get_proc, bind, get, get_at. by rewrite Hx. Qed.

Lemma get_parent_at j s o {A} (k : option nat -> M ptable A) :
  parents s !! j = Some o -> (let! s := get in let! o := get_at (parents s) j in k o) s = k o s.
Proof. intros Ho. unfold bind, get, get_at. by rewrite Ho. Qed.

Lemma reparent_returns i l s :
  i <> 0%nat -> (forall k, k ∈ l -> (k < length (parents s))%nat) ->
  exists s', reparent i l s = Done (tt, s') /\ tables s' !! i = tables s !! i /\
    forall k, parents s' !! k = if decide (k ∈ l /\ parents s !! k = Some (Some i)) then Some (Some 0%nat) else parents s !! k.
Proof.
  intros Hi0. revert s. induction l as [|j l IH]; intros s Hl.
  { exists s. split; [done|]. split; [done|]. intros k. rewrite decide_False; set_solver. }
  destruct (lookup_lt_is_Some_2 (parents s) j) as [o Ho]; [set_solver|].
  cbn [reparent]. rewrite (get_parent_at j s o) by done. destruct (decide (o = Some i)) as [->|Hne].
  - destruct (IH (with_parent j (Some 0%nat) (woken (Some i) (proc_addr 0) s))) as (s' & Hs' & Ht & Hp).
    { cbn. rewrite length_insert. set_solver. }
    exists s'. split; [exact Hs'|]. split; [rewrite Ht; apply woken_me|]. intros k. rewrite Hp. cbn.
    pose proof (lookup_lt_Some _ _ _ Ho) as Hj. destruct (decide (k = j)) as [->|Hkj].
    + rewrite list_lookup_insert_eq by done. rewrite (decide_True (P := j ∈ j :: l /\ _)) by set_solver. by destruct (decide _).
    + rewrite list_lookup_insert_ne by done. apply decide_ext. set_solver.
  - destruct (IH s) as (s' & Hs' & Ht & Hp); [set_solver|]. exists s'. split; [exact Hs'|]. split; [done|].
    intros k. rewrite Hp. apply decide_ext. split; [set_solver|]. intros [[->|?]%elem_of_cons ?]; [congruence | done].
Qed.

(** C24: A process that has let go of its files and reaches the second half of [exit] always
    gets through it, whatever the other processes have done before: it becomes a zombie with
    the given status and the same process id, exactly its children pass to the init process, and its parent is not asleep in [wait]
    afterwards. *)
Theorem exit_hands_over s E i x status :
  reach (s, E) -> tables s !! i = Some x -> state (inner x) = Running -> i ∈ E ->
  exists s' q, exit_commit i status s = Done (tt, s') /\
    tables s' !! i = Some (mkProc (mkInner Zombie (chan (inner x)) (pid (inner x)) (killed (inner x)) status) (data x)) /\
    (forall k, parents s' !! k = if decide (parents s !! k = Some (Some i)) then Some (Some 0%nat) else parents s !! k) /\
    parents s' !! i = Some (Some q) /\ forall y, tables s' !! q = Some y -> ~ waiting q y.
Proof.
  intros Hr Hx Hrun HE. pose proof (reach_inv s E Hr) as Hi.
  destruct (so_exiting _ _ _ (ti_slot _ _ Hi i x Hx) HE) as (Hi0 & Ha & _).
  destruct (reparent_returns i (seq 1 (NPROC - 1)) s Hi0) as (s1 & Hs1 & Ht & Hp).
  { intros k Hk%elem_of_seq. rewrite (ti_plen _ _ Hi). unfold NPROC in *. lia. }
  assert (Hp' : forall k, parents s1 !! k = if decide (parents s !! k = Some (Some i)) then Some (Some 0%nat) else parents s !! k).
  { intros k. rewrite Hp. apply decide_ext. split; [tauto|]. intros Hk. split; [|done]. apply elem_of_seq.
    pose proof (lookup_lt_Some _ _ _ Hk) as Hl. rewrite (ti_plen _ _ Hi) in Hl.
    assert (k <> 0%nat) by (intros ->; pose proof (ti_root _ _ Hi); congruence). unfold NPROC in *. lia. }
  destruct (proj1 (ti_used _ _ Hi i x Hx Hi0) (proj1 Ha)) as [q0 Hq0].
  destruct (ti_parent _ _ Hi i q0 Hq0) as [Hqi _].
  assert (Hq : parents s1 !! i = Some (Some q0)) by (rewrite Hp', decide_False; congruence).
  assert (Hx1 : tables (woken (Some i) (proc_addr q0) s1) !! i = Some x) by (by rewrite woken_me, Ht).
  set (z := mkProc (mkInner Zombie (chan (inner x)) (pid (inner x)) (killed (inner x)) status) (data x)).
  exists (put i z (woken (Some i) (proc_addr q0) s1)), q0. split; [|split; [|split; [exact Hp'|split; [exact Hq|]]]].
  - unfold exit_commit. rewrite (bind_Done _ _ _ _ _ Hs1), (get_parent_at i s1 (Some q0)) by done.
    change (bind (get_proc i) (fun p => set_inner i (mkInner Zombie (chan (inner p)) (pid (inner p)) (killed (inner p)) status))
      (woken (Some i) (proc_addr q0) s1) = Done (tt, put i z (woken (Some i) (proc_addr q0) s1))).
    rewrite (bind_Done _ _ _ _ _ (get_proc_at _ _ _ Hx1)). unfold set_inner.
    by rewrite (bind_Done _ _ _ _ _ (get_proc_at _ _ _ Hx1)).
  - by eapply put_lookup.
  - intros y Hy. cbn in Hy. rewrite list_lookup_insert_ne in Hy by done. by eapply woken_awake; [|exact Hy]; congruence.
Qed.

Definition child_of (i : nat) (s : ptable) (k : nat) : bool := bool_decide (parents s !! k = Some (Some i)).

Lemma wait_scan_skip i addr l l' kids s :
  length (tables s) = NPROC -> length (parents s) = NPROC -> (forall k, k ∈ l -> (k < NPROC)%nat) ->
  (forall k c, k ∈ l -> parents s !! k = Some (Some i) -> tables s !! k = Some c -> state (inner c) <> Zombie) ->
  wait_scan i addr (l ++ l') kids s = wait_scan i addr l' (kids || existsb (child_of i s) l) s.
Proof.
  intros Hlt Hlp. revert kids. induction l as [|j l IH]; intros kids Hl Hno; [by rewrite orb_false_r|].
  destruct (lookup_lt_is_Some_2 (parents s) j) as [o Ho]; [rewrite Hlp; set_solver|].
  destruct (lookup_lt_is_Some_2 (tables s) j) as [c Hc]; [rewrite Hlt; set_solver|].
  cbn [app wait_scan existsb]. rewrite (get_parent_at j s o) by done. unfold child_of at 1. rewrite Ho.
  destruct (decide (o = Some i)) as [->|Hne].
  - rewrite (bind_Done _ _ _ _ _ (get_proc_at _ _ _ Hc)), decide_False by (eapply Hno; set_solver).
    rewrite bool_decide_true by done. rewrite IH by set_solver. by rewrite !orb_true_r.
  - rewrite bool_decide_false by congruence. apply IH; set_solver.
Qed.

Lemma wait_zombie s i x addr j c :
  length (tables s) = NPROC -> length (parents s) = NPROC -> tables s !! i = Some x ->
  parents s !! j = Some (Some i) -> tables s !! j = Some c -> state (inner c) = Zombie ->
  (forall k c, (k < j)%nat -> parents s !! k = Some (Some i) -> tables s !! k = Some c -> state (inner c) <> Zombie) ->
  let reap := free j ;; set_parent j None ;; ret (Finished (Ok (pid (inner c)))) in
  (addr = 0 -> wait i addr s = reap s) /\
  forall h o r, addr <> 0 -> page_table (data x) = Some h ->
    copy_out h addr (u32_bytes (wrap 32 (exit_status (inner c)))) (res s) = Done (o, r) ->
    wait i addr s = match o with
                    | Ok _ => reap (with_res s r)
                    | Err msg => Done (Finished (Err msg), with_res s r)
                    end.
Proof.
  intros Hlt Hlp Hx Hj Hc Hz Hmin reap.
  assert (Hjl : (j < NPROC)%nat) by (rewrite <- Hlp; exact (lookup_lt_Some _ _ _ Hj)).
  assert (Hseq : seq 0 NPROC = seq 0 j ++ j :: seq (S j) (NPROC - S j)).
  { replace NPROC with (j + S (NPROC - S j))%nat at 1 by lia. by rewrite seq_app. }
  assert (Hw : exists b, wait_scan i addr (seq 0 NPROC) false s = wait_scan i addr (j :: seq (S j) (NPROC - S j)) b s).
  { eexists. rewrite Hseq. apply wait_scan_skip; try done; [intros k Hk%elem_of_seq; lia|].
    intros k c' Hk%elem_of_seq. apply Hmin. lia. }
  destruct Hw as [b Hw].
  split; [intros Ha | intros h o r Ha Hh Hco]; unfold wait, bind at 1; rewrite Hw; cbn [wait_scan];
    rewrite (get_parent_at j s (Some i)), decide_True by done;
    rewrite (bind_Done _ _ _ _ _ (get_proc_at _ _ _ Hc)), decide_True by done.
  - subst addr. unfold reap, bind, ret. cbn [Z.eqb]. destruct (free j s) as [[[] s1]| | | |]; reflexivity.
  - rewrite (proj2 (Z.eqb_neq addr 0) Ha).
    assert (Hr : (let! p := get_proc i in let! h := unwrap (page_table (data p)) "unwrap" in
      on_res (copy_out h addr (u32_bytes (wrap 32 (exit_status (inner c)))))) s = Done (o, with_res s r)).
    { rewrite (bind_Done _ _ _ _ _ (get_proc_at _ _ _ Hx)), Hh. unfold unwrap, bind, ret, on_res. by rewrite Hco. }
    rewrite (bind_Done _ _ _ _ _ Hr). destruct o as [u|msg]; [|done].
    unfold reap, bind, ret. destruct (free j (with_res s r)) as [[[] s1]| | | |]; reflexivity.
Qed.

(** C25: [wait] on every branch.  Without a child it fails at once and changes nothing.  With
    children of which none has exited, it goes to sleep on the address of the process (or fails,
    when the process is killed).  Otherwise it takes the zombie child with the least index: it copies the child's status
    to the address, if there is one; when that fails it returns the error and leaves the zombie for a later
    call, else it frees the slot, removes the child from the tree and returns its process id. *)
Theorem wait_branches s E i x addr :
  reach (s, E) -> tables s !! i = Some x ->
  ((forall k, parents s !! k <> Some (Some i)) ->
     wait i addr s = Done (Finished (Err "children not found"), s)) /\
  (forall k, parents s !! k = Some (Some i) ->
     (forall k c, parents s !! k = Some (Some i) -> tables s !! k = Some c -> state (inner c) <> Zombie) ->
     wait i addr s = if killed (inner x) then Done (Finished (Err "children not found"), s)
                     else Done (Asleep, put i (with_state Sleeping (proc_addr i) x) s)) /\
  (forall j c, parents s !! j = Some (Some i) -> tables s !! j = Some c -> state (inner c) = Zombie ->
     (forall k c, (k < j)%nat -> parents s !! k = Some (Some i) -> tables s !! k = Some c -> state (inner c) <> Zombie) ->
     let reap := free j ;; set_parent j None ;; ret (Finished (Ok (pid (inner c)))) in
     (addr = 0 -> wait i addr s = reap s) /\
     forall h o r, addr <> 0 -> page_table (data x) = Some h ->
       copy_out h addr (u32_bytes (wrap 32 (exit_status (inner c)))) (res s) = Done (o, r) ->
       wait i addr s = match o with
                       | Ok _ => reap (with_res s r)
                       | Err msg => Done (Finished (Err msg), with_res s r)
                       end).
Proof.
  intros Hr Hx. pose proof (reach_inv s E Hr) as Hi. pose proof (ti_len _ _ Hi) as Hlt. pose proof (ti_plen _ _ Hi) as Hlp.
  assert (Hall : (forall k c, parents s !! k = Some (Some i) -> tables s !! k = Some c -> state (inner c) <> Zombie) ->
    wait_scan i addr (seq 0 NPROC) false s = Done (inr (existsb (child_of i s) (seq 0 NPROC)), s)).
  { intros Hno. rewrite <- (app_nil_r (seq 0 NPROC)) at 1. rewrite wait_scan_skip; [done | done | done | |eauto].
    intros k Hk%elem_of_seq. lia. }
  split; [|split].
  - intros Hno. unfold wait. rewrite (bind_Done _ _ _ _ _ (Hall ltac:(intros k c Hk; by destruct (Hno k)))).
    rewrite (bind_Done _ _ _ _ _ (get_proc_at _ _ _ Hx)).
    assert (existsb (child_of i s) (seq 0 NPROC) = false) as ->; [|done].
    apply not_true_iff_false. intros (k & _ & Hk)%existsb_exists. apply bool_decide_eq_true in Hk. by apply (Hno k).
  - intros k Hk Hno. unfold wait. rewrite (bind_Done _ _ _ _ _ (Hall Hno)), (bind_Done _ _ _ _ _ (get_proc_at _ _ _ Hx)).
    assert (existsb (child_of i s) (seq 0 NPROC) = true) as ->.
    { apply existsb_exists. exists k. split; [|by apply bool_decide_eq_true]. apply in_seq.
      pose proof (lookup_lt_Some _ _ _ Hk). lia. }
    cbn [negb orb]. destruct (killed (inner x)) eqn:Hkd; [done|]. unfold sleep, set_inner, bind.
    rewrite !(get_proc_at _ _ _ Hx). cbn. unfold with_state. by rewrite Hkd.
  - intros j c Hj Hc Hz Hmin. by apply wait_zombie.
Qed.

(** ** fork in full *)

Section forks.
Context `{!CloneLaws R H F I}.

(** The call returns, and its result satisfies [Q]. *)
Definition gives {A} (m : M ptable A) (s : ptable) (Q : A -> Prop) : Prop := exists a s', m s = Done (a, s') /\ Q a.

Lemma gives_bind {A B} (m : M ptable A) (k : A -> M ptable B) s Q :
  gives m s (fun _ => True) -> post m s (fun a s' => gives (k a) s' Q) -> gives (bind m k) s Q.
Proof.
  intros (a & s1 & E & _) Hk. destruct (Hk a s1 E) as (b & s2 & E2 & HQ). exists b, s2. by rewrite (bind_Done _ _ _ _ _ E).
Qed.
Lemma gives_ret {A} (a : A) s (Q : A -> Prop) : Q a -> gives (ret a) s Q.
Proof. by exists a, s. Qed.
Lemma gives_on_res_bind {A B} (m : M R A) (k : A -> M ptable B) s Q :
  returns m -> (forall a r, gives (k a) (with_res s r) Q) -> gives (bind (on_res m) k) s Q.
Proof.
  intros Hm Hk. apply gives_bind; [|apply post_on_res, Hk].
  destruct (Hm (res s)) as (a & r & E). eexists a, _. unfold on_res. by rewrite E.
Qed.
Lemma gives_get_proc {B} i s x (k : Proc -> M ptable B) Q :
  tables s !! i = Some x -> gives (k x) s Q -> gives (bind (get_proc i) k) s Q.
Proof. intros Hx (b & s' & E & HQ). exists b, s'. by rewrite (bind_Done _ _ _ _ _ (get_proc_at _ _ _ Hx)). Qed.
Lemma gives_deref {A B} (o : option A) a s (k : A -> M ptable B) Q :
  o = Some a -> gives (k a) s Q -> gives (bind (deref o) k) s Q.
Proof. intros -> Hk. exact Hk. Qed.
Lemma gives_unwrap {A B} (o : option A) a msg s (k : A -> M ptable B) Q :
  o = Some a -> gives (k a) s Q -> gives (bind (unwrap o msg) k) s Q.
Proof. intros -> Hk. exact Hk. Qed.
Lemma gives_set_data {B} i s x d (k : unit -> M ptable B) Q :
  tables s !! i = Some x -> gives (k tt) (put i (mkProc (inner x) d) s) Q -> gives (bind (set_data i d) k) s Q.
Proof.
  intros Hx (b & s' & E & HQ). exists b, s'. rewrite (bind_Done _ _ _ tt (put i (mkProc (inner x) d) s)); [done|].
  unfold set_data. by rewrite (bind_Done _ _ _ _ _ (get_proc_at _ _ _ Hx)).
Qed.

Lemma copy_files_gives fs cs s : Forall (eq None) cs -> gives (copy_files fs cs) s (fun _ => True).
Proof.
  intros Hcs. revert cs Hcs s. induction fs as [|f fs IH]; intros [|c cs] Hcs s; try by apply gives_ret.
  apply Forall_cons in Hcs as [<- Hcs]. cbn [copy_files]. apply gives_bind.
  { destruct f as [f|]; [|by apply gives_ret]. apply gives_on_res_bind; [apply clone_returns|]. intros g r. by apply gives_ret. }
  intros c s1 _. apply gives_bind; [by apply IH|]. intros l s2 _. by apply gives_ret.
Qed.

Lemma fork_into_gives s E i j p x y r0 :
  tree_inv s E -> tables s !! i = Some p -> state (inner p) = Running -> i ∉ E ->
  tables s !! j = Some x -> taken (next_pid s) x y ->
  let s1 := put j y (with_res (bump s) r0) in
  exists ph ch, page_table (data p) = Some ph /\ page_table (data y) = Some ch /\
    (forall r, uvm_copy ph ch (sz (data p)) r0 = Done (Ok tt, r) -> gives (fork_into i j) s1 (fun o => exists n, o = Ok n)) /\
    (forall e r, uvm_copy ph ch (sz (data p)) r0 = Done (Err e, r) ->
       fork_into i j s1 = (free j ;; ret (Err "fork: cannot uvm_copy")) (with_res s1 r)).
Proof.
  intros Hi Hp Hr HE Hx (Hu & _ & (Hkf & Hkc & _) & [ch Hch] & [tc Htc]) s1.
  assert (Ha : alive p) by (split; unfold used; congruence).
  destruct (ti_slot _ _ Hi i p Hp) as [_ _ Su _ Sc _].
  destruct (Su (proj1 Ha)) as [[ph Hph] [tp Htp]], (Sc Ha HE) as [d Hd].
  assert (Hij : j <> i) by (intros ->; congruence).
  destruct (so_unused _ _ _ (ti_slot _ _ Hi j x Hx) Hu) as (_ & [Hcl1 Hcl2] & _).
  assert (Hp1 : tables s1 !! i = Some p) by (cbn; by rewrite list_lookup_insert_ne).
  assert (Hy1 : forall r, tables (with_res s1 r) !! j = Some y) by (intros r; by eapply put_lookup).
  assert (Hgo : forall o r, uvm_copy ph ch (sz (data p)) r0 = Done (o, r) ->
    on_res (uvm_copy ph ch (sz (data p))) s1 = Done (o, with_res s1 r)) by (intros o r Ho; unfold on_res; cbn; by rewrite Ho).
  exists ph, ch. split; [done|]. split; [done|].
  split; [intros r Ho | intros e r Ho]; unfold fork_into, gives;
    rewrite (bind_Done _ _ _ _ _ (get_proc_at _ _ _ Hp1)), (bind_Done _ _ _ _ _ (get_proc_at _ _ _ (Hy1 r0))), Hch, Hph;
    cbn [unwrap]; rewrite !(bind_Done (ret _) _ _ _ _ eq_refl), (bind_Done _ _ _ _ _ (Hgo _ _ Ho)); [|done].
  apply (gives_deref _ _ _ _ _ Htp), (gives_deref _ _ _ _ _ Htc), gives_bind; [by apply copy_files_gives; rewrite Hkf|].
  eapply post_mono; [apply quiet_copy_files|]. intros files s2 [r2 ->].
  apply (gives_unwrap _ _ _ _ _ _ Hd), gives_on_res_bind; [apply idup_returns|]. intros d' r3.
  rewrite Hkc, Hcl2. apply gives_bind; [by apply gives_ret|]. apply post_ret.
  eapply gives_set_data; [exact (Hy1 r3)|]. set (z := mkProc (inner y) _).
  assert (Hz : forall s', tables s' = <[j := z]> (<[j := y]> (tables s)) -> tables s' !! j = Some z).
  { intros s' ->. apply list_lookup_insert_eq. rewrite length_insert. exact (lookup_lt_Some _ _ _ Hx). }
  apply gives_bind; [by eexists _, _|]. apply post_modify.
  apply gives_bind; [unfold set_state; eapply gives_get_proc; [by apply Hz|]; by eexists _, _|].
  eapply post_set_state; [by apply Hz|].
  eapply gives_get_proc; [eapply put_lookup; by apply Hz|]. apply gives_ret. eauto.
Qed.

(** C26: [fork] on every branch, by a process that is not exiting, from every reachable state.  When
    no slot or no memory for its page table is found, it fails and no process in use changes.  When the copy of the memory succeeds, so
    does [fork]: it returns the next process id, and the child is the new slot, runnable, with
    the caller as parent and the caller's size, registers (but [a0] is 0), open files and
    environment, and with none of its mapped regions; every other slot is as before.  When the copy fails, the slot
    is freed with its size still 0, so that none of the pages copied so far is unmapped. *)
Theorem fork_clones s E i p :
  reach (s, E) -> tables s !! i = Some p -> state (inner p) = Running -> i ∉ E ->
  (forall s1, alloc_proc s = Done (None, s1) ->
     fork i s = Done (Err "cannot allocate new process", s1) /\ parents s1 = parents s /\
     forall k x, tables s !! k = Some x -> used x -> tables s1 !! k = Some x) /\
  (forall j s1, alloc_proc s = Done (Some j, s1) -> exists x c ph ch,
     tables s !! j = Some x /\ state (inner x) = Unused /\ tables s1 = <[j := c]> (tables s) /\
     page_table (data p) = Some ph /\ page_table (data c) = Some ch /\ sz (data c) = 0 /\
     (forall r, uvm_copy ph ch (sz (data p)) (res s1) = Done (Ok tt, r) -> exists s' y tp tc,
        fork i s = Done (Ok (next_pid s), s') /\
        tables s' = <[j := y]> (tables s) /\ parents s' = <[j := Some i]> (parents s) /\
        inner y = mkInner Runnable 0 (next_pid s) false 0 /\ page_table (data y) = Some ch /\ sz (data y) = sz (data p) /\
        trapframe (data p) = Some tp /\ trapframe (data y) = Some tc /\ tf_words tc = <[A0 := 0]> (tf_words tp) /\
        o_files (data y) = o_files (data p) /\ is_Some (cwd (data y)) /\
        default ∅ (env_vars (data y)) = default ∅ (env_vars (data p)) /\ Forall (eq None) (vm_area (data y))) /\
     (forall e r, uvm_copy ph ch (sz (data p)) (res s1) = Done (Err e, r) ->
        fork i s = (free j ;; ret (Err "fork: cannot uvm_copy")) (with_res s1 r))).
Proof.
  intros Hr Hp Hrun HE. pose proof (reach_inv s E Hr) as Hi. split.
  - intros s1 Ha. split; [unfold fork; by rewrite (bind_Done _ _ _ _ _ Ha)|].
    destruct (alloc_proc_post s None s1 Ha) as [->|(j & x & y & r & Hx & [Hu _] & ->)]; (split; [done|]); intros k z Hz Huz; [done|].
    cbn. rewrite list_lookup_insert_ne; [done|]. intros ->. congruence.
  - intros j s1 Ha. destruct (alloc_proc_post s (Some j) s1 Ha) as (x & c & r0 & Hx & Ht & ->).
    pose proof Ht as (Hu & _ & (_ & _ & _ & _ & _ & Hsz) & _).
    destruct (so_unused _ _ _ (ti_slot _ _ Hi j x Hx) Hu) as (Hnew & [Hc1 _] & Hv & _ & He & Hs0 & _).
    destruct (fork_into_gives s E i j p x c r0 Hi Hp Hrun HE Hx Ht) as (ph & ch & Hph & Hch & Hok & Herr).
    exists x, c, ph, ch. do 5 (split; [done|]). split; [congruence|]. split.
    2:{ intros e r Ho. unfold fork. rewrite (bind_Done _ _ _ _ _ Ha). exact (Herr e r Ho). }
    intros r Ho. destruct (Hok r Ho) as (o & s' & Hf & n & ->).
    assert (Hnf : length (o_files (data p)) = length (o_files (data x)))
      by (by rewrite (so_len _ _ _ (ti_slot _ _ Hi i p Hp)), (so_len _ _ _ (ti_slot _ _ Hi j x Hx))).
    destruct (fork_into_post i j s p x c r0 Hp Hrun Hnf Hx Ht (Ok n) s' Hf) as (-> & y & r' & [C1 C2 C3 (tp & tc & C4 & C5 & C6) C7 C8 C9 C10 C11] & Hy & ->).
    exists (spawned i j y s r'), y, tp, tc. split; [unfold fork; by rewrite (bind_Done _ _ _ _ _ Ha)|].
    rewrite C2, Hnew, C9, C10, C11, He, (right_id_L ∅ (∪)), copied_fresh by done. do 11 (split; [done || congruence|]). congruence.
Qed.

End forks.

End ops.

(** ** A run for examples: the init process forks a child, which exits *)

(** Pages are counted, page tables, files and inodes are numbers. *)
#[export] Instance sample_res : ProcRes Z Z Z Z := {|
  alloc_into_raw := fun n => Done (Ok (4096 * n), n + 1);
  free_from_raw _ := fun n => Done (tt, n - 1);
  alloc_user_page_table a := fun n => Done (Some a, n + 1);
  uvm_init _ := ret (Ok tt);
  uvm_copy _ _ _ := ret (Ok tt);
  unmap_user_page_table _ _ := ret tt;
  walk_addr _ _ := ret false;
  unmap_page _ _ := ret (Ok tt);
  drop_page_table _ := fun n => Done (tt, n - 1);
  copy_out _ _ _ := ret (Ok tt);
  file_clone _ := ret tt;
  file_drop _ := ret tt;
  idup := ret;
  inode_drop _ := ret tt;
  namei_root := ret (Some 1);
  begin_op := ret tt;
  end_op := ret tt
|}.

#[export] Instance sample_clone_laws : CloneLaws Z Z Z Z.
Proof. split; intros; intros m; by eexists _, _. Qed.

Definition sample_addr (i : nat) : Z := 65536 + 1024 * Z.of_nat i.
Definition after {S A} (m : M S A) (s : S) : S := match m s with Done (_, s') => s' | _ => s end.

Definition started : ptable := after user_init (boot (H := Z) (F := Z) (I := Z) 1).
Definition init_runs : ptable := after (run 0) (after find_runnable started).
Definition forked : ptable := after (fork 0) init_runs.
Definition child_runs : ptable := after (run 1) (after find_runnable forked).
Definition child_leaves : ptable := after (exit_release 1) child_runs.
Definition child_gone : ptable := after (exit_commit sample_addr 1 7) child_leaves.

(** The slot [i] and its state, for runs that are evaluated. *)
Lemma slot_at {X} (f : @Proc Z Z Z -> X) (s : @ptable Z Z Z Z) i v :
  f <$> tables s !! i = Some v -> exists x, tables s !! i = Some x /\ f x = v.
Proof. intros Hs. destruct (tables s !! i) as [x|]; [|discriminate Hs]. exists x. split; [done|]. by injection Hs. Qed.
Lemma runs_at (s : @ptable Z Z Z Z) i : (state ∘ inner <$> tables s !! i) = Some Running -> runs s i.
Proof. intros Hs. destruct (tables s !! i) as [x|] eqn:E; [|done]. exists x. split; [done|]. by injection Hs. Qed.

Lemma run_at i (s s' : @ptable Z Z Z Z) E :
  (state ∘ inner <$> tables s !! i) = Some Allocated -> run i s = Done (tt, s') -> step sample_addr (s, E) (s', E).
Proof.
  intros Hs Hr. destruct (tables s !! i) as [x|] eqn:Ex; [|done]. eapply st_run; [exact Ex | by injection Hs | exact Hr].
Qed.

Lemma sample_init_runs : reach sample_addr (init_runs, ∅).
Proof.
  eapply reach_step; [eapply reach_step; [apply (reach_init _ 1 started); vm_compute; reflexivity|]|].
  - apply (st_find _ (Some 0%nat) started (after find_runnable started)). vm_compute. reflexivity.
  - apply (run_at 0); vm_compute; reflexivity.
Qed.
Lemma sample_child_leaves : reach sample_addr (child_leaves, {[1%nat]} ∪ ∅).
Proof.
  eapply reach_step; [eapply reach_step; [eapply reach_step; [eapply reach_step; [apply sample_init_runs|]|]|]|].
  - apply (st_fork _ 0 (Ok 1) init_runs forked); [apply runs_at; vm_compute; reflexivity | set_solver | vm_compute; reflexivity | vm_compute; reflexivity].
  - apply (st_find _ (Some 1%nat) forked (after find_runnable forked)). vm_compute. reflexivity.
  - apply (run_at 1); vm_compute; reflexivity.
  - apply (st_release _ 1 child_runs child_leaves); [apply runs_at; vm_compute; reflexivity | set_solver | vm_compute; reflexivity].
Qed.
Lemma sample_child_gone : reach sample_addr (child_gone, ({[1%nat]} ∪ ∅) ∖ {[1%nat]}).
Proof.
  eapply reach_step; [apply sample_child_leaves|].
  apply (st_commit _ 1 7 child_leaves child_gone); [apply runs_at; vm_compute; reflexivity | set_solver | vm_compute; reflexivity].
Qed.

Lemma process_tree_witness : tree_inv sample_addr child_gone (({[1%nat]} ∪ ∅) ∖ {[1%nat]}).
Proof. apply (process_tree sample_addr), sample_child_gone. Defined.

Lemma exit_hands_over_witness : exists s', exit_commit sample_addr 1 7 child_leaves = Done (tt, s').
Proof.
  destruct (runs_at child_leaves 1) as (x & Hx & Hr); [vm_compute; reflexivity|].
  destruct (exit_hands_over sample_addr child_leaves ({[1%nat]} ∪ ∅) 1 x 7 sample_child_leaves Hx Hr) as (s' & q & Hs & _);
    [set_solver|]. exists s'. exact Hs.
Defined.

Lemma wait_branches_witness : exists s', wait sample_addr 0 0 child_gone = Done (Finished (Ok 1), s').
Proof.
  destruct (slot_at (fun _ => tt) child_gone 0 tt) as (x & Hx & _); [vm_compute; reflexivity|].
  destruct (slot_at (fun c => (state (inner c), pid (inner c))) child_gone 1 (Zombie, 1)) as (c & Hc & Hsp); [vm_compute; reflexivity|].
  injection Hsp as Hz Hpid.
  assert (Hroot : parents child_gone !! 0%nat = Some None) by (vm_compute; reflexivity).
  destruct (wait_branches sample_addr child_gone _ 0 x 0 sample_child_gone Hx) as (_ & _ & Hreap).
  destruct (Hreap 1%nat c) as [Hw _]; [vm_compute; reflexivity | exact Hc | exact Hz | |].
  { intros k y Hk Hp. replace k with 0%nat in Hp by lia. rewrite Hroot in Hp. discriminate Hp. }
  rewrite (Hw eq_refl), Hpid. eexists. vm_compute. reflexivity.
Defined.

Lemma fork_clones_witness : exists s', fork 0 init_runs = Done (Ok 1, s').
Proof.
  destruct (runs_at init_runs 0) as (x & Hx & Hr); [vm_compute; reflexivity|].
  destruct (fork_clones sample_addr init_runs ∅ 0 x sample_init_runs Hx Hr) as [_ Hf]; [set_solver|].
  destruct (Hf 1%nat (after alloc_proc init_runs)) as (y & c & ph & ch & _ & _ & _ & _ & _ & _ & Hok & _); [vm_compute; reflexivity|].
  destruct (Hok _ eq_refl) as (s' & _ & _ & _ & Hs & _). exists s'. rewrite Hs. vm_compute. reflexivity.
Defined.

End Process.
